(* ===== verification/_CoqProject ===== *)
-Q . S2P
Prelude.v
Libc.v
Abi.v
Sha256.v
Ring.v
SlotTable.v
Kernel.v
Registry.v
SyscallTable.v
Probes.v
Snapshot.v
Ioctl.v
Module.v
Concurrency.v
Smp.v
Interleave.v
Device.v
Log.v
Tracker.v
Environ.v
Json.v
Report.v
Modules.v
Monitor.v
EndToEnd.v
Baseline.v
Layers.v
Elf.v
Render.v
Vm.v
Daemon.v
Loops.v
Cli.v
