(* ===== verification/Prelude.v ===== *)
(** * Verification of the kernel anticheat

    The program is a Linux kernel module (src/anticheat_module.c) and a
    user-space daemon (src/anticheat_daemon.c) that share an ioctl ABI
    (src/anticheat.h) and a SHA-256 (src/sha256.c).  The module keeps a registry
    of protected processes, guards them with probes on ptrace, clone, exit and
    exec, scans mappings, lists modules, checks the system-call table, and
    queues events in a ring.  The daemon drives it through [/dev/anticheat]:
    it drains the events, runs eight periodic checks, keeps baselines per
    process, logs with severities, and sends the severe messages to a report
    server.

    ** How the code is modelled

    Every C function is a Gallina function that carries its name.  A [w]-bit integer is a
    [Z] with its wrap-around written out ([u32], [s32], [u64], ...); a [char]
    buffer used as a string is the list of bytes before its NUL; a fixed array
    with in-use marks is a list of slots.  State is passed explicitly.  What the
    kernel, libc, the network or the clock answer is an argument (the record
    [kernel] of Kernel.v, [procfs] of Environ.v, [world] of Report.v, clock
    readings in Monitor.v, the preads of Baseline.v and Elf.v, [answers] of
    Daemon.v): the theorems hold for every answer, under the
    contract that the statement names.  Calls whose balance matters (task,
    pid and mm references; the module's five kinds of block: file states,
    snapshot arrays, path buffers, event lists, kill requests; the workqueue,
    the device and the probes; sockets) are recorded in a trace.  A
    critical section under one lock is one step; where several callers meet,
    a handler is a program of such sections (Smp.v).

    ** The files

    - Prelude.v: integers, bytes, C strings, printf conversions, decimal
      numerals, tactics, list lemmas, and loops as bodies ([run_loop]).  Libc.v: character classes, memmem,
      fgets, sscanf of a word, strtol, little-endian numbers.
    - Abi.v: anticheat.h; structure layouts and command encodings.
    - Sha256.v: sha256.c, against FIPS 180-4.
    - Ring.v: the event ring ([ac_emit], [ac_drain_events]), against a queue.
    - SlotTable.v: search, insertion and release in slot arrays as finite maps,
      shared by Registry.v and Tracker.v.
    - Kernel.v: the kernel's answers, the trace of calls, [ac_find_task],
      [ac_find_task_in_ns_of].
    - Registry.v: the protected-process registry, against a finite map.
    - SyscallTable.v: locating the table, its text bounds, and the check.
    - Probes.v: the probe handlers, the kill workqueue, probe registration.
    - Snapshot.v: [ac_fd_state] and the snapshots of mappings and modules.
    - Ioctl.v: the fifteen commands of [ac_ioctl], open and release.
    - Module.v: [ac_init], [ac_exit] and the histories of a loaded module.
    - Concurrency.v: the interleavings of [ac_get_fd_state] and of UNLOCK.
    - Smp.v: every probe handler, the kill worker and every command of
      [ac_ioctl] as a program of atomic sections (a lock section, an atomic
      operation, one reference taken or dropped); run alone it is the handler
      of Probes.v or Ioctl.v.
    - Interleave.v: any number of these programs on any number of processors;
      what each holds while it runs, and rely-guarantee rules.
    - Device.v: the type class of the device as the daemon sees it with the
      laws it relies on, and the proof that the module's handlers keep them.
    - Log.v: [logmsg], severities and reports.
    - Tracker.v: the four per-process tables and [scan_protected_periodic].
    - Environ.v: reading [/proc/<pid>/environ]; the preload and Vulkan layer
      checks.
    - Json.v: the manifest extractors and [ac_json_escape].
    - Report.v: [ac_resolve_timeout], [ac_connect_timeout], [ac_report].
    - Modules.v: [crosscheck_modules] and the two periodic kernel checks.
    - Monitor.v: the event drain, intervals and schedule of [cmd_start].
    - EndToEnd.v: the module's programs interleaved and the daemon's event
      loop put together.
    - Baseline.v: [hash_proc_mem], baseline files, the hash part of [cmd_scan]
      and [check_baselines_periodic].
    - Layers.v: the scan for implicit Vulkan layers and its two checks.
    - Elf.v: [elf_find_symbol_offset] and [compare_render_symbol].
    - Render.v: the choice of the libraries and the render-hook checks.
    - Vm.v: the CPUID and DMI heuristics and [cmd_vmcheck].
    - Daemon.v: [cmd_start] as a whole: the double fork, the start, the loop
      with every check on the shared device and tables.
    - Loops.v: the loops over untrusted input end.
    - Cli.v: option parsing, the commands and [main].

    ** What the theorems show

    - Guarding: the ptrace probe denies exactly the requests directed at
      protected tasks (but for one pattern of high bits, proved too), and
      protection follows the process tree over any history of probe hits.
    - Data structures: the ring is a bounded queue that loses only its oldest
      events and counts them; the registry and the daemon's tables are finite
      maps; each operation preserves its invariant.
    - Scanning: snapshots hold exactly the mappings and modules there are, up
      to their caps; a scan session reads back what was captured; the
      system-call check counts and detects exactly.
    - Safety of the interface: for every request and every answer of the
      kernel, handlers stay within arrays, keep the invariants and account for
      every reference and every block of memory; unloading releases everything,
      and a load does what its causes allow and leaves nothing behind when it
      fails.  The daemon's file state is published once under every
      interleaving.
    - Concurrency: in every interleaving of probe hits, work items and commands
      the invariants hold between any two sections, references and blocks are
      exactly those the state records and the programs in flight hold, all programs
      can finish, and a tracer finds no window while its target stays
      protected.  One race is real: a task that exits while it is being
      registered stays registered for good.
    - Judging: a scan cycle reports exactly the unbacked executable mappings
      that appear since the scan before, environments of any content are read
      exactly up to their first empty entry, warnings about them come once, hidden modules are counted
      exactly, events reach the log once with their severity, and every check
      runs on time while the clock does not go back.
    - Integrity of code: a hash covers exactly its range however reads are
      cut, a baseline saved by a scan judges later memory in both checks, the
      baseline and render
      cycles report exactly the tampered mappings and patched functions; the
      ELF parser finds what a well-formed library exports and stays within its
      limits on any file.
    - The whole: the daemon survives any number of iterations with its
      invariant, what it reports is what the events and the due checks call
      for, and every command line runs its command and ends with a defined exit
      status and a sound device, [events --watch] alone going on.
    - From the kernel to the report: an attack on a protected process is
      denied and reported within three iterations at up to 64 events each,
      the probe itself interleaved with whatever runs alongside; a hooked system call or a hidden module of the
      kernel is reported by the check that is due; a flood of 256 events
      silences the alert.
    - Reporting: escaping is a JSON encoder under truncation, resolution is
      exact and bounded, a report is delivered whole, or not silently at all;
      its body is a JSON object, valid UTF-8 precisely when its texts are.
    - Where the code falls short: the theorems of kind "error" exhibit the
      behaviours that the findings list.

    ** Bounds and fuel

    Loops that are not structural carry fuel with a proof that it suffices:
    the table search has the code's own bound of 0x400000 slots; the read,
    parse, extraction, line and hash loops are bodies run by [run_loop], which
    answers [None] when a loop is still going after its rounds: each round
    consumes a byte of the input, and Loops.v proves that with one round more
    than the input has bytes they have always left through one of their exits.
    The send loop has the
    length of the request: a write takes a byte of it or ends the loop.  The monitoring loop
    runs until a signal and [events --watch] until a failed read: the list of
    answers, or the number of rounds looked at, is arbitrary, and a watch that
    goes on has no exit status.
    Table sizes (64 protected processes, 256 events, 4096 mappings, 1024
    modules, 4096 lines, 64 layers, 2048 sections, 500000 symbols) are the
    code's.

    ** What is not modelled

    printk output and texts on standard error; setsid, chdir and the
    redirection of streams in the daemon, whose failures the code ignores;
    socket options; the walk of the kernel's own data structures (a list in the
    model); memory ordering: sections interleave, but each sees the effects of
    all earlier ones.  In Smp.v a command works on the state of its own file;
    commands on one file take turns under its mutex, and their sequences are in
    Module.v.  Daemon.v treats a report as an effect: that SIGPIPE can end the
    daemon while it is sent is in Report.v.
    [proc_exe_path] is left out, since no caller uses its result.  The report
    server (Python), the test programs and the packaging are outside the
    development. *)

From Stdlib Require Import ZArith Lia Strings.Byte Strings.Ascii.
From stdpp Require Import base numbers list strings pretty.

#[global] Open Scope Z_scope.

(** ** Machine integers

    A [w]-bit C integer is a [Z]; every operation that can leave the range is
    followed by the wrap-around of its type. *)

Definition u8 (z : Z) : Z := z mod 2 ^ 8.
Definition u32 (z : Z) : Z := z mod 2 ^ 32.
Definition u64 (z : Z) : Z := z mod 2 ^ 64.
Definition s32 (z : Z) : Z := (z + 2 ^ 31) mod 2 ^ 32 - 2 ^ 31.
Definition s64 (z : Z) : Z := (z + 2 ^ 63) mod 2 ^ 64 - 2 ^ 63.

(** ** Bytes and C strings

    A [char] buffer used as a string is represented by the bytes before its
    terminating NUL. *)

#[global] Instance byte_eq_decision : EqDecision byte := Byte.byte_eq_dec.
#[global] Instance byte_inhabited : Inhabited byte := populate x00.

Abbreviation cstring := (list byte).

Definition byte_Z (b : byte) : Z := Z.of_N (Byte.to_N b).

Lemma byte_Z_range b : 0 <= byte_Z b < 256.
Proof. unfold byte_Z. pose proof (Byte.to_N_bounded b). lia. Qed.


Definition Z_byte (z : Z) : byte :=
  match Byte.of_N (Z.to_N (u8 z)) with Some b => b | None => x00 end.

Definition bs (s : string) : cstring := String.list_byte_of_string s.

(** The C string a buffer holds: its bytes before the first NUL. *)
Fixpoint cstr (l : list byte) : cstring :=
  match l with
  | [] => []
  | b :: l => if Byte.eqb b x00 then [] else b :: cstr l
  end.

(** [strscpy(dst, src, n)], [snprintf(dst, n, ...)] and [vsnprintf]: at most
    [n - 1] bytes are kept. *)
Definition strscpy (n : nat) (src : cstring) : cstring := take (n - 1) (cstr src).
Definition snprintf (n : nat) (txt : cstring) : cstring := take (n - 1) (cstr txt).

(** ** printf conversions *)

Definition fmt_d (z : Z) : cstring := bs (pretty z).

Definition hex_digit (d : Z) : byte :=
  nth (Z.to_nat d) (bs "0123456789abcdef") x30.

Fixpoint hex_digits (fuel : nat) (z : Z) (acc : cstring) : cstring :=
  match fuel with
  | O => acc
  | S fuel =>
      let acc := hex_digit (z mod 16) :: acc in
      if z / 16 =? 0 then acc else hex_digits fuel (z / 16) acc
  end.

(** [%lx] and [%llx]: a 64-bit value has at most sixteen hexadecimal digits. *)
Definition fmt_x (z : Z) : cstring := hex_digits 16 z [].

(** ** Tactics *)

(** Linear arithmetic with division and modulo by constants, on [nat] too. *)
Ltac lia_mod :=
  zify; rewrite ?Nat2Z.inj_mod, ?Nat2Z.inj_div in *;
  Z.to_euclidean_division_equations; lia.

#[global] Arguments Nat.modulo : simpl never.
#[global] Arguments Nat.div : simpl never.
#[global] Arguments Z.modulo : simpl never.
#[global] Arguments Z.div : simpl never.
#[global] Arguments Z.pow : simpl never.
#[global] Arguments Z.testbit : simpl never.
#[global] Arguments bs : simpl never.
#[global] Arguments u8 : simpl never.
#[global] Arguments u32 : simpl never.
#[global] Arguments u64 : simpl never.
#[global] Arguments s32 : simpl never.
#[global] Arguments s64 : simpl never.

(** ** Lists with one distinguished element *)

Lemma insert_middle {A} (l1 l2 : list A) x y :
  <[length l1 := y]> (l1 ++ x :: l2) = l1 ++ y :: l2.
Proof. induction l1; simpl; [done|by f_equal]. Qed.

Lemma alter_middle {A} (f : A -> A) (l1 l2 : list A) x :
  alter f (length l1) (l1 ++ x :: l2) = l1 ++ f x :: l2.
Proof. induction l1 as [|y l1 IH]; simpl; [done|]. by f_equal. Qed.

Lemma lookup_middle {A} (l1 l2 : list A) x : (l1 ++ x :: l2) !! length l1 = Some x.
Proof. by rewrite lookup_app_r, Nat.sub_diag by lia. Qed.

Lemma omap_length_le {A B} (f : A -> option B) (l : list A) :
  (length (omap f l) <= length l)%nat.
Proof. induction l as [|x l IH]; [done|]. cbn. destruct (f x); simpl; lia. Qed.

(** ** C strings *)

Lemma cstr_idemp l : cstr (cstr l) = cstr l.
Proof. induction l as [|b l IH]; simpl; [done|]. destruct (Byte.eqb b x00) eqn:E; [done|]. simpl. by rewrite E, IH. Qed.

Lemma cstr_take n l : cstr l = l -> cstr (take n l) = take n l.
Proof.
  revert n. induction l as [|b l IH]; intros [|n] H; simpl in *; try done.
  destruct (Byte.eqb b x00); [done|]. injection H as H. by rewrite IH.
Qed.

(** The copies leave a terminated string strictly shorter than the buffer. *)
Lemma strscpy_fits n s : (0 < n)%nat -> (length (strscpy n s) < n)%nat.
Proof. intros. unfold strscpy. rewrite length_take. lia. Qed.

Lemma cstr_strscpy n s : cstr (strscpy n s) = strscpy n s.
Proof. apply cstr_take, cstr_idemp. Qed.

Lemma strscpy_id n s : cstr s = s -> (length s < n)%nat -> strscpy n s = s.
Proof. intros E H. unfold strscpy. rewrite E. apply take_ge. lia. Qed.

Create HintDb cstr.
#[export] Hint Resolve strscpy_fits cstr_strscpy : cstr.

(** ** Decimal numerals *)

Definition is_digit (b : byte) : bool := (48 <=? byte_Z b) && (byte_Z b <=? 57).

(** The number a digit string denotes, continuing from [acc]. *)
Fixpoint dec_val (acc : Z) (l : cstring) : Z :=
  match l with [] => acc | b :: l => dec_val (10 * acc + (byte_Z b - 48)) l end.

Lemma dec_val_app l l' acc : dec_val acc (l ++ l') = dec_val (dec_val acc l) l'.
Proof. revert acc. induction l; simpl; auto. Qed.

Lemma bs_String a s : bs (String a s) = Ascii.byte_of_ascii a :: bs s.
Proof. done. Qed.

Lemma pretty_N_char_digit n :
  (n < 10)%N ->
  is_digit (Ascii.byte_of_ascii (pretty_N_char n)) = true /\
  byte_Z (Ascii.byte_of_ascii (pretty_N_char n)) - 48 = Z.of_N n.
Proof.
  intros H. destruct n as [|p]; [done|].
  do 4 (destruct p as [p|p|]; [try (exfalso; lia)..|done]); lia.
Qed.

Lemma pretty_N_go_digits x s :
  exists ds, bs (pretty_N_go x s) = ds ++ bs s /\ Forall (fun b => is_digit b = true) ds /\
    dec_val 0 ds = Z.of_N x /\ ((0 < x)%N -> ds <> []) /\
    forall k, 0 <= k -> Z.of_N x < 10 ^ k -> Z.of_nat (length ds) <= k.
Proof.
  revert s. induction (N.lt_wf_0 x) as [x _ IH]; intros s.
  destruct (decide (x = 0)%N) as [->|Hx].
  - exists []. split; [done|]. split; [constructor|]. simpl. split; [done|]. split; [lia|]. lia.
  - rewrite pretty_N_go_step by lia.
    destruct (IH (x `div` 10)%N (N.div_lt x 10 ltac:(lia) eq_refl)
                (String (pretty_N_char (x `mod` 10)) s)) as (ds & E & Hd & Hv & _ & Hl).
    destruct (pretty_N_char_digit (x `mod` 10)) as [Hc Hcv]; [by apply N.mod_lt|].
    set (c := Ascii.byte_of_ascii (pretty_N_char (x `mod` 10))) in *.
    exists (ds ++ [c]). rewrite E, bs_String. fold c. rewrite <- app_assoc. split; [done|].
    split; [apply Forall_app; split; [done|by constructor]|].
    split; [|split].
    + rewrite dec_val_app, Hv. cbn [dec_val]. rewrite Hcv. lia_mod.
    + by destruct ds.
    + intros k Hk Hlt. rewrite length_app. simpl.
      assert (0 < k) by (destruct (decide (k = 0)) as [->|]; [change (10 ^ 0) with 1 in Hlt; lia|lia]).
      enough (Z.of_nat (length ds) <= k - 1) by lia. apply Hl; [lia|].
      replace k with (Z.succ (k - 1)) in Hlt by lia. rewrite Z.pow_succ_r in Hlt by lia.
      rewrite N2Z.inj_div. apply Z.div_lt_upper_bound; lia.
Qed.

Lemma fmt_d_numeral z :
  0 <= z ->
  Forall (fun b => is_digit b = true) (fmt_d z) /\ fmt_d z <> [] /\ dec_val 0 (fmt_d z) = z /\
  forall k, 0 < k -> z < 10 ^ k -> Z.of_nat (length (fmt_d z)) <= k.
Proof.
  intros Hz. destruct z as [|p|p]; [|clear Hz|lia].
  - split; [|split; [done|split; [reflexivity|]]]; [by repeat constructor|].
    intros k Hk _. change (Z.of_nat (length (fmt_d 0))) with 1. lia.
  - unfold fmt_d. change (pretty (Z.pos p)) with (pretty_N_go (N.pos p) "").
    destruct (pretty_N_go_digits (N.pos p) "") as (ds & -> & Hd & Hv & Hne & Hl).
    change (bs "") with (@nil byte). rewrite app_nil_r. split; [done|]. split; [by apply Hne|].
    split; [done|]. intros k Hk Hlt. apply Hl; [lia|]. done.
Qed.

(** ** Loops

    A C loop is its body: from a state to the next one ([inl]: go round again)
    or to the loop's result ([inr]: a [break], a [return] or a false condition).
    [run_loop body n] runs it for at most [n] rounds; [None] says that it was
    still going round after them. *)

Fixpoint run_loop {St R : Type} (body : St -> St + R) (n : nat) (s : St) : option R :=
  match n with
  | O => None
  | S n => match body s with inl s => run_loop body n s | inr r => Some r end
  end.

(** A loop each of whose rounds decreases a measure ends. *)
Lemma run_loop_ends {St R : Type} (I : St -> Prop) (measure : St -> nat) (body : St -> St + R) :
  (forall s s', I s -> body s = inl s' -> I s' /\ (measure s' < measure s)%nat) ->
  forall n s, I s -> (measure s < n)%nat -> is_Some (run_loop body n s).
Proof.
  intros H. induction n as [|n IH]; intros s Hs Hn; [lia|]. cbn [run_loop].
  destruct (body s) as [s'|r] eqn:E; [|by eexists]. destruct (H s s' Hs E). apply IH; [done|lia].
Qed.
