(* ===== verification/Libc.v ===== *)
(** * The C library the daemon uses

    Character classes, searching, line input and number parsing, as functions
    on the bytes of a buffer or file. *)

From Stdlib Require Import ZArith Lia Strings.Byte.
From stdpp Require Import base numbers list strings sets.
From S2P Require Import Prelude.

(** [isspace] in the C locale. *)
Definition isspace (b : byte) : bool :=
  (9 <=? byte_Z b) && (byte_Z b <=? 13) || (byte_Z b =? 32).

Fixpoint skip_ws (l : list byte) : list byte :=
  match l with
  | b :: l' => if isspace b then skip_ws l' else l
  | [] => []
  end.

(** [memmem]: the suffix that starts at the first occurrence. *)
Fixpoint memmem (needle l : list byte) : option (list byte) :=
  if bool_decide (needle `prefix_of` l) then Some l
  else match l with
       | [] => None
       | _ :: l => memmem needle l
       end.

(** [strstr(l, needle) != NULL]. *)
Definition strstr (l needle : cstring) : bool :=
  match memmem needle l with Some _ => true | None => false end.

(** [fgets(out, n, f)] on a file with the remaining content [l]: up to [n - 1]
    bytes, up to and including the first newline; and what remains. An empty
    line is the return value NULL. *)
Fixpoint fgets (n : nat) (l : list byte) : list byte * list byte :=
  match n, l with
  | S (S _ as n), b :: l =>
      if byte_Z b =? 10 then ([b], l) else let '(line, rest) := fgets n l in (b :: line, rest)
  | _, _ => ([], l)
  end.

(** [sscanf(s, "%<w>s", out) == 1]: the first blank-separated word, cut to [w]
    bytes. *)
Fixpoint first_word (l : cstring) : cstring :=
  match l with
  | b :: l => if isspace b then [] else b :: first_word l
  | [] => []
  end.

Definition sscanf_s (w : nat) (s : list byte) : option cstring :=
  match take w (first_word (skip_ws (cstr s))) with [] => None | out => Some out end.

(** [strtol(e, &end, 10)] on a 64-bit [long]: blanks, a sign, digits; the value
    saturates and sets ERANGE ([None]) when it does not fit, and [end] is the
    rest. With no digits [end] is the whole string. *)
Fixpoint digits (l : cstring) : cstring * cstring :=
  match l with
  | b :: l' => if is_digit b then let '(ds, r) := digits l' in (b :: ds, r) else ([], l)
  | [] => ([], [])
  end.

Definition strtol10 (e : cstring) : option Z * cstring :=
  let l := skip_ws e in
  let '(neg, l) :=
    match l with
    | x2d :: l => (true, l)
    | x2b :: l => (false, l)
    | _ => (false, l)
    end in
  match digits l with
  | ([], _) => (Some 0, e)
  | (ds, rest) =>
      let v := if (neg : bool) then - dec_val 0 ds else dec_val 0 ds in
      (if (- 2 ^ 63 <=? v) && (v <? 2 ^ 63) then Some v else None, rest)
  end.

(** ** Line ends *)

(** The stripping loop: trailing newlines and carriage returns, on the
    reversed string. *)
Fixpoint strip_rev (l : list byte) : list byte :=
  match l with
  | b :: l' => if (byte_Z b =? 10) || (byte_Z b =? 13) then strip_rev l' else l
  | [] => []
  end.

Definition strip_eol (l : cstring) : cstring := rev (strip_rev (rev l)).

(** ** Strings *)

Lemma cstr_no_nul l : x00 ∉ cstr l.
Proof.
  induction l as [|b l IH]; simpl; [set_solver|].
  destruct (Byte.eqb b x00) eqn:E; [set_solver|].
  apply not_elem_of_cons. split; [|done]. intros <-. by vm_compute in E.
Qed.

Lemma no_nul_cstr l : x00 ∉ l -> cstr l = l.
Proof.
  induction l as [|b l IH]; intros H; simpl; [done|].
  destruct (Byte.eqb b x00) eqn:E.
  - apply byte_dec_bl in E as ->. set_solver.
  - rewrite IH; [done|set_solver].
Qed.

Lemma cstr_length l : (length (cstr l) <= length l)%nat.
Proof. induction l as [|b l IH]; simpl; [done|]. destruct (Byte.eqb b x00); simpl; lia. Qed.

Lemma byte_eqb_spec a b : reflect (a = b) (Byte.eqb a b).
Proof.
  destruct (Byte.eqb a b) eqn:E; constructor; [by apply byte_dec_bl|].
  intros ->. by rewrite (byte_dec_lb eq_refl) in E.
Qed.

(** ** Blanks and words *)

Definition blanks (ws : list byte) : Prop := Forall (fun b => isspace b = true) ws.

Lemma skip_ws_blanks ws c l : blanks ws -> isspace c = false -> skip_ws (ws ++ c :: l) = c :: l.
Proof. intros Hws Hc. induction Hws as [|b ws Hb _ IH]; simpl; [by rewrite Hc|by rewrite Hb]. Qed.

Lemma skip_ws_split l : exists ws, blanks ws /\ l = ws ++ skip_ws l.
Proof.
  induction l as [|b l (ws & H & E)]; simpl; [exists []; split; [constructor|done]|].
  destruct (isspace b) eqn:Eb; [|exists []; split; [constructor|done]].
  exists (b :: ws). split; [by constructor|]. simpl. by f_equal.
Qed.

Lemma fgets_cons n b l :
  fgets (S (S n)) (b :: l) =
  if byte_Z b =? 10 then ([b], l)
  else let '(line, rest) := fgets (S n) l in (b :: line, rest).
Proof. done. Qed.

Lemma fgets_length n l : (length (fgets n l).1 <= n - 1)%nat.
Proof.
  revert l. induction n as [|[|n] IH]; intros [|b l]; try (simpl; lia).
  rewrite fgets_cons. destruct (byte_Z b =? 10); [simpl; lia|]. specialize (IH l).
  destruct (fgets (S n) l). simpl in *. lia.
Qed.

(** A line that fits is read whole. *)
Lemma fgets_line n line rest :
  Forall (fun b => byte_Z b <> 10) line -> (length line + 2 <= n)%nat ->
  fgets n (line ++ x0a :: rest) = (line ++ [x0a], rest).
Proof.
  intros Hl. revert n. induction Hl as [|b line Hb _ IH]; intros n Hn; simpl in Hn.
  - destruct n as [|[|n]]; [lia|lia|done].
  - destruct n as [|[|n]]; [lia|lia|]. cbn [app]. rewrite fgets_cons.
    rewrite (proj2 (Z.eqb_neq _ _) Hb). by rewrite IH by lia.
Qed.

Lemma word_blank w b l :
  Forall (fun c => isspace c = false) w -> isspace b = true -> first_word (w ++ b :: l) = w.
Proof. intros Hw Hb. induction Hw as [|c w Hc _ IH]; simpl; [by rewrite Hb|by rewrite Hc, IH]. Qed.

Lemma digits_app ds l :
  Forall (fun b => is_digit b = true) ds ->
  match l with b :: _ => is_digit b = false | [] => True end -> digits (ds ++ l) = (ds, l).
Proof.
  intros Hds Hl. induction Hds as [|b ds Hb _ IH]; simpl.
  - destruct l as [|b l]; [done|]. simpl. by rewrite Hl.
  - by rewrite Hb, IH.
Qed.

(** ** Memory *)

(** The bytes of a range, if all are readable. *)
Fixpoint range (mem : Z -> option byte) (start : Z) (n : nat) : option (list byte) :=
  match n with
  | O => Some []
  | S n => b ← mem start; l ← range mem (start + 1) n; Some (b :: l)
  end.

Lemma range_app mem start n m :
  range mem start (n + m) =
  (l ← range mem start n; l' ← range mem (start + Z.of_nat n) m; Some (l ++ l')).
Proof.
  revert start. induction n as [|n IH]; intros start; simpl.
  - rewrite Z.add_0_r. by destruct (range mem start m).
  - destruct (mem start) as [b|]; [|done]. simpl. rewrite IH.
    replace (start + 1 + Z.of_nat n) with (start + Z.of_nat (S n)) by lia.
    destruct (range mem (start + 1) n); [|done]. simpl.
    by destruct (range mem (start + Z.of_nat (S n)) m).
Qed.

Lemma range_list mem start l :
  (forall j b, l !! j = Some b -> mem (start + Z.of_nat j) = Some b) ->
  range mem start (length l) = Some l.
Proof.
  revert start. induction l as [|b l IH]; intros start H; [done|]. simpl.
  pose proof (H 0%nat b eq_refl) as H0. rewrite Z.add_0_r in H0. rewrite H0. simpl.
  rewrite IH; [done|]. intros j b' Hj.
  replace (start + 1 + Z.of_nat j) with (start + Z.of_nat (S j)) by lia. by apply H.
Qed.

Lemma range_hole mem start n j :
  0 <= j < Z.of_nat n -> mem (start + j) = None -> range mem start n = None.
Proof.
  intros Hj Hm. replace n with (Z.to_nat j + S (n - Z.to_nat j - 1))%nat by lia.
  rewrite range_app. destruct (range mem start (Z.to_nat j)); [|done]. simpl.
  replace (start + Z.of_nat (Z.to_nat j)) with (start + j) by lia. by rewrite Hm.
Qed.

(** Two readable ranges differ exactly when some byte does. *)
Lemma range_lookup mem start n l j :
  range mem start n = Some l -> (j < n)%nat -> l !! j = mem (start + Z.of_nat j).
Proof.
  revert start l j. induction n as [|n IH]; intros start l j Hr Hj; [lia|]. simpl in Hr.
  destruct (mem start) as [b|] eqn:E; [|done]. simpl in Hr.
  destruct (range mem (start + 1) n) as [l'|] eqn:E'; [|done]. simpl in Hr.
  injection Hr as <-. destruct j as [|j]; [by rewrite Z.add_0_r|]. change ((b :: l') !! S j) with (l' !! j).
  rewrite (IH _ _ j E') by lia. f_equal. lia.
Qed.

Lemma range_length mem start n l : range mem start n = Some l -> length l = n.
Proof.
  revert start l. induction n as [|n IH]; intros start l Hr; simpl in Hr; [by injection Hr as <-|].
  destruct (mem start); [|done]. simpl in Hr.
  destruct (range mem (start + 1) n) as [l'|] eqn:E; [|done]. injection Hr as <-. simpl. f_equal. by eapply IH.
Qed.

Lemma range_ext m m' s s' n :
  (forall j, 0 <= j < Z.of_nat n -> m (s + j) = m' (s' + j)) -> range m s n = range m' s' n.
Proof.
  revert s s'. induction n as [|n IH]; intros s s' H; [done|]. simpl.
  pose proof (H 0 ltac:(lia)) as H0. rewrite !Z.add_0_r in H0. rewrite H0.
  rewrite (IH (s + 1) (s' + 1)); [done|]. intros j Hj. rewrite <- !Z.add_assoc. apply H. lia.
Qed.

Lemma range_differ mem mem' s s' n l l' :
  range mem s n = Some l -> range mem' s' n = Some l' ->
  (l <> l' <-> exists j, 0 <= j < Z.of_nat n /\ mem (s + j) <> mem' (s' + j)).
Proof.
  intros H H'. split.
  - intros Hne. destruct (decide (Exists (fun j => l !! j <> l' !! j) (seq 0 n))) as [He|Hn].
    + apply Exists_exists in He as (j & Hj & Hd). apply elem_of_seq in Hj. exists (Z.of_nat j).
      split; [lia|]. by rewrite <- (range_lookup _ _ _ _ _ H), <- (range_lookup _ _ _ _ _ H') by lia.
    + destruct Hne. apply list_eq_same_length with n;
        [by eapply range_length|by eapply range_length|]. intros j x y Hj Hx Hy.
      apply not_Exists_Forall in Hn; [|intros j'; apply _]. rewrite Forall_forall in Hn.
      specialize (Hn j ltac:(apply elem_of_seq; lia)). apply dec_stable in Hn. congruence.
  - intros (j & Hj & Hd) <-. apply Hd.
    replace j with (Z.of_nat (Z.to_nat j)) by lia.
    rewrite <- (range_lookup _ _ _ _ _ H), <- (range_lookup _ _ _ _ _ H') by lia. done.
Qed.

(** ** Little-endian numbers *)

(** A little-endian number in a buffer. *)
Fixpoint le_val (l : list byte) : Z :=
  match l with [] => 0 | b :: l => byte_Z b + 256 * le_val l end.

(** The [n]-byte little-endian encoding. *)
Fixpoint le (n : nat) (z : Z) : list byte :=
  match n with O => [] | S n => Z_byte z :: le n (z / 256) end.

Lemma le_val_nonneg l : 0 <= le_val l.
Proof. induction l as [|b l IH]; simpl; [done|]. unfold byte_Z. lia. Qed.

Lemma byte_Z_of z : byte_Z (Z_byte z) = z mod 256.
Proof.
  unfold Z_byte, u8. change (2 ^ 8) with 256. pose proof (Z.mod_pos_bound z 256 ltac:(lia)) as H.
  destruct (Byte.of_N (Z.to_N (z mod 256))) as [b|] eqn:E.
  - apply Byte.to_of_N in E. unfold byte_Z. rewrite E. lia.
  - apply Byte.of_N_None_iff in E. lia.
Qed.

Lemma le_length n z : length (le n z) = n.
Proof. revert z. induction n; intros z; simpl; [done|by f_equal]. Qed.

Lemma le_val_bytes n z : le_val (le n z) = z mod 256 ^ Z.of_nat n.
Proof.
  revert z. induction n as [|n IH]; intros z; simpl; [by rewrite Z.mod_1_r|].
  rewrite byte_Z_of, IH, Nat2Z.inj_succ, Z.pow_succ_r by lia.
  rewrite (Z.rem_mul_r z 256) by (try apply Z.pow_pos_nonneg; lia). done.
Qed.

Lemma le_val_le n z : 0 <= z < 256 ^ Z.of_nat n -> le_val (le n z) = z.
Proof. intros Hz. by rewrite le_val_bytes, Z.mod_small. Qed.

Lemma Z_byte_of b : Z_byte (byte_Z b) = b.
Proof. by destruct b. Qed.

Lemma le_of_val l : le (length l) (le_val l) = l.
Proof.
  induction l as [|b l IH]; [done|]. cbn [length le le_val].
  assert (0 <= byte_Z b < 256) as Hb by (unfold byte_Z; pose proof (Byte.to_N_bounded b); lia).
  replace ((byte_Z b + 256 * le_val l) / 256) with (le_val l) by lia_mod. rewrite IH. f_equal.
  assert (Eu : u8 (byte_Z b + 256 * le_val l) = u8 (byte_Z b)).
  { unfold u8. change (2 ^ 8) with 256. lia_mod. }
  rewrite <- (Z_byte_of b) at 2. unfold Z_byte. by rewrite Eu.
Qed.

(** ** Substrings *)

Definition contains (l needle : list byte) : Prop := exists a b, l = a ++ needle ++ b.

Lemma strstr_contains l needle : strstr l needle = true <-> contains l needle.
Proof.
  unfold strstr, contains. induction l as [|x l IH]; cbn [memmem].
  - case_bool_decide as Hp.
    + split; [intros _|done]. destruct Hp as [k Hk]. exists [], k. done.
    + split; [done|]. intros (a & b & E). destruct Hp. exists b. by destruct a.
  - case_bool_decide as Hp.
    + split; [intros _|done]. destruct Hp as [k Hk]. exists [], k. done.
    + rewrite IH. split.
      * intros (a & b & ->). by exists (x :: a), b.
      * intros ([|y a] & b & E); [destruct Hp; by exists b|]. injection E as <- ->. by exists a, b.
Qed.

(** ** Printed lines *)

(** [%-<n>d] and [%-<n>s]. *)
Definition pad_right (n : nat) (s : cstring) : cstring := s ++ replicate (n - length s) x20.

Definition nl (s : cstring) : cstring := s ++ [x0a].
