(* ===== verification/Abi.v ===== *)
(** * The shared ABI (src/anticheat.h)

    The constants, the structures exchanged through [/dev/anticheat], their
    C layout on x86-64, and the ioctl commands with the payload each carries. *)

From Stdlib Require Import ZArith Lia.
From stdpp Require Import base numbers list strings.
From S2P Require Import Prelude.

(** ** Constants *)

Definition AC_IOCTL_MAGIC : Z := 0xAC.
Definition AC_IOCTL_VERSION : Z := 1.
Definition AC_MAX_COMM : nat := 16.
Definition AC_MAX_PROCS : nat := 64.
Definition AC_MAX_VMAS : nat := 4096.
Definition AC_VMA_PATH : nat := 128.
Definition AC_MOD_NAME_LEN : nat := 64.
Definition AC_MAX_EVENTS : nat := 64.
Definition AC_MAX_PROTS : nat := 64.
Definition AC_MAX_MODS : nat := 1024.
Definition AC_EVENT_DATA : nat := 128.
Definition AC_VM_EXEC : Z := 0x4.
Definition AC_VM_WRITE : Z := 0x2.

(** The event types, an anonymous C enumeration starting at 1. *)
Inductive ac_ev_type :=
  | AC_EV_FORK | AC_EV_EXEC | AC_EV_EXIT | AC_EV_PTRACE | AC_EV_SYSCALL_HOOK
  | AC_EV_RWX | AC_EV_ANON_EXEC | AC_EV_INFO.

Definition ev_code (t : ac_ev_type) : Z :=
  match t with
  | AC_EV_FORK => 1 | AC_EV_EXEC => 2 | AC_EV_EXIT => 3 | AC_EV_PTRACE => 4
  | AC_EV_SYSCALL_HOOK => 5 | AC_EV_RWX => 6 | AC_EV_ANON_EXEC => 7 | AC_EV_INFO => 8
  end.

#[global] Instance ac_ev_type_eq_dec : EqDecision ac_ev_type.
Proof. solve_decision. Defined.

(** ** Structures *)

Record ac_status := Status {
  st_version : Z;
  st_syscall_table_addr : Z;
  st_active_procs : Z;
  st_events_dropped : Z;
  st_locked : Z;
  st_syscall_hook_count : Z
}.

Record ac_proc_id := ProcId {
  pi_pid : Z;
  pi_ref_pid : Z;
  pi_jit_allowed : Z;
  pi_comm : cstring
}.

Record ac_vma_info := VmaInfo {
  vi_start : Z;
  vi_end : Z;
  vi_offset : Z;
  vi_inode : Z;
  vi_flags : Z;
  vi_is_file : Z;
  vi_path : cstring
}.

Record ac_scan_begin := ScanBegin {
  sb_pid : Z;
  sb_emit_events : Z;
  sb_n_vmas : Z;
  sb_rwx_count : Z;
  sb_exec_count : Z;
  sb_anon_exec_count : Z;
  sb_truncated : Z
}.

Record ac_scan_get := ScanGet { sg_pid : Z; sg_index : Z; sg_vma : ac_vma_info }.

Record ac_syscall_check := SyscallCheck {
  sc_table_addr : Z;
  sc_nr_syscalls : Z;
  sc_total : Z;
  sc_non_text : Z;
  sc_hooked : Z;
  sc_ok : Z
}.

Record ac_mod_info := ModInfo { mi_name : cstring; mi_size : Z; mi_state : Z }.

Record ac_mod_get := ModGet { mg_index : Z; mg_mod : ac_mod_info }.

Record ac_event := Event {
  ev_ts : Z;
  ev_pid : Z;
  ev_comm : cstring;
  ev_type : Z;
  ev_data : cstring
}.

(** [events[AC_MAX_EVENTS]] is represented by its first [count] entries; the
    rest of the array is zero (the list is allocated with [kzalloc]). *)
Record ac_event_list := EventList {
  el_count : Z;
  el_dropped : Z;
  el_events : list ac_event
}.

Record ac_prot_item := ProtItem { pt_pid : Z; pt_jit_allowed : Z; pt_comm : cstring }.

Record ac_prot_list := ProtList { pl_count : Z; pl_items : list ac_prot_item }.

#[global] Instance ac_event_eq_dec : EqDecision ac_event.
Proof. solve_decision. Defined.
#[global] Instance ac_vma_info_eq_dec : EqDecision ac_vma_info.
Proof. solve_decision. Defined.
#[global] Instance ac_prot_item_eq_dec : EqDecision ac_prot_item.
Proof. solve_decision. Defined.
#[global] Instance ac_event_inhabited : Inhabited ac_event := populate (Event 0 0 [] 0 []).

(** ** Layout

    Sizes and alignments of the C types on x86-64 (LP64): a structure is the
    list of its members, each placed at the next multiple of its alignment,
    and its size is rounded up to the largest alignment. *)

Inductive cty :=
  | CScalar (size : Z)
  | CArray (n : Z) (elt : cty)
  | CStruct (members : list cty).

Definition align_up (z a : Z) : Z := (z + a - 1) / a * a.

Fixpoint alignof (t : cty) : Z :=
  match t with
  | CScalar s => s
  | CArray _ e => alignof e
  | CStruct ms => foldr (fun m a => Z.max (alignof m) a) 1 ms
  end.

Fixpoint sizeof (t : cty) : Z :=
  match t with
  | CScalar s => s
  | CArray n e => n * sizeof e
  | CStruct ms =>
      align_up ((fix place (off : Z) (ms : list cty) : Z :=
                   match ms with
                   | [] => off
                   | m :: ms => place (align_up off (alignof m) + sizeof m) ms
                   end) 0 ms)
               (foldr (fun m a => Z.max (alignof m) a) 1 ms)
  end.

Definition c_char : cty := CScalar 1.
Definition c_int : cty := CScalar 4.
Definition c_uint : cty := CScalar 4.
Definition c_ulong : cty := CScalar 8.
Definition c_ull : cty := CScalar 8.
Definition c_chars (n : nat) : cty := CArray (Z.of_nat n) c_char.

Definition t_ac_status : cty := CStruct [c_ull; c_ull; c_uint; c_uint; c_uint; c_uint].
Definition t_ac_proc_id : cty := CStruct [c_int; c_int; c_int; c_chars AC_MAX_COMM].
Definition t_ac_vma_info : cty :=
  CStruct [c_ull; c_ull; c_ull; c_ull; c_ulong; c_uint; c_chars AC_VMA_PATH].
Definition t_ac_scan_begin : cty :=
  CStruct [c_int; c_int; c_uint; c_uint; c_uint; c_uint; c_uint].
Definition t_ac_scan_get : cty := CStruct [c_int; c_uint; t_ac_vma_info].
Definition t_ac_syscall_check : cty :=
  CStruct [c_ull; c_uint; c_uint; c_uint; c_uint; c_uint].
Definition t_ac_mod_info : cty := CStruct [c_chars AC_MOD_NAME_LEN; c_ull; c_uint].
Definition t_ac_mod_get : cty := CStruct [c_uint; t_ac_mod_info].
Definition t_ac_event : cty :=
  CStruct [c_ull; c_int; c_chars AC_MAX_COMM; c_uint; c_chars AC_EVENT_DATA].
Definition t_ac_event_list : cty :=
  CStruct [c_uint; c_uint; CArray (Z.of_nat AC_MAX_EVENTS) t_ac_event].
Definition t_ac_prot_item : cty := CStruct [c_int; c_int; c_chars AC_MAX_COMM].
Definition t_ac_prot_list : cty :=
  CStruct [c_uint; CArray (Z.of_nat AC_MAX_PROTS) t_ac_prot_item].

(** ** Commands *)

Inductive ac_cmd :=
  | AC_IOCTL_STATUS | AC_IOCTL_ADD_PROC | AC_IOCTL_DEL_PROC | AC_IOCTL_SCAN_BEGIN
  | AC_IOCTL_CHECK_SYSCALLS | AC_IOCTL_GET_EVENTS | AC_IOCTL_FLUSH_EVENTS
  | AC_IOCTL_LIST_PROTECTED | AC_IOCTL_LOCK | AC_IOCTL_UNLOCK | AC_IOCTL_SCAN_GET
  | AC_IOCTL_SCAN_END | AC_IOCTL_MODS_BEGIN | AC_IOCTL_MODS_GET | AC_IOCTL_MODS_END.

#[global] Instance ac_cmd_eq_dec : EqDecision ac_cmd.
Proof. solve_decision. Defined.

(** Which of [_IO], [_IOW], [_IOR], [_IOWR] defines the command. *)
Inductive ioc_dir := IOC_NONE | IOC_WRITE | IOC_READ | IOC_READ_WRITE.

(** Direction, command number and payload type of each [#define AC_IOCTL_*]. *)
Definition cmd_spec (c : ac_cmd) : ioc_dir * Z * option cty :=
  match c with
  | AC_IOCTL_STATUS => (IOC_READ, 1, Some t_ac_status)
  | AC_IOCTL_ADD_PROC => (IOC_WRITE, 2, Some t_ac_proc_id)
  | AC_IOCTL_DEL_PROC => (IOC_WRITE, 3, Some t_ac_proc_id)
  | AC_IOCTL_SCAN_BEGIN => (IOC_READ_WRITE, 4, Some t_ac_scan_begin)
  | AC_IOCTL_CHECK_SYSCALLS => (IOC_READ, 5, Some t_ac_syscall_check)
  | AC_IOCTL_GET_EVENTS => (IOC_READ, 7, Some t_ac_event_list)
  | AC_IOCTL_FLUSH_EVENTS => (IOC_NONE, 8, None)
  | AC_IOCTL_LIST_PROTECTED => (IOC_READ, 9, Some t_ac_prot_list)
  | AC_IOCTL_LOCK => (IOC_NONE, 10, None)
  | AC_IOCTL_UNLOCK => (IOC_NONE, 11, None)
  | AC_IOCTL_SCAN_GET => (IOC_READ_WRITE, 12, Some t_ac_scan_get)
  | AC_IOCTL_SCAN_END => (IOC_NONE, 13, None)
  | AC_IOCTL_MODS_BEGIN => (IOC_READ, 14, Some c_uint)
  | AC_IOCTL_MODS_GET => (IOC_READ_WRITE, 15, Some t_ac_mod_get)
  | AC_IOCTL_MODS_END => (IOC_NONE, 16, None)
  end.

Definition cmd_nr (c : ac_cmd) : Z := (cmd_spec c).1.2.
Definition cmd_size (c : ac_cmd) : Z := default 0 (sizeof <$> (cmd_spec c).2).

(** ** The command encoding

    [_IOC] is the kernel's macro; the header relies on it being injective on
    fields that fit their widths (2-bit direction, 8-bit magic and number,
    14-bit size). *)

Section encoding.
Context (IOC : ioc_dir -> Z -> Z -> Z -> Z).

Definition cmd_code (c : ac_cmd) : Z :=
  IOC (cmd_spec c).1.1 AC_IOCTL_MAGIC (cmd_nr c) (cmd_size c).

Definition IOC_injective : Prop :=
  forall d t n s d' t' n' s',
    0 <= t < 2 ^ 8 -> 0 <= n < 2 ^ 8 -> 0 <= s < 2 ^ 14 ->
    0 <= t' < 2 ^ 8 -> 0 <= n' < 2 ^ 8 -> 0 <= s' < 2 ^ 14 ->
    IOC d t n s = IOC d' t' n' s' -> d = d' /\ t = t' /\ n = n' /\ s = s'.
End encoding.

Lemma cmd_fields_fit c : 0 <= cmd_nr c < 2 ^ 8 /\ 0 <= cmd_size c < 2 ^ 14.
Proof. destruct c; vm_compute; repeat split; congruence. Qed.

Lemma cmd_nr_inj c c' : cmd_nr c = cmd_nr c' -> c = c'.
Proof. by destruct c, c'. Qed.

(** Every payload fits the 14-bit size field of an ioctl command (the
    reason for the begin/get/end pairs), the structures copied out verbatim
    have exactly the sizes the module relies on ([ac_mod_info] padded to 80
    bytes), and with an encoding that is injective
    on fields of those widths no two commands share a code, so the [switch]
    of [ac_ioctl] is unambiguous. *)
Theorem ioctl_abi_fits (IOC : ioc_dir -> Z -> Z -> Z -> Z) :
  IOC_injective IOC ->
  (forall c, 0 <= cmd_size c < 2 ^ 14) /\
  (forall c c', cmd_code IOC c = cmd_code IOC c' -> c = c') /\
  sizeof t_ac_event_list = 10248 /\ sizeof t_ac_prot_list = 1540 /\
  sizeof t_ac_mod_info = 80 /\ sizeof t_ac_vma_info = 176.
Proof.
  intros Hinj. split; [apply cmd_fields_fit|]. split; [|by vm_compute].
  intros c c' E. apply cmd_nr_inj.
  destruct (cmd_fields_fit c), (cmd_fields_fit c').
  apply Hinj in E; [by destruct E as (_&_&E&_)|unfold AC_IOCTL_MAGIC; lia..].
Qed.

(** The asm-generic encoding: size, direction, magic and number side by side. *)
Definition linux_IOC (d : ioc_dir) (t n s : Z) : Z :=
  match d with IOC_NONE => 0 | IOC_WRITE => 1 | IOC_READ => 2 | IOC_READ_WRITE => 3 end * 2 ^ 30
  + s * 2 ^ 16 + t * 2 ^ 8 + n.

Lemma linux_IOC_injective : IOC_injective linux_IOC.
Proof.
  intros d t n s d' t' n' s' ?????? E. unfold linux_IOC in E.
  destruct d, d'; repeat split; (lia || (exfalso; lia)).
Qed.

Lemma ioctl_abi_fits_witness :
  IOC_injective linux_IOC /\
  (forall c c', cmd_code linux_IOC c = cmd_code linux_IOC c' -> c = c').
Proof.
  split; [exact linux_IOC_injective|].
  exact (proj1 (proj2 (ioctl_abi_fits linux_IOC linux_IOC_injective))).
Defined.
