(* ===== verification/Sha256.v ===== *)
(** * SHA-256 (src/sha256.c, src/sha256.h)

    The streaming hash behind the memory baselines: the context, the block
    function, [init]/[update]/[final] and the hexadecimal one-shot, as the C
    code computes them, against the FIPS 180-4 definition of the digest of a
    whole message. *)

From Stdlib Require Import ZArith Lia Strings.Byte.
From stdpp Require Import base numbers list strings.
From S2P Require Import Prelude.

(** ** The code *)

(** The round constants, in decimal. *)
Definition K : list Z :=
  [1116352408; 1899447441; 3049323471; 3921009573; 961987163; 1508970993;
   2453635748; 2870763221; 3624381080; 310598401; 607225278; 1426881987;
   1925078388; 2162078206; 2614888103; 3248222580; 3835390401; 4022224774;
   264347078; 604807628; 770255983; 1249150122; 1555081692; 1996064986;
   2554220882; 2821834349; 2952996808; 3210313671; 3336571891; 3584528711;
   113926993; 338241895; 666307205; 773529912; 1294757372; 1396182291;
   1695183700; 1986661051; 2177026350; 2456956037; 2730485921; 2820302411;
   3259730800; 3345764771; 3516065817; 3600352804; 4094571909; 275423344;
   430227734; 506948616; 659060556; 883997877; 958139571; 1322822218;
   1537002063; 1747873779; 1955562222; 2024104815; 2227730452; 2361852424;
   2428436474; 2756734187; 3204031479; 3329325298].

Record ac_sha256_ctx := Ctx {
  ctx_h : list Z;         (* uint32_t h[8] *)
  ctx_len : Z;            (* uint64_t len *)
  ctx_buf : list byte;    (* uint8_t buf[64] *)
  ctx_buflen : nat        (* size_t buflen *)
}.

Definition rotr (x n : Z) : Z :=
  Z.lor (Z.shiftr x n) (u32 (Z.shiftl x (32 - n))).

Definition be32 (p : list byte) : Z :=
  let b i := byte_Z (p !!! i) in
  Z.lor (Z.lor (Z.lor (Z.shiftl (b 0%nat) 24) (Z.shiftl (b 1%nat) 16))
               (Z.shiftl (b 2%nat) 8)) (b 3%nat).

(** One iteration of the second schedule loop: [w[i]] from the words before it. *)
Definition sched_step (w : list Z) (i : nat) : list Z :=
  let w15 := w !!! (i - 15)%nat in
  let w2 := w !!! (i - 2)%nat in
  let s0 := Z.lxor (Z.lxor (rotr w15 7) (rotr w15 18)) (Z.shiftr w15 3) in
  let s1 := Z.lxor (Z.lxor (rotr w2 17) (rotr w2 19)) (Z.shiftr w2 10) in
  w ++ [u32 (w !!! (i - 16)%nat + s0 + w !!! (i - 7)%nat + s1)].

Definition schedule (p : list byte) : list Z :=
  foldl sched_step ((fun i => be32 (drop (i * 4)%nat p)) <$> seq 0 16) (seq 16 48).

Record regs := Regs { ra : Z; rb : Z; rc : Z; rd : Z; re : Z; rf : Z; rg : Z; rh : Z }.

Definition round (w : list Z) (r : regs) (i : nat) : regs :=
  let S1 := Z.lxor (Z.lxor (rotr (re r) 6) (rotr (re r) 11)) (rotr (re r) 25) in
  let ch := Z.lxor (Z.land (re r) (rf r)) (Z.land (u32 (Z.lnot (re r))) (rg r)) in
  let t1 := u32 (rh r + S1 + ch + K !!! i + w !!! i) in
  let S0 := Z.lxor (Z.lxor (rotr (ra r) 2) (rotr (ra r) 13)) (rotr (ra r) 22) in
  let maj := Z.lxor (Z.lxor (Z.land (ra r) (rb r)) (Z.land (ra r) (rc r)))
                    (Z.land (rb r) (rc r)) in
  let t2 := u32 (S0 + maj) in
  Regs (u32 (t1 + t2)) (ra r) (rb r) (rc r) (u32 (rd r + t1)) (re r) (rf r) (rg r).

(** [ac_sha256_block] as a function of the chaining words and the 64 bytes. *)
Definition block (h : list Z) (p : list byte) : list Z :=
  let h_ i := h !!! i in
  let r := foldl (round (schedule p))
             (Regs (h_ 0%nat) (h_ 1%nat) (h_ 2%nat) (h_ 3%nat)
                   (h_ 4%nat) (h_ 5%nat) (h_ 6%nat) (h_ 7%nat)) (seq 0 64) in
  zip_with (fun x y => u32 (x + y)) h
    [ra r; rb r; rc r; rd r; re r; rf r; rg r; rh r].

Definition ac_sha256_block (c : ac_sha256_ctx) (p : list byte) : ac_sha256_ctx :=
  Ctx (block (ctx_h c) p) (ctx_len c) (ctx_buf c) (ctx_buflen c).

Definition H0 : list Z :=
  [1779033703; 3144134277; 1013904242; 2773480762; 1359893119; 2600822924;
   528734635; 1541459225].

(** [init] leaves [buf] as the caller's memory had it. *)
Definition ac_sha256_init (buf : list byte) : ac_sha256_ctx := Ctx H0 0 buf 0.

Definition memcpy_at (buf : list byte) (off : nat) (src : list byte) : list byte :=
  take off buf ++ src ++ drop (off + length src) buf.

(** The body of the [while (len > 0)] loop of [update], and the loop: each
    iteration of a well-formed context consumes at least one byte, so the
    length of the data is enough fuel. *)
Definition update_step (c : ac_sha256_ctx) (p : list byte) : ac_sha256_ctx * list byte :=
  let take_n := Nat.min (64 - ctx_buflen c) (length p) in
  let c := Ctx (ctx_h c) (ctx_len c)
               (memcpy_at (ctx_buf c) (ctx_buflen c) (take take_n p))
               (ctx_buflen c + take_n)%nat in
  let c := if Nat.eqb (ctx_buflen c) 64 then
             let c := ac_sha256_block c (ctx_buf c) in
             Ctx (ctx_h c) (ctx_len c) (ctx_buf c) 0
           else c in
  (c, drop take_n p).

Fixpoint update_loop (fuel : nat) (c : ac_sha256_ctx) (p : list byte) : ac_sha256_ctx :=
  match fuel, p with
  | S fuel, _ :: _ => let '(c, p) := update_step c p in update_loop fuel c p
  | _, _ => c
  end.

Definition ac_sha256_update (c : ac_sha256_ctx) (data : list byte) : ac_sha256_ctx :=
  update_loop (length data)
    (Ctx (ctx_h c) (u64 (ctx_len c + Z.of_nat (length data))) (ctx_buf c) (ctx_buflen c))
    data.

(** [while (c->buflen != 56) ac_sha256_update(c, &zero, 1)]: [buflen] cycles
    through 0..63, so 64 iterations are enough. *)
Fixpoint pad_loop (fuel : nat) (c : ac_sha256_ctx) : ac_sha256_ctx :=
  match fuel with
  | O => c
  | S fuel => if Nat.eqb (ctx_buflen c) 56 then c
              else pad_loop fuel (ac_sha256_update c [x00])
  end.

(** The big-endian bytes [(uint8_t)(z >> (8 * (n - 1)))], ..., [(uint8_t)z]. *)
Definition be_bytes (n : nat) (z : Z) : list byte :=
  (fun i => Z_byte (Z.shiftr z (8 * (Z.of_nat n - 1 - Z.of_nat i)))) <$> seq 0 n.

Definition ac_sha256_final (c : ac_sha256_ctx) : list byte :=
  let bits := u64 (ctx_len c * 8) in
  let lenbuf := be_bytes 8 bits in
  let c := ac_sha256_update c [x80] in
  let c := pad_loop 64 c in
  let c := ac_sha256_update c lenbuf in
  mjoin (be_bytes 4 <$> ctx_h c).

Definition hex_of (d : list byte) : cstring :=
  mjoin ((fun b => [hex_digit (Z.shiftr (byte_Z b) 4); hex_digit (Z.land (byte_Z b) 15)]) <$> d).

Definition ac_sha256_hex (stack : list byte) (buf : list byte) : cstring :=
  hex_of (ac_sha256_final (ac_sha256_update (ac_sha256_init stack) buf)).

(** ** FIPS 180-4

    The standard's own definitions: rotation as arithmetic on 32-bit words,
    the message schedule as the recurrence on the previous sixteen words
    (newest first), additions reduced one by one, and the digest of a padded
    message cut into 64-byte blocks. *)

Definition add32 (x y : Z) : Z := (x + y) mod 2 ^ 32.
Definition ROTR (n x : Z) : Z := x / 2 ^ n + (x mod 2 ^ n) * 2 ^ (32 - n).
Definition SHR (n x : Z) : Z := x / 2 ^ n.
Definition Ch (x y z : Z) : Z := Z.lxor (Z.land x y) (Z.land (2 ^ 32 - 1 - x) z).
Definition Maj (x y z : Z) : Z := Z.lxor (Z.lxor (Z.land x y) (Z.land x z)) (Z.land y z).
Definition Sigma0 (x : Z) : Z := Z.lxor (Z.lxor (ROTR 2 x) (ROTR 13 x)) (ROTR 22 x).
Definition Sigma1 (x : Z) : Z := Z.lxor (Z.lxor (ROTR 6 x) (ROTR 11 x)) (ROTR 25 x).
Definition sigma0 (x : Z) : Z := Z.lxor (Z.lxor (ROTR 7 x) (ROTR 18 x)) (SHR 3 x).
Definition sigma1 (x : Z) : Z := Z.lxor (Z.lxor (ROTR 17 x) (ROTR 19 x)) (SHR 10 x).

(** [fips_W n prev]: [n] further words on top of [prev], newest first. *)
Fixpoint fips_W (n : nat) (prev : list Z) : list Z :=
  match n with
  | O => prev
  | S n =>
      fips_W n
        (add32 (add32 (add32 (sigma1 (prev !!! 1%nat)) (prev !!! 6%nat))
                      (sigma0 (prev !!! 14%nat))) (prev !!! 15%nat) :: prev)
  end.

(** The big-endian value of a byte string. *)
Definition be_value (p : list byte) : Z := foldl (fun z b => z * 256 + byte_Z b) 0 p.

Definition fips_words (p : list byte) : list Z :=
  (fun i => be_value (take 4 (drop (i * 4)%nat p))) <$> seq 0 16.

Definition fips_schedule (p : list byte) : list Z :=
  reverse (fips_W 48 (reverse (fips_words p))).

Definition fips_round (W : list Z) (r : regs) (t : nat) : regs :=
  let T1 := add32 (add32 (add32 (add32 (rh r) (Sigma1 (re r))) (Ch (re r) (rf r) (rg r)))
                         (K !!! t)) (W !!! t) in
  let T2 := add32 (Sigma0 (ra r)) (Maj (ra r) (rb r) (rc r)) in
  Regs (add32 T1 T2) (ra r) (rb r) (rc r) (add32 (rd r) T1) (re r) (rf r) (rg r).

Definition fips_compress (h : list Z) (p : list byte) : list Z :=
  match h with
  | [h0; h1; h2; h3; h4; h5; h6; h7] =>
      let r := foldl (fips_round (fips_schedule p))
                 (Regs h0 h1 h2 h3 h4 h5 h6 h7) (seq 0 64) in
      [add32 h0 (ra r); add32 h1 (rb r); add32 h2 (rc r); add32 h3 (rd r);
       add32 h4 (re r); add32 h5 (rf r); add32 h6 (rg r); add32 h7 (rh r)]
  | _ => h
  end.

Definition fips_pad (m : list byte) : list byte :=
  let l := Z.of_nat (length m) in
  m ++ x80 :: replicate (Z.to_nat ((55 - l) mod 64)) x00 ++ be_bytes 8 (8 * l).

(** The first [n] 64-byte blocks of [m]. *)
Definition chunks (n : nat) (m : list byte) : list (list byte) :=
  (fun i => take 64 (drop (64 * i)%nat m)) <$> seq 0 n.

Definition fips_sha256 (m : list byte) : list byte :=
  let M := fips_pad m in
  mjoin (be_bytes 4 <$> foldl fips_compress H0 (chunks (length M / 64)%nat M)).

(** ** The block function *)

Definition word (x : Z) : Prop := 0 <= x < 2 ^ 32.

Lemma word_u32 z : word (u32 z).
Proof. unfold word, u32. apply Z.mod_pos_bound. lia. Qed.

Lemma add32_u32 x y : add32 x y = u32 (x + y).
Proof. done. Qed.

Lemma u32_add_l x y : u32 (u32 x + y) = u32 (x + y).
Proof. unfold u32. apply Zplus_mod_idemp_l. Qed.

#[local] Hint Resolve word_u32 : core.

(** Drop the inner reductions of a chain of 32-bit additions. *)
Ltac u32_norm := repeat (rewrite u32_add_l || rewrite <- Z.add_assoc).

Lemma lor_disjoint_add a b n :
  0 <= n -> 0 <= a < 2 ^ n -> Z.lor a (b * 2 ^ n) = a + b * 2 ^ n.
Proof.
  intros Hn Ha. symmetry. apply Z.add_nocarry_lor.
  rewrite <- Z.shiftl_mul_pow2 by lia.
  apply Z.bits_inj'; intros i Hi. rewrite Z.land_spec, Z.bits_0.
  destruct (Z.lt_ge_cases i n) as [Hl|Hl].
  - rewrite (Z.shiftl_spec_low b) by lia. apply andb_false_r.
  - rewrite <- (Z.mod_small a (2 ^ n)) by lia.
    by rewrite Z.mod_pow2_bits_high by lia.
Qed.

Lemma rotr_ROTR x n : word x -> 0 < n < 32 -> rotr x n = ROTR n x.
Proof.
  intros Hx Hn. unfold rotr, ROTR, u32.
  rewrite Z.shiftr_div_pow2, Z.shiftl_mul_pow2 by lia.
  assert (E : 2 ^ 32 = 2 ^ n * 2 ^ (32 - n)) by (rewrite <- Z.pow_add_r by lia; f_equal; lia).
  rewrite E, Zmult_mod_distr_r. apply lor_disjoint_add; [lia|].
  unfold word in Hx. split; [apply Z.div_pos; lia|].
  apply Z.div_lt_upper_bound; lia.
Qed.

Lemma be32_value a b c d l : be32 (a :: b :: c :: d :: l) = be_value [a; b; c; d].
Proof.
  unfold be32, be_value; simpl.
  pose proof (byte_Z_range a); pose proof (byte_Z_range b);
  pose proof (byte_Z_range c); pose proof (byte_Z_range d).
  rewrite (Z.lor_comm _ (byte_Z d)), (Z.lor_comm _ (Z.shiftl (byte_Z c) 8)),
    (Z.lor_comm _ (Z.shiftl (byte_Z b) 16)), !Z.lor_assoc, !Z.shiftl_mul_pow2 by lia.
  rewrite (lor_disjoint_add _ _ 8), (lor_disjoint_add _ _ 16),
    (lor_disjoint_add _ _ 24) by lia.
  lia.
Qed.

Lemma be_value_word p : length p = 4%nat -> word (be_value p).
Proof.
  destruct p as [|a [|b [|c [|d [|]]]]]; try done. intros _. unfold be_value, word; simpl.
  pose proof (byte_Z_range a); pose proof (byte_Z_range b);
  pose proof (byte_Z_range c); pose proof (byte_Z_range d). lia.
Qed.

Lemma be32_drop p i :
  length p = 64%nat -> (i < 16)%nat ->
  be32 (drop (i * 4) p) = be_value (take 4 (drop (i * 4) p)).
Proof.
  intros Hp Hi. assert (H : (4 <= length (drop (i * 4) p))%nat).
  { rewrite length_drop. lia. }
  destruct (drop (i * 4) p) as [|a [|b [|c [|d l]]]]; simpl in H; try lia.
  apply be32_value.
Qed.

Lemma first_words_fips p :
  length p = 64%nat ->
  ((fun i => be32 (drop (i * 4)%nat p)) <$> seq 0 16) = fips_words p.
Proof.
  intros Hp. apply list_fmap_ext. intros ? i Hi.
  apply lookup_seq in Hi as [-> Hi]. apply be32_drop; [done|lia].
Qed.

Lemma fips_words_word p : length p = 64%nat -> Forall word (fips_words p).
Proof.
  intros Hp. apply Forall_fmap, Forall_seq. intros i Hi.
  apply be_value_word. rewrite length_take, length_drop. lia.
Qed.

(** The schedule loop against the recurrence, both started from the same
    words: the code appends, the standard conses. *)
Lemma sched_step_fips w i :
  (16 <= i)%nat -> length w = i -> Forall word w ->
  sched_step w i =
    reverse (fips_W 1 (reverse w)) /\ Forall word (sched_step w i).
Proof.
  intros Hi Hw Hwd. split.
  - unfold sched_step. simpl. rewrite reverse_cons, reverse_involutive. f_equal. f_equal.
    assert (Hl : forall k, (k < i)%nat -> reverse w !!! k = w !!! (i - 1 - k)%nat).
    { intros k Hk. apply list_lookup_total_correct. rewrite reverse_lookup by lia.
      rewrite Hw. replace (i - S k)%nat with (i - 1 - k)%nat by lia.
      apply list_lookup_lookup_total_lt. lia. }
    rewrite !Hl by lia.
    replace (i - 1 - 1)%nat with (i - 2)%nat by lia.
    replace (i - 1 - 6)%nat with (i - 7)%nat by lia.
    replace (i - 1 - 14)%nat with (i - 15)%nat by lia.
    replace (i - 1 - 15)%nat with (i - 16)%nat by lia.
    assert (Hk : forall k, (k < i)%nat -> word (w !!! k)).
    { intros k Hk. eapply Forall_lookup_1; [exact Hwd|].
      apply list_lookup_lookup_total_lt. lia. }
    unfold sigma0, sigma1, SHR. rewrite !rotr_ROTR, !Z.shiftr_div_pow2 by (lia || apply Hk; lia).
    rewrite !add32_u32. u32_norm. f_equal. ring.
  - unfold sched_step. apply Forall_app. auto.
Qed.

Lemma fips_W_S n l : fips_W (S n) l = fips_W n (fips_W 1 l).
Proof. done. Qed.

Lemma schedule_loop n : forall i w,
  (16 <= i)%nat -> length w = i -> Forall word w ->
  foldl sched_step w (seq i n) = reverse (fips_W n (reverse w)) /\
  Forall word (foldl sched_step w (seq i n)).
Proof.
  induction n as [|n IH]; intros i w Hi Hw Hwd.
  - simpl. by rewrite reverse_involutive.
  - cbn [seq foldl]. destruct (sched_step_fips w i) as [E Hwd']; [done..|].
    destruct (IH (S i) (sched_step w i)) as [E2 H2]; [lia| |done|].
    { unfold sched_step. rewrite length_app. simpl. lia. }
    split; [|done]. rewrite E2, E, reverse_involutive. done.
Qed.

Lemma schedule_fips p :
  length p = 64%nat ->
  schedule p = fips_schedule p /\ Forall word (schedule p).
Proof.
  intros Hp. unfold schedule, fips_schedule. rewrite first_words_fips by done.
  apply schedule_loop; [lia| |by apply fips_words_word].
  unfold fips_words. by rewrite length_fmap, length_seq.
Qed.

Definition regs_word (r : regs) : Prop :=
  word (ra r) /\ word (rb r) /\ word (rc r) /\ word (rd r) /\
  word (re r) /\ word (rf r) /\ word (rg r) /\ word (rh r).

Lemma u32_lnot x : word x -> u32 (Z.lnot x) = 2 ^ 32 - 1 - x.
Proof.
  unfold word, u32, Z.lnot. intros H.
  rewrite <- (Z.mod_add (Z.pred (- x)) 1 (2 ^ 32)) by lia.
  rewrite Z.mod_small; lia.
Qed.

Lemma round_fips w r i :
  regs_word r -> round w r i = fips_round w r i /\ regs_word (round w r i).
Proof.
  intros (?&?&?&?&?&?&?&?). split.
  - unfold round, fips_round, Sigma0, Sigma1, Ch, Maj.
    rewrite !rotr_ROTR, u32_lnot by (done || lia).
    rewrite !add32_u32. u32_norm. reflexivity.
  - unfold regs_word; cbn -[word]; auto 12.
Qed.

Lemma rounds_fips w l : forall r,
  regs_word r ->
  foldl (round w) r l = foldl (fips_round w) r l /\ regs_word (foldl (round w) r l).
Proof.
  induction l as [|i l IH]; intros r Hr; [done|].
  simpl. destruct (round_fips w r i Hr) as [E H]. rewrite <- E. by apply IH.
Qed.

Definition hash_state (h : list Z) : Prop := length h = 8%nat /\ Forall word h.

Lemma block_fips h p :
  hash_state h -> length p = 64%nat ->
  block h p = fips_compress h p /\ hash_state (block h p).
Proof.
  intros [Hl Hw] Hp.
  destruct h as [|h0 [|h1 [|h2 [|h3 [|h4 [|h5 [|h6 [|h7 [|]]]]]]]]]; try done.
  destruct (schedule_fips p Hp) as [E _].
  destruct (rounds_fips (schedule p) (seq 0 64) (Regs h0 h1 h2 h3 h4 h5 h6 h7)) as [E2 _].
  { repeat (apply Forall_cons in Hw as [? Hw]). unfold regs_word; cbn -[word]; auto 12. }
  unfold block, fips_compress. cbn -[schedule fips_schedule foldl seq].
  rewrite E2, E. split; [done|]. split; [done|].
  repeat (apply Forall_cons; split; [apply word_u32|]). done.
Qed.

(** ** Streaming *)

Lemma chunks_S n m : chunks (S n) m = chunks n m ++ [take 64 (drop (64 * n) m)].
Proof. unfold chunks. by rewrite seq_S, fmap_app. Qed.

Lemma chunks_app n m l : (64 * n <= length m)%nat -> chunks n (m ++ l) = chunks n m.
Proof.
  intros H. apply list_fmap_ext. intros ? i Hi. apply lookup_seq in Hi as [-> Hi].
  rewrite drop_app_le by lia. rewrite take_app_le; [done|]. rewrite length_drop. lia.
Qed.

(** What a context knows of the bytes [m] fed to it so far. *)
Record feeds (c : ac_sha256_ctx) (m : list byte) : Prop := {
  feeds_h : ctx_h c = foldl block H0 (chunks (length m / 64) m);
  feeds_buflen : ctx_buflen c = (length m mod 64)%nat;
  feeds_size : length (ctx_buf c) = 64%nat;
  feeds_buf : take (ctx_buflen c) (ctx_buf c) = drop (64 * (length m / 64)) m
}.

Lemma length_memcpy_at buf off src :
  (off + length src <= length buf)%nat -> length (memcpy_at buf off src) = length buf.
Proof. intros. unfold memcpy_at. rewrite !length_app, length_take, length_drop. lia. Qed.

Lemma take_memcpy_at buf off src :
  (off + length src <= length buf)%nat ->
  take (off + length src) (memcpy_at buf off src) = take off buf ++ src.
Proof.
  intros. unfold memcpy_at. rewrite app_assoc. apply take_app_length'.
  rewrite length_app, length_take. lia.
Qed.

Lemma div_mod_64 n : (n = 64 * (n / 64) + n mod 64 /\ n mod 64 < 64)%nat.
Proof. split; [apply Nat.div_mod_eq|apply Nat.mod_upper_bound; lia]. Qed.

#[local] Ltac ctx_simpl := cbn [ctx_h ctx_len ctx_buf ctx_buflen ac_sha256_block].

Lemma update_step_feeds c m p :
  feeds c m -> (0 < length p)%nat ->
  let '(c', p') := update_step c p in
  exists q, p = q ++ p' /\ (0 < length q)%nat /\ feeds c' (m ++ q) /\ ctx_len c' = ctx_len c.
Proof.
  intros [Hh Hl Hs Hb] Hp. unfold update_step. cbn [fst snd].
  set (n := Nat.min (64 - ctx_buflen c) (length p)).
  destruct (div_mod_64 (length m)) as [Hd Hm]. rewrite Hl in *.
  exists (take n p). rewrite take_drop, length_take. split; [done|].
  assert (Hn : (0 < n)%nat /\ (n <= length p)%nat /\ (length m mod 64 + n <= 64)%nat) by lia.
  split; [lia|].
  assert (Htn : length (take n p) = n) by (rewrite length_take; lia).
  pose proof (length_memcpy_at (ctx_buf c) (length m mod 64) (take n p) ltac:(lia)) as Hsz.
  pose proof (take_memcpy_at (ctx_buf c) (length m mod 64) (take n p) ltac:(lia)) as Htk.
  rewrite Htn in Htk.
  cbn [ctx_buflen]. destruct (Nat.eqb_spec (length m mod 64 + n) 64) as [E|E];
    (split; [|done]).
  - assert (Hq : (length (m ++ take n p) = 64 * S (length m / 64))%nat)
      by (rewrite length_app; lia).
    assert (Hq' : (length (m ++ take n p) / 64 = S (length m / 64))%nat)
      by (rewrite Hq, Nat.mul_comm; apply Nat.div_mul; lia).
    assert (Hr : (length (m ++ take n p) mod 64 = 0)%nat)
      by (rewrite Hq, Nat.mul_comm; apply Nat.Div0.mod_mul).
    rewrite E, take_ge in Htk by lia.
    split; ctx_simpl; rewrite ?Hq', ?Hr; [|done|lia|].
    + rewrite chunks_S, chunks_app, foldl_app by lia. cbn [foldl].
      rewrite Hh. f_equal. rewrite drop_app_le by lia. rewrite Htk, Hb.
      symmetry. apply take_ge. rewrite length_app, length_drop. lia.
    + rewrite drop_ge; [done|]. rewrite Hq. lia.
  - assert (Hq' : (length (m ++ take n p) / 64 = length m / 64)%nat).
    { symmetry. apply (Nat.div_unique _ _ _ (length m mod 64 + n)); rewrite ?length_app; lia. }
    assert (Hr : (length (m ++ take n p) mod 64 = length m mod 64 + n)%nat).
    { symmetry. apply (Nat.mod_unique _ _ (length m / 64)); rewrite ?length_app; lia. }
    split; ctx_simpl; rewrite ?Hq', ?Hr; [|done|lia|].
    + by rewrite chunks_app by lia.
    + rewrite Htk, Hb, drop_app_le by lia. done.
Qed.

Lemma update_loop_feeds fuel : forall c m p,
  feeds c m -> (length p <= fuel)%nat ->
  feeds (update_loop fuel c p) (m ++ p) /\ ctx_len (update_loop fuel c p) = ctx_len c.
Proof.
  induction fuel as [|fuel IH]; intros c m p Hc Hf.
  - destruct p; simpl in *; [|lia]. by rewrite app_nil_r.
  - destruct p as [|x p]; [simpl; by rewrite app_nil_r|].
    pose proof (update_step_feeds c m (x :: p) Hc ltac:(simpl; lia)) as H.
    cbn [update_loop]. destruct (update_step c (x :: p)) as [c' p'].
    destruct H as (q & E & Hq & Hc' & Hlen).
    apply (f_equal length) in E as El. rewrite length_app in El. simpl in El, Hf.
    rewrite E, app_assoc, <- Hlen. apply IH; [done|lia].
Qed.

Lemma update_feeds c m p :
  feeds c m -> ctx_len c = u64 (Z.of_nat (length m)) ->
  feeds (ac_sha256_update c p) (m ++ p) /\
  ctx_len (ac_sha256_update c p) = u64 (Z.of_nat (length (m ++ p))).
Proof.
  intros [] Hl. unfold ac_sha256_update.
  destruct (update_loop_feeds (length p)
    (Ctx (ctx_h c) (u64 (ctx_len c + Z.of_nat (length p))) (ctx_buf c) (ctx_buflen c)) m p)
    as [Hf ->]; [by split|done|].
  split; [done|]. ctx_simpl. rewrite Hl, length_app, Nat2Z.inj_add.
  unfold u64. by rewrite Zplus_mod_idemp_l.
Qed.

Lemma init_feeds buf : length buf = 64%nat -> feeds (ac_sha256_init buf) [].
Proof. by split. Qed.

Lemma updates_feeds chunks_in : forall c m,
  feeds c m -> ctx_len c = u64 (Z.of_nat (length m)) ->
  let c' := foldl ac_sha256_update c chunks_in in
  feeds c' (m ++ mjoin chunks_in) /\
  ctx_len c' = u64 (Z.of_nat (length (m ++ mjoin chunks_in))).
Proof.
  induction chunks_in as [|p l IH]; intros c m Hc Hl; simpl.
  - by rewrite app_nil_r.
  - destruct (update_feeds c m p Hc Hl) as [Hc' Hl'].
    rewrite app_assoc. by apply IH.
Qed.

(** The padding loop stops with [buflen = 56] after exactly
    [(55 - (length m - 1)) mod 64] zero bytes. *)
Lemma pad_loop_feeds k : forall fuel c m,
  feeds c m -> ctx_len c = u64 (Z.of_nat (length m)) ->
  Z.of_nat k = (56 - Z.of_nat (length m)) mod 64 -> (k <= fuel)%nat ->
  feeds (pad_loop fuel c) (m ++ replicate k x00) /\
  ctx_len (pad_loop fuel c) = u64 (Z.of_nat (length (m ++ replicate k x00))).
Proof.
  induction k as [|k IH]; intros fuel c m Hc Hl Hk Hf.
  - assert (E : ctx_buflen c = 56%nat).
    { rewrite (feeds_buflen _ _ Hc). lia_mod. }
    simpl. rewrite app_nil_r. destruct fuel; simpl; rewrite ?E; done.
  - assert (E : (ctx_buflen c =? 56)%nat = false).
    { apply Nat.eqb_neq. rewrite (feeds_buflen _ _ Hc). intros E.
      lia_mod. }
    destruct fuel as [|fuel]; [lia|]. cbn [pad_loop]. rewrite E.
    destruct (update_feeds c m [x00] Hc Hl) as [Hc' Hl'].
    change (replicate (S k) x00) with ([x00] ++ replicate k x00). rewrite app_assoc.
    apply IH; [done|done| |lia]. rewrite length_app. simpl. lia_mod.
Qed.

Lemma Z_byte_u8 z : Z_byte z = Z_byte (u8 z).
Proof. unfold Z_byte, u8. by rewrite Z.mod_mod by lia. Qed.

(** The stored length is the low 64 bits, which are all [be_bytes 8] looks at. *)
Lemma be_bytes_u64 z : be_bytes 8 (u64 z) = be_bytes 8 z.
Proof.
  apply list_fmap_ext. intros i x Hi. apply lookup_seq in Hi as [-> Hi].
  rewrite Z_byte_u8, (Z_byte_u8 (Z.shiftr z _)). f_equal. unfold u8, u64.
  apply Z.bits_inj'. intros j Hj. destruct (Z.lt_ge_cases j 8).
  - rewrite !Z.mod_pow2_bits_low by lia. rewrite !Z.shiftr_spec by lia.
    rewrite Z.mod_pow2_bits_low; [done|]. lia.
  - by rewrite !Z.mod_pow2_bits_high by lia.
Qed.

Lemma final_feeds c m :
  feeds c m -> ctx_len c = u64 (Z.of_nat (length m)) ->
  ac_sha256_final c =
    mjoin (be_bytes 4 <$> foldl block H0 (chunks (length (fips_pad m) / 64) (fips_pad m))).
Proof.
  intros Hc Hl. unfold ac_sha256_final.
  replace (be_bytes 8 (u64 (ctx_len c * 8))) with (be_bytes 8 (8 * Z.of_nat (length m))).
  2:{ rewrite be_bytes_u64, <- be_bytes_u64, <- (be_bytes_u64 (_ * 8)), Hl.
      f_equal. unfold u64. rewrite Zmult_mod_idemp_l. f_equal. lia. }
  destruct (update_feeds c m [x80] Hc Hl) as [H1 L1].
  set (k := Z.to_nat ((55 - Z.of_nat (length m)) mod 64)).
  destruct (pad_loop_feeds k 64 _ _ H1 L1) as [H2 L2].
  { unfold k. rewrite length_app. simpl length. rewrite Z2Nat.id by (apply Z.mod_pos_bound; lia).
    f_equal. lia. }
  { unfold k. pose proof (Z.mod_pos_bound (55 - Z.of_nat (length m)) 64). lia. }
  destruct (update_feeds _ _ (be_bytes 8 (8 * Z.of_nat (length m))) H2 L2) as [H3 _].
  rewrite (feeds_h _ _ H3). unfold fips_pad. fold k.
  rewrite <- !app_assoc. reflexivity.
Qed.

Lemma foldl_block_fips l : forall h,
  hash_state h -> Forall (fun p => length p = 64%nat) l ->
  foldl block h l = foldl fips_compress h l.
Proof.
  induction l as [|p l IH]; intros h Hh Hl; [done|].
  apply Forall_cons in Hl as [Hp Hl]. simpl.
  destruct (block_fips h p Hh Hp) as [<- Hh']. by apply IH.
Qed.

Lemma chunks_length n m :
  (64 * n <= length m)%nat -> Forall (fun p => length p = 64%nat) (chunks n m).
Proof.
  intros H. apply Forall_fmap, Forall_seq. intros i Hi.
  unfold compose. rewrite length_take, length_drop. lia.
Qed.

Lemma H0_state : hash_state H0.
Proof. split; [done|]. repeat (apply Forall_cons; split; [unfold word; lia|]). done. Qed.

Lemma final_fips c m :
  feeds c m -> ctx_len c = u64 (Z.of_nat (length m)) -> ac_sha256_final c = fips_sha256 m.
Proof.
  intros Hc Hl. rewrite (final_feeds c m Hc Hl). unfold fips_sha256.
  rewrite foldl_block_fips; [done|apply H0_state|].
  apply chunks_length. apply Nat.Div0.mul_div_le.
Qed.

Lemma foldl_compress_state l : forall h,
  hash_state h -> Forall (fun p => length p = 64%nat) l -> hash_state (foldl fips_compress h l).
Proof.
  induction l as [|p l IH]; intros h Hh Hl; [done|].
  apply Forall_cons in Hl as [Hp Hl]. simpl.
  destruct (block_fips h p Hh Hp) as [<- Hh']. by apply IH.
Qed.

(** A digest is 32 bytes, and its text 64 hexadecimal digits. *)
Lemma fips_sha256_length m : length (fips_sha256 m) = 32%nat.
Proof.
  unfold fips_sha256.
  destruct (foldl_compress_state (chunks (length (fips_pad m) / 64) (fips_pad m)) H0 H0_state) as [Hl _];
    [apply chunks_length, Nat.Div0.mul_div_le|].
  destruct (foldl _ _ _) as [|h0 [|h1 [|h2 [|h3 [|h4 [|h5 [|h6 [|h7 [|]]]]]]]]]; try done.
Qed.

Lemma hex_of_length d : length (hex_of d) = (2 * length d)%nat.
Proof.
  induction d as [|b d IH]; [done|].
  change (hex_of (b :: d)) with
    ([hex_digit (Z.shiftr (byte_Z b) 4); hex_digit (Z.land (byte_Z b) 15)] ++ hex_of d).
  rewrite length_app, IH. simpl. lia.
Qed.

(** ** Properties *)

(** C15: however the message is cut into [update] calls, and whatever the stack
    held in the context's buffer before [init], the streaming hash returns the
    FIPS 180-4 digest of the whole message: [init]; [update] on each piece;
    [final]. *)
Theorem sha256_streaming_correct (buf : list byte) (pieces : list (list byte)) :
  length buf = 64%nat ->
  ac_sha256_final (foldl ac_sha256_update (ac_sha256_init buf) pieces) =
    fips_sha256 (mjoin pieces).
Proof.
  intros Hb.
  destruct (updates_feeds pieces (ac_sha256_init buf) [] (init_feeds buf Hb) eq_refl) as [Hf Hl].
  by apply final_fips.
Qed.

Lemma sha256_streaming_correct_witness :
  length (replicate 64 xff) = 64%nat /\
  ac_sha256_final (foldl ac_sha256_update (ac_sha256_init (replicate 64 xff))
    [bs "a"; []; bs "bc"]) = fips_sha256 (bs "abc").
Proof.
  split; [reflexivity|].
  apply (sha256_streaming_correct (replicate 64 xff) [bs "a"; []; bs "bc"]). reflexivity.
Defined.

(** Known answers. *)
Example sha256_abc : ac_sha256_hex (replicate 64 x00) (bs "abc") =
  bs "ba7816bf8f01cfea414140de5dae2223b00361a396177a9cb410ff61f20015ad".
Proof. vm_compute. reflexivity. Qed.

Example sha256_empty : ac_sha256_hex (replicate 64 xff) [] =
  bs "e3b0c44298fc1c149afbf4c8996fb92427ae41e4649b934ca495991b7852b855".
Proof. vm_compute. reflexivity. Qed.
