(* ===== verification/Ring.v ===== *)
(** * The event ring buffer (src/anticheat_module.c, "event ring buffer")

    The fixed ring of 256 security events that every probe and check of the
    module writes ([ac_emit]) and the daemon drains ([ac_drain_events]), and
    its refinement to a bounded FIFO queue that drops its oldest element. *)

From Stdlib Require Import ZArith Lia.
From stdpp Require Import base numbers list strings.
From S2P Require Import Prelude Abi.

Definition AC_RING_SIZE : nat := 256.

(** [ac_ring], [ac_ring_head], [ac_ring_tail], [ac_ring_count], [ac_dropped]. *)
Record ring := Ring {
  rg_slots : list ac_event;
  rg_head : nat;
  rg_tail : nat;
  rg_count : nat;
  rg_dropped : Z
}.

(** Static storage: all zero. *)
Definition ring_init : ring := Ring (replicate AC_RING_SIZE (Event 0 0 [] 0 [])) 0 0 0 0.

(** The event [ac_emit] fills in: [comm] through [strscpy] ([NULL] becomes
    ["?"]), the formatted text through [vsnprintf]. *)
Definition mk_event (ts : Z) (type : ac_ev_type) (pid : Z) (comm : option cstring)
    (text : cstring) : ac_event :=
  Event ts pid (strscpy AC_MAX_COMM (default (bs "?") comm)) (ev_code type)
    (snprintf AC_EVENT_DATA text).

(** [ac_emit], for the event it stores. *)
Definition ac_emit (ev : ac_event) (r : ring) : ring :=
  let r := if (AC_RING_SIZE <=? rg_count r)%nat then
             Ring (rg_slots r) (rg_head r) ((rg_tail r + 1) mod AC_RING_SIZE)
               (rg_count r - 1) (u32 (rg_dropped r + 1))
           else r in
  Ring (<[rg_head r := ev]> (rg_slots r)) ((rg_head r + 1) mod AC_RING_SIZE)
    (rg_tail r) (rg_count r + 1) (rg_dropped r).

(** The [while] loop of [ac_drain_events]; [has_out] is [out != NULL] and [acc]
    is [out->events[0 .. out->count)].  Every iteration decrements
    [ac_ring_count], which is therefore enough fuel. *)
Fixpoint drain_loop (fuel : nat) (has_out : bool) (acc : list ac_event) (r : ring)
    : list ac_event * ring :=
  match fuel with
  | O => (acc, r)
  | S fuel =>
      if (0 <? rg_count r)%nat && (negb has_out || (length acc <? AC_MAX_EVENTS)%nat) then
        drain_loop fuel has_out
          (if has_out then acc ++ [rg_slots r !!! rg_tail r] else acc)
          (Ring (rg_slots r) (rg_head r) ((rg_tail r + 1) mod AC_RING_SIZE)
             (rg_count r - 1) (rg_dropped r))
      else (acc, r)
  end.

(** [ac_drain_events(out)] and [ac_drain_events(NULL)]; both return 0. *)
Definition ac_drain_events (r : ring) : ac_event_list * ring :=
  let '(evs, r') := drain_loop (rg_count r) true [] r in
  (EventList (Z.of_nat (length evs)) (rg_dropped r) evs, r').

Definition ac_flush_events (r : ring) : ring := (drain_loop (rg_count r) false [] r).2.

(** ** The abstract queue *)

(** The queued events, oldest first. *)
Definition contents (r : ring) : list ac_event :=
  (fun i => rg_slots r !!! ((rg_tail r + i) mod AC_RING_SIZE)%nat) <$> seq 0 (rg_count r).

Record ring_inv (r : ring) : Prop := {
  ri_slots : length (rg_slots r) = AC_RING_SIZE;
  ri_tail : (rg_tail r < AC_RING_SIZE)%nat;
  ri_count : (rg_count r <= AC_RING_SIZE)%nat;
  ri_head : rg_head r = ((rg_tail r + rg_count r) mod AC_RING_SIZE)%nat;
  ri_dropped : 0 <= rg_dropped r < 2 ^ 32
}.

Definition queue_push (q : list ac_event) (ev : ac_event) : list ac_event :=
  (if (AC_RING_SIZE <=? length q)%nat then tail q else q) ++ [ev].

Definition queue_drops (q : list ac_event) : Z :=
  if (AC_RING_SIZE <=? length q)%nat then 1 else 0.

(** A history of calls, what [ac_drain_events] delivered to its callers, and
    what was emitted. *)
Inductive ring_op := REmit (ev : ac_event) | RDrain | RFlush.

Fixpoint ring_run (ops : list ring_op) (r : ring) : list ac_event * ring :=
  match ops with
  | [] => ([], r)
  | REmit ev :: ops => ring_run ops (ac_emit ev r)
  | RDrain :: ops =>
      let '(el, r) := ac_drain_events r in
      let '(d, r) := ring_run ops r in (el_events el ++ d, r)
  | RFlush :: ops => ring_run ops (ac_flush_events r)
  end.

Definition emitted (ops : list ring_op) : list ac_event :=
  omap (fun o => match o with REmit ev => Some ev | _ => None end) ops.

(** ** Lemmas *)

Lemma length_contents r : length (contents r) = rg_count r.
Proof. unfold contents. by rewrite length_fmap, length_seq. Qed.

Lemma ring_init_inv : ring_inv ring_init.
Proof. split; simpl; try done; unfold AC_RING_SIZE; lia. Qed.

Lemma contents_init : contents ring_init = [].
Proof. done. Qed.

(** Storing at the head appends; the slot is outside the queued range. *)
Lemma contents_store slots head tl n d ev :
  length slots = AC_RING_SIZE -> (tl < AC_RING_SIZE)%nat -> (n < AC_RING_SIZE)%nat ->
  head = ((tl + n) mod AC_RING_SIZE)%nat ->
  contents (Ring (<[head := ev]> slots) ((head + 1) mod AC_RING_SIZE) tl (n + 1) d)
  = contents (Ring slots head tl n d) ++ [ev].
Proof.
  intros Hs Ht Hn ->. unfold contents. cbn [rg_slots rg_tail rg_count].
  rewrite Nat.add_1_r, seq_S, fmap_app. cbn [fmap list_fmap Nat.add]. f_equal.
  - apply list_fmap_ext. intros i x Hi. apply lookup_seq in Hi as [-> Hi].
    rewrite list_lookup_total_insert_ne; [done|]. unfold AC_RING_SIZE in *. lia_mod.
  - f_equal. apply list_lookup_total_insert_eq. rewrite Hs.
    apply Nat.mod_upper_bound. unfold AC_RING_SIZE. lia.
Qed.

(** Advancing the tail removes the oldest event. *)
Lemma contents_advance r d :
  (0 < rg_count r)%nat ->
  contents r =
    rg_slots r !!! (rg_tail r mod AC_RING_SIZE)%nat ::
    contents (Ring (rg_slots r) (rg_head r) ((rg_tail r + 1) mod AC_RING_SIZE)
               (rg_count r - 1) d).
Proof.
  intros Hn. unfold contents. destruct r as [sl hd tl [|n] d']; simpl in *; [lia|].
  rewrite Nat.add_0_r, Nat.sub_0_r. f_equal. rewrite <- fmap_S_seq, <- list_fmap_compose.
  apply list_fmap_ext. intros i x _. unfold compose. f_equal.
  rewrite Nat.Div0.add_mod_idemp_l. f_equal. lia.
Qed.

Lemma advance_inv r d :
  ring_inv r -> (0 < rg_count r)%nat -> 0 <= d < 2 ^ 32 ->
  ring_inv (Ring (rg_slots r) (rg_head r) ((rg_tail r + 1) mod AC_RING_SIZE)
             (rg_count r - 1) d).
Proof.
  intros [] Hn Hd. split; simpl; try done.
  - apply Nat.mod_upper_bound. unfold AC_RING_SIZE. lia.
  - lia.
  - rewrite ri_head0, Nat.Div0.add_mod_idemp_l. f_equal. lia.
Qed.

Lemma ac_emit_refines ev r :
  ring_inv r ->
  ring_inv (ac_emit ev r) /\
  contents (ac_emit ev r) = queue_push (contents r) ev /\
  rg_dropped (ac_emit ev r) = u32 (rg_dropped r + queue_drops (contents r)).
Proof.
  intros H. pose proof H as []. unfold ac_emit, queue_push, queue_drops.
  rewrite length_contents.
  assert (Hst : forall r', ring_inv r' -> (rg_count r' < AC_RING_SIZE)%nat ->
    ring_inv (Ring (<[rg_head r' := ev]> (rg_slots r')) ((rg_head r' + 1) mod AC_RING_SIZE)
               (rg_tail r') (rg_count r' + 1) (rg_dropped r'))).
  { intros r' [] Hc. split; simpl; try done; [by rewrite length_insert|lia|].
    rewrite ri_head1, Nat.Div0.add_mod_idemp_l. f_equal. lia. }
  destruct (Nat.leb_spec AC_RING_SIZE (rg_count r)) as [Hc|Hc].
  - assert (Ha := advance_inv r (u32 (rg_dropped r + 1)) H ltac:(unfold AC_RING_SIZE in *; lia)
      ltac:(unfold u32; apply Z.mod_pos_bound; lia)).
    split; [|split].
    + apply (Hst _ Ha). simpl. unfold AC_RING_SIZE in *. lia.
    + destruct Ha. simpl in *. rewrite contents_store by (done || unfold AC_RING_SIZE in *; lia).
      rewrite (contents_advance r (u32 (rg_dropped r + 1))) by (unfold AC_RING_SIZE in *; lia). done.
    + done.
  - split; [|split]; [by apply Hst| |].
    + destruct r; simpl in *. by apply contents_store.
    + cbn. rewrite Z.add_0_r. symmetry. unfold u32. by rewrite Z.mod_small.
Qed.

Lemma drain_loop_spec fuel : forall (has_out : bool) acc r,
  ring_inv r -> (rg_count r <= fuel)%nat ->
  let k := if has_out then Nat.min (rg_count r) (AC_MAX_EVENTS - length acc) else rg_count r in
  let '(evs, r') := drain_loop fuel has_out acc r in
  ring_inv r' /\ contents r' = drop k (contents r) /\ rg_dropped r' = rg_dropped r /\
  evs = if has_out then acc ++ take k (contents r) else acc.
Proof.
  induction fuel as [|fuel IH]; intros has_out acc r Hr Hf k.
  - simpl. assert (contents r = []) as E.
    { apply (nil_length_inv (contents r)). rewrite length_contents. lia. }
    rewrite E, drop_nil, take_nil, app_nil_r. by destruct has_out.
  - cbn [drain_loop]. destruct (Nat.ltb_spec 0 (rg_count r)) as [Hc|Hc]; simpl.
    2:{ assert (contents r = []) as E. { apply (nil_length_inv (contents r)). rewrite length_contents. lia. }
        rewrite E, drop_nil, take_nil, app_nil_r. by destruct has_out. }
    destruct (negb has_out || (length acc <? AC_MAX_EVENTS)%nat) eqn:Hg.
    + assert (Ha := advance_inv r (rg_dropped r) Hr Hc (ri_dropped r Hr)).
      specialize (IH has_out (if has_out then acc ++ [rg_slots r !!! rg_tail r] else acc)
        _ Ha ltac:(simpl; lia)). cbn zeta in IH.
      destruct (drain_loop _ _ _ _) as [evs r']. destruct IH as (H1 & H2 & H3 & H4).
      split; [done|]. rewrite H2, H3, H4, (contents_advance r (rg_dropped r) Hc).
      rewrite (Nat.mod_small (rg_tail r)) by apply (ri_tail r Hr). simpl rg_count.
      destruct has_out; simpl in Hg.
      * apply Nat.ltb_lt in Hg. rewrite length_app. simpl.
        assert (k = S (Nat.min (rg_count r - 1) (AC_MAX_EVENTS - (length acc + 1)))) as -> by lia.
        simpl. by rewrite <- app_assoc.
      * assert (k = S (rg_count r - 1)) as -> by lia. done.
    + destruct has_out; [|done]. simpl in Hg. apply Nat.ltb_ge in Hg.
      assert (k = 0%nat) as -> by lia. by rewrite drop_0, take_0, app_nil_r.
Qed.

Lemma ac_drain_refines r :
  ring_inv r ->
  let '(el, r') := ac_drain_events r in
  ring_inv r' /\ el_events el = take AC_MAX_EVENTS (contents r) /\
  contents r' = drop AC_MAX_EVENTS (contents r) /\
  el_count el = Z.of_nat (length (el_events el)) /\
  el_dropped el = rg_dropped r /\ rg_dropped r' = rg_dropped r.
Proof.
  intros Hr. unfold ac_drain_events.
  pose proof (drain_loop_spec (rg_count r) true [] r Hr ltac:(lia)) as H.
  destruct (drain_loop _ _ _ _) as [evs r']. destruct H as (H1 & H2 & H3 & H4). simpl in *.
  rewrite ?Nat.sub_0_r, <- ?length_contents in *. change 64%nat with AC_MAX_EVENTS in *.
  assert (evs = take AC_MAX_EVENTS (contents r)) as ->.
  { rewrite H4. destruct (Nat.le_ge_cases (length (contents r)) AC_MAX_EVENTS).
    - rewrite Nat.min_l by lia. rewrite !take_ge by lia. done.
    - by rewrite Nat.min_r by lia. }
  split_and!; try done. rewrite H2.
  destruct (Nat.le_ge_cases (length (contents r)) AC_MAX_EVENTS).
  - rewrite Nat.min_l by lia. by rewrite !drop_ge by lia.
  - by rewrite Nat.min_r by lia.
Qed.

Lemma ac_flush_refines r :
  ring_inv r ->
  ring_inv (ac_flush_events r) /\ contents (ac_flush_events r) = [] /\
  rg_dropped (ac_flush_events r) = rg_dropped r.
Proof.
  intros Hr. unfold ac_flush_events.
  pose proof (drain_loop_spec (rg_count r) false [] r Hr ltac:(lia)) as H.
  destruct (drain_loop _ _ _ _) as [evs r']. destruct H as (H1 & H2 & H3 & _).
  cbn [snd]. split_and!; try done. rewrite H2. apply drop_ge. by rewrite length_contents.
Qed.

Lemma ring_run_sound ops : forall r,
  ring_inv r ->
  let '(d, r') := ring_run ops r in
  ring_inv r' /\ d ++ contents r' `sublist_of` contents r ++ emitted ops.
Proof.
  induction ops as [|[ev| |] ops IH]; intros r Hr; cbn [ring_run].
  - split; [done|]. by rewrite app_nil_r.
  - destruct (ac_emit_refines ev r Hr) as (H1 & H2 & _).
    specialize (IH _ H1). destruct (ring_run ops _) as [d r'].
    destruct IH as [? IH]. split; [done|]. etrans; [exact IH|].
    rewrite H2. unfold queue_push. cbn [emitted omap list_omap]. rewrite <- app_assoc.
    apply sublist_app; [|done]. destruct (AC_RING_SIZE <=? length (contents r))%nat; [|done].
    destruct (contents r); [done|]. by apply sublist_cons.
  - pose proof (ac_drain_refines r Hr) as H. destruct (ac_drain_events r) as [el r1].
    destruct H as (H1 & H2 & H3 & _). specialize (IH _ H1).
    destruct (ring_run ops r1) as [d r']. destruct IH as [? IH]. split; [done|].
    rewrite H2, <- app_assoc. etrans; [apply sublist_app; [reflexivity|exact IH]|].
    rewrite H3, app_assoc, take_drop. done.
  - destruct (ac_flush_refines r Hr) as (H1 & H2 & _). specialize (IH _ H1).
    destruct (ring_run ops _) as [d r']. destruct IH as [? IH]. split; [done|].
    etrans; [exact IH|]. rewrite H2. cbn. by apply sublist_inserts_l.
Qed.

Lemma foldl_queue_push es : forall q,
  (length q <= AC_RING_SIZE)%nat ->
  foldl queue_push q es = drop (length (q ++ es) - AC_RING_SIZE) (q ++ es).
Proof.
  induction es as [|e es IH]; intros q Hq; simpl.
  - rewrite app_nil_r. replace (length q - AC_RING_SIZE)%nat with 0%nat by lia. done.
  - assert (Hp : (length (queue_push q e) <= AC_RING_SIZE)%nat).
    { unfold queue_push. destruct (Nat.leb_spec AC_RING_SIZE (length q));
        rewrite length_app; simpl; [|unfold AC_RING_SIZE in *; lia].
      destruct q; simpl in *; unfold AC_RING_SIZE in *; lia. }
    rewrite (IH _ Hp). unfold queue_push.
    destruct (Nat.leb_spec AC_RING_SIZE (length q)); rewrite <- app_assoc; [|done].
    destruct q as [|x q]; [unfold AC_RING_SIZE in *; simpl in *; lia|].
    cbn [app tail length] in *.
    assert (E : (S (length (q ++ e :: es)) - AC_RING_SIZE =
                 S (length (q ++ e :: es) - AC_RING_SIZE))%nat).
    { rewrite length_app. cbn [length]. lia. }
    by rewrite E.
Qed.

Lemma emits_refine es : forall r,
  ring_inv r ->
  let r' := foldl (fun r e => ac_emit e r) r es in
  ring_inv r' /\ contents r' = foldl queue_push (contents r) es /\
  rg_dropped r' =
    u32 (rg_dropped r + Z.of_nat (length (contents r) + length es - AC_RING_SIZE)).
Proof.
  induction es as [|e es IH]; intros r Hr; simpl.
  - pose proof (ri_count r Hr). pose proof (ri_dropped r Hr). rewrite length_contents.
    split_and!; try done. replace (_ + 0 - _)%nat with 0%nat by lia. rewrite Z.add_0_r.
    unfold u32. by rewrite Z.mod_small.
  - destruct (ac_emit_refines e r Hr) as (H1 & H2 & H3).
    destruct (IH _ H1) as (H4 & H5 & H6). split_and!; [done|by rewrite H5, H2|].
    pose proof (ri_count r Hr) as Hc. rewrite H6, H3, H2. unfold u32.
    rewrite Zplus_mod_idemp_l. f_equal. rewrite <- Z.add_assoc. f_equal.
    unfold queue_push, queue_drops. rewrite <- length_contents in Hc.
    destruct (Nat.leb_spec AC_RING_SIZE (length (contents r))); rewrite length_app; simpl.
    + destruct (contents r); simpl in *; unfold AC_RING_SIZE in *; lia.
    + unfold AC_RING_SIZE in *. lia.
Qed.

(** ** Properties *)

(** C12: the ring refines a bounded FIFO queue.  On every ring that satisfies
    the invariant (indices in range, [head = tail + count]), [ac_emit] appends
    the event, dropping the oldest of 256 and counting the drop; a drain hands
    out the oldest (at most 64) events in order with their number and the
    drop counter and leaves the rest queued; a flush empties the ring.  Each
    re-establishes the invariant. *)
Theorem ring_refines_queue (r : ring) (ev : ac_event) :
  ring_inv r ->
  (ring_inv (ac_emit ev r) /\
   contents (ac_emit ev r) = queue_push (contents r) ev /\
   rg_dropped (ac_emit ev r) = u32 (rg_dropped r + queue_drops (contents r))) /\
  (let '(el, r') := ac_drain_events r in
   ring_inv r' /\ el_events el = take AC_MAX_EVENTS (contents r) /\
   contents r' = drop AC_MAX_EVENTS (contents r) /\
   el_count el = Z.of_nat (length (el_events el)) /\
   el_dropped el = rg_dropped r /\ rg_dropped r' = rg_dropped r) /\
  (ring_inv (ac_flush_events r) /\ contents (ac_flush_events r) = [] /\
   rg_dropped (ac_flush_events r) = rg_dropped r).
Proof.
  intros Hr. split; [by apply ac_emit_refines|].
  split; [by apply ac_drain_refines|by apply ac_flush_refines].
Qed.

Lemma ring_refines_queue_witness :
  ring_inv ring_init /\ contents (ac_emit (Event 1 2 [] 3 []) ring_init) = [Event 1 2 [] 3 []].
Proof.
  split; [exact ring_init_inv|].
  destruct (ring_refines_queue ring_init (Event 1 2 [] 3 []) ring_init_inv)
    as ((_ & -> & _) & _). reflexivity.
Defined.

(** Nothing is invented, duplicated or reordered: over any history of
    emissions, drains and flushes starting from the loaded module's empty
    ring, what the drains delivered followed by what is still queued is a
    subsequence of what was emitted; and after a burst of emissions exactly
    the most recent 256 are queued and the drop counter counts the others
    (modulo 2^32). *)
Theorem ring_delivery (ops : list ring_op) (es : list ac_event) :
  (let '(delivered, r) := ring_run ops ring_init in
   ring_inv r /\ delivered ++ contents r `sublist_of` emitted ops) /\
  (let r := foldl (fun r e => ac_emit e r) ring_init es in
   contents r = drop (length es - AC_RING_SIZE) es /\
   rg_dropped r = u32 (Z.of_nat (length es - AC_RING_SIZE))).
Proof.
  split; [apply (ring_run_sound ops ring_init ring_init_inv)|].
  destruct (emits_refine es ring_init ring_init_inv) as (_ & H1 & H2). simpl.
  rewrite H1, H2, contents_init. rewrite foldl_queue_push by (simpl; lia). done.
Qed.
