(* ===== verification/SlotTable.v ===== *)
(** * Fixed tables of slots

    The module's registry and four tables of the daemon are arrays of slots
    that are free or taken by a key, searched linearly for a key while
    remembering the first free slot.  This file has the search and the
    refinement of such a table to a finite map, for any slot type. *)

From Stdlib Require Import ZArith Lia.
From stdpp Require Import base numbers list gmap.
From S2P Require Import Prelude.

Set Default Proof Using "Type".

Section table.
Context {E K V : Type} `{Countable K}.
(** The key of a taken slot, and what the slot records. *)
Context (key : E -> option K) (val : E -> V).

(** The search: the index of the slot of [k], or else the first free slot. *)
Fixpoint slot_search (i : nat) (ps : list E) (k : K) (free : option nat) : nat + option nat :=
  match ps with
  | [] => inr free
  | p :: ps =>
      if decide (key p = Some k) then inl i
      else slot_search (S i) ps k
             (match key p, free with None, None => Some i | _, _ => free end)
  end.

(** The taken slots as a map. *)
Definition slot_kv (p : E) : option (K * V) := (fun k => (k, val p)) <$> key p.
Definition slot_keys (ps : list E) : list K := omap key ps.
Definition slot_map (ps : list E) : gmap K V := list_to_map (omap slot_kv ps).

Lemma omap_slot_kv ps : (omap slot_kv ps).*1 = slot_keys ps.
Proof.
  induction ps as [|p ps IH]; [done|]. unfold slot_keys in *. cbn. unfold slot_kv at 1.
  destruct (key p); cbn; [by rewrite <- IH|done].
Qed.

Lemma slot_keys_cons p ps :
  slot_keys (p :: ps) = match key p with Some k => k :: slot_keys ps | None => slot_keys ps end.
Proof. done. Qed.

Lemma slot_map_cons p ps :
  slot_map (p :: ps) =
  match key p with Some k => <[k := val p]> (slot_map ps) | None => slot_map ps end.
Proof. unfold slot_map, slot_kv. cbn. by destruct (key p). Qed.

Lemma slot_keys_app l1 l2 : slot_keys (l1 ++ l2) = slot_keys l1 ++ slot_keys l2.
Proof. apply omap_app. Qed.

Lemma slot_map_perm ps qs : NoDup (slot_keys ps) -> ps ≡ₚ qs -> slot_map ps = slot_map qs.
Proof.
  intros Hn Hp. apply list_to_map_proper; [by rewrite omap_slot_kv|]. by rewrite Hp.
Qed.

Lemma slot_map_dom ps k : is_Some (slot_map ps !! k) <-> k ∈ slot_keys ps.
Proof.
  rewrite <- omap_slot_kv. unfold slot_map.
  rewrite <- (elem_of_dom (D := gset K)), dom_list_to_map_L, elem_of_list_to_set. done.
Qed.

Lemma slot_map_None ps k : k ∉ slot_keys ps -> slot_map ps !! k = None.
Proof. rewrite <- slot_map_dom. apply eq_None_not_Some. Qed.

Lemma slot_map_size ps : NoDup (slot_keys ps) -> size (slot_map ps) = length (slot_keys ps).
Proof.
  intros Hn. unfold slot_map. rewrite map_size_list_to_map by (by rewrite omap_slot_kv).
  by rewrite <- omap_slot_kv, length_fmap.
Qed.

Lemma slot_keys_length ps : (length (slot_keys ps) <= length ps)%nat.
Proof. apply omap_length_le. Qed.

Lemma slot_search_spec ps k : forall i free,
  match slot_search i ps k free with
  | inl j => exists l1 p l2, ps = l1 ++ p :: l2 /\ j = (i + length l1)%nat /\ key p = Some k
  | inr s =>
      k ∉ slot_keys ps /\
      match free, s with
      | Some _, _ => s = free
      | None, None => length (slot_keys ps) = length ps
      | None, Some j =>
          exists l1 p l2, ps = l1 ++ p :: l2 /\ j = (i + length l1)%nat /\ key p = None
      end
  end.
Proof.
  clear val V. induction ps as [|p ps IH]; intros i free; cbn [slot_search].
  { split; [set_solver|by destruct free]. }
  case_decide as Ek.
  { exists [], p, ps. simpl. split_and!; [done|lia|done]. }
  rewrite slot_keys_cons. destruct (key p) as [k'|] eqn:Ek'.
  - specialize (IH (S i) free). destruct (slot_search (S i) ps k free) as [j|s].
    + destruct IH as (l1 & q & l2 & -> & -> & Hq). exists (p :: l1), q, l2.
      simpl. split_and!; [done|lia|done].
    + destruct IH as [Hn IH]. split; [set_solver|].
      destruct free; [done|]. destruct s as [j|]; [|simpl; lia].
      destruct IH as (l1 & q & l2 & -> & -> & Hq). exists (p :: l1), q, l2.
      simpl. split_and!; [done|lia|done].
  - specialize (IH (S i) (match free with None => Some i | _ => free end)).
    destruct (slot_search (S i) ps k _) as [j|s].
    + destruct IH as (l1 & q & l2 & -> & -> & Hq). exists (p :: l1), q, l2.
      simpl. split_and!; [done|lia|done].
    + destruct IH as [Hn IH]. split; [done|]. destruct free as [x|]; [done|].
      destruct s as [j|]; [|done]. simplify_eq.
      exists [], p, ps. simpl. split_and!; [done|lia|done].
Qed.

(** Exchanging the content of one slot. *)
Lemma slot_perm (l1 l2 : list E) q : l1 ++ q :: l2 ≡ₚ q :: l1 ++ l2.
Proof. symmetry. apply Permutation_middle. Qed.

Lemma slot_taken l1 q l2 k :
  NoDup (slot_keys (l1 ++ q :: l2)) -> key q = Some k ->
  slot_map (l1 ++ q :: l2) = <[k := val q]> (slot_map (l1 ++ l2)) /\
  k ∉ slot_keys (l1 ++ l2) /\ NoDup (slot_keys (l1 ++ l2)).
Proof.
  intros Hn Ek. rewrite (slot_map_perm _ _ Hn (slot_perm l1 l2 q)), slot_map_cons, Ek.
  assert (Hp : slot_keys (l1 ++ q :: l2) ≡ₚ k :: slot_keys (l1 ++ l2)).
  { unfold slot_keys. rewrite (slot_perm l1 l2 q). cbn. by rewrite Ek. }
  rewrite Hp in Hn. apply NoDup_cons in Hn as [? ?]. done.
Qed.

Lemma slot_free l1 q l2 :
  NoDup (slot_keys (l1 ++ q :: l2)) -> key q = None ->
  slot_map (l1 ++ q :: l2) = slot_map (l1 ++ l2) /\ slot_keys (l1 ++ q :: l2) = slot_keys (l1 ++ l2).
Proof.
  intros Hn Ek. rewrite (slot_map_perm _ _ Hn (slot_perm l1 l2 q)), slot_map_cons, Ek.
  split; [done|]. rewrite !slot_keys_app, slot_keys_cons, Ek. done.
Qed.

Lemma slot_taken_nodup l1 q l2 k :
  key q = Some k -> NoDup (slot_keys (l1 ++ l2)) -> k ∉ slot_keys (l1 ++ l2) ->
  NoDup (slot_keys (l1 ++ q :: l2)).
Proof.
  intros Ek Hn Hk. assert (Hp : slot_keys (l1 ++ q :: l2) ≡ₚ k :: slot_keys (l1 ++ l2)).
  { unfold slot_keys. rewrite (slot_perm l1 l2 q). cbn. by rewrite Ek. }
  rewrite Hp. by apply NoDup_cons.
Qed.

(** Overwriting the slot of a key. *)
Lemma slot_overwrite l1 p q l2 k :
  NoDup (slot_keys (l1 ++ p :: l2)) -> key p = Some k -> key q = Some k ->
  NoDup (slot_keys (l1 ++ q :: l2)) /\ slot_map (l1 ++ p :: l2) !! k = Some (val p) /\
  slot_map (l1 ++ q :: l2) = <[k := val q]> (slot_map (l1 ++ p :: l2)).
Proof.
  intros Hn Hp Hq. destruct (slot_taken l1 p l2 k Hn Hp) as (Hm & Hk & Hr).
  assert (Hn' := slot_taken_nodup l1 q l2 k Hq Hr Hk).
  destruct (slot_taken l1 q l2 k Hn' Hq) as (Hm' & _ & _).
  split_and!; [done|by rewrite Hm, lookup_insert_eq|]. by rewrite Hm', Hm, insert_insert_eq.
Qed.

(** Taking a free slot for a new key. *)
Lemma slot_take l1 p q l2 k :
  NoDup (slot_keys (l1 ++ p :: l2)) -> key p = None -> key q = Some k ->
  k ∉ slot_keys (l1 ++ p :: l2) ->
  NoDup (slot_keys (l1 ++ q :: l2)) /\
  slot_map (l1 ++ q :: l2) = <[k := val q]> (slot_map (l1 ++ p :: l2)) /\
  (length (slot_keys (l1 ++ p :: l2)) < length (l1 ++ p :: l2))%nat.
Proof.
  intros Hn Hp Hq Hk. destruct (slot_free l1 p l2 Hn Hp) as (Hm & Hr). rewrite Hr in Hk.
  assert (Hn' : NoDup (slot_keys (l1 ++ q :: l2)))
    by (eapply slot_taken_nodup; [done|by rewrite <- Hr|done]).
  destruct (slot_taken l1 q l2 k Hn' Hq) as (Hm' & _ & _).
  split_and!; [done|by rewrite Hm', Hm|].
  rewrite Hr. pose proof (slot_keys_length (l1 ++ l2)) as Hl.
  rewrite !length_app in *. simpl. lia.
Qed.

(** Freeing the slot of a key. *)
Lemma slot_release l1 p q l2 k :
  NoDup (slot_keys (l1 ++ p :: l2)) -> key p = Some k -> key q = None ->
  NoDup (slot_keys (l1 ++ q :: l2)) /\
  slot_map (l1 ++ q :: l2) = delete k (slot_map (l1 ++ p :: l2)).
Proof.
  intros Hn Hp Hq. destruct (slot_taken l1 p l2 k Hn Hp) as (Hm & Hk & Hr).
  assert (E1 : slot_keys (l1 ++ q :: l2) = slot_keys (l1 ++ l2))
    by (rewrite !slot_keys_app, slot_keys_cons, Hq; done).
  assert (Hn' : NoDup (slot_keys (l1 ++ q :: l2))) by (by rewrite E1).
  destruct (slot_free l1 q l2 Hn' Hq) as (Hm' & _).
  split; [done|]. rewrite Hm', Hm, delete_insert_eq. symmetry. apply delete_id.
  by apply slot_map_None.
Qed.

(** Freeing every slot whose key fails a test. *)
Lemma slot_filter (P : K -> bool) (f : E -> E) ps :
  (forall p, key (f p) = k ← key p; if P k then Some k else None) ->
  (forall p, val (f p) = val p) -> NoDup (slot_keys ps) ->
  NoDup (slot_keys (f <$> ps)) /\
  slot_map (f <$> ps) = filter (fun kv => P kv.1 = true) (slot_map ps).
Proof.
  intros Hk Hv. induction ps as [|p ps IH]; intros Hn; [split; [constructor|done]|].
  rewrite slot_keys_cons in Hn. cbn [fmap list_fmap]. rewrite slot_keys_cons, !slot_map_cons, Hk, Hv.
  destruct (key p) as [k|] eqn:Ek; cbn [mbind option_bind]; [|by apply IH].
  apply NoDup_cons in Hn as [Hnk Hn]. destruct (IH Hn) as [IH1 IH2].
  assert (Hsub : forall x, x ∈ slot_keys (f <$> ps) -> x ∈ slot_keys ps).
  { clear -Hk. intros x. induction ps as [|q ps IH]; [done|]. cbn [fmap list_fmap].
    rewrite !slot_keys_cons, Hk. destruct (key q) as [kq|]; cbn [mbind option_bind]; [|done].
    destruct (P kq); set_solver. }
  destruct (P k) eqn:EP.
  - split; [apply NoDup_cons; split; [|done]; auto|].
    rewrite IH2. rewrite map_filter_insert_True by done. done.
  - split; [done|]. rewrite IH2. rewrite map_filter_insert_False by (simpl; congruence).
    rewrite delete_id; [done|by apply slot_map_None].
Qed.
End table.
