(* ===== verification/Kernel.v ===== *)
(** * The kernel the module runs in

    What the module asks of the running kernel.  None of this code is in the
    repository, so it appears as the fields of a record: one [kernel] is what
    the kernel answers during one entry into the module (an ioctl, a probe
    hit, a work item).  Calls that only have an effect on the kernel side
    (reference counts, signals, allocations, probe registration) are
    recorded, in order, as [kcall]s; theorems about leaks and imbalance are
    statements about these recorded calls. *)

From Stdlib Require Import ZArith Lia.
From stdpp Require Import base numbers list strings.
From S2P Require Import Prelude Abi.

(** ** Error numbers *)

Definition EPERM : Z := 1.
Definition ESRCH : Z := 3.
Definition ENOMEM : Z := 12.
Definition EFAULT : Z := 14.
Definition EBUSY : Z := 16.
Definition ENODEV : Z := 19.
Definition EINVAL : Z := 22.
Definition ENOTTY : Z := 25.
Definition ENOSPC : Z := 28.

(** ** Kernel objects

    Pointers to kernel objects are opaque identities; [NULL] is [None]. *)

Abbreviation task := positive.    (* struct task_struct * *)
Abbreviation pidp := positive.    (* struct pid * *)
Abbreviation nsp := positive.     (* struct pid_namespace * *)

(** A loaded module as the kernel's list has it: its name, its state, base and
    size of [mem[MOD_TEXT]], and the sizes of the regions that
    [for_class_mod_mem_type(type, core)] visits. *)
Record kmodule := KModule {
  m_name : cstring;
  m_state : Z;
  m_text_base : Z;
  m_text_size : Z;
  m_core_sizes : list Z
}.

(** A file-backed mapping's file: [f_inode->i_ino] if the inode is set, and
    what [d_path] returns ([None] is an error pointer). *)
Record kfile := KFile { f_ino : option Z; f_dpath : option cstring }.

Record kvma := KVma {
  vm_start : Z;
  vm_end : Z;
  vm_pgoff : Z;
  vm_flags : Z;
  vm_file : option kfile
}.

Record kernel := Kernel {
  current : task;
  task_pid : task -> Z;                          (* t->pid *)
  task_comm : task -> cstring;                   (* t->comm *)
  find_get_pid : Z -> option pidp;               (* in the caller's namespace *)
  get_pid_task : pidp -> option task;            (* PIDTYPE_PID *)
  get_task_pid : task -> pidp;
  task_active_pid_ns : task -> option nsp;
  find_pid_ns : Z -> nsp -> option pidp;
  ktime : nat -> Z;                              (* at the n-th event of this entry *)
  capable_admin : bool;                          (* capable(CAP_SYS_ADMIN) *)
  user_readable : bool;                          (* copy_from_user succeeds *)
  user_writable : bool;                          (* copy_to_user succeeds *)
  alloc_state : bool;                            (* kzalloc(ac_fd_state), kmalloc(ac_kill_req) *)
  alloc_bulk : bool;                             (* kvmalloc_array, kzalloc(ac_event_list) *)
  alloc_path : nat -> bool;                      (* kmalloc(PATH_MAX) for the n-th mapping *)
  try_module_get : bool;
  task_vmas : task -> option (list kvma);        (* get_task_mm, then the mappings *)
  modules : list kmodule;                        (* the list, in walk order *)
  within_module_core : Z -> kmodule -> bool;
  kread64 : Z -> option Z;                       (* 8-byte copy_from_kernel_nofault *)
  kread32 : Z -> option Z;
  kprobe_addr : cstring -> option Z;             (* register_kprobe(symbol) and its address *)
  kprobe_register : nat -> Z;                    (* register_kprobe(ac_kprobes[i]) *)
  kretprobe_register : Z;
  create_workqueue : bool;                       (* whether it is created *)
  misc_register : Z;
  NR_syscalls : nat;                             (* constants of <asm/unistd.h> *)
  NR_read : Z;
  NR_write : Z
}.

(** A kernel that knows no pid, symbol or module: the starting point of the
    concrete instances below. *)
Definition quiet_kernel : kernel := {|
  current := 1%positive; task_pid _ := 1; task_comm _ := bs "init";
  find_get_pid _ := None; get_pid_task _ := None; get_task_pid t := t;
  task_active_pid_ns _ := None; find_pid_ns _ _ := None; ktime _ := 0;
  capable_admin := true; user_readable := true; user_writable := true;
  alloc_state := true; alloc_bulk := true; alloc_path _ := true;
  try_module_get := true; task_vmas _ := None; modules := [];
  within_module_core _ _ := false; kread64 _ := None; kread32 _ := None;
  kprobe_addr _ := None; kprobe_register _ := 0; kretprobe_register := 0;
  create_workqueue := true; misc_register := 0;
  NR_syscalls := 462; NR_read := 0; NR_write := 1
|}.

(** ** Calls with an effect on the kernel *)

(** What the module allocates. *)
Inductive mem :=
  | MemState                      (* ac_fd_state *)
  | MemArray                      (* the array of a snapshot, by kvmalloc_array *)
  | MemReq                        (* ac_kill_req *)
  | MemPath                       (* the PATH_MAX buffer for d_path *)
  | MemEvents.                    (* ac_event_list *)

#[global] Instance mem_eq_dec : EqDecision mem.
Proof. solve_decision. Defined.

Inductive kcall :=
  | KGetPid (p : pidp)            (* find_get_pid, get_pid, get_task_pid *)
  | KPutPid (p : pidp)
  | KGetTask (t : task)           (* get_pid_task, get_task_struct *)
  | KPutTask (t : task)
  | KMmGet (t : task)             (* get_task_mm *)
  | KMmPut (t : task)
  | KSigKill (t : task)
  | KModuleGet
  | KModulePut
  | KRegister (i : nat)
  | KUnregister (i : nat)
  | KRegisterRet
  | KUnregisterRet
  | KWqCreate                     (* create_workqueue *)
  | KWqDestroy
  | KMiscRegister
  | KMiscDeregister
  | KAlloc (x : mem)
  | KFree (x : mem).

#[global] Instance kcall_eq_dec : EqDecision kcall.
Proof. solve_decision. Defined.

(** How often a call occurs, and the net number of references taken. *)
Definition ncalls (c : kcall) (cs : list kcall) : Z :=
  Z.of_nat (length (filter (fun x => x = c) cs)).

Definition task_refs (t : task) (cs : list kcall) : Z :=
  ncalls (KGetTask t) cs - ncalls (KPutTask t) cs.
Definition pid_refs (p : pidp) (cs : list kcall) : Z :=
  ncalls (KGetPid p) cs - ncalls (KPutPid p) cs.
Definition mm_refs (t : task) (cs : list kcall) : Z :=
  ncalls (KMmGet t) cs - ncalls (KMmPut t) cs.
Definition module_refs (cs : list kcall) : Z :=
  ncalls KModuleGet cs - ncalls KModulePut cs.

(** The blocks of a kind that are allocated and not freed. *)
Definition allocs (x : mem) (cs : list kcall) : Z := ncalls (KAlloc x) cs - ncalls (KFree x) cs.

Lemma ncalls_app c l1 l2 : ncalls c (l1 ++ l2) = ncalls c l1 + ncalls c l2.
Proof. unfold ncalls. rewrite filter_app, length_app. lia. Qed.

Lemma ncalls_nil c : ncalls c [] = 0.
Proof. done. Qed.

Lemma ncalls_cons c x l : ncalls c (x :: l) = (if decide (x = c) then 1 else 0) + ncalls c l.
Proof. unfold ncalls. rewrite filter_cons. case_decide; simpl; lia. Qed.

Lemma task_refs_app t l1 l2 : task_refs t (l1 ++ l2) = task_refs t l1 + task_refs t l2.
Proof. unfold task_refs. rewrite !ncalls_app. lia. Qed.
Lemma pid_refs_app p l1 l2 : pid_refs p (l1 ++ l2) = pid_refs p l1 + pid_refs p l2.
Proof. unfold pid_refs. rewrite !ncalls_app. lia. Qed.
Lemma mm_refs_app t l1 l2 : mm_refs t (l1 ++ l2) = mm_refs t l1 + mm_refs t l2.
Proof. unfold mm_refs. rewrite !ncalls_app. lia. Qed.
Lemma module_refs_app l1 l2 : module_refs (l1 ++ l2) = module_refs l1 + module_refs l2.
Proof. unfold module_refs. rewrite !ncalls_app. lia. Qed.
Lemma allocs_app x l1 l2 : allocs x (l1 ++ l2) = allocs x l1 + allocs x l2.
Proof. unfold allocs. rewrite !ncalls_app. lia. Qed.

Create Rewrite HintDb calls.
#[export] Hint Rewrite ncalls_app ncalls_nil ncalls_cons
  task_refs_app pid_refs_app mm_refs_app module_refs_app
  allocs_app : calls.

(** Evaluate the reference counts of an explicit call list: comparisons of
    different calls first, the undetermined ones by cases. *)
Ltac decide_calls :=
  repeat match goal with
  | |- context [@decide (?a = ?b) ?D] =>
      first [rewrite (@decide_False _ (a = b) D) by discriminate
            |rewrite (@decide_True _ (a = b) D) by reflexivity]
  end.

Ltac refs_simpl :=
  autorewrite with calls; unfold task_refs, pid_refs, mm_refs, module_refs,
    allocs;
  autorewrite with calls; decide_calls; repeat case_decide; simplify_eq; try lia.

(** ** Looking up tasks (src/anticheat_module.c) *)

Section lookup.
Context (k : kernel).

(** [ac_find_task]: the task behind a pid number, with a reference. *)
Definition ac_find_task (pid : Z) : option task * list kcall :=
  match find_get_pid k pid with
  | None => (None, [])
  | Some p =>
      match get_pid_task k p with
      | Some t => (Some t, [KGetPid p; KGetTask t; KPutPid p])
      | None => (None, [KGetPid p; KPutPid p])
      end
  end.

(** [ac_find_task_in_ns_of]: [nr] in the pid namespace of host pid [ref_pid]. *)
Definition ac_find_task_in_ns_of (nr ref_pid : Z) : option task * list kcall :=
  match ac_find_task ref_pid with
  | (None, cs) => (None, cs)
  | (Some ref_task, cs) =>
      let p := ns ← task_active_pid_ns k ref_task; find_pid_ns k nr ns in
      match p with
      | None => (None, cs ++ [KPutTask ref_task])
      | Some p =>
          match get_pid_task k p with
          | Some t => (Some t, cs ++ [KGetPid p; KPutTask ref_task; KGetTask t; KPutPid p])
          | None => (None, cs ++ [KGetPid p; KPutTask ref_task; KPutPid p])
          end
      end
  end.
End lookup.

Definition holds (t : option task) (t' : task) : Z :=
  if decide (t = Some t') then 1 else 0.

(** A lookup keeps exactly one reference: to the task it returns. *)
Lemma ac_find_task_refs k pid t' p' :
  let '(t, cs) := ac_find_task k pid in
  task_refs t' cs = holds t t' /\ pid_refs p' cs = 0 /\ module_refs cs = 0.
Proof.
  unfold ac_find_task, holds.
  destruct (find_get_pid k pid) as [p|]; [destruct (get_pid_task k p)|];
    split_and!; refs_simpl.
Qed.

Lemma ac_find_task_in_ns_of_refs k nr ref_pid t' p' :
  let '(t, cs) := ac_find_task_in_ns_of k nr ref_pid in
  task_refs t' cs = holds t t' /\ pid_refs p' cs = 0 /\ module_refs cs = 0.
Proof.
  unfold ac_find_task_in_ns_of.
  pose proof (ac_find_task_refs k ref_pid t' p') as H.
  destruct (ac_find_task k ref_pid) as [[r|] cs]; [|done].
  destruct H as (H1 & H2 & H3). unfold holds in *.
  destruct (_ ≫= _) as [p|]; [destruct (get_pid_task k p)|];
    rewrite task_refs_app, pid_refs_app, module_refs_app, H1, H2, H3;
    split_and!; refs_simpl.
Qed.

(** Calls that only count references to tasks and pids, or send a signal:
    neither address spaces, nor the module's own count, nor memory. *)
Definition is_ref_call (c : kcall) : bool :=
  match c with
  | KGetPid _ | KPutPid _ | KGetTask _ | KPutTask _ | KSigKill _ => true
  | _ => false
  end.

(** The same with kill requests. *)
Definition is_hit_call (c : kcall) : bool :=
  match c with KAlloc MemReq | KFree MemReq => true | _ => is_ref_call c end.

Definition ref_calls (cs : list kcall) : Prop := Forall (fun c => is_ref_call c = true) cs.
Definition hit_calls (cs : list kcall) : Prop := Forall (fun c => is_hit_call c = true) cs.

Lemma ref_calls_app cs cs' : ref_calls cs -> ref_calls cs' -> ref_calls (cs ++ cs').
Proof. apply Forall_app_2. Qed.

Lemma hit_calls_app cs cs' : hit_calls cs -> hit_calls cs' -> hit_calls (cs ++ cs').
Proof. apply Forall_app_2. Qed.

Lemma ref_hit_calls cs : ref_calls cs -> hit_calls cs.
Proof. intros H. eapply Forall_impl; [exact H|]. intros c Hc. unfold is_hit_call. repeat case_match; done. Qed.

(** Calls of one kind do not count for another. *)
Lemma ncalls_kind (kind : kcall -> bool) c cs :
  Forall (fun x => kind x = true) cs -> kind c = false -> ncalls c cs = 0.
Proof.
  intros H Hc. induction H as [|x cs Hx _ IH]; [done|].
  rewrite ncalls_cons, IH. case_decide; [simplify_eq; congruence|done].
Qed.

Lemma ref_calls_ncalls c cs : ref_calls cs -> is_ref_call c = false -> ncalls c cs = 0.
Proof. apply ncalls_kind. Qed.

Lemma ref_calls_pure cs t :
  ref_calls cs -> mm_refs t cs = 0 /\ module_refs cs = 0 /\ forall x, allocs x cs = 0.
Proof.
  intros H. unfold mm_refs, module_refs, allocs.
  split_and!; [..|intros x]; repeat rewrite (fun c => ref_calls_ncalls c _ H) by reflexivity; lia.
Qed.

Lemma hit_calls_pure cs t :
  hit_calls cs -> mm_refs t cs = 0 /\ module_refs cs = 0 /\ forall x, x <> MemReq -> allocs x cs = 0.
Proof.
  intros H. unfold mm_refs, module_refs, allocs.
  split_and!; [..|intros x Hx; destruct x; try done];
    repeat rewrite (fun c => ncalls_kind _ c _ H) by reflexivity; lia.
Qed.

Create HintDb calls.
#[export] Hint Resolve ref_calls_app hit_calls_app ref_hit_calls : calls.
#[export] Hint Extern 0 (ref_calls _) => solve [repeat constructor] : calls.
#[export] Hint Extern 0 (hit_calls _) => solve [repeat constructor] : calls.

Lemma ac_find_task_ref_calls k pid : ref_calls (ac_find_task k pid).2.
Proof.
  unfold ac_find_task. destruct (find_get_pid k pid) as [p|]; [destruct (get_pid_task k p)|];
    auto with calls.
Qed.

Lemma ac_find_task_in_ns_of_ref_calls k nr ref_pid :
  ref_calls (ac_find_task_in_ns_of k nr ref_pid).2.
Proof.
  unfold ac_find_task_in_ns_of. pose proof (ac_find_task_ref_calls k ref_pid) as H.
  destruct (ac_find_task k ref_pid) as [[r|] cs]; [|done]. cbn [snd] in H.
  destruct (_ ≫= _) as [p|]; [destruct (get_pid_task k p)|]; cbn [snd]; auto with calls.
Qed.
