(* ===== verification/Registry.v ===== *)
(** * The protected process registry (src/anticheat_module.c)

    The 64 slots of [ac_prots] with [ac_prot_count], the operations on them,
    and their refinement to a finite map from tasks to what is recorded of
    them. *)

From Stdlib Require Import ZArith Lia.
From stdpp Require Import base numbers list gmap strings.
From S2P Require Import Prelude Abi SlotTable Kernel.

Definition AC_PROT_MAX : nat := 64.

(** [struct ac_prot_entry]; a slot is free when [task] is [NULL]. *)
Record ac_prot_entry := ProtEntry {
  pe_task : option task;
  pe_pid : Z;
  pe_jit_allowed : bool;
  pe_comm : cstring
}.

(** [ac_prots] and [ac_prot_count]. *)
Record registry := Registry { ac_prots : list ac_prot_entry; ac_prot_count : Z }.

Definition registry_init : registry :=
  Registry (replicate AC_PROT_MAX (ProtEntry None 0 false [])) 0.

(** ** Operations *)

Definition set_jit (jit : bool) (p : ac_prot_entry) : ac_prot_entry :=
  ProtEntry (pe_task p) (pe_pid p) jit (pe_comm p).

(** The loop finds the slot of [t] or else the first free one. *)
Definition ac_add_prot_task (k : kernel) (t : task) (jit_allowed : bool) (r : registry)
    : Z * registry * list kcall :=
  match slot_search pe_task 0 (ac_prots r) t None with
  | inl i => (0, Registry (alter (set_jit jit_allowed) i (ac_prots r)) (ac_prot_count r), [])
  | inr None => (- ENOSPC, r, [])
  | inr (Some slot) =>
      (0,
       Registry
         (<[slot := ProtEntry (Some t) (task_pid k t) jit_allowed
                      (strscpy AC_MAX_COMM (task_comm k t))]> (ac_prots r))
         (u32 (ac_prot_count r + 1)),
       [KGetTask t])
  end.

(** [ac_add_prot_pid]; the second result is what it leaves in [comm_out]
    ([None]: untouched). *)
Definition ac_add_prot_pid (k : kernel) (pid ref_pid : Z) (jit_allowed : bool) (r : registry)
    : Z * option cstring * registry * list kcall :=
  let '(t, cs) := if 0 <? ref_pid then ac_find_task_in_ns_of k pid ref_pid
                  else ac_find_task k pid in
  match t with
  | None => (- ESRCH, None, r, cs)
  | Some t =>
      let '(ret, r, cs') := ac_add_prot_task k t jit_allowed r in
      (ret, Some (strscpy AC_MAX_COMM (task_comm k t)), r, cs ++ cs' ++ [KPutTask t])
  end.

(** The slot the [break]ing searches stop at. *)
Fixpoint find_slot (i : nat) (ps : list ac_prot_entry) (t : task) : option nat :=
  match ps with
  | [] => None
  | p :: ps => if decide (pe_task p = Some t) then Some i else find_slot (S i) ps t
  end.

Definition clear_task (p : ac_prot_entry) : ac_prot_entry :=
  ProtEntry None (pe_pid p) (pe_jit_allowed p) (pe_comm p).

Definition ac_del_prot_task (t : task) (r : registry) : registry * list kcall :=
  match find_slot 0 (ac_prots r) t with
  | Some i => (Registry (alter clear_task i (ac_prots r)) (u32 (ac_prot_count r - 1)),
               [KPutTask t])
  | None => (r, [])
  end.

Definition ac_task_jit_allowed (t : task) (r : registry) : bool :=
  match find_slot 0 (ac_prots r) t with
  | Some i => default false (pe_jit_allowed <$> ac_prots r !! i)
  | None => false
  end.

Definition ac_is_protected_task (t : task) (r : registry) : bool :=
  match find_slot 0 (ac_prots r) t with Some _ => true | None => false end.

(** [ac_is_protected_pid(pid, comm_out)], with what it copies to [comm_out]. *)
Definition ac_is_protected_pid (k : kernel) (pid : Z) (r : registry)
    : bool * option cstring * list kcall :=
  match ac_find_task k pid with
  | (None, cs) => (false, None, cs)
  | (Some t, cs) =>
      let prot := ac_is_protected_task t r in
      (prot, if prot then Some (strscpy AC_MAX_COMM (task_comm k t)) else None,
       cs ++ [KPutTask t])
  end.

Definition ac_protected_count (r : registry) : Z := ac_prot_count r.

(** [ac_list_protected] into a zeroed [ac_prot_list]. *)
Fixpoint list_loop (ps : list ac_prot_entry) (acc : list ac_prot_item) : list ac_prot_item :=
  match ps with
  | [] => acc
  | p :: ps =>
      if (length acc <? AC_MAX_PROTS)%nat then
        match pe_task p with
        | None => list_loop ps acc
        | Some _ =>
            list_loop ps
              (acc ++ [ProtItem (pe_pid p) (Z.b2z (pe_jit_allowed p))
                         (strscpy AC_MAX_COMM (pe_comm p))])
        end
      else acc
  end.

Definition ac_list_protected (r : registry) : ac_prot_list :=
  let items := list_loop (ac_prots r) [] in
  ProtList (Z.of_nat (length items)) items.

(** [ac_clear_protected], at module unload. *)
Definition ac_clear_protected (r : registry) : registry * list kcall :=
  (Registry (clear_task <$> ac_prots r) 0,
   omap (fun p => KPutTask <$> pe_task p) (ac_prots r)).

(** ** The abstract map *)

(** The tasks in the occupied slots. *)
Definition tasks (r : registry) : list task := slot_keys pe_task (ac_prots r).

Record prot_info := ProtInfo { in_pid : Z; in_jit : bool; in_comm : cstring }.

Definition entry_info (p : ac_prot_entry) : prot_info :=
  ProtInfo (pe_pid p) (pe_jit_allowed p) (pe_comm p).

Definition protected (r : registry) : gmap task prot_info :=
  slot_map pe_task entry_info (ac_prots r).

(** The name of a slot is a terminated string of its 16-byte buffer. *)
Definition comm_ok (p : ac_prot_entry) : Prop :=
  (length (pe_comm p) < AC_MAX_COMM)%nat /\ cstr (pe_comm p) = pe_comm p.

Record registry_inv (r : registry) : Prop := {
  reg_size : length (ac_prots r) = AC_PROT_MAX;
  reg_nodup : NoDup (tasks r);
  reg_count : ac_prot_count r = Z.of_nat (length (tasks r));
  reg_comm : Forall comm_ok (ac_prots r)
}.

(** ** Lemmas on slots *)

Lemma find_slot_Some ps t : forall i j,
  find_slot i ps t = Some j ->
  exists l1 p l2, ps = l1 ++ p :: l2 /\ j = (i + length l1)%nat /\ pe_task p = Some t.
Proof.
  induction ps as [|p ps IH]; intros i j H; simpl in H; [done|]. case_decide as E.
  - simplify_eq. exists [], p, ps. simpl. split_and!; [done|lia|done].
  - apply IH in H as (l1 & q & l2 & -> & -> & Hq). exists (p :: l1), q, l2.
    simpl. split_and!; [done|lia|done].
Qed.

Lemma find_slot_None ps t : forall i, find_slot i ps t = None <-> t ∉ slot_keys pe_task ps.
Proof.
  induction ps as [|p ps IH]; intros i; cbn [find_slot]; [set_solver|].
  rewrite slot_keys_cons. case_decide as E; [rewrite E; set_solver|].
  rewrite IH. destruct (pe_task p) as [t'|]; [|done]. set_solver.
Qed.

Lemma ac_is_protected_task_spec t r :
  ac_is_protected_task t r = bool_decide (is_Some (protected r !! t)).
Proof.
  unfold ac_is_protected_task. symmetry.
  destruct (find_slot 0 (ac_prots r) t) eqn:E.
  - apply bool_decide_eq_true, slot_map_dom. apply dec_stable. intros Hn.
    apply (find_slot_None _ _ 0) in Hn. congruence.
  - apply bool_decide_eq_false. intros H. apply slot_map_dom in H.
    by apply find_slot_None in E.
Qed.

Lemma registry_bound r : registry_inv r -> (length (tasks r) <= AC_PROT_MAX)%nat.
Proof. intros []. rewrite <- reg_size0. apply slot_keys_length. Qed.

Lemma protected_size r : registry_inv r -> size (protected r) = length (tasks r).
Proof. intros []. by apply slot_map_size. Qed.

Lemma comm_ok_copy t pid jit s : comm_ok (ProtEntry t pid jit (strscpy AC_MAX_COMM s)).
Proof. split; simpl; [apply strscpy_fits; unfold AC_MAX_COMM; lia|apply cstr_strscpy]. Qed.

(** The invariant after one slot is exchanged: the count has to follow the map. *)
Lemma registry_inv_slot l1 p q l2 c c' :
  registry_inv (Registry (l1 ++ p :: l2) c) ->
  NoDup (slot_keys pe_task (l1 ++ q :: l2)) -> comm_ok q ->
  c' = u32 (Z.of_nat (size (slot_map pe_task entry_info (l1 ++ q :: l2)))) ->
  registry_inv (Registry (l1 ++ q :: l2) c').
Proof.
  intros [] Hn Hq ->. simpl in *.
  assert (Hl : length (l1 ++ q :: l2) = AC_PROT_MAX) by (rewrite <- reg_size0, !length_app; done).
  split; simpl; try done.
  - rewrite slot_map_size by done. unfold u32. apply Z.mod_small.
    pose proof (slot_keys_length pe_task (l1 ++ q :: l2)). unfold tasks, AC_PROT_MAX in *. simpl. lia.
  - apply Forall_app in reg_comm0 as [? [? ?]%Forall_cons].
    apply Forall_app; split; [done|]. by apply Forall_cons.
Qed.

Lemma registry_count r : registry_inv r -> ac_prot_count r = Z.of_nat (size (protected r)).
Proof. intros Hr. rewrite protected_size by done. apply (reg_count r Hr). Qed.

Lemma count_u32 r : registry_inv r -> ac_prot_count r = u32 (Z.of_nat (size (protected r))).
Proof.
  intros Hr. rewrite (registry_count r Hr). symmetry. apply Z.mod_small.
  rewrite (protected_size r Hr). pose proof (registry_bound r Hr). unfold AC_PROT_MAX in *. lia.
Qed.

Lemma u32_succ z a : u32 (u32 z + a) = u32 (z + a).
Proof. unfold u32. apply Zplus_mod_idemp_l. Qed.

Lemma ac_add_refines k t jit r :
  registry_inv r ->
  let '(ret, r', cs) := ac_add_prot_task k t jit r in
  registry_inv r' /\
  match protected r !! t with
  | Some i =>
      ret = 0 /\ cs = [] /\
      protected r' = <[t := ProtInfo (in_pid i) jit (in_comm i)]> (protected r)
  | None =>
      if (size (protected r) <? AC_PROT_MAX)%nat then
        ret = 0 /\ cs = [KGetTask t] /\
        protected r' = <[t := ProtInfo (task_pid k t) jit
                                (strscpy AC_MAX_COMM (task_comm k t))]> (protected r)
      else ret = - ENOSPC /\ cs = [] /\ r' = r
  end.
Proof.
  intros Hr. pose proof (count_u32 r Hr) as Hc. pose proof (protected_size r Hr) as Hz.
  pose proof Hr as [Hs Hn _ Hok]. unfold ac_add_prot_task, tasks, protected in *.
  pose proof (slot_search_spec pe_task (ac_prots r) t 0 None) as H.
  destruct r as [ps c]. cbn [ac_prots ac_prot_count] in *.
  destruct (slot_search pe_task 0 ps t None) as [j|[j|]].
  - destruct H as (l1 & p & l2 & -> & -> & Hp). rewrite Nat.add_0_l, alter_middle.
    destruct (slot_overwrite pe_task entry_info l1 p (set_jit jit p) l2 t Hn Hp Hp)
      as (Hn' & Hl & Hm).
    cbn [ac_prots]. rewrite Hl, Hm. split; [|done]. apply (registry_inv_slot l1 p _ l2 c); [done..| |].
    + apply Forall_app in Hok as [_ [? _]%Forall_cons]. done.
    + rewrite Hm, map_size_insert_Some by done. done.
  - destruct H as [Hk (l1 & p & l2 & -> & -> & Hp)]. rewrite Nat.add_0_l, insert_middle.
    set (q := ProtEntry (Some t) (task_pid k t) jit (strscpy AC_MAX_COMM (task_comm k t))).
    destruct (slot_take pe_task entry_info l1 p q l2 t Hn Hp eq_refl Hk) as (Hn' & Hm & Hlt).
    cbn [ac_prots]. rewrite (slot_map_None pe_task entry_info _ t Hk), Hz, Hm.
    rewrite (proj2 (Nat.ltb_lt _ _)) by (by rewrite <- Hs). split; [|done].
    apply (registry_inv_slot l1 p _ l2 c); [done..|apply comm_ok_copy|].
    rewrite Hm, map_size_insert_None by (by apply slot_map_None).
    rewrite Hc, u32_succ. f_equal. lia.
  - destruct H as [Hk Hl]. split; [done|]. rewrite slot_map_None, Hz by done.
    rewrite (proj2 (Nat.ltb_ge _ _)); [done|]. lia.
Qed.

Lemma ac_del_refines t r :
  registry_inv r ->
  let '(r', cs) := ac_del_prot_task t r in
  registry_inv r' /\ protected r' = delete t (protected r) /\
  cs = (if decide (is_Some (protected r !! t)) then [KPutTask t] else []).
Proof.
  intros Hr. pose proof (count_u32 r Hr) as Hc.
  pose proof Hr as [Hs Hn _ Hok]. unfold ac_del_prot_task, tasks, protected in *.
  destruct r as [ps c]. cbn [ac_prots ac_prot_count] in *.
  destruct (find_slot 0 ps t) as [j|] eqn:Ef.
  - apply find_slot_Some in Ef as (l1 & p & l2 & -> & -> & Hp).
    rewrite Nat.add_0_l, alter_middle.
    destruct (slot_release pe_task entry_info l1 p (clear_task p) l2 t Hn Hp eq_refl) as (Hn' & Hm).
    assert (Hin : slot_map pe_task entry_info (l1 ++ p :: l2) !! t = Some (entry_info p))
      by (destruct (slot_taken pe_task entry_info l1 p l2 t Hn Hp) as (-> & _);
          apply lookup_insert_eq).
    cbn [ac_prots]. rewrite Hm, Hin. split_and!; [|done|by rewrite decide_True by done].
    apply (registry_inv_slot l1 p _ l2 c); [done..| |].
    + apply Forall_app in Hok as [_ [? _]%Forall_cons]. done.
    + rewrite Hm, map_size_delete, Hin, Hc.
      assert (Hpos : size (slot_map pe_task entry_info (l1 ++ p :: l2)) <> 0%nat).
      { rewrite map_size_ne_0_lookup. eauto. }
      unfold Z.sub. rewrite u32_succ. f_equal. lia.
  - apply find_slot_None in Ef. split_and!; [done| |].
    + symmetry. apply delete_id. by apply slot_map_None.
    + rewrite slot_map_None by done. rewrite decide_False; [done|]. apply is_Some_None.
Qed.

Lemma ac_jit_refines t r :
  registry_inv r -> ac_task_jit_allowed t r = default false (in_jit <$> protected r !! t).
Proof.
  intros [_ Hn _ _]. unfold ac_task_jit_allowed, protected, tasks in *.
  destruct r as [ps c]. cbn [ac_prots] in *.
  destruct (find_slot 0 ps t) as [j|] eqn:Ef.
  - apply find_slot_Some in Ef as (l1 & p & l2 & -> & -> & Hp).
    destruct (slot_taken pe_task entry_info l1 p l2 t Hn Hp) as (-> & _).
    rewrite lookup_insert_eq, Nat.add_0_l, lookup_middle. done.
  - apply find_slot_None in Ef. by rewrite slot_map_None.
Qed.

(** The listing: the occupied slots in slot order, none left out. *)
Definition entry_item (p : ac_prot_entry) : option ac_prot_item :=
  _ ← pe_task p; Some (ProtItem (pe_pid p) (Z.b2z (pe_jit_allowed p)) (pe_comm p)).

Lemma list_loop_spec ps : forall acc,
  (length acc + length ps <= AC_MAX_PROTS)%nat -> Forall comm_ok ps ->
  list_loop ps acc = acc ++ omap entry_item ps.
Proof.
  induction ps as [|p ps IH]; intros acc Hl Hok; simpl in *; [by rewrite app_nil_r|].
  apply Forall_cons in Hok as [[Hp1 Hp2] Hok].
  destruct (length acc <? AC_MAX_PROTS)%nat eqn:E; [|apply Nat.ltb_ge in E; lia].
  unfold entry_item at 1. destruct (pe_task p) as [t|]; simpl.
  - rewrite IH by (rewrite ?length_app; simpl; try done; lia).
    rewrite <- app_assoc, strscpy_id by done. done.
  - apply IH; [lia|done].
Qed.

Lemma ac_list_refines r :
  registry_inv r ->
  pl_items (ac_list_protected r) = omap entry_item (ac_prots r) /\
  pl_count (ac_list_protected r) = Z.of_nat (size (protected r)).
Proof.
  intros Hr. pose proof (protected_size r Hr) as Hs. destruct Hr.
  unfold ac_list_protected. cbn [pl_items pl_count].
  rewrite list_loop_spec by (try done; rewrite reg_size0; done).
  split; [done|]. f_equal. rewrite Hs. unfold tasks. cbn [app]. clear.
  induction (ac_prots r) as [|[[t|] ???] ps IH]; [done|..]; cbn; [by f_equal|done].
Qed.

Lemma registry_init_inv : registry_inv registry_init.
Proof.
  split; [done|apply NoDup_nil_2|done|].
  apply Forall_replicate. split; [unfold AC_MAX_COMM; simpl; lia|done].
Qed.

(** References taken by the registry: one per occupied slot. *)
Definition slot_refs (r : registry) (t : task) : Z :=
  if decide (is_Some (protected r !! t)) then 1 else 0.

Lemma ac_add_refs k t jit r t' p' :
  registry_inv r ->
  let '(ret, r', cs) := ac_add_prot_task k t jit r in
  task_refs t' cs = slot_refs r' t' - slot_refs r t' /\ pid_refs p' cs = 0 /\
  module_refs cs = 0.
Proof.
  intros Hr. pose proof (ac_add_refines k t jit r Hr) as H. unfold slot_refs.
  destruct (ac_add_prot_task k t jit r) as [[ret r'] cs]. destruct H as [_ H].
  destruct (protected r !! t) as [i|] eqn:Ei.
  - destruct H as (_ & -> & ->).
    destruct (decide (t = t')) as [<-|Hne].
    + rewrite lookup_insert_eq, Ei. split_and!; refs_simpl; naive_solver.
    + rewrite lookup_insert_ne by done. split_and!; refs_simpl.
  - destruct (size (protected r) <? AC_PROT_MAX)%nat.
    + destruct H as (_ & -> & ->). destruct (decide (t = t')) as [<-|Hne].
      * rewrite lookup_insert_eq, Ei. split_and!; refs_simpl; naive_solver.
      * rewrite lookup_insert_ne by done. split_and!; refs_simpl.
    + destruct H as (_ & -> & ->). split_and!; refs_simpl.
Qed.

Lemma ac_del_refs t r t' p' :
  registry_inv r ->
  let '(r', cs) := ac_del_prot_task t r in
  task_refs t' cs = slot_refs r' t' - slot_refs r t' /\ pid_refs p' cs = 0 /\
  module_refs cs = 0.
Proof.
  intros Hr. pose proof (ac_del_refines t r Hr) as H. unfold slot_refs.
  destruct (ac_del_prot_task t r) as [r' cs]. destruct H as (_ & -> & ->).
  destruct (decide (t = t')) as [<-|Hne].
  - rewrite lookup_delete_eq. destruct (protected r !! t) eqn:E;
      split_and!; repeat case_decide; refs_simpl; naive_solver.
  - rewrite lookup_delete_ne by done. split_and!; repeat case_decide; refs_simpl.
Qed.

Lemma tasks_slots r t : registry_inv r -> (t ∈ tasks r <-> is_Some (protected r !! t)).
Proof. intros _. symmetry. apply slot_map_dom. Qed.

Lemma ncalls_put_tasks l t : ncalls (KPutTask t) (KPutTask <$> l) = Z.of_nat (length (filter (fun x => x = t) l)).
Proof.
  induction l as [|x l IH]; [done|]. cbn [fmap list_fmap]. rewrite ncalls_cons, IH, filter_cons.
  repeat case_decide; simplify_eq; simpl; lia.
Qed.

Lemma ncalls_put_other l c : (forall t, c <> KPutTask t) -> ncalls c (KPutTask <$> l) = 0.
Proof.
  intros Hc. induction l as [|x l IH]; [done|]. cbn [fmap list_fmap].
  rewrite ncalls_cons, IH. case_decide as E; [|done]. by destruct (Hc x).
Qed.

Lemma NoDup_filter_eq (l : list task) t :
  NoDup l -> Z.of_nat (length (filter (fun x => x = t) l)) = if decide (t ∈ l) then 1 else 0.
Proof.
  induction 1 as [|x l Hx Hn IH]; [done|]. rewrite filter_cons.
  repeat case_decide; simplify_eq; cbn [length]; first [lia|set_solver].
Qed.

Lemma ac_clear_refs r t p :
  registry_inv r ->
  let '(r', cs) := ac_clear_protected r in
  registry_inv r' /\ protected r' = ∅ /\
  task_refs t cs = - slot_refs r t /\ pid_refs p cs = 0 /\ module_refs cs = 0.
Proof.
  intros Hr. pose proof Hr as []. unfold ac_clear_protected.
  assert (E : omap (fun p => KPutTask <$> pe_task p) (ac_prots r) = KPutTask <$> tasks r).
  { unfold tasks. clear. induction (ac_prots r) as [|p ps IH]; [done|].
    rewrite slot_keys_cons. cbn. destruct (pe_task p); cbn; [f_equal|]; exact IH. }
  assert (Et : slot_keys pe_task (clear_task <$> ac_prots r) = []).
  { clear. induction (ac_prots r) as [|x ps IH]; [done|exact IH]. }
  rewrite E. split_and!.
  - split; simpl.
    + by rewrite length_fmap.
    + unfold tasks. simpl. rewrite Et. apply NoDup_nil_2.
    + unfold tasks. simpl. by rewrite Et.
    + apply Forall_fmap. eapply Forall_impl; [exact reg_comm0|]. done.
  - apply map_eq. intros x. rewrite lookup_empty. apply slot_map_None. simpl. rewrite Et.
    set_solver.
  - unfold task_refs. rewrite ncalls_put_tasks, NoDup_filter_eq, ncalls_put_other by done.
    unfold slot_refs. rewrite <- (decide_ext _ _ _ _ (tasks_slots r t Hr)). lia.
  - unfold pid_refs. rewrite !ncalls_put_other by done. lia.
  - unfold module_refs. rewrite !ncalls_put_other by done. lia.
Qed.

Lemma ac_add_ref_calls k t jit r : ref_calls (ac_add_prot_task k t jit r).2.
Proof. unfold ac_add_prot_task. destruct (slot_search _ _ _ _ _) as [|[|]]; auto with calls. Qed.

Lemma ac_add_prot_pid_ref_calls k pid ref_pid jit r :
  ref_calls (ac_add_prot_pid k pid ref_pid jit r).2.
Proof.
  unfold ac_add_prot_pid. pose proof (ac_find_task_ref_calls k pid) as H1.
  pose proof (ac_find_task_in_ns_of_ref_calls k pid ref_pid) as H2.
  destruct (if 0 <? ref_pid then _ else _) as [[t|] cs] eqn:E;
    assert (ref_calls cs) by (destruct (0 <? ref_pid); [by rewrite E in H2|by rewrite E in H1]);
    [|done].
  pose proof (ac_add_ref_calls k t jit r) as H3.
  destruct (ac_add_prot_task k t jit r) as [[ret r'] cs']. cbn [snd] in *. auto 6 with calls.
Qed.

Lemma ac_del_ref_calls t r : ref_calls (ac_del_prot_task t r).2.
Proof. unfold ac_del_prot_task. destruct (find_slot _ _ _); auto with calls. Qed.

Lemma ac_clear_ref_calls r : ref_calls (ac_clear_protected r).2.
Proof.
  unfold ac_clear_protected. cbn [snd]. induction (ac_prots r) as [|e es IH]; [constructor|].
  cbn. destruct (pe_task e); cbn; [by constructor|done].
Qed.

(** Protecting by pid: the reference of the lookup is put back. *)
Lemma ac_add_prot_pid_refs k pid ref_pid jit r t' p' :
  registry_inv r ->
  let '(ret, comm, r', cs) := ac_add_prot_pid k pid ref_pid jit r in
  registry_inv r' /\ task_refs t' cs = slot_refs r' t' - slot_refs r t' /\ pid_refs p' cs = 0.
Proof.
  intros Hr. unfold ac_add_prot_pid.
  pose proof (ac_find_task_refs k pid t' p') as H1.
  pose proof (ac_find_task_in_ns_of_refs k pid ref_pid t' p') as H2.
  destruct (if 0 <? ref_pid then _ else _) as [t cs] eqn:E.
  assert (H : task_refs t' cs = holds t t' /\ pid_refs p' cs = 0)
    by (destruct (0 <? ref_pid); [rewrite E in H2|rewrite E in H1]; tauto).
  clear H1 H2 E. destruct H as [H1 H2]. destruct t as [t|].
  - pose proof (ac_add_refines k t jit r Hr) as Hi. pose proof (ac_add_refs k t jit r t' p' Hr) as Ha.
    destruct (ac_add_prot_task k t jit r) as [[ret r'] cs']. destruct Ha as (A1 & A2 & _).
    split; [apply Hi|]. unfold holds in H1.
    rewrite !task_refs_app, !pid_refs_app, H1, H2, A1, A2.
    split; repeat case_decide; refs_simpl.
  - unfold holds in H1. rewrite decide_False in H1 by done. split_and!; [done|lia|done].
Qed.

(** ** Properties *)

(** C11: the slot array refines a finite map from tasks to their recorded pid,
    JIT mark and name, of at most 64 entries.  Protecting an already protected
    task only updates its JIT mark; protecting a new one adds it (and takes
    one task reference) while there is room and otherwise fails with [ENOSPC]
    and changes nothing; unprotecting deletes it (and drops that reference);
    [ac_is_protected_task], [ac_task_jit_allowed] and [ac_protected_count] are
    the map's membership, mark and size; the listing returns every entry.
    Each operation preserves the registry's invariant. *)
Theorem registry_refines_map (k : kernel) (t : task) (jit : bool) (r : registry) :
  registry_inv r ->
  (let '(ret, r', cs) := ac_add_prot_task k t jit r in
   registry_inv r' /\
   match protected r !! t with
   | Some i =>
       ret = 0 /\ cs = [] /\
       protected r' = <[t := ProtInfo (in_pid i) jit (in_comm i)]> (protected r)
   | None =>
       if (size (protected r) <? AC_PROT_MAX)%nat then
         ret = 0 /\ cs = [KGetTask t] /\
         protected r' = <[t := ProtInfo (task_pid k t) jit
                                 (strscpy AC_MAX_COMM (task_comm k t))]> (protected r)
       else ret = - ENOSPC /\ cs = [] /\ r' = r
   end) /\
  (let '(r', cs) := ac_del_prot_task t r in
   registry_inv r' /\ protected r' = delete t (protected r) /\
   cs = (if decide (is_Some (protected r !! t)) then [KPutTask t] else [])) /\
  ac_is_protected_task t r = bool_decide (is_Some (protected r !! t)) /\
  ac_task_jit_allowed t r = default false (in_jit <$> protected r !! t) /\
  ac_protected_count r = Z.of_nat (size (protected r)) /\
  (size (protected r) <= AC_PROT_MAX)%nat /\
  pl_items (ac_list_protected r) = omap entry_item (ac_prots r) /\
  pl_count (ac_list_protected r) = Z.of_nat (size (protected r)).
Proof.
  intros Hr. split; [by apply ac_add_refines|]. split; [by apply ac_del_refines|].
  split; [apply ac_is_protected_task_spec|]. split; [by apply ac_jit_refines|].
  rewrite (protected_size r Hr). split; [apply (reg_count r Hr)|].
  split; [by apply registry_bound|]. destruct (ac_list_refines r Hr) as [H1 H2].
  by rewrite (protected_size r Hr) in H2.
Qed.

Lemma registry_refines_map_witness :
  registry_inv registry_init /\ ac_is_protected_task 1%positive registry_init = false.
Proof.
  split; [exact registry_init_inv|].
  destruct (registry_refines_map quiet_kernel
    1%positive false registry_init registry_init_inv) as (_ & _ & -> & _).
  reflexivity.
Defined.
