(* ===== verification/SyscallTable.v ===== *)
(** * Syscall table discovery and integrity (src/anticheat_module.c)

    Symbol lookup through kprobes, the bounds of the core kernel text, the
    search for [sys_call_table] and the check of its entries. *)

From Stdlib Require Import ZArith Lia Sorted.
From stdpp Require Import base numbers list sets strings.
From S2P Require Import Prelude Abi Ring Kernel.

(** [ac_stext], [ac_etext], [ac_text_end], [ac_anchor], [ac_syscall_table]. *)
Record text := Text {
  ac_stext : Z;
  ac_etext : Z;
  ac_text_end : Z;
  ac_anchor : Z;
  ac_syscall_table : Z
}.

Definition text_init : text := Text 0 0 0 0 0.

Definition MODULE_STATE_LIVE : Z := 0.

(** ** Operations *)

(** [ac_module_sane]. *)
Definition ac_module_sane (m : kmodule) : bool :=
  if negb (m_state m =? MODULE_STATE_LIVE) then false
  else if (m_text_base m =? 0) || (m_text_size m =? 0) then false
  else if 0x40000000 <? m_text_size m then false
  else true.

(** [ac_module_size]: an [unsigned long long] sum. *)
Definition ac_module_size (m : kmodule) : Z :=
  foldl (fun size s => u64 (size + s)) 0 (m_core_sizes m).

Lemma ac_module_size_sum m : ac_module_size m = u64 (foldr Z.add 0 (m_core_sizes m)).
Proof.
  unfold ac_module_size.
  assert (H : forall l a, foldl (fun size s => u64 (size + s)) (u64 a) l = u64 (a + foldr Z.add 0 l)).
  { induction l as [|x l IH]; intros a; simpl; [by rewrite Z.add_0_r|].
    assert (E : u64 (u64 a + x) = u64 (a + x)) by (unfold u64; apply Zplus_mod_idemp_l).
    rewrite E, IH. f_equal. lia. }
  exact (H (m_core_sizes m) 0).
Qed.

Section operations.
Context (k : kernel).

(** [ac_lookup]. *)
Definition ac_lookup (name : cstring) : Z := default 0 (kprobe_addr k name).

(** [ac_normalize_func]: step back over an [endbr64]. *)
Definition ac_normalize_func (addr : Z) : Z :=
  if addr =? 0 then 0
  else match kread32 k (u64 (addr - 4)) with
       | Some insn => if insn =? 0xfa1e0ff3 then u64 (addr - 4) else addr
       | None => addr
       end.

Definition ac_resolve_text_bounds (x : text) : text :=
  let stext := ac_lookup (bs "_stext") in
  let stext := if stext =? 0 then ac_lookup (bs "_text") else stext in
  let etext := ac_lookup (bs "_etext") in
  let etext := if etext =? 0 then ac_lookup (bs "_sinittext") else etext in
  let text_end := if negb (etext =? 0) then etext
                  else if negb (stext =? 0) then u64 (stext + 0x20000000)
                  else ac_text_end x in
  Text stext etext text_end (ac_anchor x) (ac_syscall_table x).

(** [ac_addr_in_module]: the walk stops at the first hit. *)
Fixpoint addr_in_module_loop (addr : Z) (ms : list kmodule) : bool :=
  match ms with
  | [] => false
  | m :: ms => if ac_module_sane m && within_module_core k addr m then true
               else addr_in_module_loop addr ms
  end.

Definition ac_addr_in_module (addr : Z) : bool := addr_in_module_loop addr (modules k).

Definition ac_in_core_text (x : text) (addr : Z) : bool :=
  if (ac_stext x =? 0) || (ac_text_end x =? 0) then false
  else if (addr <? ac_stext x) || (ac_text_end x <=? addr) then false
  else if ac_addr_in_module addr then false
  else true.

Definition ac_plausible_handler (e anchor : Z) : bool :=
  if e =? 0 then false
  else if ac_addr_in_module e then false
  else (u64 (anchor - 0x4000000) <? e) && (e <? u64 (anchor + 0x4000000)).

Definition ac_entry_bad (x : text) (e : Z) : bool :=
  if negb (ac_stext x =? 0) && negb (ac_text_end x =? 0) then negb (ac_in_core_text x e)
  else negb (ac_plausible_handler e (ac_anchor x)).

(** [ac_kread(&e, base + i * sizeof(e), sizeof(e))]. *)
Definition table_entry (base : Z) (i : nat) : option Z :=
  kread64 k (u64 (base + 8 * Z.of_nat i)).

(** The loop of [ac_table_plausible], with its early return at 400. *)
Fixpoint plausible_loop (base anchor : Z) (js : list nat) (valid : Z) : bool :=
  match js with
  | [] => 400 <=? valid
  | i :: js =>
      match table_entry base i with
      | None => plausible_loop base anchor js valid
      | Some e =>
          if e =? 0 then plausible_loop base anchor js valid
          else if ac_plausible_handler e anchor then
            if 400 <=? valid + 1 then true
            else plausible_loop base anchor js (valid + 1)
          else plausible_loop base anchor js valid
      end
  end.

Definition ac_table_plausible (base anchor : Z) : bool :=
  plausible_loop base anchor (seq 0 (NR_syscalls k)) 0.

(** The loop of [ac_derive_bounds] over [(lo, hi)]. *)
Definition bounds_step (base anchor : Z) (lh : Z * Z) (i : nat) : Z * Z :=
  match table_entry base i with
  | None => lh
  | Some e =>
      if ac_plausible_handler e anchor then
        (if (lh.1 =? 0) || (e <? lh.1) then e else lh.1,
         if lh.2 <? e then e else lh.2)
      else lh
  end.

Definition mask_2M : Z := u64 (Z.lnot 0x1FFFFF).

Definition ac_derive_bounds (base anchor : Z) (x : text) : text :=
  let '(lo, hi) := foldl (bounds_step base anchor) (0, 0) (seq 0 (NR_syscalls k)) in
  if negb (lo =? 0) && negb (hi =? 0) then
    Text (if ac_stext x =? 0 then Z.land lo mask_2M else ac_stext x) (ac_etext x)
      (if ac_text_end x =? 0 then Z.land (u64 (hi + 0x1FFFFF)) mask_2M else ac_text_end x)
      (ac_anchor x) (ac_syscall_table x)
  else x.

(** The body shared by the two scans of [ac_find_syscall_table]: the table
    base if the slot at [addr] is the read handler's. *)
Definition candidate (rh wh addr : Z) : option Z :=
  match kread64 k addr with
  | None => None
  | Some v1 =>
      if negb (v1 =? rh) then None
      else
        let base := u64 (addr - NR_read k * 8) in
        match kread64 k (u64 (base + NR_write k * 8)) with
        | None => None
        | Some v2 => if (v2 =? wh) && ac_table_plausible base rh then Some base else None
        end
  end.

(** [for (addr = lo; addr < hi; addr += 8)]: a window of 32 MB holds
    0x400000 slots, the fuel the caller passes. *)
Fixpoint scan_forward (fuel : nat) (rh wh hi addr : Z) : option Z :=
  match fuel with
  | O => None
  | S fuel =>
      if addr <? hi then
        match candidate rh wh addr with
        | Some base => Some base
        | None => scan_forward fuel rh wh hi (u64 (addr + 8))
        end
      else None
  end.

(** [for (addr = rh; addr > rh - 0x2000000; addr -= 8)]. *)
Fixpoint scan_backward (fuel : nat) (rh wh lo addr : Z) : option Z :=
  match fuel with
  | O => None
  | S fuel =>
      if lo <? addr then
        match candidate rh wh addr with
        | Some base => Some base
        | None => scan_backward fuel rh wh lo (u64 (addr - 8))
        end
      else None
  end.

Definition scan_slots : nat := Z.to_nat 0x400000.

Definition ac_find_syscall_table (x : text) : Z * text :=
  let rh := ac_normalize_func (ac_lookup (bs "__x64_sys_read")) in
  let wh := ac_normalize_func (ac_lookup (bs "__x64_sys_write")) in
  if (rh =? 0) || (wh =? 0) then (0, x)
  else
    let lo := if negb (ac_etext x =? 0) then ac_etext x
              else if negb (ac_stext x =? 0) then ac_stext x else rh in
    let found base :=
      (base, ac_derive_bounds base rh
               (Text (ac_stext x) (ac_etext x) (ac_text_end x) rh (ac_syscall_table x))) in
    match scan_forward scan_slots rh wh (u64 (lo + 0x2000000)) lo with
    | Some base => found base
    | None =>
        match scan_backward scan_slots rh wh (u64 (rh - 0x2000000)) rh with
        | Some base => found base
        | None => (0, x)
        end
    end.

(** ** The integrity check *)

Definition hook_event (n i : nat) (e : Z) : ac_event :=
  mk_event (ktime k n) AC_EV_SYSCALL_HOOK 0 (Some (bs "?"))
    (bs "syscall[" ++ fmt_d (Z.of_nat i) ++ bs "] -> 0x" ++ fmt_x e
     ++ bs " outside core kernel text").

(** One iteration of [ac_check_syscalls]: the counters, the ring, and how
    many events were emitted so far. *)
Definition check_step (x : text) (s : ac_syscall_check * ring * nat) (i : nat)
    : ac_syscall_check * ring * nat :=
  let '(out, r, n) := s in
  match table_entry (ac_syscall_table x) i with
  | None => s
  | Some e =>
      if e =? 0 then s
      else
        let out := SyscallCheck (sc_table_addr out) (sc_nr_syscalls out)
                     (u32 (sc_total out + 1)) (sc_non_text out) (sc_hooked out) (sc_ok out) in
        if ac_entry_bad x e then
          (SyscallCheck (sc_table_addr out) (sc_nr_syscalls out) (sc_total out)
             (u32 (sc_non_text out + 1)) (u32 (sc_hooked out + 1)) (sc_ok out),
           ac_emit (hook_event n i e) r, S n)
        else (out, r, n)
  end.

Definition ac_check_syscalls (x : text) (r : ring) : Z * ac_syscall_check * ring :=
  let base := ac_syscall_table x in
  if base =? 0 then (- ENODEV, SyscallCheck base 0 0 0 0 0, r)
  else
    let '(out, r, _) :=
      foldl (check_step x) (SyscallCheck base (Z.of_nat (NR_syscalls k)) 0 0 0 0, r, 0%nat)
        (seq 0 (NR_syscalls k)) in
    (0, SyscallCheck (sc_table_addr out) (sc_nr_syscalls out) (sc_total out)
          (sc_non_text out) (sc_hooked out) (Z.b2z (sc_hooked out =? 0)), r).
End operations.

(** ** Specification *)

Section spec.
Context (k : kernel).

(** The readable, non-NULL entries among the given indices. *)
Definition live_entry (base : Z) (i : nat) : option (nat * Z) :=
  e ← table_entry k base i; if e =? 0 then None else Some (i, e).

Definition live_entries (base : Z) (js : list nat) : list (nat * Z) :=
  omap (live_entry base) js.

Definition bad_entries (x : text) (js : list nat) : list (nat * Z) :=
  filter (fun ie => ac_entry_bad k x ie.2 = true) (live_entries (ac_syscall_table x) js).

(** The events of the check, numbered from [n]. *)
Definition hook_events (n : nat) (l : list (nat * Z)) : list ac_event :=
  imap (fun j ie => hook_event k (n + j) ie.1 ie.2) l.

Definition plausible_entries (base anchor : Z) (js : list nat) : list (nat * Z) :=
  filter (fun ie => ac_plausible_handler k ie.2 anchor = true) (live_entries base js).

(** ** Lemmas *)

Lemma addr_in_module_spec addr :
  ac_addr_in_module k addr = true <->
  exists m, m ∈ modules k /\ ac_module_sane m = true /\ within_module_core k addr m = true.
Proof.
  unfold ac_addr_in_module. induction (modules k) as [|m ms IH]; simpl.
  - split; [done|]. intros (m & H & _). set_solver.
  - destruct (ac_module_sane m && within_module_core k addr m) eqn:E.
    + apply andb_true_iff in E as []. split; [|done]. intros _. exists m. set_solver.
    + rewrite IH. split.
      * intros (m' & ? & ?). exists m'. set_solver.
      * intros (m' & [->|?]%elem_of_cons & H1 & H2); [|eauto].
        by rewrite H1, H2 in E.
Qed.

(** With known bounds an entry is good exactly inside the core text and
    outside every sane module. *)
Lemma ac_entry_bad_spec x e :
  ac_stext x <> 0 -> ac_text_end x <> 0 ->
  ac_entry_bad k x e = false <->
  ac_stext x <= e < ac_text_end x /\ ac_addr_in_module k e = false.
Proof.
  intros H1 H2. unfold ac_entry_bad, ac_in_core_text.
  rewrite (proj2 (Z.eqb_neq _ _) H1), (proj2 (Z.eqb_neq _ _) H2). simpl.
  destruct (Z.ltb_spec e (ac_stext x)), (Z.leb_spec (ac_text_end x) e),
    (ac_addr_in_module k e); simpl; intuition (lia || congruence).
Qed.

Lemma hook_events_cons n i e l :
  hook_events n ((i, e) :: l) = hook_event k n i e :: hook_events (S n) l.
Proof.
  unfold hook_events. rewrite imap_cons, Nat.add_0_r. f_equal.
  apply imap_ext. intros j ? _. unfold compose. f_equal. lia.
Qed.

Lemma live_entries_cons base i js :
  live_entries base (i :: js) =
  match live_entry base i with
  | Some ie => ie :: live_entries base js
  | None => live_entries base js
  end.
Proof. done. Qed.

Lemma bad_entries_cons x i js :
  bad_entries x (i :: js) =
  match live_entry (ac_syscall_table x) i with
  | Some ie => if ac_entry_bad k x ie.2 then ie :: bad_entries x js else bad_entries x js
  | None => bad_entries x js
  end.
Proof.
  unfold bad_entries. rewrite live_entries_cons.
  destruct (live_entry _ i) as [ie|]; [|done]. rewrite filter_cons.
  destruct (ac_entry_bad k x ie.2); by case_decide.
Qed.

Lemma bad_entries_nil x js :
  bad_entries x js = [] <->
  forall i e, i ∈ js -> table_entry k (ac_syscall_table x) i = Some e -> e <> 0 ->
    ac_entry_bad k x e = false.
Proof.
  induction js as [|j js IH]; [split; [set_solver|done]|].
  rewrite bad_entries_cons. unfold live_entry.
  setoid_rewrite elem_of_cons.
  destruct (table_entry k _ j) as [e|] eqn:Ej; cbn [mbind option_bind];
    [|rewrite IH; naive_solver].
  destruct (Z.eqb_spec e 0); cbn [snd]; [rewrite IH; naive_solver|].
  destruct (ac_entry_bad k x e) eqn:Eb; [|rewrite IH; naive_solver].
  split; [done|]. intros H. by rewrite (H j e (or_introl eq_refl)) in Eb.
Qed.

Lemma check_step_live x out r n i :
  check_step k x (out, r, n) i =
  match live_entry (ac_syscall_table x) i with
  | None => (out, r, n)
  | Some ie =>
      if ac_entry_bad k x ie.2 then
        (SyscallCheck (sc_table_addr out) (sc_nr_syscalls out) (u32 (sc_total out + 1))
           (u32 (sc_non_text out + 1)) (u32 (sc_hooked out + 1)) (sc_ok out),
         ac_emit (hook_event k n ie.1 ie.2) r, S n)
      else
        (SyscallCheck (sc_table_addr out) (sc_nr_syscalls out) (u32 (sc_total out + 1))
           (sc_non_text out) (sc_hooked out) (sc_ok out), r, n)
  end.
Proof.
  unfold check_step, live_entry. destruct (table_entry k _ i) as [e|]; [|done]. simpl.
  by destruct (e =? 0).
Qed.

Lemma check_loop x js : forall out r n,
  0 <= sc_hooked out <= sc_total out -> sc_non_text out = sc_hooked out ->
  sc_total out + Z.of_nat (length js) < 2 ^ 32 ->
  let l := live_entries (ac_syscall_table x) js in
  let b := bad_entries x js in
  let '(out', r', n') := foldl (check_step k x) (out, r, n) js in
  out' = SyscallCheck (sc_table_addr out) (sc_nr_syscalls out)
           (sc_total out + Z.of_nat (length l)) (sc_hooked out + Z.of_nat (length b))
           (sc_hooked out + Z.of_nat (length b)) (sc_ok out) /\
  r' = foldl (fun r ev => ac_emit ev r) r (hook_events n b) /\ n' = (n + length b)%nat.
Proof.
  induction js as [|i js IH]; intros out r n Hh Hn Ht l b; subst l b.
  { destruct out; simpl in *. subst. rewrite !Z.add_0_r, Nat.add_0_r. done. }
  cbn [length] in Ht. cbn [foldl].
  rewrite check_step_live, live_entries_cons, bad_entries_cons.
  destruct (live_entry (ac_syscall_table x) i) as [[i' e]|]; [|apply IH; lia].
  unfold u32. rewrite !Z.mod_small by lia. cbn [fst snd].
  destruct (ac_entry_bad k x e).
  - specialize (IH (SyscallCheck (sc_table_addr out) (sc_nr_syscalls out) (sc_total out + 1)
      (sc_non_text out + 1) (sc_hooked out + 1) (sc_ok out))
      (ac_emit (hook_event k n i' e) r) (S n)). cbn in IH.
    destruct (foldl _ _ js) as [[out' r'] n'].
    destruct IH as (-> & -> & ->); [lia..|].
    rewrite hook_events_cons. cbn [length foldl]. split_and!; [f_equal; lia|done|lia].
  - specialize (IH (SyscallCheck (sc_table_addr out) (sc_nr_syscalls out) (sc_total out + 1)
      (sc_non_text out) (sc_hooked out) (sc_ok out)) r n). cbn in IH.
    destruct (foldl _ _ js) as [[out' r'] n'].
    destruct IH as (-> & -> & ->); [lia..|].
    cbn [length]. split_and!; [f_equal; lia|done|lia].
Qed.

Lemma plausible_loop_spec base anchor js : forall valid,
  0 <= valid < 400 ->
  plausible_loop k base anchor js valid =
    (400 <=? valid + Z.of_nat (length (plausible_entries base anchor js))).
Proof.
  induction js as [|i js IH]; intros valid Hv.
  { simpl. by rewrite Z.add_0_r. }
  cbn [plausible_loop]. unfold plausible_entries, live_entries in *.
  cbn [omap list_omap]. unfold live_entry at 1.
  destruct (table_entry k base i) as [e|]; cbn; [|by apply IH].
  destruct (e =? 0); [by apply IH|]. rewrite filter_cons. cbn [snd].
  destruct (ac_plausible_handler k e anchor).
  - rewrite decide_True by done. cbn [length]. destruct (Z.leb_spec 400 (valid + 1)).
    + symmetry. apply Z.leb_le. lia.
    + rewrite IH by lia. f_equal. lia.
  - rewrite decide_False by done. by apply IH.
Qed.

Lemma candidate_spec rh wh addr base :
  candidate k rh wh addr = Some base ->
  base = u64 (addr - NR_read k * 8) /\ kread64 k addr = Some rh /\
  kread64 k (u64 (base + NR_write k * 8)) = Some wh /\
  (400 <= length (plausible_entries base rh (seq 0 (NR_syscalls k))))%nat.
Proof.
  unfold candidate. intros H. destruct (kread64 k addr) as [v1|]; [|done].
  destruct (Z.eqb_spec v1 rh); simpl in H; [|done]. subst.
  destruct (kread64 k _) as [v2|] eqn:E2 in H; [|done].
  destruct (Z.eqb_spec v2 wh); simpl in H; [|done]. subst.
  destruct (ac_table_plausible k _ _) eqn:Ep; simplify_eq.
  split_and!; [done|done|done|].
  unfold ac_table_plausible in Ep. rewrite plausible_loop_spec in Ep by lia.
  apply Z.leb_le in Ep. lia.
Qed.

Lemma scan_forward_spec rh wh hi : forall fuel addr,
  0 <= addr -> hi + 8 < 2 ^ 64 -> hi <= addr + 8 * Z.of_nat fuel ->
  match scan_forward k fuel rh wh hi addr with
  | Some base =>
      exists j, addr + 8 * Z.of_nat j < hi /\
        candidate k rh wh (addr + 8 * Z.of_nat j) = Some base /\
        forall j', (j' < j)%nat -> candidate k rh wh (addr + 8 * Z.of_nat j') = None
  | None => forall j, addr + 8 * Z.of_nat j < hi ->
        candidate k rh wh (addr + 8 * Z.of_nat j) = None
  end.
Proof.
  induction fuel as [|fuel IH]; intros addr Ha Hhi Hf; cbn [scan_forward].
  { intros j Hj. lia. }
  destruct (Z.ltb_spec addr hi) as [Hlt|Hge]; [|intros j Hj; lia].
  destruct (candidate k rh wh addr) as [base|] eqn:E.
  { exists 0%nat. rewrite Z.add_0_r. split_and!; [lia|done|]. intros; lia. }
  unfold u64. rewrite Z.mod_small by lia.
  specialize (IH (addr + 8) ltac:(lia) Hhi ltac:(lia)).
  assert (Hs : forall j, addr + 8 * Z.of_nat (S j) = addr + 8 + 8 * Z.of_nat j) by lia.
  destruct (scan_forward k fuel rh wh hi (addr + 8)) as [base|].
  - destruct IH as (j & H1 & H2 & H3). exists (S j). rewrite Hs. split_and!; [done|done|].
    intros [|j'] Hj'; [by rewrite Z.add_0_r|]. rewrite Hs. apply H3. lia.
  - intros [|j] Hj; [by rewrite Z.add_0_r|]. rewrite Hs in *. by apply IH.
Qed.

Lemma scan_backward_sound rh wh lo : forall fuel addr base,
  scan_backward k fuel rh wh lo addr = Some base ->
  exists a, candidate k rh wh a = Some base.
Proof.
  induction fuel as [|fuel IH]; intros addr base H; cbn [scan_backward] in H; [done|].
  destruct (lo <? addr); [|done].
  destruct (candidate k rh wh addr) eqn:E; simplify_eq; eauto.
Qed.

Lemma plausible_pos e anchor : ac_plausible_handler k e anchor = true -> 0 < e.
Proof.
  unfold ac_plausible_handler. destruct (e =? 0); [done|].
  destruct (ac_addr_in_module k e); [done|]. intros [H _]%andb_true_iff.
  apply Z.ltb_lt in H. unfold u64 in H.
  pose proof (Z.mod_pos_bound (anchor - 0x4000000) (2 ^ 64)). lia.
Qed.

(** The fold of [ac_derive_bounds] covers every plausible entry, and only
    ever records entries. *)
Lemma bounds_fold base anchor js : forall lo hi,
  0 <= lo -> 0 <= hi ->
  let '(lo', hi') := foldl (bounds_step k base anchor) (lo, hi) js in
  0 <= lo' /\ hi <= hi' /\ (lo <> 0 -> 0 < lo' <= lo) /\
  (hi' = hi \/ exists i, i ∈ js /\ table_entry k base i = Some hi') /\
  (forall i e, i ∈ js -> table_entry k base i = Some e ->
     ac_plausible_handler k e anchor = true -> 0 < lo' <= e /\ e <= hi').
Proof.
  induction js as [|j js IH]; intros lo hi Hlo Hhi.
  { simpl. split_and!; try lia. set_solver. }
  cbn [foldl]. unfold bounds_step at 2. cbn [fst snd].
  set (lh := match table_entry k base j with Some _ => _ | None => _ end).
  assert (Hs : 0 <= lh.1 /\ hi <= lh.2 /\ (lo <> 0 -> 0 < lh.1 <= lo) /\
    (lh.2 = hi \/ table_entry k base j = Some lh.2) /\
    forall e, table_entry k base j = Some e -> ac_plausible_handler k e anchor = true ->
      0 < lh.1 <= e /\ e <= lh.2).
  { subst lh. destruct (table_entry k base j) as [e|].
    2:{ simpl. split_and!; intros; simplify_eq; auto with lia. }
    destruct (ac_plausible_handler k e anchor) eqn:Ep.
    2:{ simpl. split_and!; intros; simplify_eq; auto with lia. congruence. }
    apply plausible_pos in Ep. cbn [fst snd].
    destruct (Z.eqb_spec lo 0), (Z.ltb_spec e lo), (Z.ltb_spec hi e); simpl;
      split_and!; intros; simplify_eq; auto with lia. }
  destruct lh as [lo1 hi1]. cbn [fst snd] in Hs. destruct Hs as (H1 & H2 & H3 & H4 & H5).
  specialize (IH lo1 hi1 H1 ltac:(lia)).
  destruct (foldl _ _ js) as [lo' hi']. destruct IH as (I1 & I2 & I3 & I4 & I5).
  split_and!; [lia|lia| | |].
  - intros Hl. specialize (H3 Hl). lia.
  - destruct I4 as [->|(i & Hi & E)]; [|set_solver].
    destruct H4 as [->|E]; [by left|set_solver].
  - intros i e [->|Hi]%elem_of_cons He Hp; [|by eapply I5].
    destruct (H5 e He Hp). specialize (I3 ltac:(lia)). lia.
Qed.
End spec.

(** The check only moves the ring forward. *)
Lemma ac_check_syscalls_ring k x r : ring_inv r -> ring_inv (ac_check_syscalls k x r).2.
Proof.
  intros Hr. unfold ac_check_syscalls. destruct (ac_syscall_table x =? 0); [done|].
  assert (H : forall js s, ring_inv s.1.2 -> ring_inv (foldl (check_step k x) s js).1.2).
  { induction js as [|i js IH]; intros [[out r'] n] Hs; [done|]. cbn [foldl]. apply IH.
    unfold check_step. destruct (table_entry _ _ i) as [e|]; [|done].
    destruct (e =? 0); [done|]. destruct (ac_entry_bad k x e); [|done].
    by apply ac_emit_refines. }
  specialize (H (seq 0 (NR_syscalls k))
    (SyscallCheck (ac_syscall_table x) (Z.of_nat (NR_syscalls k)) 0 0 0 0, r, 0%nat) Hr).
  by destruct (foldl _ _ _) as [[out r'] n].
Qed.

Lemma mask_2M_spec z : 0 <= z < 2 ^ 64 -> Z.land z mask_2M = z / 2 ^ 21 * 2 ^ 21.
Proof.
  intros Hz. rewrite <- Z.shiftr_div_pow2, <- Z.shiftl_mul_pow2 by lia.
  apply Z.bits_inj'. intros i Hi. rewrite Z.land_spec. unfold mask_2M, u64.
  change 0x1FFFFF with (Z.ones 21). destruct (Z.lt_ge_cases i 64) as [H|H].
  - rewrite Z.mod_pow2_bits_low, Z.lnot_spec by lia. destruct (Z.lt_ge_cases i 21).
    + rewrite Z.ones_spec_low, Z.shiftl_spec_low by lia. apply andb_false_r.
    + rewrite Z.ones_spec_high, Z.shiftl_spec, Z.shiftr_spec by lia.
      replace (i - 21 + 21) with i by lia. apply andb_true_r.
  - rewrite Z.mod_pow2_bits_high by lia. rewrite andb_false_r, Z.shiftl_spec by lia.
    rewrite Z.shiftr_spec by lia. replace (i - 21 + 21) with i by lia.
    rewrite <- (Z.mod_small z (2 ^ 64)) by lia. by rewrite Z.mod_pow2_bits_high by lia.
Qed.

(** ** Properties *)

(** The integrity check counts exactly.  Without a table it reports
    [ENODEV] and emits nothing.  With a table it returns 0, [total] is the
    number of readable non-NULL entries, [hooked] and [non_text] the number of
    those classified bad, [ok] says whether there are none, and the ring
    receives one [AC_EV_SYSCALL_HOOK] event per bad entry, in table order. *)
Theorem check_syscalls_counts (k : kernel) (x : text) (r : ring) :
  Z.of_nat (NR_syscalls k) < 2 ^ 32 ->
  let idx := seq 0 (NR_syscalls k) in
  let live := live_entries k (ac_syscall_table x) idx in
  let bad := bad_entries k x idx in
  let '(ret, out, r') := ac_check_syscalls k x r in
  if decide (ac_syscall_table x = 0) then ret = - ENODEV /\ sc_hooked out = 0 /\ r' = r
  else ret = 0 /\
    out = SyscallCheck (ac_syscall_table x) (Z.of_nat (NR_syscalls k))
            (Z.of_nat (length live)) (Z.of_nat (length bad)) (Z.of_nat (length bad))
            (if decide (bad = []) then 1 else 0) /\
    r' = foldl (fun r ev => ac_emit ev r) r (hook_events k 0 bad).
Proof.
  intros HN idx live bad. unfold ac_check_syscalls.
  destruct (Z.eqb_spec (ac_syscall_table x) 0) as [E|E].
  { by destruct (decide (ac_syscall_table x = 0)). }
  destruct (decide (ac_syscall_table x = 0)) as [|_]; [done|].
  pose proof (check_loop k x idx
    (SyscallCheck (ac_syscall_table x) (Z.of_nat (NR_syscalls k)) 0 0 0 0) r 0) as H.
  cbn [sc_hooked sc_total sc_non_text sc_table_addr sc_nr_syscalls sc_ok] in H.
  fold live bad in H. subst idx.
  destruct (foldl _ _ _) as [[out' r'] n'].
  destruct H as (-> & -> & _); [lia|done|rewrite length_seq; lia|].
  cbn [sc_hooked sc_total sc_non_text sc_table_addr sc_nr_syscalls sc_ok].
  split_and!; [done| |done]. f_equal; try lia.
  destruct (decide (bad = [])) as [->|Hb]; [done|].
  by destruct bad.
Qed.

(** A handler address outside [[stext, text_end)], or inside a sane module. *)
Definition leads_astray (k : kernel) (x : text) (e : Z) : Prop :=
  ~ (ac_stext x <= e < ac_text_end x) \/
  exists m, m ∈ modules k /\ ac_module_sane m = true /\ within_module_core k e m = true.

Lemma entry_bad_astray k x e :
  ac_stext x <> 0 -> ac_text_end x <> 0 -> ac_entry_bad k x e = true <-> leads_astray k x e.
Proof.
  intros Hs He. unfold leads_astray. rewrite <- addr_in_module_spec.
  pose proof (ac_entry_bad_spec k x e Hs He) as H.
  destruct (ac_entry_bad k x e), (ac_addr_in_module k e); try naive_solver.
Qed.

Lemma elem_of_live_entries k base js i e :
  (i, e) ∈ live_entries k base js <-> i ∈ js /\ table_entry k base i = Some e /\ e <> 0.
Proof.
  unfold live_entries. rewrite list_elem_of_omap. unfold live_entry. split.
  - intros (j & Hj & E). destruct (table_entry k base j) as [v|] eqn:Ev; [|done]. cbn in E.
    destruct (Z.eqb_spec v 0); simplify_eq. done.
  - intros (Hi & E & He). exists i. split; [done|]. rewrite E. cbn.
    by rewrite (proj2 (Z.eqb_neq e 0) He).
Qed.

Lemma live_entries_sorted k base js :
  StronglySorted lt js -> StronglySorted (fun a b => a.1 < b.1)%nat (live_entries k base js).
Proof.
  induction 1 as [|j js _ IH Hj]; [constructor|]. rewrite live_entries_cons.
  unfold live_entry. destruct (table_entry k base j) as [e|]; [|done]. cbn.
  destruct (e =? 0); [done|]. constructor; [done|]. apply Forall_forall. intros [i e'] Hi.
  apply elem_of_live_entries in Hi as [Hi _]. by apply (proj1 (Forall_forall _ _) Hj).
Qed.

Lemma seq_sorted n : forall i, StronglySorted lt (seq i n).
Proof.
  induction n as [|n IH]; intros i; cbn [seq]; constructor; [done|].
  apply Forall_forall. intros j Hj%elem_of_seq. lia.
Qed.

Lemma StronglySorted_filter {A} (R : A -> A -> Prop) (P : A -> Prop) `{forall a, Decision (P a)} l :
  StronglySorted R l -> StronglySorted R (filter P l).
Proof.
  induction 1 as [|a l _ IH Ha]; [constructor|]. rewrite filter_cons. case_decide; [|done].
  constructor; [done|]. apply Forall_forall. intros b [_ Hb]%list_elem_of_filter.
  by apply (proj1 (Forall_forall _ _) Ha).
Qed.

(** C7: what the check can and cannot miss, entry by entry.  With the table
    located (of fewer than 2^32 entries) and both text bounds known, the entries
    flagged are exactly the readable, non-NULL ones that lead below [stext], to
    [text_end] or above, or into a sane module, all of them, each once, in table
    order: [hooked] and [non_text] are their number, [ok] is 1 when there is none
    and 0 otherwise, [total] is the number of
    readable non-NULL entries, and the ring receives one event per flagged entry,
    naming its index and address, in that order. *)
Theorem check_syscalls_detects (k : kernel) (x : text) (r : ring) :
  Z.of_nat (NR_syscalls k) < 2 ^ 32 ->
  ac_syscall_table x <> 0 -> ac_stext x <> 0 -> ac_text_end x <> 0 ->
  let '(ret, out, r') := ac_check_syscalls k x r in
  exists live flagged : list (nat * Z),
    (forall i e, (i, e) ∈ live <->
       (i < NR_syscalls k)%nat /\ table_entry k (ac_syscall_table x) i = Some e /\ e <> 0) /\
    (forall i e, (i, e) ∈ flagged <-> (i, e) ∈ live /\ leads_astray k x e) /\
    StronglySorted (fun a b => a.1 < b.1)%nat live /\
    StronglySorted (fun a b => a.1 < b.1)%nat flagged /\
    ret = 0 /\ sc_total out = Z.of_nat (length live) /\
    sc_hooked out = Z.of_nat (length flagged) /\ sc_non_text out = Z.of_nat (length flagged) /\
    sc_ok out = (if decide (flagged = []) then 1 else 0) /\
    r' = foldl (fun r ev => ac_emit ev r) r
           (imap (fun n ie => hook_event k n ie.1 ie.2) flagged).
Proof.
  intros HN Ht Hs He. pose proof (check_syscalls_counts k x r HN) as H.
  destruct (ac_check_syscalls k x r) as [[ret out] r'].
  destruct (decide (ac_syscall_table x = 0)) as [|_]; [done|]. destruct H as (-> & -> & ->).
  set (idx := seq 0 (NR_syscalls k)).
  exists (live_entries k (ac_syscall_table x) idx), (bad_entries k x idx).
  split_and!; try done.
  - intros i e. rewrite elem_of_live_entries. unfold idx. rewrite elem_of_seq.
    naive_solver lia.
  - intros i e. unfold bad_entries. rewrite list_elem_of_filter. cbn [snd].
    rewrite (entry_bad_astray k x e Hs He). tauto.
  - apply live_entries_sorted, seq_sorted.
  - apply StronglySorted_filter, live_entries_sorted, seq_sorted.
Qed.

(** A kernel whose table of [n] handlers sits at [tbl], handler [i] at
    [h + 16 * i], except for the slots overridden by [over]. *)
Definition table_kernel (n : nat) (tbl h : Z) (over : nat -> option Z) : kernel := {|
  current := 1%positive; task_pid _ := 1; task_comm _ := bs "init";
  find_get_pid _ := None; get_pid_task _ := None; get_task_pid t := t;
  task_active_pid_ns _ := None; find_pid_ns _ _ := None; ktime _ := 0;
  capable_admin := true; user_readable := true; user_writable := true;
  alloc_state := true; alloc_bulk := true; alloc_path _ := true;
  try_module_get := true; task_vmas _ := None; modules := [];
  within_module_core _ _ := false;
  kread64 a :=
    let i := (a - tbl) / 8 in
    if (0 <=? i) && (i <? Z.of_nat n) then
      Some (default (h + 16 * i) (over (Z.to_nat i)))
    else None;
  kread32 _ := None;
  kprobe_addr s := if decide (s = bs "__x64_sys_read") then Some h
                   else if decide (s = bs "__x64_sys_write") then Some (h + 16)
                   else if decide (s = bs "_etext") then Some (tbl - 8) else None;
  kprobe_register _ := 0; kretprobe_register := 0;
  create_workqueue := true; misc_register := 0;
  NR_syscalls := n; NR_read := 0; NR_write := 1
|}.

Lemma check_syscalls_counts_witness :
  let k := table_kernel 3 0xffffffff82000000 0xffffffff81000000
             (fun i => if Nat.eqb i 2 then Some 0xffffffffc0000000 else None) in
  let x := Text 0xffffffff81000000 0 0xffffffff82000000 0 0xffffffff82000000 in
  Z.of_nat (NR_syscalls k) < 2 ^ 32 /\ sc_hooked (ac_check_syscalls k x ring_init).1.2 = 1.
Proof.
  intros k x. split; [reflexivity|].
  pose proof (check_syscalls_counts k x ring_init eq_refl) as H.
  destruct (ac_check_syscalls k x ring_init) as [[ret out] r'] eqn:E. simpl fst. simpl snd.
  destruct (decide (ac_syscall_table x = 0)); [discriminate|].
  destruct H as (_ & -> & _). reflexivity.
Defined.

Lemma check_syscalls_detects_witness :
  let k := table_kernel 3 0xffffffff82000000 0xffffffff81000000
             (fun i => if Nat.eqb i 2 then Some 0xffffffffc0000000 else None) in
  let x := Text 0xffffffff81000000 0 0xffffffff82000000 0 0xffffffff82000000 in
  sc_ok (ac_check_syscalls k x ring_init).1.2 <> 1.
Proof.
  intros k x.
  pose proof (check_syscalls_detects k x ring_init eq_refl
    ltac:(discriminate) ltac:(discriminate) ltac:(discriminate)) as H.
  destruct (ac_check_syscalls k x ring_init) as [[ret out] r']. simpl fst. simpl snd.
  destruct H as (live & flagged & Hl & Hf & _ & _ & _ & _ & _ & _ & Hok & _).
  assert (Hin : (2%nat, 0xffffffffc0000000) ∈ flagged).
  { apply Hf. split.
    - apply Hl. split; [simpl; lia|]. split; [reflexivity|discriminate].
    - left. intros Hr. vm_compute in Hr. by destruct Hr. }
  rewrite Hok. destruct (decide (flagged = [])) as [->|_]; [|discriminate].
  by apply not_elem_of_nil in Hin.
Defined.

(** The table search.  When both handlers resolve and the 32 MB window
    does not wrap around, the search either reports 0 and changes nothing, or
    returns a base such that some slot holds the read handler at distance
    [__NR_read], the write handler sits at [table[__NR_write]] and at least
    400 entries are plausible, with the read handler as anchor.  It finds the
    first candidate of the window whenever there is one: 0x400000 iterations
    cover it. *)
Theorem find_syscall_table_correct (k : kernel) (x : text) :
  let rh := ac_normalize_func k (ac_lookup k (bs "__x64_sys_read")) in
  let wh := ac_normalize_func k (ac_lookup k (bs "__x64_sys_write")) in
  let lo := if negb (ac_etext x =? 0) then ac_etext x
            else if negb (ac_stext x =? 0) then ac_stext x else rh in
  rh <> 0 -> wh <> 0 -> 0 <= lo -> lo + 0x2000000 + 8 < 2 ^ 64 ->
  let '(base, x') := ac_find_syscall_table k x in
  ((base = 0 /\ x' = x) \/
   (exists slot, base = u64 (slot - NR_read k * 8) /\ kread64 k slot = Some rh /\
      kread64 k (u64 (base + NR_write k * 8)) = Some wh /\
      (400 <= length (plausible_entries k base rh (seq 0 (NR_syscalls k))))%nat /\
      ac_anchor x' = rh)) /\
  (forall j b, Z.of_nat j < 0x400000 -> candidate k rh wh (lo + 8 * Z.of_nat j) = Some b ->
     (forall j', (j' < j)%nat -> candidate k rh wh (lo + 8 * Z.of_nat j') = None) -> base = b).
Proof.
  intros rh wh lo Hr Hw Hlo Hhi. unfold ac_find_syscall_table. fold rh wh lo.
  rewrite (proj2 (Z.eqb_neq _ _) Hr), (proj2 (Z.eqb_neq _ _) Hw). cbn [orb].
  assert (Hanc : forall b x0, ac_anchor x0 = rh -> ac_anchor (ac_derive_bounds k b rh x0) = rh).
  { intros b x0 <-. unfold ac_derive_bounds. destruct (foldl _ _ _) as [lo' hi'].
    by destruct (_ && _). }
  pose proof (scan_forward_spec k rh wh (u64 (lo + 0x2000000)) scan_slots lo) as H.
  assert (Eh : u64 (lo + 0x2000000) = lo + 0x2000000) by (apply Z.mod_small; lia).
  assert (Es : Z.of_nat scan_slots = 0x400000) by (apply Z2Nat.id; lia).
  rewrite Eh, Es in *. specialize (H Hlo Hhi ltac:(lia)). clear Es.
  destruct (scan_forward k scan_slots rh wh (lo + 0x2000000) lo) as [base|].
  - destruct H as (j & Hj & Hc & Hmin). split.
    + right. apply candidate_spec in Hc as (-> & ? & ? & ?). eexists. eauto 10.
    + intros j1 b Hj1 Hb Hmin1.
      destruct (Nat.lt_trichotomy j j1) as [Hlt|[->|Hlt]]; [|congruence|].
      * rewrite (Hmin1 j Hlt) in Hc. done.
      * rewrite (Hmin j1 Hlt) in Hb. done.
  - assert (Hno : forall j b, Z.of_nat j < 0x400000 ->
      candidate k rh wh (lo + 8 * Z.of_nat j) = Some b -> False).
    { intros j b Hj Hb. rewrite (H j) in Hb by lia. done. }
    destruct (scan_backward _ _ _ _ _ _) as [base|] eqn:Eb.
    + apply scan_backward_sound in Eb as [a Hc].
      apply candidate_spec in Hc as (-> & ? & ? & ?). split; [right; eauto 10|].
      intros j b Hj Hb. by destruct (Hno j b Hj Hb).
    + split; [by left|]. intros j b Hj Hb. by destruct (Hno j b Hj Hb).
Qed.

Lemma find_syscall_table_correct_witness :
  let k := table_kernel 462 0xffffffff82000000 0xffffffff81000000 (fun _ => None) in
  ac_normalize_func k (ac_lookup k (bs "__x64_sys_read")) = 0xffffffff81000000 /\
  (ac_find_syscall_table k (ac_resolve_text_bounds k text_init)).1 = 0xffffffff82000000.
Proof.
  intros k. split; [vm_compute; reflexivity|].
  pose proof (find_syscall_table_correct k (ac_resolve_text_bounds k text_init)) as H.
  specialize (H ltac:(vm_compute; discriminate) ltac:(vm_compute; discriminate)
    ltac:(vm_compute; discriminate) ltac:(vm_compute; reflexivity)).
  destruct (ac_find_syscall_table k _) as [base x']. destruct H as [_ H].
  apply (H 1%nat); [reflexivity|vm_compute; reflexivity|].
  intros [|j'] Hj; [vm_compute; reflexivity|lia].
Defined.

(** Deriving the bounds from the table.  Bounds that the symbol lookups
    already provided are kept; a missing lower bound becomes a 2 MB boundary
    at or below every plausible handler, and a missing upper bound a 2 MB
    boundary that every plausible handler is below, unless the handler sits
    exactly on the boundary. *)
Theorem derived_bounds_cover (k : kernel) (base anchor : Z) (x : text) (i : nat) (e : Z) :
  (forall j v, table_entry k base j = Some v -> v < 2 ^ 64 - 2 ^ 21) ->
  (i < NR_syscalls k)%nat -> table_entry k base i = Some e ->
  ac_plausible_handler k e anchor = true ->
  let x' := ac_derive_bounds k base anchor x in
  (ac_stext x <> 0 -> ac_stext x' = ac_stext x) /\
  (ac_text_end x <> 0 -> ac_text_end x' = ac_text_end x) /\
  (ac_stext x = 0 -> ac_stext x' <= e /\ ac_stext x' mod 2 ^ 21 = 0) /\
  (ac_text_end x = 0 -> ac_text_end x' mod 2 ^ 21 = 0 /\
     (e < ac_text_end x' \/ e = ac_text_end x')).
Proof.
  intros Hv Hi He Hp x'. subst x'. unfold ac_derive_bounds.
  pose proof (bounds_fold k base anchor (seq 0 (NR_syscalls k)) 0 0 ltac:(lia) ltac:(lia)) as H.
  destruct (foldl _ _ _) as [lo hi]. destruct H as (_ & _ & _ & H4 & H5).
  destruct (H5 i e ltac:(apply elem_of_seq; lia) He Hp) as [Hlo Hhi].
  assert (Hh : hi < 2 ^ 64 - 2 ^ 21).
  { destruct H4 as [->|(j & _ & Hj)]; [lia|by apply (Hv j)]. }
  rewrite !(proj2 (Z.eqb_neq _ _)) by lia. cbn [negb andb ac_stext ac_text_end].
  split_and!; intros Hx.
  - by rewrite (proj2 (Z.eqb_neq _ _) Hx).
  - by rewrite (proj2 (Z.eqb_neq _ _) Hx).
  - rewrite (proj2 (Z.eqb_eq _ _) Hx), mask_2M_spec by lia. lia_mod.
  - rewrite (proj2 (Z.eqb_eq _ _) Hx). unfold u64. rewrite (Z.mod_small (hi + 0x1FFFFF)) by lia.
    rewrite mask_2M_spec by lia. lia_mod.
Qed.

Lemma derived_bounds_cover_witness :
  let k := table_kernel 3 0xffffffff82000000 0xffffffff81000000 (fun _ => None) in
  ac_stext (ac_derive_bounds k 0xffffffff82000000 0xffffffff81000000 text_init)
    <= 0xffffffff81000010.
Proof.
  intros k.
  refine (proj1 (proj1 (proj2 (proj2 (derived_bounds_cover k 0xffffffff82000000
    0xffffffff81000000 text_init 1 0xffffffff81000010 _ _ _ _))) _)).
  - intros j v. unfold table_entry. cbn [kread64 k table_kernel].
    destruct (_ && _) eqn:E; [|discriminate]. apply andb_true_iff in E as [E1 E2].
    apply Z.leb_le in E1. apply Z.ltb_lt in E2. cbn in E2. intros [= <-]. cbn. lia.
  - vm_compute. lia.
  - reflexivity.
  - vm_compute. reflexivity.
  - reflexivity.
Defined.

(** The derived upper bound is exclusive but can equal the highest
    handler: a genuine table whose highest plausible handler lies on a 2 MB
    boundary is reported as hooked, because rounding up a multiple of 2 MB
    leaves it unchanged and the range test is [addr >= ac_text_end]. *)
Theorem aligned_handler_misreported :
  exists (k : kernel) (base anchor : Z) (e : Z),
    let x := ac_derive_bounds k base anchor (Text 0 0 0 anchor base) in
    table_entry k base 1 = Some e /\ ac_plausible_handler k e anchor = true /\
    ac_addr_in_module k e = false /\ ac_entry_bad k x e = true /\
    sc_ok (ac_check_syscalls k x ring_init).1.2 = 0.
Proof.
  exists (table_kernel 2 0xffffffff82000000 0xffffffff81000000
           (fun i => if Nat.eqb i 1 then Some 0xffffffff81200000 else None)),
         0xffffffff82000000, 0xffffffff81000000, 0xffffffff81200000.
  vm_compute. auto.
Qed.
