(* ===== verification/Probes.v ===== *)
(** * The probe handlers (src/anticheat_module.c, "kprobes")

    The interception of [ptrace], the inheritance of protection by forked
    children, the exit and exec monitors, the deferred kill of a tracer and
    the registration of the probes. *)

From Stdlib Require Import ZArith Lia.
From stdpp Require Import base numbers list gmap strings.
From S2P Require Import Prelude Abi Ring Kernel Registry.

(** What the handlers share: the registry, the event ring and the work items
    queued on [ac_wq], oldest first (an [ac_kill_req] is its [pid]). *)
Record guard := Guard {
  g_reg : registry;
  g_ring : ring;
  g_wq : list pidp
}.

Definition guard_init : guard := Guard registry_init ring_init [].

Definition emit (ev : ac_event) (g : guard) : guard :=
  Guard (g_reg g) (ac_emit ev (g_ring g)) (g_wq g).

(** The argument registers of the system call's [struct pt_regs] frame. *)
Record pt_regs := PtRegs { bx : Z; cx : Z; di : Z; si : Z }.

#[global] Instance pt_regs_eq_dec : EqDecision pt_regs.
Proof. solve_decision. Defined.

Definition PTRACE_TRACEME : Z := 0.

(** ** Handlers *)

Section handlers.
Context (k : kernel).

(** [ac_kill_worker]: the system calls it makes for one request. *)
Definition ac_kill_worker (p : pidp) : list kcall :=
  match get_pid_task k p with
  | Some t => [KGetTask t; KSigKill t; KPutTask t; KPutPid p; KFree MemReq]
  | None => [KPutPid p; KFree MemReq]
  end.

Definition ac_schedule_kill (victim : option task) (g : guard) : guard * list kcall :=
  match victim with
  | None => (g, [])
  | Some t =>
      if alloc_state k then
        (Guard (g_reg g) (g_ring g) (g_wq g ++ [get_task_pid k t]),
         [KAlloc MemReq; KGetPid (get_task_pid k t)])
      else (g, [])
  end.

(** [ac_ptrace_pre]; [is_compat] is [p == &ac_kp_ptrace32]. *)
Definition ac_ptrace_pre (ac_policy : Z) (is_compat : bool) (args : pt_regs) (g : guard)
    : pt_regs * guard * list kcall :=
  let request := s64 (if is_compat then bx args else di args) in
  let target := s64 (if is_compat then cx args else si args) in
  let '(deny, kill, target, tcomm, cs) :=
    if request =? PTRACE_TRACEME then
      if ac_is_protected_task (current k) (g_reg g) then
        (true, false, task_pid k (current k),
         strscpy AC_MAX_COMM (task_comm k (current k)), [])
      else (false, false, target, bs "?", [])
    else if 0 <? target then
      let '(prot, comm_out, cs) := ac_is_protected_pid k (s32 target) (g_reg g) in
      (prot, prot, target, default (bs "?") comm_out, cs)
    else (false, false, target, bs "?", []) in
  if negb deny then (args, g, cs)
  else
    let g := emit (mk_event (ktime k 0) AC_EV_PTRACE (s32 target) (Some tcomm)
                     (bs "ptrace req " ++ fmt_d request ++ bs " by pid "
                      ++ fmt_d (task_pid k (current k)) ++ bs " ("
                      ++ cstr (task_comm k (current k)) ++ bs ") DENIED")) g in
    let '(g, cs') := if kill && negb (Z.land ac_policy 0x1 =? 0)
                     then ac_schedule_kill (Some (current k)) g else (g, []) in
    (if is_compat then PtRegs (u64 (-1)) (cx args) (di args) (si args)
     else PtRegs (bx args) (cx args) (u64 (-1)) (si args),
     g, cs ++ cs').

(** [ac_clone_ret], for the value [kernel_clone] returns. *)
Definition ac_clone_ret (retval : Z) (g : guard) : guard * list kcall :=
  let child_pid := s64 retval in
  if child_pid <=? 0 then (g, [])
  else if negb (ac_is_protected_task (current k) (g_reg g)) then (g, [])
  else
    match ac_find_task k (s32 child_pid) with
    | (None, cs) => (g, cs)
    | (Some child, cs) =>
        let pcomm := strscpy AC_MAX_COMM (task_comm k (current k)) in
        let '(_, r, cs') :=
          ac_add_prot_task k child (ac_task_jit_allowed (current k) (g_reg g)) (g_reg g) in
        (emit (mk_event (ktime k 0) AC_EV_FORK (task_pid k child)
                 (Some (task_comm k child))
                 (bs "child of protected pid " ++ fmt_d (task_pid k (current k))
                  ++ bs " (" ++ pcomm ++ bs "); protection inherited"))
           (Guard r (g_ring g) (g_wq g)),
         cs ++ cs' ++ [KPutTask child])
    end.

Definition ac_exit_pre (g : guard) : guard * list kcall :=
  if negb (ac_is_protected_task (current k) (g_reg g)) then (g, [])
  else
    let g := emit (mk_event (ktime k 0) AC_EV_EXIT (task_pid k (current k))
                     (Some (task_comm k (current k))) (bs "protected process exited")) g in
    let '(r, cs) := ac_del_prot_task (current k) (g_reg g) in
    (Guard r (g_ring g) (g_wq g), cs).

Definition ac_exec_pre (g : guard) : guard :=
  if negb (ac_is_protected_task (current k) (g_reg g)) then g
  else
    emit (mk_event (ktime k 0) AC_EV_EXEC (task_pid k (current k))
            (Some (task_comm k (current k)))
            (bs "execve() invoked (path is a user pointer, not resolved)")) g.
End handlers.

(** ** Registration *)

(** [ac_kp_ok], [ac_kprobes_registered], [ac_kp_clone_ok]. *)
Record probes := Probes {
  ac_kp_ok : list bool;
  ac_kprobes_registered : Z;
  ac_kp_clone_ok : bool
}.

(** The symbols of [ac_kprobes], in order. *)
Definition ac_kprobes : list cstring :=
  [bs "__x64_sys_ptrace"; bs "__ia32_sys_ptrace"; bs "do_exit";
   bs "__x64_sys_execve"; bs "__x64_sys_execveat"].

Definition n_kprobes : nat := length ac_kprobes.

Definition probes_init : probes := Probes (replicate n_kprobes false) 0 false.

(** One iteration of the loop of [ac_register_kprobes]. *)
Definition register_step (k : kernel) (s : probes * list kcall) (i : nat) : probes * list kcall :=
  let '(p, cs) := s in
  let ok := kprobe_register k i =? 0 in
  (Probes (<[i := ok]> (ac_kp_ok p))
     (if ok then u32 (ac_kprobes_registered p + 1) else ac_kprobes_registered p)
     (ac_kp_clone_ok p),
   if ok then cs ++ [KRegister i] else cs).

Definition ac_register_kprobes (k : kernel) (p : probes) : probes * list kcall :=
  let '(p, cs) := foldl (register_step k) (p, []) (seq 0 n_kprobes) in
  if kretprobe_register k =? 0 then
    (Probes (ac_kp_ok p) (ac_kprobes_registered p) true, cs ++ [KRegisterRet])
  else (p, cs).

Definition ac_unregister_kprobes (p : probes) : probes * list kcall :=
  (Probes (replicate n_kprobes false) 0 false,
   omap (fun i => if default false (ac_kp_ok p !! i) then Some (KUnregister i) else None)
     (seq 0 n_kprobes)
   ++ (if ac_kp_clone_ok p then [KUnregisterRet] else [])).

(** ** Invariant and reference balance *)

Record guard_inv (g : guard) : Prop := {
  gi_reg : registry_inv (g_reg g);
  gi_ring : ring_inv (g_ring g)
}.

(** The pid references held by queued kill requests. *)
Definition pending (g : guard) (p : pidp) : Z :=
  Z.of_nat (length (filter (fun x => x = p) (g_wq g))).

(** The calls [cs] account for the references held in [g'] against those held
    in [g]: one task reference per occupied slot, one pid reference and one
    allocated request per queued kill, and the module's own count is
    untouched. *)
Definition balanced (g g' : guard) (cs : list kcall) : Prop :=
  forall t p,
    task_refs t cs = slot_refs (g_reg g') t - slot_refs (g_reg g) t /\
    pid_refs p cs = pending g' p - pending g p /\
    module_refs cs = 0 /\
    allocs MemReq cs = Z.of_nat (length (g_wq g')) - Z.of_nat (length (g_wq g)).

Lemma guard_init_inv : guard_inv guard_init.
Proof. split; [exact registry_init_inv|exact ring_init_inv]. Qed.

Lemma emit_inv ev g : guard_inv g -> guard_inv (emit ev g).
Proof. intros []. split; [done|]. by apply ac_emit_refines. Qed.

Lemma emit_contents ev g :
  guard_inv g -> contents (g_ring (emit ev g)) = queue_push (contents (g_ring g)) ev.
Proof. intros []. by apply ac_emit_refines. Qed.

Lemma balanced_nil g g' :
  g_reg g' = g_reg g -> g_wq g' = g_wq g -> balanced g g' [].
Proof. intros E1 E2 t p. unfold pending. rewrite E1, E2. split_and!; refs_simpl. Qed.

(** Reference calls that move no request. *)
Lemma balanced_refs g g' cs :
  g_wq g' = g_wq g -> ref_calls cs ->
  (forall t p, task_refs t cs = slot_refs (g_reg g') t - slot_refs (g_reg g) t /\ pid_refs p cs = 0) ->
  balanced g g' cs.
Proof.
  intros Hq Hc H t p. destruct (H t p) as [H1 H2], (ref_calls_pure cs t Hc) as (_ & H3 & H4).
  unfold pending. rewrite Hq, (H4 MemReq). split_and!; lia.
Qed.

(** A lookup whose task is put back after [cs'] is balanced as [cs'] is. *)
Lemma balanced_lookup k pid t cs g g' cs' :
  ac_find_task k pid = (Some t, cs) -> balanced g g' cs' ->
  balanced g g' (cs ++ cs' ++ [KPutTask t]).
Proof.
  intros E H t' p. destruct (H t' p) as (H1 & H2 & H3 & H4).
  pose proof (ac_find_task_refs k pid t' p) as Hf. pose proof (ac_find_task_ref_calls k pid) as Hc.
  rewrite E in Hf, Hc. destruct Hf as (F1 & F2 & F3), (ref_calls_pure cs t' Hc) as (_ & _ & F4).
  unfold holds in F1.
  rewrite !task_refs_app, !pid_refs_app, !module_refs_app, !allocs_app, F1, F2, F3, F4, H1, H2, H3, H4.
  split_and!; repeat case_decide; simplify_eq; refs_simpl.
Qed.

Lemma balanced_failed_lookup k pid cs g :
  ac_find_task k pid = (None, cs) -> balanced g g cs.
Proof.
  intros E. pose proof (ac_find_task_ref_calls k pid) as Hc. rewrite E in Hc.
  apply balanced_refs; [done|exact Hc|]. intros t' p.
  pose proof (ac_find_task_refs k pid t' p) as Hf. rewrite E in Hf.
  destruct Hf as (F1 & F2 & F3). unfold holds in F1. rewrite decide_False in F1 by done. lia.
Qed.

Lemma balanced_protected_pid k pid g prot comm cs :
  ac_is_protected_pid k pid (g_reg g) = (prot, comm, cs) -> balanced g g cs.
Proof.
  unfold ac_is_protected_pid. destruct (ac_find_task k pid) as [[t|] cs'] eqn:E; intros [= <- <- <-].
  - change [KPutTask t] with ([] ++ [KPutTask t]). eapply balanced_lookup; [done|].
    by apply balanced_nil.
  - by eapply balanced_failed_lookup.
Qed.

Lemma balanced_app g1 g2 g3 cs cs' :
  balanced g1 g2 cs -> balanced g2 g3 cs' -> balanced g1 g3 (cs ++ cs').
Proof.
  intros H H' t p. destruct (H t p) as (? & ? & ? & ?), (H' t p) as (? & ? & ? & ?).
  rewrite task_refs_app, pid_refs_app, module_refs_app, allocs_app. split_and!; lia.
Qed.

Lemma balanced_ext g1 g1' g2 g2' cs :
  g_reg g1' = g_reg g1 -> g_wq g1' = g_wq g1 -> g_reg g2' = g_reg g2 -> g_wq g2' = g_wq g2 ->
  balanced g1 g2 cs -> balanced g1' g2' cs.
Proof. unfold balanced, pending. by intros -> -> -> ->. Qed.

Lemma ac_schedule_kill_balanced k v g :
  let '(g', cs) := ac_schedule_kill k v g in balanced g g' cs.
Proof.
  unfold ac_schedule_kill. destruct v as [t|]; [destruct (alloc_state k)|]; try by apply balanced_nil.
  intros t' p. unfold pending. simpl. rewrite filter_app, !length_app, filter_cons.
  case_decide; simpl; split_and!; refs_simpl.
Qed.

(** ** The decision of the ptrace probe *)

Definition request_of (is_compat : bool) (args : pt_regs) : Z :=
  s64 (if is_compat then bx args else di args).
Definition target_of (is_compat : bool) (args : pt_regs) : Z :=
  s64 (if is_compat then cx args else si args).

(** The frame with its request slot replaced by an invalid request. *)
Definition neutralised (is_compat : bool) (args : pt_regs) : pt_regs :=
  if is_compat then PtRegs (2 ^ 64 - 1) (cx args) (di args) (si args)
  else PtRegs (bx args) (cx args) (2 ^ 64 - 1) (si args).

(** The protected task a request is directed at: the caller itself for
    [PTRACE_TRACEME], the task with the given pid otherwise. *)
Definition ptrace_victim (k : kernel) (prot : gmap task prot_info) (is_compat : bool)
    (args : pt_regs) : option task :=
  t ← (if request_of is_compat args =? PTRACE_TRACEME then Some (current k)
       else if 0 <? target_of is_compat args
       then (ac_find_task k (s32 (target_of is_compat args))).1 else None);
  if decide (is_Some (prot !! t)) then Some t else None.

Definition ptrace_event (k : kernel) (is_compat : bool) (args : pt_regs) (victim : task)
    : ac_event :=
  mk_event (ktime k 0) AC_EV_PTRACE
    (s32 (if request_of is_compat args =? PTRACE_TRACEME then task_pid k (current k)
          else target_of is_compat args))
    (Some (strscpy AC_MAX_COMM (task_comm k victim)))
    (bs "ptrace req " ++ fmt_d (request_of is_compat args) ++ bs " by pid "
     ++ fmt_d (task_pid k (current k)) ++ bs " (" ++ cstr (task_comm k (current k))
     ++ bs ") DENIED").

(** Whether the tracer is to be killed. *)
Definition ptrace_kills (k : kernel) (ac_policy : Z) (is_compat : bool) (args : pt_regs) : bool :=
  negb (request_of is_compat args =? PTRACE_TRACEME) && Z.testbit ac_policy 0 && alloc_state k.

Lemma policy_bit p : negb (Z.land p 1 =? 0) = Z.testbit p 0.
Proof.
  rewrite Z.bit0_odd, <- Z.negb_even. change 1 with (Z.ones 1).
  rewrite Z.land_ones by lia. change (2 ^ 1) with 2. rewrite Zmod_even.
  by destruct (Z.even p).
Qed.

Lemma is_protected_pid_spec k pid r :
  ac_is_protected_pid k pid r =
  match ac_find_task k pid with
  | (Some t, cs) =>
      if decide (is_Some (protected r !! t))
      then (true, Some (strscpy AC_MAX_COMM (task_comm k t)), cs ++ [KPutTask t])
      else (false, None, cs ++ [KPutTask t])
  | (None, cs) => (false, None, cs)
  end.
Proof.
  unfold ac_is_protected_pid. destruct (ac_find_task k pid) as [[t|] cs]; [|done].
  rewrite ac_is_protected_task_spec. by case_decide; [rewrite bool_decide_true|rewrite bool_decide_false].
Qed.

(** The handler in terms of its decision. *)
Lemma ac_ptrace_pre_decides k pol c args g :
  let '(args', g', cs) := ac_ptrace_pre k pol c args g in
  match ptrace_victim k (protected (g_reg g)) c args with
  | None => args' = args /\ g' = g /\ balanced g g' cs
  | Some v =>
      args' = neutralised c args /\
      g' = Guard (g_reg g) (ac_emit (ptrace_event k c args v) (g_ring g))
             (g_wq g ++ (if ptrace_kills k pol c args then [get_task_pid k (current k)] else [])) /\
      balanced g g' cs
  end.
Proof.
  unfold ac_ptrace_pre, ptrace_victim, ptrace_event, ptrace_kills.
  fold (request_of c args) (target_of c args). rewrite policy_bit.
  destruct (Z.eqb_spec (request_of c args) PTRACE_TRACEME) as [E|E].
  - rewrite ac_is_protected_task_spec. cbn [mbind option_bind].
    case_decide; [rewrite bool_decide_true by done|rewrite bool_decide_false by done]; simpl.
    + rewrite app_nil_r. split_and!; [by destruct c|done|by apply balanced_nil].
    + split_and!; [done..|by apply balanced_nil].
  - destruct (Z.ltb_spec 0 (target_of c args)) as [Ht|Ht]; simpl;
      [|split_and!; [done..|by apply balanced_nil]].
    destruct (ac_is_protected_pid k (s32 (target_of c args)) (g_reg g)) as [[prot comm] cs] eqn:Ep.
    pose proof (balanced_protected_pid _ _ _ _ _ _ Ep) as Hb. rewrite is_protected_pid_spec in Ep.
    destruct (ac_find_task k _) as [[t|] cs']; simpl; [|by simplify_eq/=].
    case_decide; simplify_eq/=; [|done].
    pose proof (ac_schedule_kill_balanced k (Some (current k))
      (emit (ptrace_event k c args t) g)) as Hk. simpl in Hk.
    destruct (Z.testbit pol 0), (alloc_state k); simpl in *;
      rewrite ?app_nil_r; (split_and!; [by destruct c|done|]);
      try exact (balanced_app _ _ _ _ _ Hb Hk); exact Hb.
Qed.

(** ** Fork, exit, exec and the kill worker *)

(** What [ac_clone_ret] records of a child of a task marked [jit]. *)
Definition inherit (k : kernel) (jit : bool) (child : task) (m : gmap task prot_info)
    : gmap task prot_info :=
  match m !! child with
  | Some i => <[child := ProtInfo (in_pid i) jit (in_comm i)]> m
  | None =>
      if (size m <? AC_PROT_MAX)%nat
      then <[child := ProtInfo (task_pid k child) jit (strscpy AC_MAX_COMM (task_comm k child))]> m
      else m
  end.

(** The child a return value of [kernel_clone] announces, if its parent is
    protected; with the parent's mark. *)
Definition forked (k : kernel) (retval : Z) (m : gmap task prot_info) : option (task * bool) :=
  if s64 retval <=? 0 then None
  else i ← m !! current k; c ← (ac_find_task k (s32 (s64 retval))).1; Some (c, in_jit i).

Definition fork_event (k : kernel) (child : task) : ac_event :=
  mk_event (ktime k 0) AC_EV_FORK (task_pid k child) (Some (task_comm k child))
    (bs "child of protected pid " ++ fmt_d (task_pid k (current k)) ++ bs " ("
     ++ strscpy AC_MAX_COMM (task_comm k (current k)) ++ bs "); protection inherited").

Lemma ac_add_inherit k t jit r :
  registry_inv r ->
  let '(ret, r', cs) := ac_add_prot_task k t jit r in
  registry_inv r' /\ protected r' = inherit k jit t (protected r).
Proof.
  intros Hr. pose proof (ac_add_refines k t jit r Hr) as H. unfold inherit.
  destruct (ac_add_prot_task k t jit r) as [[ret r'] cs]. destruct H as [? H]. split; [done|].
  destruct (protected r !! t); [naive_solver|].
  destruct (size (protected r) <? AC_PROT_MAX)%nat; naive_solver.
Qed.

Lemma ac_clone_ret_decides k retval g :
  guard_inv g ->
  let '(g', cs) := ac_clone_ret k retval g in
  guard_inv g' /\ balanced g g' cs /\ g_wq g' = g_wq g /\
  match forked k retval (protected (g_reg g)) with
  | None => g' = g
  | Some (c, jit) =>
      protected (g_reg g') = inherit k jit c (protected (g_reg g)) /\
      contents (g_ring g') = queue_push (contents (g_ring g)) (fork_event k c)
  end.
Proof.
  intros Hg. pose proof Hg as [Hr Hq]. unfold ac_clone_ret, forked.
  destruct (s64 retval <=? 0).
  { split_and!; [done|by apply balanced_nil|done..]. }
  rewrite ac_is_protected_task_spec, (ac_jit_refines _ _ Hr).
  destruct (protected (g_reg g) !! current k) as [i|] eqn:Ei; simpl.
  2:{ split_and!; [done|by apply balanced_nil|done..]. }
  destruct (ac_find_task k (s32 (s64 retval))) as [[c|] cs] eqn:Ef; simpl.
  2:{ split_and!; [done|by eapply balanced_failed_lookup|done..]. }
  pose proof (ac_add_inherit k c (in_jit i) _ Hr) as Ha.
  assert (Hb := fun t p => ac_add_refs k c (in_jit i) _ t p Hr).
  pose proof (ac_add_ref_calls k c (in_jit i) (g_reg g)) as Hc.
  destruct (ac_add_prot_task k c (in_jit i) (g_reg g)) as [[ret r'] cs'].
  destruct Ha as [Ha Hm]. split_and!; [| |done|done|].
  - apply emit_inv. by split.
  - eapply balanced_lookup; [done|]. apply balanced_refs; [done|exact Hc|].
    intros t p. by destruct (Hb t p) as (? & ? & ?).
  - by rewrite emit_contents.
Qed.

Definition exit_event (k : kernel) : ac_event :=
  mk_event (ktime k 0) AC_EV_EXIT (task_pid k (current k)) (Some (task_comm k (current k)))
    (bs "protected process exited").

Lemma ac_exit_pre_decides k g :
  guard_inv g ->
  let '(g', cs) := ac_exit_pre k g in
  guard_inv g' /\ balanced g g' cs /\ g_wq g' = g_wq g /\
  protected (g_reg g') = delete (current k) (protected (g_reg g)) /\
  contents (g_ring g') =
    if decide (is_Some (protected (g_reg g) !! current k))
    then queue_push (contents (g_ring g)) (exit_event k) else contents (g_ring g).
Proof.
  intros Hg. pose proof Hg as [Hr Hq]. unfold ac_exit_pre. rewrite ac_is_protected_task_spec.
  case_decide as Hp; [rewrite bool_decide_true by done|rewrite bool_decide_false by done]; simpl.
  - pose proof (ac_del_refines (current k) _ Hr) as Hd.
    assert (Hb := fun t p => ac_del_refs (current k) _ t p Hr).
    pose proof (ac_del_ref_calls (current k) (g_reg g)) as Hc.
    destruct (ac_del_prot_task (current k) (g_reg g)) as [r' cs].
    destruct Hd as (Hd & Hm & _). split_and!; [| |done|done|].
    + split; [done|]. by apply ac_emit_refines.
    + apply balanced_refs; [done|exact Hc|]. intros t p. by destruct (Hb t p) as (? & ? & ?).
    + by apply ac_emit_refines.
  - split_and!; [done|by apply balanced_nil|done| |done].
    symmetry. apply delete_id. by apply eq_None_not_Some.
Qed.

Lemma ac_exec_pre_decides k g :
  guard_inv g ->
  guard_inv (ac_exec_pre k g) /\ g_reg (ac_exec_pre k g) = g_reg g /\
  g_wq (ac_exec_pre k g) = g_wq g.
Proof.
  intros Hg. unfold ac_exec_pre. destruct (negb _); [done|].
  split_and!; [by apply emit_inv|done..].
Qed.

(** Running the oldest queued request releases its pid reference. *)
Lemma ac_kill_worker_balanced k p ps g :
  g_wq g = p :: ps ->
  balanced g (Guard (g_reg g) (g_ring g) ps) (ac_kill_worker k p).
Proof.
  intros E t p'. unfold ac_kill_worker, pending. rewrite E. simpl. rewrite filter_cons.
  destruct (get_pid_task k p); case_decide; simpl; split_and!; refs_simpl.
Qed.

(** ** Histories of probe hits *)

(** One activation: a probe hit, with the kernel it runs in, or the workqueue
    running its oldest item. *)
Inductive hit :=
  | HPtrace (k : kernel) (ac_policy : Z) (is_compat : bool) (args : pt_regs)
  | HClone (k : kernel) (retval : Z)
  | HExit (k : kernel)
  | HExec (k : kernel)
  | HWork (k : kernel).

Definition hit_step (h : hit) (g : guard) : guard * list kcall :=
  match h with
  | HPtrace k pol c args => let '(_, g, cs) := ac_ptrace_pre k pol c args g in (g, cs)
  | HClone k retval => ac_clone_ret k retval g
  | HExit k => ac_exit_pre k g
  | HExec k => (ac_exec_pre k g, [])
  | HWork k =>
      match g_wq g with
      | [] => (g, [])
      | p :: ps => (Guard (g_reg g) (g_ring g) ps, ac_kill_worker k p)
      end
  end.

Lemma ac_ptrace_pre_hit_calls k pol c args g : hit_calls (ac_ptrace_pre k pol c args g).2.
Proof.
  unfold ac_ptrace_pre. destruct (_ =? PTRACE_TRACEME); [|destruct (0 <? _)].
  - destruct (ac_is_protected_task _ _); simpl; auto with calls.
  - unfold ac_is_protected_pid. pose proof (ac_find_task_ref_calls k (s32 (s64 (if c then cx args else si args)))) as H.
    destruct (ac_find_task k _) as [[t|] cs]; cbn [snd] in H; [|by apply ref_hit_calls].
    destruct (ac_is_protected_task t _); simpl; [|auto with calls].
    destruct (negb (Z.land pol 1 =? 0)); [destruct (alloc_state k)|]; simpl; auto with calls.
  - simpl. auto with calls.
Qed.

Lemma ac_clone_ret_ref_calls k retval g : ref_calls (ac_clone_ret k retval g).2.
Proof.
  unfold ac_clone_ret. destruct (_ <=? 0); [constructor|]. destruct (negb _); [constructor|].
  pose proof (ac_find_task_ref_calls k (s32 (s64 retval))) as H.
  destruct (ac_find_task k _) as [[t|] cs]; cbn [snd] in H; [|done].
  pose proof (ac_add_ref_calls k t (ac_task_jit_allowed (current k) (g_reg g)) (g_reg g)) as Ha.
  destruct (ac_add_prot_task _ _ _ _) as [[ret r] cs']. cbn [snd] in *. auto 6 with calls.
Qed.

Lemma hit_step_calls h g : hit_calls (hit_step h g).2.
Proof.
  destruct h as [k pol c args|k retval|k|k|k]; cbn [hit_step].
  - pose proof (ac_ptrace_pre_hit_calls k pol c args g) as H. by destruct (ac_ptrace_pre _ _ _ _ _) as [[??]?].
  - apply ref_hit_calls, ac_clone_ret_ref_calls.
  - unfold ac_exit_pre. destruct (negb _); [constructor|].
    pose proof (ac_del_ref_calls (current k) (g_reg (emit (exit_event k) g))) as H.
    unfold exit_event in H. destruct (ac_del_prot_task _ _). by apply ref_hit_calls.
  - constructor.
  - destruct (g_wq g); [constructor|]. simpl. unfold ac_kill_worker.
    destruct (get_pid_task _ _); auto with calls.
Qed.

Lemma hit_step_sound h g :
  guard_inv g -> let '(g', cs) := hit_step h g in guard_inv g' /\ balanced g g' cs.
Proof.
  intros Hg. destruct h as [k pol c args|k retval|k|k|k]; cbn [hit_step].
  - pose proof (ac_ptrace_pre_decides k pol c args g) as H.
    destruct (ac_ptrace_pre k pol c args g) as [[args' g'] cs].
    destruct (ptrace_victim _ _ _ _); [|naive_solver].
    destruct H as (_ & -> & Hb). split; [|done]. destruct Hg. split; [done|].
    by apply ac_emit_refines.
  - pose proof (ac_clone_ret_decides k retval g Hg). destruct (ac_clone_ret k retval g). naive_solver.
  - pose proof (ac_exit_pre_decides k g Hg). destruct (ac_exit_pre k g). naive_solver.
  - destruct (ac_exec_pre_decides k g Hg) as (? & ? & ?). split; [done|]. by apply balanced_nil.
  - destruct (g_wq g) as [|p ps] eqn:E; [split; [done|by apply balanced_nil]|].
    split; [by destruct Hg|]. by apply ac_kill_worker_balanced.
Qed.

Fixpoint hits (hs : list hit) (g : guard) : guard * list kcall :=
  match hs with
  | [] => (g, [])
  | h :: hs =>
      let '(g, cs) := hit_step h g in
      let '(g, cs') := hits hs g in
      (g, cs ++ cs')
  end.

Lemma hits_sound hs : forall g,
  guard_inv g -> let '(g', cs) := hits hs g in guard_inv g' /\ balanced g g' cs.
Proof.
  induction hs as [|h hs IH]; intros g Hg; cbn [hits]; [split; [done|by apply balanced_nil]|].
  pose proof (hit_step_sound h g Hg) as H. destruct (hit_step h g) as [g1 cs1].
  destruct H as [H1 H2]. specialize (IH g1 H1). destruct (hits hs g1) as [g2 cs2].
  destruct IH as [? ?]. split; [done|]. by eapply balanced_app.
Qed.

(** The family of the protected tasks: forks of members join, exits leave. *)
Definition family_step (F : gset task) (h : hit) : gset task :=
  match h with
  | HClone k retval =>
      if decide (0 < s64 retval /\ current k ∈ F) then
        match (ac_find_task k (s32 (s64 retval))).1 with
        | Some c => F ∪ {[c]}
        | None => F
        end
      else F
  | HExit k => F ∖ {[current k]}
  | _ => F
  end.

Definition family (F : gset task) (hs : list hit) : gset task := foldl family_step F hs.

Definition guarded (g : guard) : gset task := dom (protected (g_reg g)).

Lemma guarded_step h g :
  guard_inv g -> (size (family_step (guarded g) h) <= AC_PROT_MAX)%nat ->
  guarded (hit_step h g).1 = family_step (guarded g) h.
Proof.
  intros Hg Hs. unfold guarded in *. destruct h as [k pol c args|k retval|k|k|k]; cbn [hit_step family_step].
  - pose proof (ac_ptrace_pre_decides k pol c args g) as H.
    destruct (ac_ptrace_pre k pol c args g) as [[args' g'] cs].
    destruct (ptrace_victim _ _ _ _); by destruct H as (_ & -> & _).
  - pose proof (ac_clone_ret_decides k retval g Hg) as H. cbn [family_step] in Hs.
    destruct (ac_clone_ret k retval g) as [g' cs]. destruct H as (_ & _ & _ & H).
    unfold forked in H. simpl.
    destruct (Z.leb_spec (s64 retval) 0); [rewrite decide_False by lia; by subst|].
    destruct (protected (g_reg g) !! current k) as [i|] eqn:Ei; simpl in H.
    2:{ rewrite decide_False; [by subst|]. intros [_ ?%elem_of_dom]. by rewrite Ei in H1; destruct H1. }
    assert (Hin : 0 < s64 retval /\ current k ∈ dom (protected (g_reg g)))
      by (split; [lia|by apply elem_of_dom_2 in Ei]).
    rewrite decide_True in Hs |- * by done.
    destruct (ac_find_task k _).1 as [c|]; simpl in H; [|by subst].
    destruct H as [-> _]. unfold inherit.
    destruct (protected (g_reg g) !! c) as [j|] eqn:Ec.
    + rewrite dom_insert_L. set_solver.
    + apply not_elem_of_dom in Ec. rewrite size_union, size_singleton, size_dom in Hs by set_solver.
      rewrite (proj2 (Nat.ltb_lt _ _)) by lia. rewrite dom_insert_L. set_solver.
  - pose proof (ac_exit_pre_decides k g Hg) as H. destruct (ac_exit_pre k g) as [g' cs].
    destruct H as (_ & _ & _ & H & _). simpl. by rewrite H, dom_delete_L.
  - simpl. by destruct (ac_exec_pre_decides k g Hg) as (_ & -> & _).
  - by destruct (g_wq g).
Qed.

Lemma guarded_hits hs : forall g,
  guard_inv g ->
  (forall n, (size (family (guarded g) (take n hs)) <= AC_PROT_MAX)%nat) ->
  guarded (hits hs g).1 = family (guarded g) hs.
Proof.
  induction hs as [|h hs IH]; intros g Hg Hs; [done|].
  pose proof (guarded_step h g Hg (Hs 1%nat)) as E.
  pose proof (hit_step_sound h g Hg) as Hg'. cbn [hits family foldl].
  destruct (hit_step h g) as [g1 cs1]. cbn [fst] in E. destruct Hg' as [Hg' _].
  specialize (IH g1 Hg'). destruct (hits hs g1) as [g2 cs2]. cbn [fst] in *.
  rewrite IH; [by rewrite E|]. intros n. specialize (Hs (S n)). cbn in Hs. by rewrite E.
Qed.

(** ** Registration *)

(** The probes the kernel accepts. *)
Definition registered (k : kernel) : list nat :=
  filter (fun i => kprobe_register k i =? 0) (seq 0 n_kprobes).

(** What registering and unregistering do, for every outcome. *)
Lemma registration_spec k :
  let ret := kretprobe_register k =? 0 in
  let '(p, cs) := ac_register_kprobes k probes_init in
  let '(p', cs') := ac_unregister_kprobes p in
  cs = (KRegister <$> registered k) ++ (if ret then [KRegisterRet] else []) /\
  cs' = (KUnregister <$> registered k) ++ (if ret then [KUnregisterRet] else []) /\
  ac_kprobes_registered p = Z.of_nat (length (registered k)) /\ p' = probes_init.
Proof.
  unfold ac_register_kprobes, registered, n_kprobes, ac_kprobes. cbn [length seq foldl].
  unfold register_step.
  destruct (kprobe_register k 0 =? 0) eqn:E0, (kprobe_register k 1 =? 0) eqn:E1,
    (kprobe_register k 2 =? 0) eqn:E2, (kprobe_register k 3 =? 0) eqn:E3,
    (kprobe_register k 4 =? 0) eqn:E4, (kretprobe_register k =? 0);
    cbn; rewrite ?E0, ?E1, ?E2, ?E3, ?E4; split_and!; reflexivity.
Qed.

(** ** A concrete setting *)

(** A kernel in which [cur] runs, task 7 is pid 100 ("game") and task 8 is pid
    101; the ia32 entry point is missing. *)
Definition demo_kernel (cur : task) : kernel := {|
  current := cur;
  task_pid t := if decide (t = 7%positive) then 100 else if decide (t = 8%positive) then 101 else 200;
  task_comm t := if decide (t = 7%positive) then bs "game" else bs "gdb";
  find_get_pid n := if n =? 100 then Some 7%positive else if n =? 101 then Some 8%positive else None;
  get_pid_task := Some; get_task_pid t := t;
  task_active_pid_ns _ := None; find_pid_ns _ _ := None; ktime _ := 0;
  capable_admin := true; user_readable := true; user_writable := true;
  alloc_state := true; alloc_bulk := true; alloc_path _ := true;
  try_module_get := true; task_vmas _ := None; modules := [];
  within_module_core _ _ := false; kread64 _ := None; kread32 _ := None;
  kprobe_addr _ := None; kprobe_register i := if decide (i = 1%nat) then -22 else 0;
  kretprobe_register := 0;
  create_workqueue := true; misc_register := 0; NR_syscalls := 462; NR_read := 0; NR_write := 1
|}.

Definition game_kernel : kernel := demo_kernel 9%positive.
Definition fork_kernel : kernel := demo_kernel 7%positive.

Definition game_guard : guard :=
  Guard (ac_add_prot_task game_kernel 7%positive true registry_init).1.2 ring_init [].

Lemma game_guard_inv : guard_inv game_guard.
Proof.
  split; [|exact ring_init_inv]. unfold game_guard.
  pose proof (ac_add_refines game_kernel 7%positive true registry_init registry_init_inv) as H.
  destruct (ac_add_prot_task _ _ _ _) as [[ret r] cs]. exact (proj1 H).
Qed.

(** ** Properties *)

(** C1: the ptrace probe decides exactly.  On the native and on the ia32 entry
    alike: if the request is directed at a protected task (the caller itself
    for [PTRACE_TRACEME], else the task the positive pid argument names), the
    request slot of that ABI's frame is overwritten with -1 and nothing else in
    the frame changes, one [AC_EV_PTRACE] event naming the victim is queued,
    and a kill of the tracer is queued exactly when policy bit 0 is set, the
    request is not [PTRACE_TRACEME] and the request could be allocated; in all
    other cases frame and state are untouched.  Every reference taken on the
    way is released, except one pid reference per queued kill. *)
Theorem ptrace_guard (k : kernel) (pol : Z) (c : bool) (args : pt_regs) (g : guard) :
  guard_inv g ->
  let '(args', g', cs) := ac_ptrace_pre k pol c args g in
  guard_inv g' /\ balanced g g' cs /\ g_reg g' = g_reg g /\
  match ptrace_victim k (protected (g_reg g)) c args with
  | None => args' = args /\ g' = g
  | Some v =>
      args' = neutralised c args /\
      contents (g_ring g') = queue_push (contents (g_ring g)) (ptrace_event k c args v) /\
      g_wq g' = g_wq g ++ (if ptrace_kills k pol c args then [get_task_pid k (current k)] else [])
  end.
Proof.
  intros Hg. pose proof (ac_ptrace_pre_decides k pol c args g) as H.
  destruct (ac_ptrace_pre k pol c args g) as [[args' g'] cs].
  destruct (ptrace_victim _ _ _ _) as [v|]; destruct H as (-> & -> & Hb); [|done].
  destruct Hg as [? Hq]. destruct (ac_emit_refines (ptrace_event k c args v) _ Hq) as (? & ? & _).
  split_and!; done.
Qed.

Lemma ptrace_guard_witness :
  guard_inv game_guard /\
  (ac_ptrace_pre game_kernel 1 false (PtRegs 0 0 16 100) game_guard).1.1
    = PtRegs 0 0 (2 ^ 64 - 1) 100 /\
  g_wq (ac_ptrace_pre game_kernel 1 false (PtRegs 0 0 16 100) game_guard).1.2 = [9%positive].
Proof.
  split; [exact game_guard_inv|].
  pose proof (ptrace_guard game_kernel 1 false (PtRegs 0 0 16 100) game_guard game_guard_inv) as H.
  destruct (ac_ptrace_pre game_kernel 1 false (PtRegs 0 0 16 100) game_guard) as [[args' g'] cs].
  assert (E : ptrace_victim game_kernel (protected (g_reg game_guard)) false (PtRegs 0 0 16 100)
              = Some 7%positive) by (vm_compute; reflexivity).
  rewrite E in H. destruct H as (_ & _ & _ & H1 & _ & H2). cbn [fst snd].
  rewrite H1, H2. split; vm_compute; reflexivity.
Defined.

(** C2: protection follows the process tree.  Over any history of probe hits
    (ptrace, clone, exit, exec) and workqueue runs, the set of protected tasks
    is exactly the family of the initially protected ones (each announced
    child of a member joins, each exiting member leaves), as long as the
    family never exceeds the 64 slots; the registry and ring invariants hold
    throughout and references balance: one task reference per protected task,
    one pid reference per queued kill. *)
Theorem protection_follows_family (hs : list hit) (g : guard) :
  guard_inv g ->
  (forall n, (size (family (guarded g) (take n hs)) <= AC_PROT_MAX)%nat) ->
  let '(g', cs) := hits hs g in
  guarded g' = family (guarded g) hs /\ guard_inv g' /\ balanced g g' cs.
Proof.
  intros Hg Hs. pose proof (guarded_hits hs g Hg Hs). pose proof (hits_sound hs g Hg).
  by destruct (hits hs g).
Qed.

Lemma protection_follows_family_witness :
  guard_inv game_guard /\
  guarded (hits [HClone fork_kernel 101; HExit fork_kernel] game_guard).1 = {[8%positive]}.
Proof.
  split; [exact game_guard_inv|].
  pose proof (protection_follows_family [HClone fork_kernel 101; HExit fork_kernel]
    game_guard game_guard_inv) as H.
  destruct (hits [HClone fork_kernel 101; HExit fork_kernel] game_guard) as [g' cs].
  destruct H as [E _].
  - intros [|[|[|n]]]; apply Nat.leb_le; vm_compute; reflexivity.
  - simpl. rewrite E. vm_compute. reflexivity.
Defined.

(** For every outcome of the five kprobe registrations and of the
    kretprobe's, the unload path unregisters exactly the probes that
    registered, in the same order and each once, and leaves the probe state as
    it was before loading; the logged count is their number. *)
Theorem probe_registration_balanced (k : kernel) :
  let ret := kretprobe_register k =? 0 in
  let '(p, cs) := ac_register_kprobes k probes_init in
  let '(p', cs') := ac_unregister_kprobes p in
  cs = (KRegister <$> registered k) ++ (if ret then [KRegisterRet] else []) /\
  cs' = (KUnregister <$> registered k) ++ (if ret then [KUnregisterRet] else []) /\
  ac_kprobes_registered p = Z.of_nat (length (registered k)) /\ p' = probes_init.
Proof. exact (registration_spec k). Qed.

(** C39: the pid test of the ptrace probe is made on the 64-bit register, the
    lookup on its low 32 bits: on either ABI there is a frame whose pid
    argument, truncated to [pid_t] as the system call does, names a protected
    task, and which the handler lets through unchanged. *)
Theorem ptrace_high_bits_bypass (c : bool) :
  exists k g args,
    guard_inv g /\ request_of c args <> PTRACE_TRACEME /\
    (exists t, (ac_find_task k (s32 (if c then cx args else si args))).1 = Some t /\
               is_Some (protected (g_reg g) !! t)) /\
    (ac_ptrace_pre k 1 c args g).1 = (args, g).
Proof.
  exists game_kernel, game_guard, (PtRegs 16 (2 ^ 63 + 100) 16 (2 ^ 63 + 100)).
  split; [exact game_guard_inv|]. split; [by destruct c|]. split.
  - exists 7%positive. split; [destruct c; vm_compute; reflexivity|].
    eexists. vm_compute. reflexivity.
  - destruct c; vm_compute; reflexivity.
Qed.
