(* ===== verification/Snapshot.v ===== *)
(** * Snapshots of mappings and modules (src/anticheat_module.c, "VMA scan")

    The per-file state [ac_fd_state], the mapping snapshot a scan takes and
    the module list snapshot. *)

From Stdlib Require Import ZArith Lia.
From stdpp Require Import base numbers list strings.
From S2P Require Import Prelude Abi Ring Kernel SyscallTable.

(** [struct ac_fd_state] without its mutex.  The snapshot arrays are allocated
    uninitialised: a list holds their elements written so far. *)
Record ac_fd_state := FdState {
  fs_vmas : option (list ac_vma_info);
  fs_n_vmas : Z;
  fs_rwx_count : Z;
  fs_exec_count : Z;
  fs_anon_exec_count : Z;
  fs_truncated : Z;
  fs_mods : option (list ac_mod_info);
  fs_n_mods : Z
}.

(** A fresh state: [kzalloc]. *)
Definition fd_state_zero : ac_fd_state := FdState None 0 0 0 0 0 None 0.

(** [kvfree] does nothing on [NULL]. *)
Definition kvfree {A} (p : option A) : list kcall :=
  match p with Some _ => [KFree MemArray] | None => [] end.

Definition ac_free_fd_state (st : option ac_fd_state) : list kcall :=
  match st with
  | None => []
  | Some st => kvfree (fs_vmas st) ++ kvfree (fs_mods st) ++ [KFree MemState]
  end.

Definition PAGE_SHIFT : Z := 12.

Section operations.
Context (k : kernel).

(** [ac_get_fd_state], for the [private_data] of the file. *)
Definition ac_get_fd_state (private_data : option ac_fd_state)
    : option ac_fd_state * list kcall :=
  match private_data with
  | Some st => (Some st, [])
  | None => if alloc_state k then (Some fd_state_zero, [KAlloc MemState]) else (None, [])
  end.

(** The entry filled in for the [i]-th mapping. *)
Definition vma_info (i : nat) (v : kvma) : ac_vma_info :=
  let offset := u64 (Z.shiftl (vm_pgoff v) PAGE_SHIFT) in
  match vm_file v with
  | None => VmaInfo (vm_start v) (vm_end v) offset 0 (vm_flags v) 0 []
  | Some f =>
      VmaInfo (vm_start v) (vm_end v) offset (default 0 (f_ino f)) (vm_flags v) 1
        (if alloc_path k i then
           match f_dpath f with Some p => strscpy AC_VMA_PATH p | None => [] end
         else [])
  end.

(** The buffer for the path of the [i]-th mapping. *)
Definition path_calls (i : nat) (v : kvma) : list kcall :=
  match vm_file v with
  | Some _ => if alloc_path k i then [KAlloc MemPath; KFree MemPath] else []
  | None => []
  end.

Definition rwx_event (n : nat) (pid : Z) (vi : ac_vma_info) : ac_event :=
  mk_event (ktime k n) AC_EV_RWX pid (Some (bs "?"))
    (bs "RWX mapping [0x" ++ fmt_x (vi_start vi) ++ bs "-0x" ++ fmt_x (vi_end vi) ++ bs "] "
     ++ match vi_path vi with [] => bs "(anonymous)" | p => p end).

Definition anon_event (n : nat) (pid : Z) (vi : ac_vma_info) : ac_event :=
  mk_event (ktime k n) AC_EV_ANON_EXEC pid (Some (bs "?"))
    (bs "anonymous executable mapping [0x" ++ fmt_x (vi_start vi) ++ bs "-0x"
     ++ fmt_x (vi_end vi) ++ bs "]").

Definition is_rwx (vi : ac_vma_info) : bool :=
  Z.land (vi_flags vi) (Z.lor AC_VM_EXEC AC_VM_WRITE) =? Z.lor AC_VM_EXEC AC_VM_WRITE.
Definition is_exec (vi : ac_vma_info) : bool := negb (Z.land (vi_flags vi) AC_VM_EXEC =? 0).
Definition is_anon_exec (vi : ac_vma_info) : bool := (vi_is_file vi =? 0) && is_exec vi.

(** The snapshot under construction, the ring, the number of events emitted and
    the calls made so far. *)
Record scan := Scan {
  s_vmas : list ac_vma_info;
  s_rwx : Z;
  s_exec : Z;
  s_anon : Z;
  s_ring : ring;
  s_nev : nat;
  s_calls : list kcall
}.

(** The body of the [for_each_vma] loop. *)
Definition scan_vma (pid : Z) (emit_events : bool) (v : kvma) (s : scan) : scan :=
  let vi := vma_info (length (s_vmas s)) v in
  let calls := path_calls (length (s_vmas s)) v in
  let s :=
    if is_rwx vi then
      let s := Scan (s_vmas s) (u32 (s_rwx s + 1)) (s_exec s) (s_anon s) (s_ring s) (s_nev s) (s_calls s) in
      if emit_events then
        Scan (s_vmas s) (s_rwx s) (s_exec s) (s_anon s)
          (ac_emit (rwx_event (s_nev s) pid vi) (s_ring s)) (S (s_nev s)) (s_calls s)
      else s
    else s in
  let s :=
    if is_anon_exec vi then
      let s := Scan (s_vmas s) (s_rwx s) (s_exec s) (u32 (s_anon s + 1)) (s_ring s) (s_nev s) (s_calls s) in
      if emit_events then
        Scan (s_vmas s) (s_rwx s) (s_exec s) (s_anon s)
          (ac_emit (anon_event (s_nev s) pid vi) (s_ring s)) (S (s_nev s)) (s_calls s)
      else s
    else s in
  Scan (s_vmas s ++ [vi]) (s_rwx s)
    (if is_exec vi then u32 (s_exec s + 1) else s_exec s) (s_anon s) (s_ring s) (s_nev s)
    (s_calls s ++ calls).

(** The loop; the second result is [st->truncated]. *)
Fixpoint vma_loop (pid : Z) (emit_events : bool) (vs : list kvma) (s : scan) : scan * Z :=
  match vs with
  | [] => (s, 0)
  | v :: vs =>
      if (AC_MAX_VMAS <=? length (s_vmas s))%nat then (s, 1)
      else vma_loop pid emit_events vs (scan_vma pid emit_events v s)
  end.

Definition ac_build_vma_snapshot (st : ac_fd_state) (pid emit_events : Z) (r : ring)
    : Z * ac_fd_state * ring * list kcall :=
  let free := kvfree (fs_vmas st) in
  let st := FdState None 0 0 0 0 0 (fs_mods st) (fs_n_mods st) in
  match ac_find_task k pid with
  | (None, cs) => (- ESRCH, st, r, free ++ cs)
  | (Some task, cs) =>
      match task_vmas k task with
      | None => (- ESRCH, st, r, free ++ cs ++ [KPutTask task])
      | Some vs =>
          if alloc_bulk k then
            let '(s, truncated) :=
              vma_loop pid (negb (emit_events =? 0)) vs (Scan [] 0 0 0 r 0 []) in
            (0,
             FdState (Some (s_vmas s)) (Z.of_nat (length (s_vmas s))) (s_rwx s) (s_exec s)
               (s_anon s) truncated (fs_mods st) (fs_n_mods st),
             s_ring s,
             free ++ cs ++ [KMmGet task; KPutTask task; KAlloc MemArray] ++ s_calls s ++ [KMmPut task])
          else
            (- ENOMEM, st, r, free ++ cs ++ [KMmGet task; KPutTask task; KMmPut task])
      end
  end.

(** The loop of [ac_build_mod_snapshot]. *)
Fixpoint mod_loop (ms : list kmodule) (acc : list ac_mod_info) : list ac_mod_info :=
  match ms with
  | [] => acc
  | m :: ms =>
      if negb (ac_module_sane m) then mod_loop ms acc
      else if (AC_MAX_MODS <=? length acc)%nat then acc
      else mod_loop ms
             (acc ++ [ModInfo (strscpy AC_MOD_NAME_LEN (m_name m)) (ac_module_size m)
                        (m_state m)])
  end.

Definition ac_build_mod_snapshot (st : ac_fd_state) : Z * ac_fd_state * list kcall :=
  let free := kvfree (fs_mods st) in
  let upd mods n_mods :=
    FdState (fs_vmas st) (fs_n_vmas st) (fs_rwx_count st) (fs_exec_count st)
      (fs_anon_exec_count st) (fs_truncated st) mods n_mods in
  if alloc_bulk k then
    let mods := mod_loop (modules k) [] in
    (0, upd (Some mods) (Z.of_nat (length mods)), free ++ [KAlloc MemArray])
  else (- ENOMEM, upd None 0, free).
End operations.

(** ** Specification *)

Definition count {A} (f : A -> bool) (l : list A) : Z := Z.of_nat (length (List.filter f l)).

(** The snapshot of a list of mappings: the first 4096, in order. *)
Definition snapshot_of (k : kernel) (vs : list kvma) : list ac_vma_info :=
  imap (vma_info k) (take AC_MAX_VMAS vs).

(** The events a scan emits for its mappings, numbered from [n]. *)
Fixpoint scan_events (k : kernel) (pid : Z) (n : nat) (vis : list ac_vma_info) : list ac_event :=
  match vis with
  | [] => []
  | vi :: vis =>
      let e1 := if is_rwx vi then [rwx_event k n pid vi] else [] in
      let n1 := (n + length e1)%nat in
      let e2 := if is_anon_exec vi then [anon_event k n1 pid vi] else [] in
      e1 ++ e2 ++ scan_events k pid (n1 + length e2) vis
  end.

(** The snapshot arrays hold exactly the counted elements, and are absent only
    when the count is zero. *)
Record fd_inv (st : ac_fd_state) : Prop := {
  fi_vmas : fs_n_vmas st = Z.of_nat (length (default [] (fs_vmas st)));
  fi_vmas_max : (length (default [] (fs_vmas st)) <= AC_MAX_VMAS)%nat;
  fi_mods : fs_n_mods st = Z.of_nat (length (default [] (fs_mods st)));
  fi_mods_max : (length (default [] (fs_mods st)) <= AC_MAX_MODS)%nat
}.

(** The allocations a file's state owns. *)
Definition arrays_of (st : option ac_fd_state) : Z :=
  match st with
  | None => 0
  | Some st => Z.of_nat (length (kvfree (fs_vmas st) ++ kvfree (fs_mods st)))
  end.
Definition states_of (st : option ac_fd_state) : Z :=
  match st with None => 0 | Some _ => 1 end.
Definition owned (x : mem) (st : option ac_fd_state) : Z :=
  match x with MemState => states_of st | MemArray => arrays_of st | _ => 0 end.

(** ** Lemmas *)

Lemma count_app {A} (f : A -> bool) l1 l2 : count f (l1 ++ l2) = count f l1 + count f l2.
Proof. unfold count. rewrite List.filter_app, length_app. lia. Qed.

Lemma count_one {A} (f : A -> bool) x : count f [x] = Z.b2z (f x).
Proof. unfold count. simpl. by destruct (f x). Qed.

Lemma count_le {A} (f : A -> bool) l : 0 <= count f l <= Z.of_nat (length l).
Proof. unfold count. pose proof (List.filter_length_le f l). lia. Qed.

Lemma u32_count_step {A} (f : A -> bool) l x :
  (length l < AC_MAX_VMAS)%nat -> f x = true -> u32 (count f l + 1) = count f (l ++ [x]).
Proof.
  intros Hl Hx. rewrite count_app, count_one, Hx. unfold u32. apply Z.mod_small.
  pose proof (count_le f l). unfold AC_MAX_VMAS in Hl. simpl. lia.
Qed.

Lemma count_step_false {A} (f : A -> bool) l x : f x = false -> count f (l ++ [x]) = count f l.
Proof. intros Hx. rewrite count_app, count_one, Hx. simpl. lia. Qed.

(** The counters of a scan in progress count the mappings seen so far. *)
Record scan_inv (s : scan) : Prop := {
  si_rwx : s_rwx s = count is_rwx (s_vmas s);
  si_exec : s_exec s = count is_exec (s_vmas s);
  si_anon : s_anon s = count is_anon_exec (s_vmas s)
}.

Lemma scan_vma_spec k pid (ev : bool) v s :
  scan_inv s -> (length (s_vmas s) < AC_MAX_VMAS)%nat ->
  let vi := vma_info k (length (s_vmas s)) v in
  let es := if ev then scan_events k pid (s_nev s) [vi] else [] in
  let s' := scan_vma k pid ev v s in
  scan_inv s' /\ s_vmas s' = s_vmas s ++ [vi] /\
  s_ring s' = foldl (fun r e => ac_emit e r) (s_ring s) es /\
  s_nev s' = (s_nev s + length es)%nat.
Proof.
  intros [] Hl vi es s'. subst s' es. unfold scan_vma. fold vi. cbn [scan_events].
  destruct (is_rwx vi) eqn:E1, (is_anon_exec vi) eqn:E2, ev; simpl;
    rewrite ?Nat.add_0_r, ?Nat.add_1_r;
    (split_and!; [split; simpl|done|done|simpl; lia]);
    destruct (is_exec vi) eqn:E3;
    rewrite ?si_rwx0, ?si_exec0, ?si_anon0;
    first [by apply u32_count_step|by rewrite count_step_false].
Qed.

Lemma scan_events_app k pid l1 : forall n l2,
  scan_events k pid n (l1 ++ l2) =
  scan_events k pid n l1 ++ scan_events k pid (n + length (scan_events k pid n l1)) l2.
Proof.
  induction l1 as [|vi l1 IH]; intros n l2; simpl; [by rewrite Nat.add_0_r|].
  rewrite IH, <- !app_assoc, !length_app. do 3 f_equal. f_equal. lia.
Qed.

Lemma vma_loop_spec k pid (ev : bool) vs : forall s,
  scan_inv s -> (length (s_vmas s) <= AC_MAX_VMAS)%nat ->
  let room := (AC_MAX_VMAS - length (s_vmas s))%nat in
  let vis := imap (fun i => vma_info k (length (s_vmas s) + i)) (take room vs) in
  let es := if ev then scan_events k pid (s_nev s) vis else [] in
  let '(s', truncated) := vma_loop k pid ev vs s in
  scan_inv s' /\ s_vmas s' = s_vmas s ++ vis /\
  truncated = Z.b2z (room <? length vs)%nat /\
  s_ring s' = foldl (fun r e => ac_emit e r) (s_ring s) es.
Proof.
  induction vs as [|v vs IH]; intros s Hs Hl room vis es; cbn [vma_loop].
  - subst es vis. rewrite take_nil. simpl. rewrite app_nil_r. split_and!; [done..|by destruct ev].
  - destruct (Nat.leb_spec AC_MAX_VMAS (length (s_vmas s))) as [Hf|Hf].
    + assert (room = 0%nat) as E by (subst room; lia). subst es vis. rewrite E. simpl.
      rewrite app_nil_r. split_and!; [done..|by destruct ev].
    + destruct (scan_vma_spec k pid ev v s Hs Hf) as (H1 & H2 & H3 & H4).
      assert (Hl' : length (s_vmas (scan_vma k pid ev v s)) = S (length (s_vmas s)))
        by (rewrite H2, length_app; simpl; lia).
      specialize (IH _ H1 ltac:(lia)). cbn zeta in IH.
      destruct (vma_loop k pid ev vs _) as [s' tr]. destruct IH as (I1 & I2 & I3 & I4).
      rewrite Hl', H4, H3, H2 in *.
      assert (Er : room = S (AC_MAX_VMAS - S (length (s_vmas s)))) by (subst room; lia).
      assert (Ev : vis = vma_info k (length (s_vmas s)) v ::
                imap (fun i => vma_info k (S (length (s_vmas s)) + i))
                  (take (AC_MAX_VMAS - S (length (s_vmas s))) vs)).
      { subst vis. rewrite Er. cbn [take]. rewrite imap_cons, Nat.add_0_r. f_equal.
        apply imap_ext. intros i ? _. unfold compose. f_equal. lia. }
      split_and!; [done| | |].
      * by rewrite I2, Ev, <- app_assoc.
      * by rewrite I3, Er.
      * rewrite I4, <- foldl_app. f_equal. subst es. rewrite Ev. destruct ev; [|done].
        symmetry. exact (scan_events_app k pid [vma_info k (length (s_vmas s)) v] _ _).
Qed.

Lemma vma_loop_start k pid (ev : bool) vs r :
  let '(s, truncated) := vma_loop k pid ev vs (Scan [] 0 0 0 r 0 []) in
  scan_inv s /\ s_vmas s = snapshot_of k vs /\
  truncated = Z.b2z (AC_MAX_VMAS <? length vs)%nat /\
  s_ring s = foldl (fun r e => ac_emit e r) r
    (if ev then scan_events k pid 0 (snapshot_of k vs) else []).
Proof.
  pose proof (vma_loop_spec k pid ev vs (Scan [] 0 0 0 r 0 [])) as H.
  destruct (vma_loop k pid ev vs _) as [s tr]. apply H; [done|simpl; lia].
Qed.

Lemma length_snapshot_of k vs : length (snapshot_of k vs) = Nat.min AC_MAX_VMAS (length vs).
Proof. unfold snapshot_of. by rewrite length_imap, length_take. Qed.

Lemma mod_loop_spec ms : forall acc,
  (length acc <= AC_MAX_MODS)%nat ->
  mod_loop ms acc = acc ++ take (AC_MAX_MODS - length acc)
    ((fun m => ModInfo (strscpy AC_MOD_NAME_LEN (m_name m)) (ac_module_size m) (m_state m))
     <$> List.filter ac_module_sane ms).
Proof.
  induction ms as [|m ms IH]; intros acc Hl; cbn [mod_loop List.filter].
  - simpl. by rewrite take_nil, app_nil_r.
  - destruct (ac_module_sane m); cbn [negb]; [|by apply IH].
    destruct (Nat.leb_spec AC_MAX_MODS (length acc)).
    + replace (_ - _)%nat with 0%nat by lia. by rewrite take_0, app_nil_r.
    + rewrite IH by (rewrite length_app; simpl; lia). rewrite length_app, <- app_assoc.
      replace (AC_MAX_MODS - length acc)%nat with (S (AC_MAX_MODS - (length acc + 1))) by lia.
      done.
Qed.

(** ** Calls of the builders *)

(** [cs] leaves no reference behind and accounts for the change in the memory
    the file owns; every other block is freed again. *)
Definition snapshot_balanced (st st' : option ac_fd_state) (cs : list kcall) : Prop :=
  forall t p,
    task_refs t cs = 0 /\ pid_refs p cs = 0 /\ mm_refs t cs = 0 /\ module_refs cs = 0 /\
    forall x, allocs x cs = owned x st' - owned x st.

Lemma arrays_of_Some st :
  arrays_of (Some st) = Z.of_nat (length (kvfree (fs_vmas st)))
                      + Z.of_nat (length (kvfree (fs_mods st))).
Proof. unfold arrays_of. rewrite length_app. lia. Qed.

Lemma ncalls_kvfree {A} c (p : option A) :
  ncalls c (kvfree p) = if decide (c = KFree MemArray) then Z.of_nat (length (kvfree p)) else 0.
Proof.
  destruct p; simpl; rewrite ?ncalls_cons, ?ncalls_nil; repeat case_decide; congruence || lia.
Qed.

(** Solve the balance of a call list built from frees, a lookup and explicit
    calls. *)
Ltac balance_simpl :=
  autorewrite with calls; unfold owned; rewrite ?arrays_of_Some; simpl; rewrite ?app_nil_r;
  unfold task_refs, pid_refs, mm_refs, module_refs, allocs, holds in *;
  autorewrite with calls; rewrite ?ncalls_kvfree; decide_calls;
  repeat case_decide; simplify_eq; try lia.

(** The path buffers are freed again, and nothing else is touched. *)
Definition path_only (cs : list kcall) : Prop :=
  forall t p, task_refs t cs = 0 /\ pid_refs p cs = 0 /\ mm_refs t cs = 0 /\ module_refs cs = 0 /\
    forall x, allocs x cs = 0.

Lemma path_only_nil : path_only [].
Proof. intros t p. split_and!; [done..|]. intros x. refs_simpl. Qed.

Lemma path_only_app cs cs' : path_only cs -> path_only cs' -> path_only (cs ++ cs').
Proof.
  intros H H' t p. destruct (H t p) as (? & ? & ? & ? & Hx), (H' t p) as (? & ? & ? & ? & Hx').
  rewrite task_refs_app, pid_refs_app, mm_refs_app, module_refs_app. split_and!; [lia..|].
  intros x. rewrite allocs_app, Hx, Hx'. done.
Qed.

Lemma path_calls_only k i v : path_only (path_calls k i v).
Proof.
  unfold path_calls. destruct (vm_file v); [destruct (alloc_path k i)|]; try apply path_only_nil.
  intros t p. split_and!; [refs_simpl..|]. intros []; refs_simpl.
Qed.

Lemma scan_vma_calls k pid ev v s :
  s_calls (scan_vma k pid ev v s) = s_calls s ++ path_calls k (length (s_vmas s)) v.
Proof. unfold scan_vma. repeat case_match; done. Qed.

Lemma vma_loop_calls k pid ev vs : forall s,
  path_only (s_calls s) -> path_only (s_calls (vma_loop k pid ev vs s).1).
Proof.
  induction vs as [|v vs IH]; intros s Hs; cbn [vma_loop]; [done|]. destruct (_ <=? _)%nat; [done|].
  apply IH. rewrite scan_vma_calls. apply path_only_app; [done|apply path_calls_only].
Qed.

Lemma ac_build_vma_snapshot_balanced k st pid ev r :
  let '(ret, st', r', cs) := ac_build_vma_snapshot k st pid ev r in
  snapshot_balanced (Some st) (Some st') cs.
Proof.
  unfold ac_build_vma_snapshot.
  assert (H : forall t' p', let '(t, cs) := ac_find_task k pid in
    (task_refs t' cs = holds t t' /\ pid_refs p' cs = 0 /\ module_refs cs = 0) /\
    mm_refs t' cs = 0 /\ forall x, allocs x cs = 0).
  { intros t' p'. pose proof (ac_find_task_refs k pid t' p') as H1.
    pose proof (ref_calls_pure _ t' (ac_find_task_ref_calls k pid)) as (? & ? & ?).
    by destruct (ac_find_task k pid). }
  destruct (ac_find_task k pid) as [[t|] cs];
    [destruct (task_vmas k t) as [vs|]; [destruct (alloc_bulk k)|]|].
  1:{ pose proof (vma_loop_calls k pid (negb (ev =? 0)) vs (Scan [] 0 0 0 r 0 []) path_only_nil) as Hp.
      destruct (vma_loop _ _ _ _ _) as [s tr]. cbn [fst] in Hp. intros t' p'.
      destruct (H t' p') as ((? & ? & ?) & ? & Hx), (Hp t' p') as (? & ? & ? & ? & Hy).
      split_and!; [balance_simpl..|].
      intros x. specialize (Hx x). specialize (Hy x). destruct x; balance_simpl. }
  all: intros t' p'; destruct (H t' p') as ((? & ? & ?) & ? & Hx); split_and!; [balance_simpl..|];
    intros x; specialize (Hx x); destruct x; balance_simpl.
Qed.

Lemma ac_build_mod_snapshot_balanced k st :
  let '(ret, st', cs) := ac_build_mod_snapshot k st in
  snapshot_balanced (Some st) (Some st') cs.
Proof.
  unfold ac_build_mod_snapshot. destruct (alloc_bulk k); intros t p; (split_and!; [balance_simpl..|]); intros []; balance_simpl.
Qed.

Lemma ac_get_fd_state_balanced k pd :
  let '(st, cs) := ac_get_fd_state k pd in snapshot_balanced pd st cs.
Proof.
  unfold ac_get_fd_state. destruct pd as [st|]; [|destruct (alloc_state k)];
    intros t p; (split_and!; [balance_simpl..|]); intros []; balance_simpl.
Qed.

Lemma ac_free_fd_state_balanced st : snapshot_balanced st None (ac_free_fd_state st).
Proof.
  destruct st as [st|]; intros t p; unfold ac_free_fd_state; (split_and!; [balance_simpl..|]);
    intros []; balance_simpl.
Qed.

Lemma ac_build_vma_snapshot_inv k st pid ev r :
  fd_inv st -> ring_inv r ->
  let '(ret, st', r', cs) := ac_build_vma_snapshot k st pid ev r in
  fd_inv st' /\ ring_inv r'.
Proof.
  intros [] Hr. unfold ac_build_vma_snapshot.
  destruct (ac_find_task k pid) as [[t|] cs];
    [destruct (task_vmas k t) as [vs|]; [destruct (alloc_bulk k)|]|];
    try (split; [split; simpl; done || lia|done]).
  pose proof (vma_loop_start k pid (negb (ev =? 0)) vs r) as H.
  destruct (vma_loop _ _ _ _ _) as [s tr]. destruct H as (_ & H1 & _ & H2). split.
  - split; simpl; try done. rewrite H1, length_snapshot_of. lia.
  - rewrite H2. by apply emits_refine.
Qed.

Lemma length_mod_loop ms : (length (mod_loop ms []) <= AC_MAX_MODS)%nat.
Proof. rewrite mod_loop_spec by (cbn; lia). cbn [app length]. rewrite length_take. lia. Qed.

Lemma ac_build_mod_snapshot_inv k st :
  fd_inv st -> let '(ret, st', cs) := ac_build_mod_snapshot k st in fd_inv st'.
Proof.
  intros []. unfold ac_build_mod_snapshot. destruct (alloc_bulk k); split; simpl; try done; try lia.
  apply length_mod_loop.
Qed.

Lemma fd_state_zero_inv : fd_inv fd_state_zero.
Proof. split; simpl; done || lia. Qed.

(** ** What the counters mean *)

(** Bits 1 and 2 of the flags are write and execute. *)
Definition executable (v : kvma) : bool := Z.testbit (vm_flags v) 2.
Definition writable (v : kvma) : bool := Z.testbit (vm_flags v) 1.
Definition anonymous (v : kvma) : bool := match vm_file v with None => true | Some _ => false end.

Lemma land_pow2_zero x n : 0 <= n -> (Z.land x (2 ^ n) =? 0) = negb (Z.testbit x n).
Proof.
  intros Hn. destruct (Z.testbit x n) eqn:E; simpl.
  - apply Z.eqb_neq. intros H. assert (Ht : Z.testbit (Z.land x (2 ^ n)) n = true)
      by (by rewrite Z.land_spec, E, Z.pow2_bits_true).
    by rewrite H, Z.bits_0 in Ht.
  - apply Z.eqb_eq. apply Z.bits_inj_0. intros m. rewrite Z.land_spec.
    destruct (Z.eq_dec m n) as [->|Hm]; [by rewrite E|].
    by rewrite Z.pow2_bits_false, andb_false_r by done.
Qed.

Lemma land_6 x : (Z.land x 6 =? 6) = Z.testbit x 1 && Z.testbit x 2.
Proof.
  assert (E : Z.land x 6 = Z.land (x mod 8) 6).
  { change 8 with (2 ^ 3). rewrite <- Z.land_ones by lia. rewrite <- Z.land_assoc. done. }
  assert (B : forall i, 0 <= i < 3 -> Z.testbit x i = Z.testbit (x mod 8) i).
  { intros i Hi. change 8 with (2 ^ 3). by rewrite Z.mod_pow2_bits_low by lia. }
  rewrite E, (B 1), (B 2) by lia. pose proof (Z.mod_pos_bound x 8 ltac:(lia)) as H.
  assert (x mod 8 = 0 \/ x mod 8 = 1 \/ x mod 8 = 2 \/ x mod 8 = 3 \/ x mod 8 = 4 \/
          x mod 8 = 5 \/ x mod 8 = 6 \/ x mod 8 = 7) as Hc by lia.
  destruct Hc as [->|[->|[->|[->|[->|[->|[->| ->]]]]]]]; reflexivity.
Qed.

Lemma vma_info_flags k i v : vi_flags (vma_info k i v) = vm_flags v.
Proof. unfold vma_info. by destruct (vm_file v). Qed.

Lemma is_exec_spec k i v : is_exec (vma_info k i v) = executable v.
Proof.
  unfold is_exec, executable. rewrite vma_info_flags. change AC_VM_EXEC with (2 ^ 2).
  by rewrite land_pow2_zero, negb_involutive by lia.
Qed.

Lemma is_rwx_spec k i v : is_rwx (vma_info k i v) = writable v && executable v.
Proof. unfold is_rwx. rewrite vma_info_flags. apply land_6. Qed.

Lemma is_anon_exec_spec k i v : is_anon_exec (vma_info k i v) = anonymous v && executable v.
Proof.
  unfold is_anon_exec. rewrite is_exec_spec. unfold vma_info, anonymous. by destruct (vm_file v).
Qed.

Lemma count_imap {A B} (f : nat -> A -> B) (p : B -> bool) (q : A -> bool) l :
  (forall i x, p (f i x) = q x) -> count p (imap f l) = count q l.
Proof.
  intros H. revert f H. induction l as [|x l IH]; intros f H; [done|].
  rewrite imap_cons. change (?y :: ?m) with ([y] ++ m). rewrite !count_app, !count_one, H.
  f_equal. apply IH. intros i y. apply H.
Qed.

(** ** Properties *)

(** C10: a scan snapshot is exact.  For a live task with an address space the
    snapshot holds its first 4096 mappings in order, [n_vmas] is their number,
    [truncated] says whether there were more, and the three counters are the
    numbers of writable-and-executable, executable, and unbacked executable
    mappings among them, computed without wrap-around; with events on, exactly
    the events of these mappings are queued, in mapping order.  On failure
    ([ESRCH], [ENOMEM]) nothing of an earlier snapshot survives (no array, and
    all five counters are 0) and no event is emitted.  The module snapshot is
    untouched.  On every path every reference is dropped again, the replaced
    array and all path buffers are freed, and the only block left allocated is
    the array the state records. *)
Theorem vma_snapshot_exact (k : kernel) (st : ac_fd_state) (pid ev : Z) (r : ring) :
  ring_inv r ->
  let '(ret, st', r', cs) := ac_build_vma_snapshot k st pid ev r in
  snapshot_balanced (Some st) (Some st') cs /\ ring_inv r' /\
  fs_mods st' = fs_mods st /\ fs_n_mods st' = fs_n_mods st /\
  match t ← (ac_find_task k pid).1; task_vmas k t with
  | Some vs =>
      if alloc_bulk k then
        let seen := take AC_MAX_VMAS vs in
        ret = 0 /\ fs_vmas st' = Some (imap (vma_info k) seen) /\
        fs_n_vmas st' = Z.of_nat (length seen) /\
        fs_truncated st' = Z.b2z (AC_MAX_VMAS <? length vs)%nat /\
        fs_rwx_count st' = count (fun v => writable v && executable v) seen /\
        fs_exec_count st' = count executable seen /\
        fs_anon_exec_count st' = count (fun v => anonymous v && executable v) seen /\
        contents r' = foldl queue_push (contents r)
          (if ev =? 0 then [] else scan_events k pid 0 (imap (vma_info k) seen))
      else ret = - ENOMEM /\ r' = r /\ st' = FdState None 0 0 0 0 0 (fs_mods st) (fs_n_mods st)
  | None => ret = - ESRCH /\ r' = r /\ st' = FdState None 0 0 0 0 0 (fs_mods st) (fs_n_mods st)
  end.
Proof.
  intros Hr. pose proof (ac_build_vma_snapshot_balanced k st pid ev r) as Hb. revert Hb.
  unfold ac_build_vma_snapshot. destruct (ac_find_task k pid) as [[t|] cs]; [|done].
  cbn [fst mbind option_bind]. destruct (task_vmas k t) as [vs|]; [|done].
  destruct (alloc_bulk k); [|done].
  pose proof (vma_loop_start k pid (negb (ev =? 0)) vs r) as H.
  destruct (vma_loop _ _ _ _ _) as [s tr]. destruct H as ([] & H1 & H2 & H3). intros Hb.
  destruct (emits_refine (if negb (ev =? 0) then scan_events k pid 0 (snapshot_of k vs) else [])
    r Hr) as (E1 & E2 & _).
  rewrite H1 in *. unfold snapshot_of in *. cbn [fs_vmas fs_n_vmas fs_rwx_count fs_exec_count
    fs_anon_exec_count fs_truncated fs_mods fs_n_mods] in *.
  rewrite H3. split_and!; try done.
  - by rewrite length_imap.
  - rewrite si_rwx0. apply count_imap, is_rwx_spec.
  - rewrite si_exec0. apply count_imap, is_exec_spec.
  - rewrite si_anon0. apply count_imap, is_anon_exec_spec.
  - rewrite E2. by destruct (ev =? 0).
Qed.

(** A task with a code mapping, a writable code mapping, and an unbacked
    executable one. *)
Definition mapped_vmas : list kvma :=
  [KVma 4096 8192 0 5 (Some (KFile (Some 12) (Some (bs "/usr/bin/game"))));
   KVma 8192 12288 1 7 (Some (KFile (Some 12) (Some (bs "/usr/bin/game"))));
   KVma 20480 24576 0 5 None].

Definition kernel_with (vmas : list kvma) : kernel := {|
  current := 1%positive; task_pid _ := 100; task_comm _ := bs "game";
  find_get_pid n := if n =? 100 then Some 7%positive else None;
  get_pid_task := Some; get_task_pid t := t;
  task_active_pid_ns _ := None; find_pid_ns _ _ := None; ktime _ := 0;
  capable_admin := true; user_readable := true; user_writable := true;
  alloc_state := true; alloc_bulk := true; alloc_path _ := true;
  try_module_get := true;
  task_vmas _ := Some vmas;
  modules := [KModule (bs "anticheat") 0 8192 4096 [4096; 512];
              KModule (bs "going") 2 8192 4096 [4096]];
  within_module_core _ _ := false; kread64 _ := None; kread32 _ := None;
  kprobe_addr _ := None; kprobe_register _ := 0; kretprobe_register := 0;
  create_workqueue := true; misc_register := 0;
  NR_syscalls := 462; NR_read := 0; NR_write := 1
|}.

Definition mapped_kernel : kernel := kernel_with mapped_vmas.

Lemma vma_snapshot_exact_witness :
  ring_inv ring_init /\
  let st := (ac_build_vma_snapshot mapped_kernel fd_state_zero 100 1 ring_init).1.1.2 in
  fs_n_vmas st = 3 /\ fs_rwx_count st = 1 /\ fs_exec_count st = 3 /\ fs_anon_exec_count st = 1.
Proof.
  split; [exact ring_init_inv|].
  pose proof (vma_snapshot_exact mapped_kernel fd_state_zero 100 1 ring_init ring_init_inv) as H.
  destruct (ac_build_vma_snapshot mapped_kernel fd_state_zero 100 1 ring_init)
    as [[[ret st] r'] cs].
  assert (E : (t ← (ac_find_task mapped_kernel 100).1; task_vmas mapped_kernel t)
              = Some mapped_vmas) by reflexivity.
  rewrite E in H. assert (Ea : alloc_bulk mapped_kernel = true) by reflexivity. rewrite Ea in H.
  destruct H as (_ & _ & _ & _ & _ & _ & H1 & _ & H2 & H3 & H4 & _).
  cbn [fst snd]. rewrite H1, H2, H3, H4. split_and!; vm_compute; reflexivity.
Defined.

(** The module snapshot holds, in list order and at most 1024 of them, the
    modules that pass the sanity filter and only those, each with its name cut
    to 63 bytes, the 64-bit sum of its core regions and its state; without
    memory the snapshot is empty.  The mapping snapshot and its counters are
    untouched and the replaced array is freed. *)
Theorem mod_snapshot_exact (k : kernel) (st : ac_fd_state) :
  let '(ret, st', cs) := ac_build_mod_snapshot k st in
  snapshot_balanced (Some st) (Some st') cs /\
  st' = FdState (fs_vmas st) (fs_n_vmas st) (fs_rwx_count st) (fs_exec_count st)
          (fs_anon_exec_count st) (fs_truncated st) (fs_mods st') (fs_n_mods st') /\
  if alloc_bulk k then
    let kept := take AC_MAX_MODS (List.filter ac_module_sane (modules k)) in
    ret = 0 /\ fs_n_mods st' = Z.of_nat (length kept) /\
    fs_mods st' = Some ((fun m => ModInfo (strscpy AC_MOD_NAME_LEN (m_name m))
                           (u64 (foldr Z.add 0 (m_core_sizes m))) (m_state m)) <$> kept)
  else ret = - ENOMEM /\ fs_n_mods st' = 0 /\ fs_mods st' = None.
Proof.
  pose proof (ac_build_mod_snapshot_balanced k st) as Hb. revert Hb.
  unfold ac_build_mod_snapshot. destruct (alloc_bulk k); [|done]. intros Hb.
  rewrite (mod_loop_spec (modules k) [] ltac:(cbn; lia)) in *. cbn [app length] in *.
  rewrite Nat.sub_0_r in *. split_and!; try done; cbn [fs_n_mods fs_mods].
  - by rewrite !length_take, length_fmap.
  - f_equal. rewrite fmap_take. f_equal. apply list_fmap_ext. intros _ m _. f_equal.
    apply ac_module_size_sum.
Qed.
