(* ===== verification/Ioctl.v ===== *)
(** * The ioctl interface (src/anticheat_module.c, "ioctl / misc device")

    The module's global state and the handler of every command of
    [/dev/anticheat], with [ac_open] and [ac_release]. *)

From Stdlib Require Import ZArith Lia.
From stdpp Require Import base numbers list gmap strings.
From S2P Require Import Prelude Abi Ring Kernel Registry SyscallTable Probes Snapshot.

(** The module's static variables. *)
Record mstate := MState {
  m_guard : guard;                 (* ac_prots, ac_ring, ac_wq *)
  m_text : text;                   (* text bounds and ac_syscall_table *)
  ac_last_hook_count : Z;
  ac_lock_count : Z;               (* atomic_t *)
  m_probes : probes;
  ac_policy : Z
}.

Definition set_guard (g : guard) (m : mstate) : mstate :=
  MState g (m_text m) (ac_last_hook_count m) (ac_lock_count m) (m_probes m) (ac_policy m).
Definition set_lock (n : Z) (m : mstate) : mstate :=
  MState (m_guard m) (m_text m) (ac_last_hook_count m) n (m_probes m) (ac_policy m).
Definition m_reg (m : mstate) : registry := g_reg (m_guard m).
Definition m_ring (m : mstate) : ring := g_ring (m_guard m).
Definition set_reg (r : registry) (m : mstate) : mstate :=
  set_guard (Guard r (m_ring m) (g_wq (m_guard m))) m.
Definition set_ring (r : ring) (m : mstate) : mstate :=
  set_guard (Guard (m_reg m) r (g_wq (m_guard m))) m.

(** A request: the command with the structure user space passes in. *)
Inductive ioctl_req :=
  | ReqStatus
  | ReqAddProc (a : ac_proc_id)
  | ReqDelProc (d : ac_proc_id)
  | ReqScanBegin (b : ac_scan_begin)
  | ReqScanGet (g : ac_scan_get)
  | ReqScanEnd
  | ReqCheckSyscalls
  | ReqModsBegin
  | ReqModsGet (g : ac_mod_get)
  | ReqModsEnd
  | ReqGetEvents
  | ReqFlushEvents
  | ReqListProtected
  | ReqLock
  | ReqUnlock
  | ReqUnknown (cmd : Z).

(** What [copy_to_user] hands back. *)
Inductive ioctl_out :=
  | OutStatus (st : ac_status)
  | OutScanBegin (b : ac_scan_begin)
  | OutScanGet (g : ac_scan_get)
  | OutSyscalls (c : ac_syscall_check)
  | OutCount (n : Z)
  | OutModGet (g : ac_mod_get)
  | OutEvents (el : ac_event_list)
  | OutProtected (pl : ac_prot_list).

(** The result of a handler: return value, what was copied out, the file's
    [private_data], the module state and the kernel calls. *)
Record reply := Reply {
  rp_ret : Z;
  rp_out : option ioctl_out;
  rp_pd : option ac_fd_state;
  rp_mod : mstate;
  rp_calls : list kcall
}.

Section handlers.
Context (k : kernel).

(** [if (copy_to_user(...)) return -EFAULT; return 0;] *)
Definition copy_out (out : ioctl_out) (pd : option ac_fd_state) (m : mstate)
    (cs : list kcall) : reply :=
  if user_writable k then Reply 0 (Some out) pd m cs
  else Reply (- EFAULT) None pd m cs.

Definition ioctl_status (pd : option ac_fd_state) (m : mstate) : reply :=
  copy_out (OutStatus (Status AC_IOCTL_VERSION (ac_syscall_table (m_text m))
                         (ac_protected_count (m_reg m)) (rg_dropped (m_ring m))
                         (if 0 <? ac_lock_count m then 1 else 0) (ac_last_hook_count m)))
    pd m [].

Definition ioctl_add_proc (a : ac_proc_id) (pd : option ac_fd_state) (m : mstate) : reply :=
  if negb (user_readable k) then Reply (- EFAULT) None pd m []
  else
    let '(ret, _, r, cs) :=
      ac_add_prot_pid k (pi_pid a) (pi_ref_pid a) (negb (pi_jit_allowed a =? 0)) (m_reg m) in
    Reply ret None pd (set_reg r m) cs.

Definition ioctl_del_proc (d : ac_proc_id) (pd : option ac_fd_state) (m : mstate) : reply :=
  if negb (user_readable k) then Reply (- EFAULT) None pd m []
  else
    match ac_find_task k (pi_pid d) with
    | (None, cs) => Reply (- ESRCH) None pd m cs
    | (Some t, cs) =>
        let '(r, cs') := ac_del_prot_task t (m_reg m) in
        Reply 0 None pd (set_reg r m) (cs ++ cs' ++ [KPutTask t])
    end.

Definition ioctl_scan_begin (b : ac_scan_begin) (pd : option ac_fd_state) (m : mstate)
    : reply :=
  if negb (user_readable k) then Reply (- EFAULT) None pd m []
  else
    match ac_get_fd_state k pd with
    | (None, cs) => Reply (- ENOMEM) None pd m cs
    | (Some st, cs) =>
        let '(ret, st, r, cs') :=
          ac_build_vma_snapshot k st (sb_pid b) (sb_emit_events b) (m_ring m) in
        let m := set_ring r m in
        if negb (ret =? 0) then Reply ret None (Some st) m (cs ++ cs')
        else copy_out (OutScanBegin (ScanBegin (sb_pid b) (sb_emit_events b) (fs_n_vmas st)
                         (fs_rwx_count st) (fs_exec_count st) (fs_anon_exec_count st)
                         (fs_truncated st)))
               (Some st) m (cs ++ cs')
    end.

(** [None] is a read outside the initialised part of the snapshot array. *)
Definition ioctl_scan_get (g : ac_scan_get) (pd : option ac_fd_state) (m : mstate)
    : option reply :=
  if negb (user_readable k) then Some (Reply (- EFAULT) None pd m [])
  else
    match pd with
    | None => Some (Reply (- EINVAL) None pd m [])
    | Some st =>
        if fs_n_vmas st <=? sg_index g then Some (Reply (- EINVAL) None pd m [])
        else
          vmas ← fs_vmas st;
          vma ← vmas !! Z.to_nat (sg_index g);
          Some (copy_out (OutScanGet (ScanGet (sg_pid g) (sg_index g) vma)) pd m [])
    end.

Definition ioctl_scan_end (pd : option ac_fd_state) (m : mstate) : reply :=
  match pd with
  | None => Reply 0 None pd m []
  | Some st =>
      Reply 0 None
        (Some (FdState None 0 (fs_rwx_count st) (fs_exec_count st) (fs_anon_exec_count st)
                 (fs_truncated st) (fs_mods st) (fs_n_mods st)))
        m (kvfree (fs_vmas st))
  end.

Definition ioctl_check_syscalls (pd : option ac_fd_state) (m : mstate) : reply :=
  let '(ret, c, r) := ac_check_syscalls k (m_text m) (m_ring m) in
  let m := set_ring r m in
  if negb (ret =? 0) then Reply ret None pd m []
  else
    copy_out (OutSyscalls c) pd
      (MState (m_guard m) (m_text m) (sc_hooked c) (ac_lock_count m) (m_probes m) (ac_policy m))
      [].

Definition ioctl_mods_begin (pd : option ac_fd_state) (m : mstate) : reply :=
  match ac_get_fd_state k pd with
  | (None, cs) => Reply (- ENOMEM) None pd m cs
  | (Some st, cs) =>
      let '(ret, st, cs') := ac_build_mod_snapshot k st in
      if negb (ret =? 0) then Reply ret None (Some st) m (cs ++ cs')
      else copy_out (OutCount (fs_n_mods st)) (Some st) m (cs ++ cs')
  end.

Definition ioctl_mods_get (g : ac_mod_get) (pd : option ac_fd_state) (m : mstate)
    : option reply :=
  if negb (user_readable k) then Some (Reply (- EFAULT) None pd m [])
  else
    match pd with
    | None => Some (Reply (- EINVAL) None pd m [])
    | Some st =>
        if fs_n_mods st <=? mg_index g then Some (Reply (- EINVAL) None pd m [])
        else
          mods ← fs_mods st;
          mod_ ← mods !! Z.to_nat (mg_index g);
          Some (copy_out (OutModGet (ModGet (mg_index g) mod_)) pd m [])
    end.

Definition ioctl_mods_end (pd : option ac_fd_state) (m : mstate) : reply :=
  match pd with
  | None => Reply 0 None pd m []
  | Some st =>
      Reply 0 None
        (Some (FdState (fs_vmas st) (fs_n_vmas st) (fs_rwx_count st) (fs_exec_count st)
                 (fs_anon_exec_count st) (fs_truncated st) None 0))
        m (kvfree (fs_mods st))
  end.

Definition ioctl_get_events (pd : option ac_fd_state) (m : mstate) : reply :=
  if negb (alloc_bulk k) then Reply (- ENOMEM) None pd m []
  else
    let '(el, r) := ac_drain_events (m_ring m) in
    copy_out (OutEvents el) pd (set_ring r m) [KAlloc MemEvents; KFree MemEvents].

Definition ioctl_flush_events (pd : option ac_fd_state) (m : mstate) : reply :=
  Reply 0 None pd (set_ring (ac_flush_events (m_ring m)) m) [].

Definition ioctl_list_protected (pd : option ac_fd_state) (m : mstate) : reply :=
  copy_out (OutProtected (ac_list_protected (m_reg m))) pd m [].

Definition ioctl_lock (pd : option ac_fd_state) (m : mstate) : reply :=
  if try_module_get k
  then Reply 0 None pd (set_lock (s32 (ac_lock_count m + 1)) m) [KModuleGet]
  else Reply (- EBUSY) None pd m [].

Definition ioctl_unlock (pd : option ac_fd_state) (m : mstate) : reply :=
  if 0 <? ac_lock_count m
  then Reply 0 None pd (set_lock (s32 (ac_lock_count m - 1)) m) [KModulePut]
  else Reply 0 None pd m [].

(** [ac_ioctl]. *)
Definition ac_ioctl (req : ioctl_req) (pd : option ac_fd_state) (m : mstate) : option reply :=
  if negb (capable_admin k) then Some (Reply (- EPERM) None pd m [])
  else
    match req with
    | ReqStatus => Some (ioctl_status pd m)
    | ReqAddProc a => Some (ioctl_add_proc a pd m)
    | ReqDelProc d => Some (ioctl_del_proc d pd m)
    | ReqScanBegin b => Some (ioctl_scan_begin b pd m)
    | ReqScanGet g => ioctl_scan_get g pd m
    | ReqScanEnd => Some (ioctl_scan_end pd m)
    | ReqCheckSyscalls => Some (ioctl_check_syscalls pd m)
    | ReqModsBegin => Some (ioctl_mods_begin pd m)
    | ReqModsGet g => ioctl_mods_get g pd m
    | ReqModsEnd => Some (ioctl_mods_end pd m)
    | ReqGetEvents => Some (ioctl_get_events pd m)
    | ReqFlushEvents => Some (ioctl_flush_events pd m)
    | ReqListProtected => Some (ioctl_list_protected pd m)
    | ReqLock => Some (ioctl_lock pd m)
    | ReqUnlock => Some (ioctl_unlock pd m)
    | ReqUnknown _ => Some (Reply (- ENOTTY) None pd m [])
    end.

(** [ac_open]: the return value and the file's [private_data]. *)
Definition ac_open : Z * option ac_fd_state :=
  if negb (capable_admin k) then (- EPERM, None) else (0, None).

Definition ac_release (pd : option ac_fd_state) : option ac_fd_state * list kcall :=
  (None, ac_free_fd_state pd).
End handlers.

(** ** Invariant and accounting *)

Record mod_inv (m : mstate) : Prop := {
  mi_guard : guard_inv (m_guard m);
  mi_lock : - 2 ^ 31 <= ac_lock_count m < 2 ^ 31
}.

Definition fd_ok (pd : option ac_fd_state) : Prop := forall st, pd = Some st -> fd_inv st.

(** Indices are [unsigned int]. *)
Definition req_ok (req : ioctl_req) : Prop :=
  match req with
  | ReqScanGet g => 0 <= sg_index g < 2 ^ 32
  | ReqModsGet g => 0 <= mg_index g < 2 ^ 32
  | _ => True
  end.

(** The blocks of each kind that module and file keep: the file's state and
    arrays, and one request per queued kill. *)
Definition held (x : mem) (pd : option ac_fd_state) (m : mstate) : Z :=
  match x with MemReq => Z.of_nat (length (g_wq (m_guard m))) | _ => owned x pd end.

(** The calls [cs] account exactly for what the module holds afterwards: task
    references for the slots, pid references for the queued kills, references
    to the module for the lock count (an [int]), and memory of every kind; no
    address space is kept, and the probes stay as they are. *)
Definition accounted (pd : option ac_fd_state) (m : mstate) (pd' : option ac_fd_state)
    (m' : mstate) (cs : list kcall) : Prop :=
  forall t p,
    task_refs t cs = slot_refs (m_reg m') t - slot_refs (m_reg m) t /\
    pid_refs p cs = pending (m_guard m') p - pending (m_guard m) p /\
    mm_refs t cs = 0 /\
    ac_lock_count m' = s32 (ac_lock_count m + module_refs cs) /\
    (forall x, allocs x cs = held x pd' m' - held x pd m) /\
    m_probes m' = m_probes m.

Definition sound (pd : option ac_fd_state) (m : mstate) (rp : reply) : Prop :=
  mod_inv (rp_mod rp) /\ fd_ok (rp_pd rp) /\ accounted pd m (rp_pd rp) (rp_mod rp) (rp_calls rp).

Lemma s32_id z : - 2 ^ 31 <= z < 2 ^ 31 -> s32 z = z.
Proof. intros. unfold s32. rewrite Z.mod_small; lia. Qed.

Lemma s32_range z : - 2 ^ 31 <= s32 z < 2 ^ 31.
Proof. unfold s32. pose proof (Z.mod_pos_bound (z + 2 ^ 31) (2 ^ 32) ltac:(lia)). lia. Qed.

Lemma s32_add z a : s32 (s32 z + a) = s32 (z + a).
Proof.
  unfold s32. f_equal.
  replace ((z + 2 ^ 31) mod 2 ^ 32 - 2 ^ 31 + a + 2 ^ 31)
    with ((z + 2 ^ 31) mod 2 ^ 32 + a) by lia.
  rewrite Zplus_mod_idemp_l. f_equal. lia.
Qed.

(** Handlers that change at most the ring, the hook count, and the file. *)
Lemma accounted_snapshot pd m pd' m' cs :
  mod_inv m -> m_reg m' = m_reg m -> g_wq (m_guard m') = g_wq (m_guard m) ->
  ac_lock_count m' = ac_lock_count m -> m_probes m' = m_probes m ->
  snapshot_balanced pd pd' cs ->
  accounted pd m pd' m' cs.
Proof.
  intros [_ Hl] E1 E2 E3 E4 H t p. destruct (H t p) as (H1 & H2 & H3 & H4 & H5).
  unfold pending. rewrite E1, E2, E3, H4, Z.add_0_r, s32_id by done. split_and!; [lia || done..| |done].
  intros x. rewrite H5. destruct x; unfold held; rewrite ?E2; cbn [owned]; lia.
Qed.

Lemma snapshot_balanced_nil pd : snapshot_balanced pd pd [].
Proof. intros t p. split_and!; [refs_simpl..|]. intros x. refs_simpl. Qed.

Lemma snapshot_balanced_app pd1 pd2 pd3 cs cs' :
  snapshot_balanced pd1 pd2 cs -> snapshot_balanced pd2 pd3 cs' ->
  snapshot_balanced pd1 pd3 (cs ++ cs').
Proof.
  intros H H' t p. destruct (H t p) as (? & ? & ? & ? & Hx), (H' t p) as (? & ? & ? & ? & Hx').
  rewrite task_refs_app, pid_refs_app, mm_refs_app, module_refs_app. split_and!; [lia..|].
  intros x. rewrite allocs_app, Hx, Hx'. lia.
Qed.

(** Handlers and probes that change the guard through counted references. *)
Lemma accounted_guard pd m g' cs :
  mod_inv m -> balanced (m_guard m) g' cs -> hit_calls cs ->
  accounted pd m pd (set_guard g' m) cs.
Proof.
  intros [_ Hl] H Hc t p. destruct (H t p) as (H1 & H2 & H3 & H4).
  destruct (hit_calls_pure cs t Hc) as (-> & -> & Hx).
  unfold m_reg. simpl. rewrite Z.add_0_r, s32_id by done. split_and!; [lia || done..| |done].
  intros x. destruct (decide (x = MemReq)) as [->|Hne]; [exact H4|]. rewrite Hx by done.
  destruct x; cbn [held]; lia || done.
Qed.

Lemma sound_same pd m ret out :
  mod_inv m -> fd_ok pd -> sound pd m (Reply ret out pd m []).
Proof.
  intros Hm Hf. split_and!; [done|done|].
  apply accounted_snapshot; [done..|apply snapshot_balanced_nil].
Qed.

Lemma copy_out_sound k out pd m pd' m' cs :
  sound pd m (Reply 0 (Some out) pd' m' cs) -> sound pd m (copy_out k out pd' m' cs).
Proof. unfold copy_out. by destruct (user_writable k). Qed.

Lemma set_ring_inv r m : mod_inv m -> ring_inv r -> mod_inv (set_ring r m).
Proof. intros [[] ?] ?. by split; [split|]. Qed.

(** Handlers that only move the ring. *)
Lemma sound_ring pd m ret out r :
  mod_inv m -> fd_ok pd -> ring_inv r -> sound pd m (Reply ret out pd (set_ring r m) []).
Proof.
  intros Hm Hf Hr. split_and!; [by apply set_ring_inv|done|].
  apply accounted_snapshot; [done..|apply snapshot_balanced_nil].
Qed.

Create HintDb ioctl.
#[export] Hint Resolve sound_same copy_out_sound sound_ring set_ring_inv : ioctl.

(** The element a file's snapshot holds at an index. *)
Definition vma_at (pd : option ac_fd_state) (i : Z) : option ac_vma_info :=
  st ← pd; vs ← fs_vmas st; vs !! Z.to_nat i.
Definition mod_at (pd : option ac_fd_state) (i : Z) : option ac_mod_info :=
  st ← pd; ms ← fs_mods st; ms !! Z.to_nat i.

(** ** Soundness of the handlers *)

Section sound.
Context (k : kernel) (pd : option ac_fd_state) (m : mstate).
Context (Hm : mod_inv m) (Hf : fd_ok pd).

Lemma add_proc_sound a : sound pd m (ioctl_add_proc k a pd m).
Proof using Hm Hf.
  unfold ioctl_add_proc. destruct (negb (user_readable k)); [by apply sound_same|].
  destruct Hm as [[Hr Hq] Hl].
  pose proof (ac_add_prot_pid_ref_calls k (pi_pid a) (pi_ref_pid a)
    (negb (pi_jit_allowed a =? 0)) (m_reg m)) as Hc.
  assert (H := fun t p => ac_add_prot_pid_refs k (pi_pid a) (pi_ref_pid a)
    (negb (pi_jit_allowed a =? 0)) (m_reg m) t p Hr).
  destruct (ac_add_prot_pid k _ _ _ _) as [[[ret comm] r] cs]. cbn [snd] in Hc.
  split_and!; [|done|].
  - split; [|done]. split; [|done]. apply (H 1%positive 1%positive).
  - apply accounted_guard; [done| |by apply ref_hit_calls]. apply balanced_refs; [done|exact Hc|].
    intros t p. by destruct (H t p) as (_ & H1 & H2).
Qed.

Lemma del_proc_sound d : sound pd m (ioctl_del_proc k d pd m).
Proof using Hm Hf.
  unfold ioctl_del_proc. destruct (negb (user_readable k)); [by apply sound_same|].
  pose proof (ac_find_task_ref_calls k (pi_pid d)) as Hc.
  destruct (ac_find_task k (pi_pid d)) as [[t|] cs] eqn:Ef; cbn [snd] in Hc.
  - destruct Hm as [[Hr Hq] Hl]. pose proof (ac_del_refines t _ Hr) as Hd.
    assert (Hb := fun t' p' => ac_del_refs t _ t' p' Hr).
    pose proof (ac_del_ref_calls t (m_reg m)) as Hc'. unfold m_reg in *.
    destruct (ac_del_prot_task t _) as [r cs']. cbn [snd] in Hc'. split_and!; [|done|].
    + split; [|done]. split; [apply Hd|done].
    + apply accounted_guard; [done| |simpl; auto 6 with calls].
      eapply balanced_lookup; [exact Ef|]. apply balanced_refs; [done|exact Hc'|].
      intros t' p'. by destruct (Hb t' p') as (? & ? & ?).
  - split_and!; [done|done|]. assert (E : m = set_guard (m_guard m) m) by (by destruct m).
    cbn [rp_mod rp_pd rp_calls]. rewrite E at 2.
    apply accounted_guard; [done|by eapply balanced_failed_lookup|by apply ref_hit_calls].
Qed.

Lemma get_fd_state_ok st cs :
  ac_get_fd_state k pd = (Some st, cs) -> fd_inv st /\ snapshot_balanced pd (Some st) cs.
Proof using Hf.
  intros E. pose proof (ac_get_fd_state_balanced k pd) as Hb. rewrite E in Hb. split; [|done].
  unfold ac_get_fd_state in E. destruct pd as [st'|]; [|destruct (alloc_state k)];
    simplify_eq; [by apply Hf|apply fd_state_zero_inv].
Qed.

Lemma get_fd_state_fails cs : ac_get_fd_state k pd = (None, cs) -> pd = None /\ cs = [].
Proof using.
  clear Hf. unfold ac_get_fd_state. destruct pd; [done|]. destruct (alloc_state k); naive_solver.
Qed.

Lemma scan_begin_sound b : sound pd m (ioctl_scan_begin k b pd m).
Proof using Hm Hf.
  unfold ioctl_scan_begin. destruct (negb (user_readable k)); [by apply sound_same|].
  destruct (ac_get_fd_state k pd) as [[st|] cs] eqn:E.
  2:{ apply get_fd_state_fails in E as [-> ->]. by apply sound_same. }
  apply get_fd_state_ok in E as [Hi Hb].
  pose proof (gi_ring _ (mi_guard _ Hm)) as Hq.
  pose proof (ac_build_vma_snapshot_inv k st (sb_pid b) (sb_emit_events b) _ Hi Hq) as Hv.
  pose proof (ac_build_vma_snapshot_balanced k st (sb_pid b) (sb_emit_events b) (m_ring m)) as Hb'.
  unfold m_ring in *.
  destruct (ac_build_vma_snapshot k st _ _ _) as [[[ret st'] r] cs']. destruct Hv as [Hv Hr].
  assert (S : forall ret' out, sound pd m (Reply ret' out (Some st') (set_ring r m) (cs ++ cs'))).
  { intros ret' out. split_and!; [by apply set_ring_inv|intros ? [= <-]; done|].
    apply accounted_snapshot; [done..|]. by eapply snapshot_balanced_app. }
  destruct (negb (ret =? 0)); [apply S|]. apply copy_out_sound, S.
Qed.

Lemma mods_begin_sound : sound pd m (ioctl_mods_begin k pd m).
Proof using Hm Hf.
  unfold ioctl_mods_begin. destruct (ac_get_fd_state k pd) as [[st|] cs] eqn:E.
  2:{ apply get_fd_state_fails in E as [-> ->]. by apply sound_same. }
  apply get_fd_state_ok in E as [Hi Hb].
  pose proof (ac_build_mod_snapshot_inv k st Hi) as Hv.
  pose proof (ac_build_mod_snapshot_balanced k st) as Hb'.
  destruct (ac_build_mod_snapshot k st) as [[ret st'] cs'].
  assert (S : forall ret' out, sound pd m (Reply ret' out (Some st') m (cs ++ cs'))).
  { intros ret' out. split_and!; [done|intros ? [= <-]; done|].
    apply accounted_snapshot; [done..|]. by eapply snapshot_balanced_app. }
  destruct (negb (ret =? 0)); [apply S|]. apply copy_out_sound, S.
Qed.

(** [SCAN_GET] and [MODS_GET] answer exactly the stored element. *)
Lemma scan_get_spec g :
  0 <= sg_index g ->
  ioctl_scan_get k g pd m =
  Some (if negb (user_readable k) then Reply (- EFAULT) None pd m []
        else match vma_at pd (sg_index g) with
             | Some vma => copy_out k (OutScanGet (ScanGet (sg_pid g) (sg_index g) vma)) pd m []
             | None => Reply (- EINVAL) None pd m []
             end).
Proof using Hf.
  intros Hi. unfold ioctl_scan_get, vma_at. destruct (negb (user_readable k)); [done|].
  destruct pd as [st|]; [|done]. destruct (Hf st eq_refl) as [Hv _ _ _]. cbn [mbind option_bind].
  destruct (fs_vmas st) as [vs|]; simpl in Hv; cbn [mbind option_bind].
  - destruct (Z.leb_spec (fs_n_vmas st) (sg_index g)).
    + rewrite lookup_ge_None_2 by lia. done.
    + destruct (lookup_lt_is_Some_2 vs (Z.to_nat (sg_index g))) as [v ->]; [lia|done].
  - simpl in Hv. rewrite Hv. by rewrite (proj2 (Z.leb_le 0 _)).
Qed.

Lemma mods_get_spec g :
  0 <= mg_index g ->
  ioctl_mods_get k g pd m =
  Some (if negb (user_readable k) then Reply (- EFAULT) None pd m []
        else match mod_at pd (mg_index g) with
             | Some mi => copy_out k (OutModGet (ModGet (mg_index g) mi)) pd m []
             | None => Reply (- EINVAL) None pd m []
             end).
Proof using Hf.
  intros Hi. unfold ioctl_mods_get, mod_at. destruct (negb (user_readable k)); [done|].
  destruct pd as [st|]; [|done]. destruct (Hf st eq_refl) as [_ _ Hv _]. cbn [mbind option_bind].
  destruct (fs_mods st) as [vs|]; simpl in Hv; cbn [mbind option_bind].
  - destruct (Z.leb_spec (fs_n_mods st) (mg_index g)).
    + rewrite lookup_ge_None_2 by lia. done.
    + destruct (lookup_lt_is_Some_2 vs (Z.to_nat (mg_index g))) as [v ->]; [lia|done].
  - simpl in Hv. rewrite Hv. by rewrite (proj2 (Z.leb_le 0 _)).
Qed.

Lemma scan_end_sound : sound pd m (ioctl_scan_end pd m).
Proof using Hm Hf.
  unfold ioctl_scan_end. destruct pd as [st|]; [|by apply sound_same].
  destruct (Hf st eq_refl). split_and!; [done| |].
  - intros ? [= <-]. split; simpl; done || lia.
  - apply accounted_snapshot; [done..|]. intros t p. split_and!; [balance_simpl..|]. intros []; balance_simpl.
Qed.

Lemma mods_end_sound : sound pd m (ioctl_mods_end pd m).
Proof using Hm Hf.
  unfold ioctl_mods_end. destruct pd as [st|]; [|by apply sound_same].
  destruct (Hf st eq_refl). split_and!; [done| |].
  - intros ? [= <-]. split; simpl; done || lia.
  - apply accounted_snapshot; [done..|]. intros t p. split_and!; [balance_simpl..|]. intros []; balance_simpl.
Qed.
End sound.

Lemma check_syscalls_sound k pd m :
  mod_inv m -> fd_ok pd -> sound pd m (ioctl_check_syscalls k pd m).
Proof.
  intros Hm Hf. unfold ioctl_check_syscalls.
  pose proof (ac_check_syscalls_ring k (m_text m) _ (gi_ring _ (mi_guard _ Hm))) as Hr.
  unfold m_ring in *. destruct (ac_check_syscalls k _ _) as [[ret c] r]. cbn [snd] in Hr.
  destruct (negb (ret =? 0)); [by apply sound_ring|]. apply copy_out_sound.
  destruct (sound_ring pd m 0 None r Hm Hf Hr) as ([? ?] & ? & Ha). by split_and!.
Qed.

Lemma lock_sound k pd m : mod_inv m -> fd_ok pd -> sound pd m (ioctl_lock k pd m).
Proof.
  intros Hm Hf. unfold ioctl_lock. destruct (try_module_get k); [|by apply sound_same].
  destruct Hm as [Hg Hl]. split_and!; [split; [done|apply s32_range]|done|].
  intros t p. unfold m_reg, pending. simpl. split_and!; [refs_simpl; f_equal; lia..| |done].
  intros x. destruct x; unfold held; simpl; refs_simpl.
Qed.

Lemma unlock_sound pd m : mod_inv m -> fd_ok pd -> sound pd m (ioctl_unlock pd m).
Proof.
  intros Hm Hf. unfold ioctl_unlock. destruct (0 <? ac_lock_count m); [|by apply sound_same].
  destruct Hm as [Hg Hl]. split_and!; [split; [done|apply s32_range]|done|].
  intros t p. unfold m_reg, pending. simpl. split_and!; [refs_simpl; f_equal; lia..| |done].
  intros x. destruct x; unfold held; simpl; refs_simpl.
Qed.

(** Every request has an outcome, and the outcome is sound. *)
Lemma ac_ioctl_sound k req pd m :
  mod_inv m -> fd_ok pd -> req_ok req ->
  exists rp, ac_ioctl k req pd m = Some rp /\ sound pd m rp.
Proof.
  intros Hm Hf Hq. pose proof (gi_ring _ (mi_guard _ Hm)) as Hr. unfold ac_ioctl.
  destruct (negb (capable_admin k)); [eauto with ioctl|].
  destruct req; try (eexists; split; [reflexivity|]).
  - apply copy_out_sound. by apply sound_same.
  - by apply add_proc_sound.
  - by apply del_proc_sound.
  - by apply scan_begin_sound.
  - rewrite (scan_get_spec k pd m Hf) by apply Hq. eexists; split; [reflexivity|].
    destruct (negb _); [by apply sound_same|].
    destruct (vma_at _ _); [apply copy_out_sound|]; by apply sound_same.
  - by apply scan_end_sound.
  - by apply check_syscalls_sound.
  - by apply mods_begin_sound.
  - rewrite (mods_get_spec k pd m Hf) by apply Hq. eexists; split; [reflexivity|].
    destruct (negb _); [by apply sound_same|].
    destruct (mod_at _ _); [apply copy_out_sound|]; by apply sound_same.
  - by apply mods_end_sound.
  - unfold ioctl_get_events. destruct (negb _); [by apply sound_same|].
    pose proof (ac_drain_refines _ Hr) as Hd. unfold m_ring in *.
    destruct (ac_drain_events _) as [el r]. apply copy_out_sound.
    split_and!; [apply set_ring_inv; tauto|done|]. apply accounted_snapshot; [done..|].
    intros t p. split_and!; [balance_simpl..|]. intros []; balance_simpl.
  - apply sound_ring; [done..|]. by apply ac_flush_refines.
  - apply copy_out_sound. by apply sound_same.
  - by apply lock_sound.
  - by apply unlock_sound.
  - by apply sound_same.
Qed.

(** ** Sessions on one file *)

(** Requests in order, each with the kernel it is made in. *)
Fixpoint ioctls (reqs : list (kernel * ioctl_req)) (pd : option ac_fd_state) (m : mstate)
    : option (list reply * option ac_fd_state * mstate) :=
  match reqs with
  | [] => Some ([], pd, m)
  | (k, req) :: reqs =>
      rp ← ac_ioctl k req pd m;
      '(rps, pd', m') ← ioctls reqs (rp_pd rp) (rp_mod rp);
      Some (rp :: rps, pd', m')
  end.

(** Requests that replace or drop the mapping snapshot. *)
Definition touches_scan (req : ioctl_req) : bool :=
  match req with ReqScanBegin _ | ReqScanEnd => true | _ => false end.

Lemma copy_out_pd k out pd m cs : rp_pd (copy_out k out pd m cs) = pd.
Proof. unfold copy_out. by destruct (user_writable k). Qed.

Lemma ac_ioctl_keeps_scan k req pd m rp i :
  touches_scan req = false -> ac_ioctl k req pd m = Some rp -> vma_at (rp_pd rp) i = vma_at pd i.
Proof.
  intros Hq E. assert (rp_pd rp = pd \/ req = ReqModsBegin \/ req = ReqModsEnd) as Hc.
  { unfold ac_ioctl in E. destruct (negb (capable_admin k)); [simplify_eq; auto|].
    destruct req; try discriminate Hq; auto; left; simplify_eq.
    - apply copy_out_pd.
    - unfold ioctl_add_proc. destruct (negb _); [done|]. by destruct (ac_add_prot_pid _ _ _ _ _) as [[[??]?]?].
    - unfold ioctl_del_proc. destruct (negb _); [done|]. destruct (ac_find_task _ _) as [[|]?]; [|done].
      by destruct (ac_del_prot_task _ _).
    - unfold ioctl_scan_get in E. destruct (negb _); [by simplify_eq|]. destruct pd as [st|]; [|by simplify_eq].
      destruct (_ <=? _); [by simplify_eq|]. destruct (fs_vmas st) as [vs|]; [|done]. simpl in E.
      destruct (vs !! _); simplify_eq/=. apply copy_out_pd.
    - unfold ioctl_check_syscalls. destruct (ac_check_syscalls _ _ _) as [[??]?].
      destruct (negb _); [done|apply copy_out_pd].
    - unfold ioctl_mods_get in E. destruct (negb _); [by simplify_eq|]. destruct pd as [st|]; [|by simplify_eq].
      destruct (_ <=? _); [by simplify_eq|]. destruct (fs_mods st) as [vs|]; [|done]. simpl in E.
      destruct (vs !! _); simplify_eq/=. apply copy_out_pd.
    - unfold ioctl_get_events. destruct (negb _); [done|]. destruct (ac_drain_events _). apply copy_out_pd.
    - done.
    - apply copy_out_pd.
    - unfold ioctl_lock. by destruct (try_module_get k).
    - unfold ioctl_unlock. by destruct (0 <? _).
    - done. }
  destruct Hc as [->|[-> | ->]]; [done|..]; unfold ac_ioctl in E;
    (destruct (negb (capable_admin k)); [by simplify_eq|]); simplify_eq.
  - unfold ioctl_mods_begin, ac_get_fd_state, ac_build_mod_snapshot.
    destruct pd as [st|]; [|destruct (alloc_state k)]; try done;
      destruct (alloc_bulk k); simpl; rewrite ?copy_out_pd; done.
  - unfold ioctl_mods_end. by destruct pd.
Qed.

Lemma ioctls_keep_scan reqs : forall pd m i,
  mod_inv m -> fd_ok pd ->
  Forall (fun q => touches_scan q.2 = false /\ req_ok q.2) reqs ->
  exists rps pd' m', ioctls reqs pd m = Some (rps, pd', m') /\ mod_inv m' /\ fd_ok pd' /\
    vma_at pd' i = vma_at pd i.
Proof.
  induction reqs as [|[k req] reqs IH]; intros pd m i Hm Hf Hq; cbn [ioctls]; [eauto 10|].
  apply Forall_cons in Hq as [[Hq1 Hq2] Hq].
  destruct (ac_ioctl_sound k req pd m Hm Hf Hq2) as (rp & E & H1 & H2 & _).
  destruct (IH (rp_pd rp) (rp_mod rp) i H1 H2 Hq) as (rps & pd' & m' & E' & H3 & H4 & H5).
  exists (rp :: rps), pd', m'. rewrite E. cbn [mbind option_bind]. rewrite E'. cbn.
  split_and!; try done. rewrite H5. by eapply ac_ioctl_keeps_scan.
Qed.

(** The mappings of the process a pid names. *)
Definition mappings_of (k : kernel) (pid : Z) : option (list kvma) :=
  t ← (ac_find_task k pid).1; task_vmas k t.

Lemma scan_begin_succeeds k b pd m rp :
  ac_ioctl k (ReqScanBegin b) pd m = Some rp -> rp_ret rp = 0 ->
  exists vs st, mappings_of k (sb_pid b) = Some vs /\ rp_pd rp = Some st /\
    fs_vmas st = Some (snapshot_of k vs) /\
    fs_rwx_count st = count is_rwx (snapshot_of k vs) /\
    fs_anon_exec_count st = count is_anon_exec (snapshot_of k vs) /\
    rp_out rp = Some (OutScanBegin (ScanBegin (sb_pid b) (sb_emit_events b)
      (Z.of_nat (length (snapshot_of k vs))) (fs_rwx_count st) (fs_exec_count st)
      (fs_anon_exec_count st) (fs_truncated st))).
Proof.
  unfold ac_ioctl. destruct (negb (capable_admin k)); [by intros [= <-]|]. intros [= <-].
  unfold ioctl_scan_begin, ac_build_vma_snapshot, mappings_of.
  destruct (negb (user_readable k)); [done|].
  destruct (ac_get_fd_state k pd) as [[st|] cs]; [|done].
  destruct (ac_find_task k (sb_pid b)) as [[t|] cs']; [|done]. cbn [fst mbind option_bind].
  destruct (task_vmas k t) as [vs|]; [|done]. destruct (alloc_bulk k); [|done].
  pose proof (vma_loop_start k (sb_pid b) (negb (sb_emit_events b =? 0)) vs (m_ring m)) as H.
  destruct (vma_loop _ _ _ _ _) as [s tr]. destruct H as ([H1 _ H2] & H & _). simpl.
  unfold copy_out. destruct (user_writable k); [|done]. intros _. rewrite H in *.
  eexists vs, _. split_and!; done.
Qed.

(** ** Properties *)

(** C3: every ioctl is safe.  Whatever the request (unknown commands
    included), the file, and the answers of the kernel (failed copies,
    failed allocations, missing processes), the handler never reads outside
    the written part of a snapshot array, preserves the invariants of the
    registry, the ring and the file, and every reference it takes or drops and
    every block it allocates or frees (file states, snapshot arrays, path
    buffers, event lists, kill requests) is accounted for by the state it
    leaves: path buffers and event lists are always freed again, a file state
    and its arrays are held exactly as the file records them; without
    [CAP_SYS_ADMIN] the answer is [EPERM] with no effect at all, whoever
    opened the file. *)
Theorem ioctl_safe (k : kernel) (req : ioctl_req) (pd : option ac_fd_state) (m : mstate) :
  mod_inv m -> fd_ok pd -> req_ok req ->
  exists rp, ac_ioctl k req pd m = Some rp /\
    mod_inv (rp_mod rp) /\ fd_ok (rp_pd rp) /\
    accounted pd m (rp_pd rp) (rp_mod rp) (rp_calls rp) /\
    (capable_admin k = false -> rp = Reply (- EPERM) None pd m []).
Proof.
  intros Hm Hf Hq. destruct (ac_ioctl_sound k req pd m Hm Hf Hq) as (rp & E & H1 & H2 & H3).
  exists rp. split_and!; try done. intros Hc. unfold ac_ioctl in E. rewrite Hc in E. naive_solver.
Qed.

(** The state of the module after loading on a kernel without symbols. *)
Definition idle_module : mstate := MState guard_init text_init 0 0 probes_init 1.

Lemma idle_module_inv : mod_inv idle_module.
Proof. split; [exact guard_init_inv|simpl; lia]. Qed.

Lemma no_fd_ok : fd_ok None.
Proof. by intros st. Qed.

Lemma ioctl_safe_witness :
  mod_inv idle_module /\ fd_ok None /\
  exists rp, ac_ioctl mapped_kernel (ReqScanGet (ScanGet 1 0 (VmaInfo 0 0 0 0 0 0 []))) None
    idle_module = Some rp /\ mod_inv (rp_mod rp).
Proof.
  split; [exact idle_module_inv|]. split; [exact no_fd_ok|].
  destruct (ioctl_safe mapped_kernel (ReqScanGet (ScanGet 1 0 (VmaInfo 0 0 0 0 0 0 []))) None
    idle_module idle_module_inv no_fd_ok) as (rp & E & H & _); [simpl; lia|]. eauto.
Defined.

(** A scan session is a faithful and stable read.  After a successful
    [SCAN_BEGIN] for a pid, and after any further requests on the same file
    other than [SCAN_BEGIN] and [SCAN_END] (module snapshots included, from
    any caller), [SCAN_GET i] returns exactly the process's [i]-th mapping as
    it was at the begin for every [i] below the announced count (at most
    4096), and [EINVAL] for every other index; after [SCAN_END], [EINVAL]
    always. *)
Theorem scan_session (k : kernel) (b : ac_scan_begin) (pd : option ac_fd_state) (m : mstate)
    (rp : reply) (reqs : list (kernel * ioctl_req)) (k' : kernel) (pid i : Z)
    (junk : ac_vma_info) :
  mod_inv m -> fd_ok pd ->
  ac_ioctl k (ReqScanBegin b) pd m = Some rp -> rp_ret rp = 0 ->
  Forall (fun q => touches_scan q.2 = false /\ req_ok q.2) reqs ->
  capable_admin k' = true -> user_readable k' = true -> user_writable k' = true ->
  0 <= i < 2 ^ 32 ->
  exists vs b' rps pd' m',
    mappings_of k (sb_pid b) = Some vs /\
    rp_out rp = Some (OutScanBegin b') /\
    sb_n_vmas b' = Z.of_nat (length (take AC_MAX_VMAS vs)) /\
    ioctls reqs (rp_pd rp) (rp_mod rp) = Some (rps, pd', m') /\
    ac_ioctl k' (ReqScanGet (ScanGet pid i junk)) pd' m' = Some
      (match take AC_MAX_VMAS vs !! Z.to_nat i with
       | Some v => Reply 0 (Some (OutScanGet (ScanGet pid i (vma_info k (Z.to_nat i) v)))) pd' m' []
       | None => Reply (- EINVAL) None pd' m' []
       end) /\
    exists pd'' cs,
      ac_ioctl k' ReqScanEnd pd' m' = Some (Reply 0 None pd'' m' cs) /\
      ac_ioctl k' (ReqScanGet (ScanGet pid i junk)) pd'' m' =
        Some (Reply (- EINVAL) None pd'' m' []).
Proof.
  intros Hm Hf E Hret Hq Hc Hr Hw Hi.
  destruct (scan_begin_succeeds k b pd m rp E Hret) as (vs & st & Hvs & Est & Ev & _ & _ & Eo).
  destruct (ac_ioctl_sound k (ReqScanBegin b) pd m Hm Hf I) as (rp' & E' & H1 & H2 & _).
  rewrite E in E'. injection E' as <-.
  destruct (ioctls_keep_scan reqs (rp_pd rp) (rp_mod rp) i H1 H2 Hq)
    as (rps & pd' & m' & Er & H3 & H4 & H5).
  eexists vs, _, rps, pd', m'. split_and!; [done|exact Eo| |exact Er| |].
  - simpl. unfold snapshot_of. by rewrite length_imap.
  - unfold ac_ioctl. rewrite Hc. simpl.
    rewrite (scan_get_spec k' pd' m' H4) by (simpl; lia). rewrite Hr. simpl. rewrite H5.
    unfold vma_at. rewrite Est. simpl. rewrite Ev. simpl. unfold snapshot_of.
    rewrite list_lookup_imap. destruct (take AC_MAX_VMAS vs !! Z.to_nat i); [|done].
    simpl. unfold copy_out. by rewrite Hw.
  - unfold ac_ioctl. rewrite Hc. simpl. unfold ioctl_scan_end, ioctl_scan_get. rewrite Hr. simpl.
    destruct pd' as [st'|]; do 2 eexists; (split; [reflexivity|]); simpl; [|done].
    by rewrite (proj2 (Z.leb_le 0 i)) by lia.
Qed.

(** The first mapping of the example process, read after a module snapshot. *)
Definition first_mapping : ac_vma_info :=
  VmaInfo 4096 8192 0 12 5 1 (bs "/usr/bin/game").

Lemma scan_session_witness :
  exists rp pd' m',
    ac_ioctl mapped_kernel (ReqScanBegin (ScanBegin 100 0 0 0 0 0 0)) None idle_module = Some rp /\
    ac_ioctl mapped_kernel (ReqScanGet (ScanGet 100 0 first_mapping)) pd' m'
    = Some (Reply 0 (Some (OutScanGet (ScanGet 100 0 first_mapping))) pd' m' []).
Proof.
  destruct (ac_ioctl mapped_kernel (ReqScanBegin (ScanBegin 100 0 0 0 0 0 0)) None idle_module)
    as [rp|] eqn:E; [|exfalso; vm_compute in E; discriminate].
  destruct (scan_session mapped_kernel (ScanBegin 100 0 0 0 0 0 0) None idle_module rp
    [(mapped_kernel, ReqModsBegin)] mapped_kernel 100 0 first_mapping
    idle_module_inv no_fd_ok E) as (vs & b' & rps & pd' & m' & Ev & _ & _ & _ & H & _).
  - vm_compute in E. injection E as <-. reflexivity.
  - constructor; [split; [reflexivity|exact I]|constructor].
  - reflexivity.
  - reflexivity.
  - reflexivity.
  - lia.
  - exists rp, pd', m'. split; [reflexivity|]. rewrite H. vm_compute in Ev. injection Ev as <-.
    reflexivity.
Defined.

(** [GET_EVENTS] removes the events it copies from the ring before it knows
    whether user space received them: with a faulting buffer the oldest 64
    events are gone, the call reports [EFAULT], nothing was delivered, and the
    drop counter does not account for them. *)
Theorem get_events_fault_loses (k : kernel) (pd : option ac_fd_state) (m : mstate) :
  mod_inv m -> capable_admin k = true -> alloc_bulk k = true -> user_writable k = false ->
  exists rp, ac_ioctl k ReqGetEvents pd m = Some rp /\
    rp_ret rp = - EFAULT /\ rp_out rp = None /\
    contents (m_ring (rp_mod rp)) = drop AC_MAX_EVENTS (contents (m_ring m)) /\
    rg_dropped (m_ring (rp_mod rp)) = rg_dropped (m_ring m).
Proof.
  intros [[_ Hq] _] Hc Ha Hw. unfold ac_ioctl. rewrite Hc. simpl. unfold ioctl_get_events.
  rewrite Ha. simpl. pose proof (ac_drain_refines _ Hq) as H. unfold m_ring.
  destruct (ac_drain_events _) as [el r]. unfold copy_out. rewrite Hw.
  destruct H as (_ & _ & H1 & _ & _ & H2). eexists. split_and!; [reflexivity|done..].
Qed.

(** A kernel whose user buffers fault on write. *)
Definition faulting_kernel : kernel := {|
  current := 1%positive; task_pid _ := 1; task_comm _ := bs "init";
  find_get_pid _ := None; get_pid_task _ := None; get_task_pid t := t;
  task_active_pid_ns _ := None; find_pid_ns _ _ := None; ktime _ := 0;
  capable_admin := true; user_readable := true; user_writable := false;
  alloc_state := true; alloc_bulk := true; alloc_path _ := true;
  try_module_get := true; task_vmas _ := None; modules := [];
  within_module_core _ _ := false; kread64 _ := None; kread32 _ := None;
  kprobe_addr _ := None; kprobe_register _ := 0; kretprobe_register := 0;
  create_workqueue := true; misc_register := 0;
  NR_syscalls := 462; NR_read := 0; NR_write := 1
|}.

Definition alarmed_module : mstate :=
  set_ring (ac_emit (Event 1 2 (bs "game") 4 (bs "ptrace")) ring_init) idle_module.

Lemma get_events_fault_loses_witness :
  mod_inv alarmed_module /\ contents (m_ring alarmed_module) <> [] /\
  exists rp, ac_ioctl faulting_kernel ReqGetEvents None alarmed_module = Some rp /\
    rp_out rp = None /\ contents (m_ring (rp_mod rp)) = [].
Proof.
  assert (Hi : mod_inv alarmed_module).
  { apply set_ring_inv; [exact idle_module_inv|]. apply ac_emit_refines, ring_init_inv. }
  split; [exact Hi|]. split; [vm_compute; discriminate|].
  destruct (get_events_fault_loses faulting_kernel None alarmed_module Hi eq_refl eq_refl eq_refl)
    as (rp & E & _ & H1 & H2 & _).
  exists rp. split; [exact E|]. split; [exact H1|]. rewrite H2. vm_compute. reflexivity.
Defined.
