(* ===== verification/Module.v ===== *)
(** * The module as a system (src/anticheat_module.c, "module lifecycle")

    Loading and unloading, and the transition system of a loaded module: files
    are opened, used and closed, probes are hit and queued work runs, in any
    order.  Over every history the references and the memory the module holds
    are exactly what its state accounts for. *)

From Stdlib Require Import ZArith Lia.
From stdpp Require Import base numbers list gmap strings.
From S2P Require Import Prelude Abi Ring Kernel Registry SyscallTable Probes Snapshot Ioctl.

(** ** Loading and unloading *)

(** Static storage before loading; [ac_policy] is the module parameter. *)
Definition module_static (policy : Z) : mstate :=
  MState guard_init text_init 0 0 probes_init policy.

Definition ac_init (k : kernel) (m : mstate) : Z * mstate * list kcall :=
  if negb (create_workqueue k) then (- ENOMEM, m, [])
  else
    let x := ac_resolve_text_bounds k (m_text m) in
    let '(table, x) := ac_find_syscall_table k x in
    let x := Text (ac_stext x) (ac_etext x) (ac_text_end x) (ac_anchor x) table in
    let '(p, cs) := ac_register_kprobes k (m_probes m) in
    let ret := misc_register k in
    if negb (ret =? 0) then
      let '(p, cs') := ac_unregister_kprobes p in
      (ret, MState (m_guard m) x (ac_last_hook_count m) (ac_lock_count m) p (ac_policy m),
       KWqCreate :: cs ++ cs' ++ [KWqDestroy])
    else
      (0, MState (m_guard m) x (ac_last_hook_count m) (ac_lock_count m) p (ac_policy m),
       KWqCreate :: cs ++ [KMiscRegister]).

(** [ac_exit]; [destroy_workqueue] first runs the items still queued. *)
Definition ac_exit (k : kernel) (m : mstate) : mstate * list kcall :=
  let '(p, cs) := ac_unregister_kprobes (m_probes m) in
  let '(r, cs') := ac_clear_protected (m_reg m) in
  (MState (Guard r (m_ring m) []) (m_text m) (ac_last_hook_count m) (ac_lock_count m) p
     (ac_policy m),
   KMiscDeregister :: cs ++ cs' ++ (g_wq (m_guard m) ≫= ac_kill_worker k) ++ [KWqDestroy]).

(** ** The loaded module *)

(** The module with the [private_data] of every open file. *)
Record system := Sys {
  s_mod : mstate;
  s_files : gmap positive (option ac_fd_state)
}.

Inductive sys_step : system -> list kcall -> system -> Prop :=
  | step_open k f s :
      s_files s !! f = None -> (ac_open k).1 = 0 ->
      sys_step s [] (Sys (s_mod s) (<[f := (ac_open k).2]> (s_files s)))
  | step_ioctl k f req pd rp s :
      s_files s !! f = Some pd -> req_ok req -> ac_ioctl k req pd (s_mod s) = Some rp ->
      sys_step s (rp_calls rp) (Sys (rp_mod rp) (<[f := rp_pd rp]> (s_files s)))
  | step_release f pd s :
      s_files s !! f = Some pd ->
      sys_step s (ac_release pd).2 (Sys (s_mod s) (delete f (s_files s)))
  | step_hit h s :
      sys_step s (hit_step h (m_guard (s_mod s))).2
        (Sys (set_guard (hit_step h (m_guard (s_mod s))).1 (s_mod s)) (s_files s)).

(** Histories, with all kernel calls made so far. *)
Inductive reaches (s0 : system) : list kcall -> system -> Prop :=
  | reaches_start : reaches s0 [] s0
  | reaches_step cs s cs' s' :
      reaches s0 cs s -> sys_step s cs' s' -> reaches s0 (cs ++ cs') s'.

(** ** What the module holds *)

Definition total (f : option ac_fd_state -> Z) (files : gmap positive (option ac_fd_state)) : Z :=
  map_fold (fun _ pd n => f pd + n) 0 files.

Record sys_inv (s : system) : Prop := {
  sy_mod : mod_inv (s_mod s);
  sy_files : map_Forall (fun _ pd => fd_ok pd) (s_files s)
}.

(** The blocks of each kind that the module keeps. *)
Definition sys_held (x : mem) (s : system) : Z :=
  match x with
  | MemReq => Z.of_nat (length (g_wq (m_guard (s_mod s))))
  | _ => total (owned x) (s_files s)
  end.

(** [cs] made from nothing what [s] holds. *)
Definition holding (s : system) (cs : list kcall) : Prop :=
  forall t p,
    task_refs t cs = slot_refs (m_reg (s_mod s)) t /\
    pid_refs p cs = pending (m_guard (s_mod s)) p /\
    mm_refs t cs = 0 /\
    ac_lock_count (s_mod s) = s32 (module_refs cs) /\
    forall x, allocs x cs = sys_held x s.

Lemma total_empty f : total f ∅ = 0.
Proof. done. Qed.

Lemma total_insert f i pd files :
  files !! i = None -> total f (<[i := pd]> files) = f pd + total f files.
Proof.
  intros H. unfold total. apply (map_fold_insert_L (fun _ pd n => f pd + n)); [|done].
  intros. lia.
Qed.

Lemma total_delete f i pd files :
  files !! i = Some pd -> total f files = f pd + total f (delete i files).
Proof.
  intros H. rewrite <- (insert_delete_id files i pd) at 1 by done.
  apply total_insert, lookup_delete_eq.
Qed.

Lemma total_update f i pd pd' files :
  files !! i = Some pd -> total f (<[i := pd']> files) = total f files + f pd' - f pd.
Proof.
  intros H. rewrite (total_delete f i pd files H).
  rewrite <- (insert_delete_eq files i pd').
  rewrite total_insert by apply lookup_delete_eq. lia.
Qed.

(** A step whose calls are accounted for in one file extends a history. *)
Lemma holding_step s cs m' files' cs' pd pd' :
  holding s cs -> accounted pd (s_mod s) pd' m' cs' ->
  (forall x, total (owned x) files' = total (owned x) (s_files s) + owned x pd' - owned x pd) ->
  holding (Sys m' files') (cs ++ cs').
Proof.
  intros H Ha Ht t p. destruct (H t p) as (H1 & H2 & H3 & H4 & H5).
  destruct (Ha t p) as (A1 & A2 & A3 & A4 & A5 & _). simpl.
  rewrite task_refs_app, pid_refs_app, mm_refs_app, module_refs_app. rewrite A4, H4, s32_add.
  split_and!; [lia || done..|]. intros x. rewrite allocs_app, H5, A5. specialize (Ht x).
  destruct x; cbn [sys_held held s_mod s_files] in *; lia.
Qed.

Lemma release_accounted pd m :
  mod_inv m -> accounted pd m None m (ac_release pd).2.
Proof.
  intros Hm. apply accounted_snapshot; [done..|]. apply ac_free_fd_state_balanced.
Qed.

Lemma sys_step_sound s cs s' cs0 :
  sys_step s cs s' -> sys_inv s -> holding s cs0 ->
  sys_inv s' /\ holding s' (cs0 ++ cs) /\ m_probes (s_mod s') = m_probes (s_mod s).
Proof.
  intros Hs [Hm Hf] Hh.
  destruct Hs as [k f s Hn Ho|k f req pd rp s Hl Hq E|f pd s Hl|h s]; simpl.
  - assert (Epd : (ac_open k).2 = None) by (unfold ac_open; by destruct (negb _)).
    rewrite Epd. split_and!; [|rewrite app_nil_r|done].
    + split; [done|]. apply map_Forall_insert_2; [apply no_fd_ok|done].
    + intros t p. simpl. destruct (Hh t p) as (? & ? & ? & ? & Hx). split_and!; [done..|].
      intros x. rewrite Hx. destruct x; cbn [sys_held s_mod s_files]; rewrite ?total_insert by done; done.
  - destruct (ac_ioctl_sound k req pd _ Hm (Hf _ _ Hl) Hq) as (rp' & E' & H1 & H2 & H3).
    rewrite E in E'. injection E' as <-. split_and!.
    + split; [done|]. by apply map_Forall_insert_2.
    + eapply holding_step; [done|exact H3|]. intros x. by apply total_update.
    + by destruct (H3 1%positive 1%positive) as (_ & _ & _ & _ & _ & ?).
  - split_and!; [|eapply (holding_step s)|done].
    + split; [done|]. by apply map_Forall_delete.
    + done.
    + by apply release_accounted.
    + intros x. rewrite (total_delete _ _ _ _ Hl). destruct x; simpl; lia.
  - destruct Hm as [Hg Hl]. pose proof (hit_step_sound h _ Hg) as H.
    pose proof (hit_step_calls h (m_guard (s_mod s))) as Hc.
    destruct (hit_step h _) as [g cs]. destruct H as [H1 H2]. simpl in *.
    split_and!; [by split|eapply (holding_step s _ _ _ _ None None); [done| |intros x; simpl; lia]|done].
    by apply accounted_guard.
Qed.

Lemma reaches_sound s0 cs s :
  reaches s0 cs s -> sys_inv s0 -> holding s0 [] ->
  sys_inv s /\ holding s cs /\ m_probes (s_mod s) = m_probes (s_mod s0).
Proof.
  induction 1 as [|cs s cs' s' _ IH Hs]; intros Hi Hh; [done|].
  destruct (IH Hi Hh) as (H1 & H2 & <-). by eapply sys_step_sound.
Qed.

(** ** Loading *)

Definition no_holding (s : system) : Prop :=
  protected (m_reg (s_mod s)) = ∅ /\ g_wq (m_guard (s_mod s)) = [] /\
  ac_lock_count (s_mod s) = 0 /\ s_files s = ∅.

Lemma no_holding_nil s : no_holding s -> holding s [].
Proof.
  intros (H1 & H2 & H3 & H4) t p. unfold slot_refs, pending. rewrite H1, H2, H3.
  rewrite lookup_empty, decide_False by apply is_Some_None. split_and!; [done..|].
  intros x. destruct x; cbn [sys_held]; rewrite ?H2, ?H4; done.
Qed.

Lemma ac_init_loaded k policy m cs :
  ac_init k (module_static policy) = (0, m, cs) ->
  let s := Sys m ∅ in
  sys_inv s /\ no_holding s /\ m_probes m = (ac_register_kprobes k probes_init).1 /\
  cs = KWqCreate :: (ac_register_kprobes k probes_init).2 ++ [KMiscRegister].
Proof.
  unfold ac_init. destruct (negb (create_workqueue k)); [done|].
  destruct (ac_find_syscall_table k _) as [table x].
  cbn [m_probes module_static m_guard ac_last_hook_count ac_lock_count Ioctl.ac_policy].
  destruct (ac_register_kprobes k probes_init) as [p cs'].
  destruct (Z.eqb_spec (misc_register k) 0) as [E|E]; simpl.
  - intros [= <- <-]. split_and!; [|split_and!|done..]; try done.
    split; [|apply map_Forall_empty]. split; [exact guard_init_inv|simpl; lia].
  - destruct (ac_unregister_kprobes p). intros [= ? _ _]. done.
Qed.

(** ** Unloading *)

Definition is_probe_call (c : kcall) : bool :=
  match c with
  | KRegister _ | KUnregister _ | KRegisterRet | KUnregisterRet | KWqCreate | KWqDestroy
  | KMiscRegister | KMiscDeregister => true
  | _ => false
  end.

Lemma ac_unregister_calls p :
  Forall (fun c => is_probe_call c = true) (ac_unregister_kprobes p).2.
Proof.
  unfold ac_unregister_kprobes. cbn [snd]. apply Forall_app_2.
  - induction (seq 0 n_kprobes) as [|i l IH]; [constructor|]. cbn.
    destruct (default false _); [by constructor|done].
  - destruct (ac_kp_clone_ok p); repeat constructor.
Qed.

Lemma kill_workers_hit_calls k ps : hit_calls (ps ≫= ac_kill_worker k).
Proof.
  induction ps as [|p ps IH]; [constructor|]. cbn. apply hit_calls_app; [|exact IH].
  unfold ac_kill_worker. destruct (get_pid_task k p); auto with calls.
Qed.

Lemma kill_workers_refs k t p ps :
  task_refs t (ps ≫= ac_kill_worker k) = 0 /\
  pid_refs p (ps ≫= ac_kill_worker k) = - Z.of_nat (length (filter (fun x => x = p) ps)) /\
  allocs MemReq (ps ≫= ac_kill_worker k) = - Z.of_nat (length ps).
Proof.
  induction ps as [|q ps (IH1 & IH2 & IH3)]; [done|]. cbn [mbind list_bind].
  rewrite task_refs_app, pid_refs_app, allocs_app, IH1, IH2, IH3, filter_cons.
  unfold ac_kill_worker. destruct (get_pid_task k q); split_and!; refs_simpl; simpl; lia.
Qed.

Lemma probe_calls_pure cs t p :
  Forall (fun c => is_probe_call c = true) cs ->
  task_refs t cs = 0 /\ pid_refs p cs = 0 /\ mm_refs t cs = 0 /\ module_refs cs = 0 /\
  forall x, allocs x cs = 0.
Proof.
  intros H. unfold task_refs, pid_refs, mm_refs, module_refs, allocs.
  split_and!; [..|intros x]; repeat rewrite (fun c => ncalls_kind _ c _ H) by reflexivity; done.
Qed.

Lemma ac_exit_releases k m t p :
  mod_inv m ->
  let '(m', cs) := ac_exit k m in
  protected (m_reg m') = ∅ /\ g_wq (m_guard m') = [] /\ m_probes m' = probes_init /\
  task_refs t cs = - slot_refs (m_reg m) t /\ pid_refs p cs = - pending (m_guard m) p /\
  mm_refs t cs = 0 /\ module_refs cs = 0 /\
  forall x, allocs x cs = - (if decide (x = MemReq) then Z.of_nat (length (g_wq (m_guard m))) else 0).
Proof.
  intros [[Hr _] _]. unfold ac_exit.
  pose proof (ac_unregister_calls (m_probes m)) as Hu.
  assert (Ep : (ac_unregister_kprobes (m_probes m)).1 = probes_init) by done.
  destruct (ac_unregister_kprobes (m_probes m)) as [pr cs]. cbn [fst snd] in *.
  pose proof (ac_clear_refs (m_reg m) t p Hr) as Hc.
  pose proof (ac_clear_ref_calls (m_reg m)) as Hcc.
  destruct (ac_clear_protected (m_reg m)) as [r cs']. destruct Hc as (_ & H1 & H2 & H3 & _).
  cbn [snd] in Hcc. destruct (kill_workers_refs k t p (g_wq (m_guard m))) as (K1 & K2 & K3).
  destruct (ref_calls_pure _ t Hcc) as (P1 & P2 & P3).
  destruct (hit_calls_pure _ t (kill_workers_hit_calls k (g_wq (m_guard m)))) as (Q1 & Q2 & Q3).
  destruct (probe_calls_pure cs t p Hu) as (U1 & U2 & U3 & U4 & U5).
  set (ks := g_wq (m_guard m) ≫= ac_kill_worker k) in *.
  assert (W : Forall (fun c => is_probe_call c = true) [KMiscDeregister] /\
              Forall (fun c => is_probe_call c = true) [KWqDestroy]) by (split; repeat constructor).
  destruct W as [W1 W2]. destruct (probe_calls_pure _ t p W1) as (A1 & A2 & A3 & A4 & A5).
  destruct (probe_calls_pure _ t p W2) as (B1 & B2 & B3 & B4 & B5).
  change (KMiscDeregister :: cs ++ cs' ++ ks ++ [KWqDestroy])
    with ([KMiscDeregister] ++ cs ++ cs' ++ ks ++ [KWqDestroy]).
  rewrite !task_refs_app, !pid_refs_app, !mm_refs_app, !module_refs_app.
  unfold m_reg, pending in *. cbn [m_guard g_reg g_wq]. split_and!; [done|done|done|lia..|].
  intros x. rewrite !allocs_app, A5, B5, U5, P3.
  case_decide as Hx; [subst x; lia|rewrite (Q3 x Hx); lia].
Qed.

Lemma ac_exit_calls k m :
  exists rest, hit_calls rest /\
    (ac_exit k m).2
    = KMiscDeregister :: (ac_unregister_kprobes (m_probes m)).2 ++ rest ++ [KWqDestroy].
Proof.
  unfold ac_exit. destruct (ac_unregister_kprobes (m_probes m)) as [p cs].
  pose proof (ac_clear_ref_calls (m_reg m)) as Hcc. destruct (ac_clear_protected (m_reg m)) as [r cs'].
  exists (cs' ++ (g_wq (m_guard m) ≫= ac_kill_worker k)). cbn [snd] in *. rewrite <- !app_assoc.
  split; [|done]. apply hit_calls_app; [by apply ref_hit_calls|apply kill_workers_hit_calls].
Qed.

(** The probe calls of a load on [k], and those that undo them. *)
Definition probes_on (k : kernel) : list kcall :=
  (KRegister <$> registered k) ++ (if kretprobe_register k =? 0 then [KRegisterRet] else []).
Definition probes_off (k : kernel) : list kcall :=
  (KUnregister <$> registered k) ++ (if kretprobe_register k =? 0 then [KUnregisterRet] else []).

Lemma probes_on_calls k : Forall (fun c => is_probe_call c = true) (probes_on k).
Proof.
  unfold probes_on. apply Forall_app_2; [by apply Forall_fmap, Forall_true|].
  destruct (kretprobe_register k =? 0); repeat constructor.
Qed.

Lemma init_calls k cs0 :
  cs0 = KWqCreate :: (ac_register_kprobes k probes_init).2 ++ [KMiscRegister] ->
  Forall (fun c => is_probe_call c = true) cs0.
Proof.
  intros ->. pose proof (registration_spec k) as H. pose proof (probes_on_calls k) as Hp.
  destruct (ac_register_kprobes k probes_init) as [p cs]. cbn [snd].
  destruct (ac_unregister_kprobes p). destruct H as (-> & _).
  constructor; [done|]. apply Forall_app_2; [exact Hp|repeat constructor].
Qed.

(** ** Properties *)

(** C14: over any history of a loaded module (opens, ioctls of any caller,
    closes, probe hits, work items, in any order), the invariants of registry,
    ring and files hold, and the references and memory held are exactly those
    the state records: one task reference per protected task, one pid reference
    and one kill request per queued kill, no address space, one [ac_fd_state]
    per file that scanned and one array per snapshot present, no event list and
    no path buffer; the lock count is the module's own reference count as an
    [int]. *)
Theorem module_holds_what_it_records (k : kernel) (policy : Z) (m : mstate)
    (cs0 cs : list kcall) (s : system) :
  ac_init k (module_static policy) = (0, m, cs0) -> reaches (Sys m ∅) cs s ->
  sys_inv s /\ holding s cs.
Proof.
  intros Hi Hr. destruct (ac_init_loaded k policy m cs0 Hi) as (H1 & H2 & _).
  destruct (reaches_sound _ _ _ Hr H1 (no_holding_nil _ H2)) as (? & ? & _). done.
Qed.

(** C13: unloading releases everything.  When the kernel unloads the module
    after any history that ended with all files closed, every task, pid and
    address-space reference ever taken has been dropped, every block the module
    allocated over the load, the history and the unload (file states, snapshot
    arrays, path buffers, event lists and kill requests, those of kills still
    queued at the unload included) has been freed, the registry is empty, no
    kill is pending, the probes unregistered are exactly those the load
    registered, and the device and the workqueue the load created are removed:
    the device first, before any probe is unregistered, the workqueue last,
    after its items have run. *)
Theorem unload_releases_everything (k k' : kernel) (policy : Z) (m : mstate)
    (cs0 cs : list kcall) (s : system) (t : task) (p : pidp) :
  ac_init k (module_static policy) = (0, m, cs0) -> reaches (Sys m ∅) cs s -> s_files s = ∅ ->
  let '(m', cs') := ac_exit k' (s_mod s) in
  let all := cs0 ++ (cs ++ cs') in
  task_refs t all = 0 /\ pid_refs p all = 0 /\ mm_refs t all = 0 /\
  (forall x, allocs x all = 0) /\
  protected (m_reg m') = ∅ /\ g_wq (m_guard m') = [] /\ m_probes m' = probes_init /\
  cs0 = KWqCreate :: probes_on k ++ [KMiscRegister] /\
  exists rest, hit_calls rest /\
    cs' = KMiscDeregister :: probes_off k ++ rest ++ [KWqDestroy].
Proof.
  intros Hi Hr Hf. destruct (ac_init_loaded k policy m cs0 Hi) as (H1 & H2 & Hp & Hc).
  destruct (reaches_sound _ _ _ Hr H1 (no_holding_nil _ H2)) as ([Hm _] & Hh & Ep).
  cbn [s_mod] in Ep. pose proof (registration_spec k) as Hs.
  pose proof (ac_exit_releases k' (s_mod s) t p Hm) as He.
  destruct (Hh t p) as (A1 & A2 & A3 & _ & A5).
  destruct (probe_calls_pure cs0 t p (init_calls k cs0 Hc)) as (B1 & B2 & B3 & _ & B5).
  pose proof (ac_exit_calls k' (s_mod s)) as Hx. rewrite Ep, Hp in Hx.
  destruct (ac_register_kprobes k probes_init) as [pr csr]. cbn [fst snd] in *.
  destruct (ac_unregister_kprobes pr) as [pr' csu]. destruct Hs as (S1 & S2 & _ & _).
  destruct (ac_exit k' (s_mod s)) as [m' cs']. cbn [snd] in Hx.
  destruct He as (E1 & E2 & E3 & E4 & E5 & E6 & _ & E7).
  rewrite !task_refs_app, !pid_refs_app, !mm_refs_app. unfold probes_on, probes_off.
  rewrite <- S1, <- S2. split_and!; [lia..| |done|done|done|done|exact Hx].
  intros x. rewrite !allocs_app, B5, A5, E7. unfold sys_held. rewrite Hf, total_empty.
  case_decide; destruct x; (done || lia).
Qed.

(** ** Concrete histories *)

(** The example kernel's load, and a session that protects pid 100. *)
Definition demo_loaded : mstate := (ac_init game_kernel (module_static 1)).1.2.

Definition demo_request : ioctl_req := ReqAddProc (ProcId 100 0 0 []).

Definition demo_reply : reply :=
  default (Reply 0 None None demo_loaded []) (ac_ioctl game_kernel demo_request None demo_loaded).

Definition demo_opened : system := Sys demo_loaded {[1%positive := None]}.
Definition demo_protecting : system :=
  Sys (rp_mod demo_reply) (<[1%positive := rp_pd demo_reply]> (s_files demo_opened)).
Definition demo_closed : system :=
  Sys (s_mod demo_protecting) (delete 1%positive (s_files demo_protecting)).

Lemma demo_loads :
  ac_init game_kernel (module_static 1)
  = (0, demo_loaded, (ac_init game_kernel (module_static 1)).2).
Proof. vm_compute. reflexivity. Qed.

Lemma demo_history : reaches (Sys demo_loaded ∅) ([] ++ [] ++ rp_calls demo_reply) demo_protecting.
Proof.
  rewrite app_assoc. eapply reaches_step; [eapply reaches_step; [apply reaches_start|]|].
  - apply (step_open game_kernel 1%positive (Sys demo_loaded ∅)); reflexivity.
  - apply (step_ioctl game_kernel 1%positive demo_request None); [reflexivity|exact I|].
    vm_compute. reflexivity.
Qed.

Lemma module_holds_what_it_records_witness :
  reaches (Sys demo_loaded ∅) ([] ++ [] ++ rp_calls demo_reply) demo_protecting /\
  task_refs 7%positive ([] ++ [] ++ rp_calls demo_reply) = 1.
Proof.
  split; [exact demo_history|].
  destruct (module_holds_what_it_records game_kernel 1 demo_loaded _ _ _ demo_loads demo_history)
    as [_ H].
  destruct (H 7%positive 7%positive) as (-> & _). vm_compute. reflexivity.
Defined.

Lemma unload_releases_everything_witness :
  s_files demo_closed = ∅ /\
  exists cs, reaches (Sys demo_loaded ∅) cs demo_closed /\
    task_refs 7%positive ((ac_init game_kernel (module_static 1)).2 ++
                          (cs ++ (ac_exit game_kernel (s_mod demo_closed)).2)) = 0.
Proof.
  split; [vm_compute; reflexivity|].
  assert (Hr : reaches (Sys demo_loaded ∅) (([] ++ [] ++ rp_calls demo_reply) ++ (ac_release None).2)
                 demo_closed).
  { eapply reaches_step; [exact demo_history|]. apply step_release. vm_compute. reflexivity. }
  exists (([] ++ [] ++ rp_calls demo_reply) ++ (ac_release None).2). split; [exact Hr|].
  pose proof (unload_releases_everything game_kernel game_kernel 1 demo_loaded _ _ _ 7%positive
    7%positive demo_loads Hr eq_refl) as H.
  destruct (ac_exit game_kernel (s_mod demo_closed)) as [m' cs']. cbn [snd].
  destruct H as [H _]. exact H.
Defined.

(** C34: the load does what its causes allow and a failed one leaves nothing
    behind.  Without a workqueue it returns [-ENOMEM], touches no state and
    registers nothing; when the device is refused it returns that error, every
    probe registered before is unregistered again, in the registration's order,
    and the workqueue is destroyed last; otherwise it returns 0 with the probes
    and the device registered.  In every failing case the registry is empty, no
    probe is marked registered and no kill is queued. *)
Theorem load_outcome (k : kernel) (policy : Z) :
  let '(ret, m, cs) := ac_init k (module_static policy) in
  (create_workqueue k = false -> ret = - ENOMEM /\ m = module_static policy /\ cs = []) /\
  (create_workqueue k = true -> misc_register k <> 0 ->
   ret = misc_register k /\ cs = KWqCreate :: probes_on k ++ probes_off k ++ [KWqDestroy]) /\
  (create_workqueue k = true -> misc_register k = 0 ->
   ret = 0 /\ cs = KWqCreate :: probes_on k ++ [KMiscRegister]) /\
  (ret <> 0 ->
   m_probes m = probes_init /\ protected (m_reg m) = ∅ /\ g_wq (m_guard m) = []).
Proof.
  unfold ac_init. destruct (create_workqueue k); [|by auto]. cbn [negb].
  destruct (ac_find_syscall_table k _) as [table x].
  pose proof (registration_spec k) as H.
  cbn [m_probes module_static m_guard ac_last_hook_count ac_lock_count Ioctl.ac_policy].
  destruct (ac_register_kprobes k probes_init) as [p cs].
  destruct (ac_unregister_kprobes p) as [p' cs']. destruct H as (-> & -> & _ & ->).
  destruct (Z.eqb_spec (misc_register k) 0) as [E|E]; cbn [negb]; split_and!; try done.
Qed.

(** A kernel that refuses the device. *)
Definition refusing_kernel : kernel := {|
  current := 1%positive; task_pid _ := 1; task_comm _ := bs "init";
  find_get_pid _ := None; get_pid_task _ := None; get_task_pid t := t;
  task_active_pid_ns _ := None; find_pid_ns _ _ := None; ktime _ := 0;
  capable_admin := true; user_readable := true; user_writable := true;
  alloc_state := true; alloc_bulk := true; alloc_path _ := true;
  try_module_get := true; task_vmas _ := None; modules := [];
  within_module_core _ _ := false; kread64 _ := None; kread32 _ := None;
  kprobe_addr _ := None; kprobe_register _ := 0; kretprobe_register := 0;
  create_workqueue := true; misc_register := -16;
  NR_syscalls := 462; NR_read := 0; NR_write := 1
|}.

Lemma load_outcome_witness :
  (ac_init refusing_kernel (module_static 1)).1.1 = -16 /\
  (ac_init refusing_kernel (module_static 1)).2
  = KWqCreate :: probes_on refusing_kernel ++ probes_off refusing_kernel ++ [KWqDestroy].
Proof.
  pose proof (load_outcome refusing_kernel 1) as H.
  destruct (ac_init refusing_kernel (module_static 1)) as [[ret m] cs]. cbn [fst snd].
  apply H; [reflexivity|discriminate].
Defined.
