(* ===== verification/Concurrency.v ===== *)
(** * Concurrent entry points (src/anticheat_module.c)

    The two places of the module that touch shared state outside one critical
    section, at the granularity of their atomic actions: the double-checked
    publication in [ac_get_fd_state], and [AC_IOCTL_UNLOCK]'s test and
    decrement of [ac_lock_count]. *)

From Stdlib Require Import ZArith Lia.
From stdpp Require Import base numbers list gmap.
From S2P Require Import Prelude Kernel Ioctl.

(** ** [ac_get_fd_state] on one file *)

Module FdPublish.

(** Where a thread is in [ac_get_fd_state]; an object is named by the order of
    its allocation. *)
Inductive publish_pc :=
  | Fast                       (* before smp_load_acquire *)
  | WantLock                   (* private_data was NULL: mutex_lock *)
  | Recheck                    (* lock held, before st = private_data *)
  | Alloc                      (* lock held, still NULL: kzalloc *)
  | Init (o : nat)             (* mutex_init(&st->lock) *)
  | Publish (o : nat)          (* smp_store_release *)
  | Unlock (r : option nat)    (* mutex_unlock, about to return r *)
  | Done (r : option nat).

Definition holds_lock (p : publish_pc) : bool :=
  match p with Recheck | Alloc | Init _ | Publish _ | Unlock _ => true | _ => false end.

(** [file->private_data], whether each allocated object is initialised, the
    holder of [ac_fd_state_alloc_lock], and the threads. *)
Record publish_state := State {
  private_data : option nat;
  heap : list bool;
  lock : option nat;
  threads : list publish_pc
}.

Definition goto (i : nat) (p : publish_pc) (s : publish_state) : publish_state :=
  State (private_data s) (heap s) (lock s) (<[i := p]> (threads s)).

Inductive publish_step : publish_state -> publish_state -> Prop :=
  | fast_hit i o s :
      threads s !! i = Some Fast -> private_data s = Some o ->
      publish_step s (goto i (Done (Some o)) s)
  | fast_miss i s :
      threads s !! i = Some Fast -> private_data s = None ->
      publish_step s (goto i WantLock s)
  | lock_acquire i s :
      threads s !! i = Some WantLock -> lock s = None ->
      publish_step s (State (private_data s) (heap s) (Some i) (<[i := Recheck]> (threads s)))
  | recheck_hit i o s :
      threads s !! i = Some Recheck -> private_data s = Some o ->
      publish_step s (goto i (Unlock (Some o)) s)
  | recheck_miss i s :
      threads s !! i = Some Recheck -> private_data s = None ->
      publish_step s (goto i Alloc s)
  | alloc_ok i s :
      threads s !! i = Some Alloc ->
      publish_step s (State (private_data s) (heap s ++ [false]) (lock s)
                (<[i := Init (length (heap s))]> (threads s)))
  | alloc_fail i s :
      threads s !! i = Some Alloc ->
      publish_step s (goto i (Unlock None) s)
  | init_mutex i o s :
      threads s !! i = Some (Init o) ->
      publish_step s (State (private_data s) (<[o := true]> (heap s)) (lock s)
                (<[i := Publish o]> (threads s)))
  | publish i o s :
      threads s !! i = Some (Publish o) ->
      publish_step s (State (Some o) (heap s) (lock s) (<[i := Unlock (Some o)]> (threads s)))
  | lock_release i r s :
      threads s !! i = Some (Unlock r) ->
      publish_step s (State (private_data s) (heap s) None (<[i := Done r]> (threads s))).

(** [n] threads enter on a freshly opened file. *)
Definition publish_start (n : nat) : publish_state := State None [] None (replicate n Fast).

Inductive publish_reachable (n : nat) : publish_state -> Prop :=
  | reachable_start : publish_reachable n (publish_start n)
  | reachable_step s s' : publish_reachable n s -> publish_step s s' -> publish_reachable n s'.

(** ** Invariant *)

(** What a thread's position says about the shared state. *)
Definition pc_ok (s : publish_state) (p : publish_pc) : Prop :=
  match p with
  | Alloc => private_data s = None /\ heap s = []
  | Init o => private_data s = None /\ o = 0%nat /\ heap s = [false]
  | Publish o => private_data s = None /\ o = 0%nat /\ heap s = [true]
  | Unlock (Some o) | Done (Some o) => private_data s = Some o
  | _ => True
  end.

Record publish_inv (s : publish_state) : Prop := {
  inv_lock : forall i p, threads s !! i = Some p -> (holds_lock p = true <-> lock s = Some i);
  inv_owner : forall i, lock s = Some i -> (i < length (threads s))%nat;
  inv_pc : forall i p, threads s !! i = Some p -> pc_ok s p;
  inv_published : forall o, private_data s = Some o -> o = 0%nat /\ heap s = [true];
  inv_private : private_data s = None -> heap s <> [] ->
    exists i o, threads s !! i = Some (Init o) \/ threads s !! i = Some (Publish o)
}.

Lemma start_inv n : publish_inv (publish_start n).
Proof.
  split; simpl; try done.
  - intros i p [-> _]%lookup_replicate. done.
  - intros i p [-> _]%lookup_replicate. done.
Qed.

Lemma threads_insert s i p q j :
  threads s !! i = Some p ->
  <[i := q]> (threads s) !! j = if decide (j = i) then Some q else threads s !! j.
Proof.
  intros H. case_decide as E; [subst|by rewrite list_lookup_insert_ne].
  apply list_lookup_insert_eq. by eapply lookup_lt_Some.
Qed.

(** Two threads never hold the lock together. *)
Lemma inv_exclusive s i j p q :
  publish_inv s -> threads s !! i = Some p -> threads s !! j = Some q ->
  holds_lock p = true -> holds_lock q = true -> i = j.
Proof.
  intros Hi Hp Hq H1 H2. apply (inv_lock _ Hi _ _ Hp) in H1. apply (inv_lock _ Hi _ _ Hq) in H2.
  congruence.
Qed.

(** Moving one thread from [p] to [q] keeps the lock discipline. *)
Lemma lock_discipline s i p q pd h l :
  publish_inv s -> threads s !! i = Some p ->
  (l = lock s /\ holds_lock q = holds_lock p \/
   l = Some i /\ lock s = None /\ holds_lock q = true \/
   l = None /\ holds_lock p = true /\ holds_lock q = false) ->
  let s' := State pd h l (<[i := q]> (threads s)) in
  (forall j r, threads s' !! j = Some r -> (holds_lock r = true <-> lock s' = Some j)) /\
  (forall j, lock s' = Some j -> (j < length (threads s'))%nat).
Proof.
  intros Hi Hp Hc s'. pose proof (inv_lock _ Hi _ _ Hp) as Hl. split; simpl.
  - intros j r. rewrite (threads_insert s i p) by done. case_decide as E; intros Hr.
    + simplify_eq. destruct Hc as [[-> ->]|[(-> & _ & ->)|(-> & _ & ->)]]; naive_solver.
    + pose proof (inv_lock _ Hi _ _ Hr) as Hl'. rewrite Hl'.
      destruct Hc as [[-> _]|[(-> & -> & _)|(-> & Hh & _)]]; [done|naive_solver|].
      apply Hl in Hh. rewrite Hh. naive_solver.
  - intros j Hj. rewrite length_insert.
    destruct Hc as [[-> _]|[(-> & _)|(-> & _)]]; simplify_eq.
    + by apply (inv_owner _ Hi).
    + by eapply lookup_lt_Some.
Qed.

(** A thread in the critical section is the only one whose position depends on
    the unpublished object. *)
Lemma pc_ok_other s i p pd h l ts :
  publish_inv s -> threads s !! i = Some p -> holds_lock p = true -> private_data s = None ->
  forall j q, j <> i -> threads s !! j = Some q -> pc_ok (State pd h l ts) q.
Proof.
  intros Hi Hp Hh Hn j q Hj Hq.
  assert (holds_lock q = false) as Hf.
  { destruct (holds_lock q) eqn:E; [|done]. destruct Hj. symmetry.
    exact (inv_exclusive s i j p q Hi Hp Hq Hh E). }
  pose proof (inv_pc _ Hi _ _ Hq) as Ho.
  destruct q as [| | | | | |?|[?|]]; simpl in *; done || congruence.
Qed.

(** Positions between allocation and publication. *)
Definition building (p : publish_pc) : bool :=
  match p with Init _ | Publish _ => true | _ => false end.

Lemma building_exists s :
  publish_inv s -> private_data s = None -> heap s <> [] ->
  exists i p, threads s !! i = Some p /\ building p = true.
Proof. intros Hi H1 H2. destruct (inv_private _ Hi H1 H2) as (i & o & [H|H]); eauto. Qed.

(** A step that leaves the object and the pointer alone. *)
Lemma quiet_step s i p q l :
  publish_inv s -> threads s !! i = Some p -> building p = false ->
  (l = lock s /\ holds_lock q = holds_lock p \/
   l = Some i /\ lock s = None /\ holds_lock q = true \/
   l = None /\ holds_lock p = true /\ holds_lock q = false) ->
  pc_ok s q ->
  publish_inv (State (private_data s) (heap s) l (<[i := q]> (threads s))).
Proof.
  intros Hi Hp Hb Hc Hq.
  destruct (lock_discipline s i p q (private_data s) (heap s) l Hi Hp Hc) as [H1 H2].
  split; try done; simpl.
  - intros j r. rewrite (threads_insert s i p) by done. case_decide; [|apply (inv_pc _ Hi)].
    intros [= <-]. done.
  - apply (inv_published _ Hi).
  - intros Hn Hh. destruct (inv_private _ Hi Hn Hh) as (j & o & Hj). exists j, o.
    rewrite (threads_insert s i p) by done. case_decide; [|done]. subst.
    destruct Hj; simplify_eq.
Qed.

(** A step of the thread that builds the object. *)
Lemma owner_step s i p q pd h :
  publish_inv s -> threads s !! i = Some p -> holds_lock p = true -> private_data s = None ->
  holds_lock q = true ->
  let s' := State pd h (lock s) (<[i := q]> (threads s)) in
  pc_ok s' q -> (forall o, pd = Some o -> o = 0%nat /\ h = [true]) ->
  (pd = None -> exists o, q = Init o \/ q = Publish o) ->
  publish_inv s'.
Proof.
  intros Hi Hp Hh Hn Hq s' Hok Hpub Hpriv.
  destruct (lock_discipline s i p q pd h (lock s) Hi Hp) as [H1 H2]; [left; by rewrite Hh, Hq|].
  split; try done; simpl.
  - intros j r. rewrite (threads_insert s i p) by done. case_decide as E; [by intros [= <-]|].
    intros Hr. by eapply (pc_ok_other s i p).
  - intros En _. destruct (Hpriv En) as (o & Ho). exists i, o.
    rewrite (threads_insert s i p) by done. rewrite decide_True by done. naive_solver.
Qed.

Lemma step_inv s s' : publish_step s s' -> publish_inv s -> publish_inv s'.
Proof.
  intros Hs Hi. pose proof (inv_pc _ Hi) as Hpc.
  destruct Hs as [i o s Hp Ho|i s Hp Ho|i s Hp Ho|i o s Hp Ho|i s Hp Ho|i s Hp|i s Hp
                 |i o s Hp|i o s Hp|i r s Hp];
    pose proof (Hpc _ _ Hp) as Hok; simpl in Hok; unfold goto.
  - eapply quiet_step; [done..|by left|done].
  - eapply quiet_step; [done..|by left|done].
  - eapply quiet_step; [done..|by right; left|done].
  - eapply quiet_step; [done..|by left|done].
  - eapply quiet_step; [done..|by left|]. split; [done|].
    destruct (heap s) eqn:E; [done|].
    destruct (building_exists s Hi Ho) as (j & q & Hj & Hb); [by rewrite E|].
    assert (j = i) as -> by (eapply (inv_exclusive s j i); [done..|by destruct q|done]).
    simplify_eq.
  - destruct Hok as [Hn Hh]. rewrite Hh. eapply owner_step; [done..|by rewrite Hn|].
    intros _. by eauto.
  - eapply quiet_step; [done..|by left|done].
  - destruct Hok as (Hn & -> & Hh). rewrite Hh. eapply owner_step; [done..|by rewrite Hn|].
    intros _. by eauto.
  - destruct Hok as (Hn & -> & Hh). rewrite Hh. eapply owner_step; [done..| |done].
    intros o [= <-]. done.
  - eapply quiet_step; [done..|by right; right|done].
Qed.

Lemma reachable_inv n s : publish_reachable n s -> publish_inv s.
Proof. induction 1; [apply start_inv|by eapply step_inv]. Qed.

(** ** Properties *)

(** C35: with any number of threads entering [ac_get_fd_state] on one freshly
    opened file, in every interleaving: at most one [ac_fd_state] is ever
    allocated, every caller that is handed a state is handed that one, which
    is what the file points to and whose mutex is initialised, so none is
    leaked or seen half-built; and no interleaving deadlocks (while some
    caller has not returned, some step is possible). *)
Theorem fd_state_published_once (n : nat) (s : publish_state) :
  publish_reachable n s ->
  (length (heap s) <= 1)%nat /\
  (forall i o, threads s !! i = Some (Done (Some o)) ->
     private_data s = Some o /\ heap s = [true] /\ o = 0%nat) /\
  ((exists i p, threads s !! i = Some p /\ forall r, p <> Done r) -> exists s', publish_step s s').
Proof.
  intros Hr. pose proof (reachable_inv n s Hr) as Hi. split_and!.
  - destruct (private_data s) as [o|] eqn:E.
    + destruct (inv_published _ Hi o E) as [_ ->]. simpl. lia.
    + destruct (heap s) as [|b h] eqn:Eh; [simpl; lia|].
      destruct (inv_private _ Hi E) as (i & o & [H|H]); [by rewrite Eh|..];
        destruct (inv_pc _ Hi _ _ H) as (_ & _ & H'); rewrite Eh in H'; by rewrite H'.
  - intros i o H. pose proof (inv_pc _ Hi _ _ H) as Ho. simpl in Ho.
    destruct (inv_published _ Hi o Ho) as [-> ?]. done.
  - assert (Hrun : forall j q, threads s !! j = Some q -> holds_lock q = true ->
              exists s', publish_step s s').
    { intros j q Hq Hh. destruct q; try done; try (eexists; econstructor; eassumption).
      destruct (private_data s) eqn:E; eexists; [eapply recheck_hit|eapply recheck_miss]; eassumption. }
    intros (i & p & Hp & Hd).
    destruct p; try (eapply Hrun; [exact Hp|reflexivity]).
    + destruct (private_data s) eqn:E; eexists; [eapply fast_hit|eapply fast_miss]; eassumption.
    + destruct (lock s) as [j|] eqn:E; [|eexists; eapply lock_acquire; eassumption].
      destruct (lookup_lt_is_Some_2 _ _ (inv_owner _ Hi j E)) as [q Hq].
      eapply Hrun; [exact Hq|]. by apply (inv_lock _ Hi _ _ Hq).
    + by destruct (Hd r).
Qed.

Lemma fd_state_published_once_witness :
  exists s, publish_reachable 2 s /\ threads s = [Fast; Done (Some 0%nat)] /\ private_data s = Some 0%nat.
Proof.
  assert (H : publish_reachable 2 (State (Some 0%nat) [true] None [Fast; Done (Some 0%nat)])).
  { eapply reachable_step; [|apply (lock_release 1 (Some 0%nat)
      (State (Some 0%nat) [true] (Some 1%nat) [Fast; Unlock (Some 0%nat)])); reflexivity].
    eapply reachable_step; [|apply (publish 1 0
      (State None [true] (Some 1%nat) [Fast; Publish 0])); reflexivity].
    eapply reachable_step; [|apply (init_mutex 1 0
      (State None [false] (Some 1%nat) [Fast; Init 0])); reflexivity].
    eapply reachable_step; [|apply (alloc_ok 1
      (State None [] (Some 1%nat) [Fast; Alloc])); reflexivity].
    eapply reachable_step; [|apply (recheck_miss 1
      (State None [] (Some 1%nat) [Fast; Recheck])); reflexivity].
    eapply reachable_step; [|apply (lock_acquire 1
      (State None [] None [Fast; WantLock])); reflexivity].
    eapply reachable_step; [|apply (fast_miss 1 (publish_start 2)); reflexivity].
    apply reachable_start. }
  eexists. split; [exact H|]. split; [reflexivity|].
  apply (proj1 (proj2 (fd_state_published_once 2 _ H)) 1%nat 0%nat). reflexivity.
Defined.

End FdPublish.

(** ** [AC_IOCTL_UNLOCK] on several threads *)

Module UnlockRace.

(** Where a thread is: [atomic_read], [atomic_dec], [module_put]. *)
Inductive unlock_pc := Read | Dec | Put | Done.

(** [ac_lock_count], the references [LOCK] took that are still held, and the
    threads. *)
Record unlock_state := State { count : Z; refs : Z; threads : list unlock_pc }.

Inductive unlock_step : unlock_state -> unlock_state -> Prop :=
  | read_locked i s :
      threads s !! i = Some Read -> 0 < count s ->
      unlock_step s (State (count s) (refs s) (<[i := Dec]> (threads s)))
  | read_unlocked i s :
      threads s !! i = Some Read -> count s <= 0 ->
      unlock_step s (State (count s) (refs s) (<[i := Done]> (threads s)))
  | dec i s :
      threads s !! i = Some Dec ->
      unlock_step s (State (s32 (count s - 1)) (refs s) (<[i := Put]> (threads s)))
  | put i s :
      threads s !! i = Some Put ->
      unlock_step s (State (count s) (refs s - 1) (<[i := Done]> (threads s))).

(** [n] threads unlock a module locked [locks] times. *)
Definition unlock_start (n : nat) (locks : Z) : unlock_state := State locks locks (replicate n Read).

Inductive unlock_reachable (n : nat) (locks : Z) : unlock_state -> Prop :=
  | reachable_start : unlock_reachable n locks (unlock_start n locks)
  | reachable_step s s' : unlock_reachable n locks s -> unlock_step s s' -> unlock_reachable n locks s'.

(** The test and the decrement of [UNLOCK] are two atomic operations: two
    concurrent unlocks of a module locked once can both pass the test, after
    which the lock count is -1 and [module_put] has been called twice for one
    [try_module_get]; one unlock alone, or unlocks one after the other, cannot
    (the sequential handler leaves the count at 0 and puts once). *)
Theorem unlock_race_underflows :
  (exists s, unlock_reachable 2 1 s /\ threads s = [Done; Done] /\ count s = -1 /\ refs s = -1) /\
  (forall pd m, ac_lock_count m = 1 ->
     let rp := ioctl_unlock pd m in
     let rp' := ioctl_unlock pd (rp_mod rp) in
     ac_lock_count (rp_mod rp') = 0 /\ rp_calls rp ++ rp_calls rp' = [KModulePut]).
Proof.
  split.
  - exists (State (-1) (-1) [Done; Done]). split_and!; try done.
    eapply reachable_step; [|apply (put 1 (State (-1) 0 [Done; Put])); reflexivity].
    eapply reachable_step; [|apply (put 0 (State (-1) 1 [Put; Put])); reflexivity].
    eapply reachable_step; [|apply (dec 1 (State 0 1 [Put; Dec])); reflexivity].
    eapply reachable_step; [|apply (dec 0 (State 1 1 [Dec; Dec])); reflexivity].
    eapply reachable_step; [|apply (read_locked 1 (State 1 1 [Dec; Read])); [reflexivity|simpl; lia]].
    eapply reachable_step; [|apply (read_locked 0 (unlock_start 2 1)); [reflexivity|simpl; lia]].
    apply reachable_start.
  - intros pd m Hm. unfold ioctl_unlock. rewrite Hm. done.
Qed.

End UnlockRace.
