(* ===== verification/Smp.v ===== *)
(** * The module on several processors (src/anticheat_module.c)

    The probe handlers, the kill worker and the ioctl commands at the
    granularity of their atomic actions: a section under [ac_prot_lock] or
    [ac_ring_lock], one access to an [atomic_t] or a [READ_ONCE], one call
    that takes or drops a reference.  Any number of them run interleaved.
    What a command does to its own file happens under that file's mutex and is
    private to the command here ([FdPublish] of Concurrency.v is the
    publication of that state). *)

From Stdlib Require Import ZArith Lia.
From stdpp Require Import base numbers list gmap strings.
From S2P Require Import Prelude Abi Ring Kernel Registry SyscallTable Probes Snapshot Ioctl.

(** ** Programs *)

(** A program is a result, or an atomic section on the module's static state
    followed by what depends on the section's outcome. *)
Inductive prog (A : Type) : Type :=
  | Ret (a : A)
  | Sect {X : Type} (act : mstate -> X * mstate * list kcall) (next : X -> prog A).
Arguments Ret {A}.
Arguments Sect {A X}.

#[export] Instance prog_ret : MRet prog := @Ret.
#[export] Instance prog_bind : MBind prog := fun A B f =>
  fix go p := match p with Ret a => f a | Sect act next => Sect act (fun x => go (next x)) end.

#[export] Instance prog_fmap : FMap prog := fun A B f p => p ≫= fun a => Ret (f a).

(** Run without interference. *)
Fixpoint alone {A} (p : prog A) (m : mstate) : A * mstate * list kcall :=
  match p with
  | Ret a => (a, m, [])
  | Sect act next =>
      let '(x, m, cs) := act m in let '(a, m, cs') := alone (next x) m in (a, m, cs ++ cs')
  end.

(** ** Atomic sections *)

Definition call (c : kcall) : prog unit := Sect (fun m => (tt, m, [c])) Ret.
Definition calls (cs : list kcall) : prog unit := foldr (fun c p => call c ≫= fun _ => p) (Ret tt) cs.
Definition read {X} (f : mstate -> X) : prog X := Sect (fun m => (f m, m, [])) Ret.

(** A section under [ac_prot_lock]. *)
Definition reg_section {X} (f : registry -> X * registry * list kcall) : prog X :=
  Sect (fun m => let '(x, r, cs) := f (m_reg m) in (x, set_reg r m, cs)) Ret.

(** A section under [ac_ring_lock]. *)
Definition ring_section {X} (f : ring -> X * ring) : prog X :=
  Sect (fun m => let '(x, r) := f (m_ring m) in (x, set_ring r m, [])) Ret.

Definition emit_section (ev : ac_event) : prog unit := ring_section (fun r => (tt, ac_emit ev r)).

Definition set_wq (q : list pidp) (m : mstate) : mstate :=
  set_guard (Guard (m_reg m) (m_ring m) q) m.

(** ** Lookups *)

Section programs.
Context (k : kernel).

Definition find_task_prog (pid : Z) : prog (option task) :=
  match find_get_pid k pid with
  | None => Ret None
  | Some p =>
      _ ← call (KGetPid p);
      match get_pid_task k p with
      | Some t => _ ← call (KGetTask t); _ ← call (KPutPid p); Ret (Some t)
      | None => _ ← call (KPutPid p); Ret None
      end
  end.

Definition find_task_in_ns_of_prog (nr ref_pid : Z) : prog (option task) :=
  ref_task ← find_task_prog ref_pid;
  match ref_task with
  | None => Ret None
  | Some ref_task =>
      match (ns ← task_active_pid_ns k ref_task; find_pid_ns k nr ns) with
      | None => _ ← call (KPutTask ref_task); Ret None
      | Some p =>
          _ ← call (KGetPid p);
          _ ← call (KPutTask ref_task);
          match get_pid_task k p with
          | Some t => _ ← call (KGetTask t); _ ← call (KPutPid p); Ret (Some t)
          | None => _ ← call (KPutPid p); Ret None
          end
      end
  end.

(** ** Registry operations *)

Definition is_protected_task_prog (t : task) : prog bool :=
  reg_section (fun r => (ac_is_protected_task t r, r, [])).

Definition is_protected_pid_prog (pid : Z) : prog (bool * option cstring) :=
  t ← find_task_prog pid;
  match t with
  | None => Ret (false, None : option cstring)
  | Some t =>
      prot ← is_protected_task_prog t;
      _ ← call (KPutTask t);
      Ret (prot, if (prot : bool) then Some (strscpy AC_MAX_COMM (task_comm k t)) else None)
  end.

Definition add_prot_task_prog (t : task) (jit : bool) : prog Z :=
  reg_section (fun r => ac_add_prot_task k t jit r).

Definition del_prot_task_prog (t : task) : prog unit :=
  reg_section (fun r => let '(r, cs) := ac_del_prot_task t r in (tt, r, cs)).

Definition add_prot_pid_prog (pid ref_pid : Z) (jit : bool) : prog Z :=
  t ← (if 0 <? ref_pid then find_task_in_ns_of_prog pid ref_pid else find_task_prog pid);
  match t with
  | None => Ret (- ESRCH)
  | Some t => ret ← add_prot_task_prog t jit; _ ← call (KPutTask t); Ret ret
  end.

(** ** Probe handlers *)

Definition schedule_kill_prog (victim : task) : prog unit :=
  if alloc_state k then
    _ ← call (KAlloc MemReq);
    _ ← call (KGetPid (get_task_pid k victim));
    Sect (fun m => (tt, set_wq (g_wq (m_guard m) ++ [get_task_pid k victim]) m, [])) Ret
  else Ret tt.

(** [ac_ptrace_pre]; the result is the frame it leaves. *)
Definition ptrace_prog (is_compat : bool) (args : pt_regs) : prog pt_regs :=
  let request := s64 (if is_compat then bx args else di args) in
  let target := s64 (if is_compat then cx args else si args) in
  '(deny, kill, target, tcomm) ←
    (if request =? PTRACE_TRACEME then
       prot ← is_protected_task_prog (current k);
       Ret (if prot : bool
            then (true, false, task_pid k (current k), strscpy AC_MAX_COMM (task_comm k (current k)))
            else (false, false, target, bs "?"))
     else if 0 <? target then
       '(prot, comm_out) ← is_protected_pid_prog (s32 target);
       Ret (prot, prot, target, default (bs "?") comm_out)
     else Ret (false, false, target, bs "?"));
  if negb deny then Ret args
  else
    _ ← emit_section (mk_event (ktime k 0) AC_EV_PTRACE (s32 target) (Some tcomm)
                        (bs "ptrace req " ++ fmt_d request ++ bs " by pid "
                         ++ fmt_d (task_pid k (current k)) ++ bs " ("
                         ++ cstr (task_comm k (current k)) ++ bs ") DENIED"));
    policy ← read ac_policy;
    _ ← (if kill && negb (Z.land policy 0x1 =? 0) then schedule_kill_prog (current k) else Ret tt);
    Ret (if is_compat then PtRegs (u64 (-1)) (cx args) (di args) (si args)
         else PtRegs (bx args) (cx args) (u64 (-1)) (si args)).

Definition clone_prog (retval : Z) : prog unit :=
  let child_pid := s64 retval in
  if child_pid <=? 0 then Ret tt
  else
    prot ← is_protected_task_prog (current k);
    if negb (prot : bool) then Ret tt
    else
      child ← find_task_prog (s32 child_pid);
      match child with
      | None => Ret tt
      | Some child =>
          let pcomm := strscpy AC_MAX_COMM (task_comm k (current k)) in
          jit ← reg_section (fun r => (ac_task_jit_allowed (current k) r, r, []));
          _ ← add_prot_task_prog child jit;
          _ ← emit_section (mk_event (ktime k 0) AC_EV_FORK (task_pid k child)
                              (Some (task_comm k child))
                              (bs "child of protected pid " ++ fmt_d (task_pid k (current k))
                               ++ bs " (" ++ pcomm ++ bs "); protection inherited"));
          call (KPutTask child)
      end.

Definition exit_prog : prog unit :=
  prot ← is_protected_task_prog (current k);
  if negb prot then Ret tt
  else
    _ ← emit_section (mk_event (ktime k 0) AC_EV_EXIT (task_pid k (current k))
                        (Some (task_comm k (current k))) (bs "protected process exited"));
    del_prot_task_prog (current k).

Definition exec_prog : prog unit :=
  prot ← is_protected_task_prog (current k);
  if negb prot then Ret tt
  else emit_section (mk_event (ktime k 0) AC_EV_EXEC (task_pid k (current k))
                       (Some (task_comm k (current k)))
                       (bs "execve() invoked (path is a user pointer, not resolved)")).

(** The workqueue takes its oldest item and runs [ac_kill_worker] on it. *)
Definition work_prog : prog unit :=
  item ← Sect (fun m => match g_wq (m_guard m) with
                        | [] => (None, m, [])
                        | p :: ps => (Some p, set_wq ps m, [])
                        end) Ret;
  match item with
  | None => Ret tt
  | Some p =>
      _ ← match get_pid_task k p with
          | Some t => _ ← call (KGetTask t); _ ← call (KSigKill t); call (KPutTask t)
          | None => Ret tt
          end;
      _ ← call (KPutPid p);
      call (KFree MemReq)
  end.

(** ** The scan of a process *)

(** The snapshot under construction. *)
Record walk := Walk { w_vmas : list ac_vma_info; w_rwx : Z; w_exec : Z; w_anon : Z; w_nev : nat }.

Definition emit_if (ev : bool) (e : ac_event) (n : nat) : prog nat :=
  if ev then _ ← emit_section e; Ret (S n) else Ret n.

(** The body of the [for_each_vma] loop. *)
Definition walk_vma (pid : Z) (ev : bool) (v : kvma) (w : walk) : prog walk :=
  let vi := vma_info k (length (w_vmas w)) v in
  _ ← calls (path_calls k (length (w_vmas w)) v);
  n1 ← (if is_rwx vi then emit_if ev (rwx_event k (w_nev w) pid vi) (w_nev w) else Ret (w_nev w));
  n2 ← (if is_anon_exec vi then emit_if ev (anon_event k n1 pid vi) n1 else Ret n1);
  Ret (Walk (w_vmas w ++ [vi])
         (if is_rwx vi then u32 (w_rwx w + 1) else w_rwx w)
         (if is_exec vi then u32 (w_exec w + 1) else w_exec w)
         (if is_anon_exec vi then u32 (w_anon w + 1) else w_anon w) n2).

Fixpoint walk_loop (pid : Z) (ev : bool) (vs : list kvma) (w : walk) : prog (walk * Z) :=
  match vs with
  | [] => Ret (w, 0)
  | v :: vs =>
      if (AC_MAX_VMAS <=? length (w_vmas w))%nat then Ret (w, 1)
      else w ← walk_vma pid ev v w; walk_loop pid ev vs w
  end.

Definition build_vma_prog (st : ac_fd_state) (pid emit_events : Z) : prog (Z * ac_fd_state) :=
  _ ← calls (kvfree (fs_vmas st));
  let st := FdState None 0 0 0 0 0 (fs_mods st) (fs_n_mods st) in
  task ← find_task_prog pid;
  match task with
  | None => Ret (- ESRCH, st)
  | Some task =>
      match task_vmas k task with
      | None => _ ← call (KPutTask task); Ret (- ESRCH, st)
      | Some vs =>
          _ ← call (KMmGet task);
          _ ← call (KPutTask task);
          if alloc_bulk k then
            _ ← call (KAlloc MemArray);
            '(w, truncated) ← walk_loop pid (negb (emit_events =? 0)) vs (Walk [] 0 0 0 0);
            _ ← call (KMmPut task);
            Ret (0, FdState (Some (w_vmas w)) (Z.of_nat (length (w_vmas w))) (w_rwx w) (w_exec w)
                      (w_anon w) truncated (fs_mods st) (fs_n_mods st))
          else _ ← call (KMmPut task); Ret (- ENOMEM, st)
      end
  end.

(** ** The system-call check *)

Fixpoint check_prog (x : text) (js : list nat) (out : ac_syscall_check) (n : nat)
    : prog ac_syscall_check :=
  match js with
  | [] => Ret out
  | i :: js =>
      match table_entry k (ac_syscall_table x) i with
      | None => check_prog x js out n
      | Some e =>
          if e =? 0 then check_prog x js out n
          else
            let out := SyscallCheck (sc_table_addr out) (sc_nr_syscalls out)
                         (u32 (sc_total out + 1)) (sc_non_text out) (sc_hooked out) (sc_ok out) in
            if ac_entry_bad k x e then
              _ ← emit_section (hook_event k n i e);
              check_prog x js
                (SyscallCheck (sc_table_addr out) (sc_nr_syscalls out) (sc_total out)
                   (u32 (sc_non_text out + 1)) (u32 (sc_hooked out + 1)) (sc_ok out)) (S n)
            else check_prog x js out n
      end
  end.

Definition check_syscalls_prog : prog (Z * ac_syscall_check) :=
  x ← read m_text;
  let base := ac_syscall_table x in
  if base =? 0 then Ret (- ENODEV, SyscallCheck base 0 0 0 0 0)
  else
    out ← check_prog x (seq 0 (NR_syscalls k))
            (SyscallCheck base (Z.of_nat (NR_syscalls k)) 0 0 0 0) 0;
    Ret (0, SyscallCheck (sc_table_addr out) (sc_nr_syscalls out) (sc_total out)
              (sc_non_text out) (sc_hooked out) (Z.b2z (sc_hooked out =? 0))).

(** ** The ioctl commands *)

(** Return value, what is copied out, and the file's [private_data]. *)
Definition answer : Type := Z * option ioctl_out * option ac_fd_state.

Definition copied (out : ioctl_out) (pd : option ac_fd_state) : answer :=
  if user_writable k then (0, Some out, pd) else (- EFAULT, None, pd).

Definition status_prog (pd : option ac_fd_state) : prog answer :=
  x ← read m_text;
  active ← reg_section (fun r => (ac_protected_count r, r, []));
  dropped ← read (fun m => rg_dropped (m_ring m));
  locks ← read ac_lock_count;
  hooks ← read ac_last_hook_count;
  Ret (copied (OutStatus (Status AC_IOCTL_VERSION (ac_syscall_table x) active dropped
                            (if 0 <? locks then 1 else 0) hooks)) pd).

Definition add_proc_prog (a : ac_proc_id) (pd : option ac_fd_state) : prog answer :=
  if negb (user_readable k) then Ret (- EFAULT, None, pd)
  else
    ret ← add_prot_pid_prog (pi_pid a) (pi_ref_pid a) (negb (pi_jit_allowed a =? 0));
    Ret (ret, None, pd).

Definition del_proc_prog (d : ac_proc_id) (pd : option ac_fd_state) : prog answer :=
  if negb (user_readable k) then Ret (- EFAULT, None, pd)
  else
    t ← find_task_prog (pi_pid d);
    match t with
    | None => Ret (- ESRCH, None, pd)
    | Some t => _ ← del_prot_task_prog t; _ ← call (KPutTask t); Ret (0, None, pd)
    end.

Definition get_fd_state_prog (pd : option ac_fd_state) : prog (option ac_fd_state) :=
  let '(st, cs) := ac_get_fd_state k pd in _ ← calls cs; Ret st.

Definition scan_begin_prog (b : ac_scan_begin) (pd : option ac_fd_state) : prog answer :=
  if negb (user_readable k) then Ret (- EFAULT, None, pd)
  else
    st ← get_fd_state_prog pd;
    match st with
    | None => Ret (- ENOMEM, None, pd)
    | Some st =>
        '(ret, st) ← build_vma_prog st (sb_pid b) (sb_emit_events b);
        if negb (ret =? 0) then Ret (ret, None, Some st)
        else Ret (copied (OutScanBegin (ScanBegin (sb_pid b) (sb_emit_events b) (fs_n_vmas st)
                            (fs_rwx_count st) (fs_exec_count st) (fs_anon_exec_count st)
                            (fs_truncated st))) (Some st))
    end.

Definition check_syscalls_ioctl_prog (pd : option ac_fd_state) : prog answer :=
  '(ret, c) ← check_syscalls_prog;
  if negb (ret =? 0) then Ret (ret, None, pd)
  else
    _ ← Sect (fun m => (tt, MState (m_guard m) (m_text m) (sc_hooked c) (ac_lock_count m) (m_probes m)
                              (ac_policy m), [])) Ret;
    Ret (copied (OutSyscalls c) pd).

Definition mods_begin_prog (pd : option ac_fd_state) : prog answer :=
  st ← get_fd_state_prog pd;
  match st with
  | None => Ret (- ENOMEM, None, pd)
  | Some st =>
      let '(ret, st, cs) := ac_build_mod_snapshot k st in
      _ ← calls cs;
      if negb (ret =? 0) then Ret (ret, None, Some st)
      else Ret (copied (OutCount (fs_n_mods st)) (Some st))
  end.

Definition get_events_prog (pd : option ac_fd_state) : prog answer :=
  if negb (alloc_bulk k) then Ret (- ENOMEM, None, pd)
  else
    _ ← call (KAlloc MemEvents);
    el ← ring_section ac_drain_events;
    let a := copied (OutEvents el) pd in
    _ ← call (KFree MemEvents);
    Ret a.

Definition flush_events_prog (pd : option ac_fd_state) : prog answer :=
  _ ← ring_section (fun r => (tt, ac_flush_events r)); Ret (0, None, pd).

Definition list_protected_prog (pd : option ac_fd_state) : prog answer :=
  pl ← reg_section (fun r => (ac_list_protected r, r, [])); Ret (copied (OutProtected pl) pd).

Definition lock_prog (pd : option ac_fd_state) : prog answer :=
  if try_module_get k then
    _ ← call KModuleGet;
    _ ← Sect (fun m => (tt, set_lock (s32 (ac_lock_count m + 1)) m, [])) Ret;
    Ret (0, None, pd)
  else Ret (- EBUSY, None, pd).

Definition unlock_prog (pd : option ac_fd_state) : prog answer :=
  n ← read ac_lock_count;
  if 0 <? n then
    _ ← Sect (fun m => (tt, set_lock (s32 (ac_lock_count m - 1)) m, [])) Ret;
    _ ← call KModulePut;
    Ret (0, None, pd)
  else Ret (0, None, pd).

(** The commands that only read or free their own file's state. *)
Definition private_prog (req : ioctl_req) (pd : option ac_fd_state) : prog (option answer) :=
  match req with
  | ReqScanGet g =>
      Ret (if negb (user_readable k) then Some (- EFAULT, None, pd)
           else
             match pd with
             | None => Some (- EINVAL, None, pd)
             | Some st =>
                 if fs_n_vmas st <=? sg_index g then Some (- EINVAL, None, pd)
                 else
                   vmas ← fs_vmas st;
                   vma ← vmas !! Z.to_nat (sg_index g);
                   Some (copied (OutScanGet (ScanGet (sg_pid g) (sg_index g) vma)) pd)
             end)
  | ReqModsGet g =>
      Ret (if negb (user_readable k) then Some (- EFAULT, None, pd)
           else
             match pd with
             | None => Some (- EINVAL, None, pd)
             | Some st =>
                 if fs_n_mods st <=? mg_index g then Some (- EINVAL, None, pd)
                 else
                   mods ← fs_mods st;
                   mod_ ← mods !! Z.to_nat (mg_index g);
                   Some (copied (OutModGet (ModGet (mg_index g) mod_)) pd)
             end)
  | ReqScanEnd =>
      match pd with
      | None => Ret (Some (0, None, pd))
      | Some st =>
          _ ← calls (kvfree (fs_vmas st));
          Ret (Some (0, None,
            Some (FdState None 0 (fs_rwx_count st) (fs_exec_count st) (fs_anon_exec_count st)
                    (fs_truncated st) (fs_mods st) (fs_n_mods st))))
      end
  | ReqModsEnd =>
      match pd with
      | None => Ret (Some (0, None, pd))
      | Some st =>
          _ ← calls (kvfree (fs_mods st));
          Ret (Some (0, None,
            Some (FdState (fs_vmas st) (fs_n_vmas st) (fs_rwx_count st) (fs_exec_count st)
                    (fs_anon_exec_count st) (fs_truncated st) None 0)))
      end
  | _ => Ret (Some (- ENOTTY, None, pd))
  end.

(** [ac_ioctl] ([None]: a read outside a snapshot array). *)
Definition ioctl_prog (req : ioctl_req) (pd : option ac_fd_state) : prog (option answer) :=
  if negb (capable_admin k) then Ret (Some (- EPERM, None, pd))
  else
    match req with
    | ReqStatus => Some <$> status_prog pd
    | ReqAddProc a => Some <$> add_proc_prog a pd
    | ReqDelProc d => Some <$> del_proc_prog d pd
    | ReqScanBegin b => Some <$> scan_begin_prog b pd
    | ReqCheckSyscalls => Some <$> check_syscalls_ioctl_prog pd
    | ReqModsBegin => Some <$> mods_begin_prog pd
    | ReqGetEvents => Some <$> get_events_prog pd
    | ReqFlushEvents => Some <$> flush_events_prog pd
    | ReqListProtected => Some <$> list_protected_prog pd
    | ReqLock => Some <$> lock_prog pd
    | ReqUnlock => Some <$> unlock_prog pd
    | req => private_prog req pd
    end.
End programs.

(** ** Entries into the module *)

(** A probe hit, the workqueue, or a command on a file with the given
    [private_data]; with the kernel it runs in. *)
Inductive entry :=
  | EPtrace (k : kernel) (is_compat : bool) (args : pt_regs)
  | EClone (k : kernel) (retval : Z)
  | EExit (k : kernel)
  | EExec (k : kernel)
  | EWork (k : kernel)
  | EIoctl (k : kernel) (req : ioctl_req) (pd : option ac_fd_state).

Inductive outcome := OFrame (args : pt_regs) | ONone | OAnswer (a : option answer).

Definition entry_prog (e : entry) : prog outcome :=
  match e with
  | EPtrace k c args => OFrame <$> ptrace_prog k c args
  | EClone k retval => (fun _ => ONone) <$> clone_prog k retval
  | EExit k => (fun _ => ONone) <$> exit_prog k
  | EExec k => (fun _ => ONone) <$> exec_prog k
  | EWork k => (fun _ => ONone) <$> work_prog k
  | EIoctl k req pd => OAnswer <$> ioctl_prog k req pd
  end.

(** The same entry as one step, by the handlers of Probes.v and Ioctl.v. *)
Definition sequential (e : entry) (m : mstate) : outcome * mstate * list kcall :=
  let hit h := (ONone, set_guard (hit_step h (m_guard m)).1 m, (hit_step h (m_guard m)).2) in
  match e with
  | EPtrace k c args =>
      let '(args, g, cs) := ac_ptrace_pre k (ac_policy m) c args (m_guard m) in
      (OFrame args, set_guard g m, cs)
  | EClone k retval => hit (HClone k retval)
  | EExit k => hit (HExit k)
  | EExec k => hit (HExec k)
  | EWork k => hit (HWork k)
  | EIoctl k req pd =>
      match ac_ioctl k req pd m with
      | Some rp => (OAnswer (Some (rp_ret rp, rp_out rp, rp_pd rp)), rp_mod rp, rp_calls rp)
      | None => (OAnswer None, m, [])
      end
  end.

(** ** Running alone *)

Lemma alone_bind {A B} (p : prog A) (f : A -> prog B) m :
  alone (p ≫= f) m =
  let '(a, m, cs) := alone p m in let '(b, m, cs') := alone (f a) m in (b, m, cs ++ cs').
Proof.
  revert m. induction p as [a|X act next IH]; intros m.
  - cbn. by destruct (alone (f a) m) as [[b m'] cs].
  - cbn [alone mbind prog_bind]. destruct (act m) as [[x m1] cs]. fold (@mbind prog prog_bind A B f).
    rewrite IH. destruct (alone (next x) m1) as [[a m2] cs1].
    destruct (alone (f a) m2) as [[b m3] cs2]. by rewrite app_assoc.
Qed.

Lemma alone_fmap {A B} (f : A -> B) (p : prog A) m :
  alone (f <$> p) m = let '(a, m, cs) := alone p m in (f a, m, cs).
Proof.
  unfold fmap, prog_fmap. rewrite alone_bind. destruct (alone p m) as [[a m'] cs]. cbn.
  by rewrite app_nil_r.
Qed.

Lemma set_reg_id m : set_reg (m_reg m) m = m.
Proof. by destruct m as [[]]. Qed.
Lemma set_ring_id m : set_ring (m_ring m) m = m.
Proof. by destruct m as [[]]. Qed.
Lemma set_guard_id m : set_guard (m_guard m) m = m.
Proof. by destruct m. Qed.

Lemma alone_calls cs m : alone (calls cs) m = (tt, m, cs).
Proof.
  induction cs as [|c cs IH]; [done|]. change (calls (c :: cs)) with (call c ≫= fun _ => calls cs).
  rewrite alone_bind. cbn [call alone]. by rewrite IH.
Qed.

Lemma alone_find_task k pid m :
  alone (find_task_prog k pid) m = ((ac_find_task k pid).1, m, (ac_find_task k pid).2).
Proof.
  unfold find_task_prog, ac_find_task. destruct (find_get_pid k pid) as [p|]; [|done].
  by destruct (get_pid_task k p).
Qed.

Lemma alone_find_task_in_ns_of k nr ref_pid m :
  alone (find_task_in_ns_of_prog k nr ref_pid) m =
  ((ac_find_task_in_ns_of k nr ref_pid).1, m, (ac_find_task_in_ns_of k nr ref_pid).2).
Proof.
  unfold find_task_in_ns_of_prog, ac_find_task_in_ns_of. rewrite alone_bind, alone_find_task.
  destruct (ac_find_task k ref_pid) as [[r|] cs]; cbn [fst snd]; [|cbn; by rewrite app_nil_r].
  destruct (_ ≫= _) as [p|]; [|done]. by destruct (get_pid_task k p).
Qed.

(** Sections on their own. *)
Lemma alone_call c m : alone (call c) m = (tt, m, [c]).
Proof. done. Qed.

Lemma alone_read {X} (f : mstate -> X) m : alone (read f) m = (f m, m, []).
Proof. done. Qed.

Lemma alone_reg {X} (f : registry -> X * registry * list kcall) m :
  alone (reg_section f) m = let '(x, r, cs) := f (m_reg m) in (x, set_reg r m, cs).
Proof. cbn. destruct (f (m_reg m)) as [[x r] cs]. by rewrite app_nil_r. Qed.

Lemma alone_ring {X} (f : ring -> X * ring) m :
  alone (ring_section f) m = let '(x, r) := f (m_ring m) in (x, set_ring r m, []).
Proof. cbn. by destruct (f (m_ring m)) as [x r]. Qed.

Lemma alone_ret {A} (a : A) m : alone (Ret a) m = (a, m, []).
Proof. done. Qed.

Create Rewrite HintDb alone.
#[export] Hint Rewrite @alone_bind @alone_fmap @alone_call @alone_calls @alone_read @alone_reg @alone_ring
  @alone_ret alone_find_task alone_find_task_in_ns_of set_reg_id set_ring_id : alone.

Lemma alone_add_prot_pid k pid ref_pid jit m :
  alone (add_prot_pid_prog k pid ref_pid jit) m =
  let '(ret, _, r, cs) := ac_add_prot_pid k pid ref_pid jit (m_reg m) in (ret, set_reg r m, cs).
Proof.
  unfold add_prot_pid_prog, ac_add_prot_pid, add_prot_task_prog. autorewrite with alone.
  destruct (0 <? ref_pid); autorewrite with alone;
    [destruct (ac_find_task_in_ns_of k pid ref_pid) as [[t|] cs]
    |destruct (ac_find_task k pid) as [[t|] cs]]; cbn [fst snd]; autorewrite with alone;
    rewrite ?app_nil_r; try done;
    destruct (ac_add_prot_task k t jit (m_reg m)) as [[ret r] cs']; autorewrite with alone; done.
Qed.

Lemma alone_exit k m : alone (entry_prog (EExit k)) m = sequential (EExit k) m.
Proof.
  cbn [entry_prog sequential hit_step]. unfold exit_prog, is_protected_task_prog, ac_exit_pre.
  autorewrite with alone.
  destruct (ac_is_protected_task (current k) (m_reg m)) eqn:E; unfold m_reg in E; rewrite E; cbn [negb].
  - unfold emit_section, del_prot_task_prog. autorewrite with alone. cbn [app].
    unfold m_reg. cbn. destruct (ac_del_prot_task _ _) as [r cs]. done.
  - autorewrite with alone. cbn [fst snd]. by rewrite set_guard_id.
Qed.

Lemma alone_exec k m : alone (entry_prog (EExec k)) m = sequential (EExec k) m.
Proof.
  cbn [entry_prog sequential hit_step]. unfold exec_prog, is_protected_task_prog, ac_exec_pre.
  autorewrite with alone.
  destruct (ac_is_protected_task (current k) (m_reg m)) eqn:E; unfold m_reg in E; rewrite E; cbn [negb].
  - done.
  - autorewrite with alone. cbn [fst snd]. by rewrite set_guard_id.
Qed.

Lemma alone_work k m : alone (entry_prog (EWork k)) m = sequential (EWork k) m.
Proof.
  cbn [entry_prog sequential hit_step]. unfold work_prog, ac_kill_worker. autorewrite with alone.
  cbn [alone]. destruct (g_wq (m_guard m)) as [|p ps]; cbn [fst snd].
  - cbn. by rewrite set_guard_id.
  - by destruct (get_pid_task k p).
Qed.

Lemma alone_clone k retval m : alone (entry_prog (EClone k retval)) m = sequential (EClone k retval) m.
Proof.
  cbn [entry_prog sequential hit_step]. unfold clone_prog, is_protected_task_prog, ac_clone_ret.
  destruct (s64 retval <=? 0); [cbn; by rewrite set_guard_id|]. autorewrite with alone.
  destruct (ac_is_protected_task (current k) (m_reg m)) eqn:E; unfold m_reg in E; rewrite E; cbn [negb].
  2:{ autorewrite with alone. cbn [fst snd]. by rewrite set_guard_id. }
  autorewrite with alone. destruct (ac_find_task k (s32 (s64 retval))) as [[c|] cs]; cbn [fst snd].
  2:{ cbn. by rewrite set_guard_id, app_nil_r. }
  unfold add_prot_task_prog, emit_section. autorewrite with alone. unfold m_reg.
  destruct (ac_add_prot_task _ _ _ _) as [[ret r] cs']. by autorewrite with alone.
Qed.

Lemma alone_is_protected_pid k pid m :
  alone (is_protected_pid_prog k pid) m =
  let '(prot, comm, cs) := ac_is_protected_pid k pid (m_reg m) in (prot, comm, m, cs).
Proof.
  unfold is_protected_pid_prog, ac_is_protected_pid, is_protected_task_prog. autorewrite with alone.
  destruct (ac_find_task k pid) as [[t|] cs]; cbn [fst snd]; autorewrite with alone; [done|].
  by rewrite app_nil_r.
Qed.
#[export] Hint Rewrite alone_is_protected_pid alone_add_prot_pid : alone.

Lemma alone_schedule_kill k t m :
  alone (schedule_kill_prog k t) m =
  (tt, set_guard (ac_schedule_kill k (Some t) (m_guard m)).1 m, (ac_schedule_kill k (Some t) (m_guard m)).2).
Proof.
  unfold schedule_kill_prog, ac_schedule_kill. destruct (alloc_state k); [done|].
  cbn. by rewrite set_guard_id.
Qed.

Lemma alone_ptrace k c args m : alone (entry_prog (EPtrace k c args)) m = sequential (EPtrace k c args) m.
Proof.
  cbn [entry_prog sequential]. unfold ptrace_prog, ac_ptrace_pre, is_protected_task_prog.
  rewrite alone_fmap, alone_bind. destruct (_ =? PTRACE_TRACEME); [|destruct (0 <? _)].
  - autorewrite with alone. unfold m_reg. destruct (ac_is_protected_task _ _); cbn [negb].
    + unfold emit_section. by autorewrite with alone.
    + cbn. by rewrite set_guard_id.
  - autorewrite with alone. unfold m_reg.
    destruct (ac_is_protected_pid k _ _) as [[[] comm] cs]; autorewrite with alone; cbn [negb andb].
    + unfold emit_section. autorewrite with alone. cbn [app].
      change (ac_policy (set_ring ?r ?m0)) with (ac_policy m0).
      destruct (negb (Z.land (ac_policy m) 1 =? 0)).
      * rewrite alone_schedule_kill. cbn [m_guard set_ring set_guard].
        unfold emit, m_ring, m_reg. destruct (ac_schedule_kill _ _ _) as [g cs'].
        autorewrite with alone. by rewrite !app_nil_r.
      * autorewrite with alone. by rewrite !app_nil_r.
    + autorewrite with alone. by rewrite !app_nil_r, set_guard_id.
  - cbn. by rewrite set_guard_id.
Qed.

(** The walk is the loop of Snapshot.v with the ring in the shared state. *)
Definition walk_of (s : scan) : walk := Walk (s_vmas s) (s_rwx s) (s_exec s) (s_anon s) (s_nev s).

Lemma alone_walk_vma k pid ev v s m :
  alone (walk_vma k pid ev v (walk_of s)) (set_ring (s_ring s) m) =
  let s' := scan_vma k pid ev v s in
  (walk_of s', set_ring (s_ring s') m, path_calls k (length (s_vmas s)) v).
Proof.
  unfold walk_vma, scan_vma, emit_if, emit_section, walk_of. cbn [w_vmas w_rwx w_exec w_anon w_nev].
  rewrite alone_bind, alone_calls.
  destruct (is_rwx _), (is_anon_exec _), ev; cbn; by rewrite app_nil_r.
Qed.

Lemma alone_walk_loop k pid ev vs : forall s m,
  let '(s', tr) := vma_loop k pid ev vs s in
  exists cs, s_calls s' = s_calls s ++ cs /\
    alone (walk_loop k pid ev vs (walk_of s)) (set_ring (s_ring s) m) =
    ((walk_of s', tr), set_ring (s_ring s') m, cs).
Proof.
  induction vs as [|v vs IH]; intros s m; cbn [walk_loop vma_loop].
  { exists []. by rewrite app_nil_r. }
  destruct (AC_MAX_VMAS <=? length (s_vmas s))%nat eqn:E; cbn [w_vmas walk_of]; rewrite E.
  { exists []. by rewrite app_nil_r. }
  rewrite alone_bind, alone_walk_vma. cbv beta iota zeta.
  specialize (IH (scan_vma k pid ev v s) m).
  destruct (vma_loop k pid ev vs (scan_vma k pid ev v s)) as [s' tr]. destruct IH as (cs & Hc & ->).
  exists (path_calls k (length (s_vmas s)) v ++ cs). by rewrite Hc, scan_vma_calls, app_assoc.
Qed.

Lemma alone_build_vma k st pid ev m :
  alone (build_vma_prog k st pid ev) m =
  let '(ret, st', r, cs) := ac_build_vma_snapshot k st pid ev (m_ring m) in
  ((ret, st'), set_ring r m, cs).
Proof.
  unfold build_vma_prog, ac_build_vma_snapshot. autorewrite with alone.
  destruct (ac_find_task k pid) as [[t|] cs]; cbn [fst snd].
  2:{ by autorewrite with alone; rewrite app_nil_r. }
  destruct (task_vmas k t) as [vs|]; autorewrite with alone; [|done].
  destruct (alloc_bulk k); autorewrite with alone; [|done].
  pose proof (alone_walk_loop k pid (negb (ev =? 0)) vs (Scan [] 0 0 0 (m_ring m) 0 []) m) as H.
  destruct (vma_loop _ _ _ _ _) as [s tr]. destruct H as (cs1 & Hc & H).
  unfold walk_of in H at 1. cbn [s_ring s_vmas s_rwx s_exec s_anon s_nev s_calls app] in H, Hc.
  rewrite set_ring_id in H. rewrite H, Hc. by autorewrite with alone.
Qed.

Lemma alone_check k x js : forall out n m,
  alone (check_prog k x js out n) m =
  let '(out', r, _) := foldl (check_step k x) (out, m_ring m, n) js in (out', set_ring r m, []).
Proof.
  induction js as [|j js IH]; intros out n m; cbn [check_prog foldl]; [by autorewrite with alone|].
  unfold check_step at 2. destruct (table_entry k _ j) as [e|]; [|apply IH].
  destruct (e =? 0); [apply IH|]. destruct (ac_entry_bad k x e); [|apply IH].
  unfold emit_section. autorewrite with alone. rewrite IH. cbn [m_ring m_guard set_ring set_guard g_ring].
  by destruct (foldl _ _ _) as [[out' r] n'].
Qed.

Lemma alone_check_syscalls k m :
  alone (check_syscalls_prog k) m =
  let '(ret, c, r) := ac_check_syscalls k (m_text m) (m_ring m) in ((ret, c), set_ring r m, []).
Proof.
  unfold check_syscalls_prog, ac_check_syscalls. autorewrite with alone.
  destruct (ac_syscall_table (m_text m) =? 0); autorewrite with alone; [done|].
  rewrite alone_check. by destruct (foldl _ _ _) as [[out r] n].
Qed.

Lemma alone_get_fd_state k pd m :
  alone (get_fd_state_prog k pd) m = ((ac_get_fd_state k pd).1, m, (ac_get_fd_state k pd).2).
Proof.
  unfold get_fd_state_prog. destruct (ac_get_fd_state k pd) as [st cs]. autorewrite with alone.
  by rewrite app_nil_r.
Qed.
#[export] Hint Rewrite alone_build_vma alone_check_syscalls alone_get_fd_state : alone.

(** What a reply is, as the result of a program. *)
Definition answered (rp : reply) : option answer * mstate * list kcall :=
  (Some (rp_ret rp, rp_out rp, rp_pd rp), rp_mod rp, rp_calls rp).

Lemma answered_copy k out pd m cs :
  answered (copy_out k out pd m cs) = (Some (copied k out pd), m, cs).
Proof. unfold copy_out, copied. by destruct (user_writable k). Qed.

Lemma alone_ioctl k req pd m :
  alone (ioctl_prog k req pd) m =
  match ac_ioctl k req pd m with Some rp => answered rp | None => (None, m, []) end.
Proof.
  unfold ioctl_prog, ac_ioctl. destruct (capable_admin k); cbn [negb]; [|done].
  destruct req; autorewrite with alone.
  - unfold status_prog, ioctl_status. rewrite answered_copy. by autorewrite with alone.
  - unfold add_proc_prog, ioctl_add_proc. destruct (user_readable k); cbn [negb]; [|done].
    autorewrite with alone. destruct (ac_add_prot_pid _ _ _ _ _) as [[[ret cm] r] cs].
    autorewrite with alone. by rewrite app_nil_r.
  - unfold del_proc_prog, ioctl_del_proc. destruct (user_readable k); cbn [negb]; [|done].
    autorewrite with alone. destruct (ac_find_task k (pi_pid d)) as [[t|] cs]; cbn [fst snd].
    + unfold del_prot_task_prog. autorewrite with alone.
      destruct (ac_del_prot_task t (m_reg m)) as [r cs']. by autorewrite with alone.
    + autorewrite with alone. by rewrite app_nil_r.
  - unfold scan_begin_prog, ioctl_scan_begin. destruct (user_readable k); cbn [negb]; [|done].
    autorewrite with alone. destruct (ac_get_fd_state k pd) as [[st|] cs]; cbn [fst snd].
    2:{ autorewrite with alone. by rewrite app_nil_r. }
    autorewrite with alone. destruct (ac_build_vma_snapshot k st _ _ _) as [[[ret st'] r] cs'].
    destruct (negb (ret =? 0)); autorewrite with alone; rewrite ?answered_copy, app_nil_r; done.
  - cbn [private_prog]. unfold ioctl_scan_get.
    destruct (user_readable k); cbn [negb]; [|done]. destruct pd as [st|]; [|done].
    destruct (fs_n_vmas st <=? sg_index g); [done|]. destruct (fs_vmas st) as [vs|]; [|done].
    cbn [mbind option_bind]. destruct (vs !! _); [|done]. cbn. by rewrite answered_copy.
  - cbn [private_prog]. unfold ioctl_scan_end. destruct pd; [|done]. autorewrite with alone.
    by rewrite app_nil_r.
  - unfold check_syscalls_ioctl_prog, ioctl_check_syscalls. autorewrite with alone.
    destruct (ac_check_syscalls k _ _) as [[ret c] r].
    destruct (negb (ret =? 0)); autorewrite with alone; [done|]. by rewrite answered_copy.
  - unfold mods_begin_prog, ioctl_mods_begin. autorewrite with alone.
    destruct (ac_get_fd_state k pd) as [[st|] cs]; cbn [fst snd].
    2:{ autorewrite with alone. by rewrite app_nil_r. }
    destruct (ac_build_mod_snapshot k st) as [[ret st'] cs']. autorewrite with alone.
    destruct (negb (ret =? 0)); autorewrite with alone; rewrite ?answered_copy, app_nil_r; done.
  - cbn [private_prog]. unfold ioctl_mods_get.
    destruct (user_readable k); cbn [negb]; [|done]. destruct pd as [st|]; [|done].
    destruct (fs_n_mods st <=? mg_index g); [done|]. destruct (fs_mods st) as [vs|]; [|done].
    cbn [mbind option_bind]. destruct (vs !! _); [|done]. cbn. by rewrite answered_copy.
  - cbn [private_prog]. unfold ioctl_mods_end. destruct pd; [|done]. autorewrite with alone.
    by rewrite app_nil_r.
  - unfold get_events_prog, ioctl_get_events. destruct (alloc_bulk k); cbn [negb]; [|done].
    autorewrite with alone. destruct (ac_drain_events (m_ring m)) as [el r].
    by rewrite answered_copy.
  - done.
  - unfold list_protected_prog, ioctl_list_protected. rewrite answered_copy. by autorewrite with alone.
  - unfold lock_prog, ioctl_lock. by destruct (try_module_get k).
  - unfold unlock_prog, ioctl_unlock. autorewrite with alone. by destruct (0 <? ac_lock_count m).
  - done.
Qed.

Lemma alone_entry e m : alone (entry_prog e) m = sequential e m.
Proof.
  destruct e as [k c args|k retval|k|k|k|k req pd];
    [apply alone_ptrace|apply alone_clone|apply alone_exit|apply alone_exec|apply alone_work|].
  cbn [entry_prog sequential]. rewrite alone_fmap, alone_ioctl.
  by destruct (ac_ioctl k req pd m) as [rp|].
Qed.
