(* ===== verification/Interleave.v ===== *)
(** * Interleavings of the module's entry points

    Any number of the programs of Smp.v on any number of processors: what each
    holds while it runs, that every interleaving keeps the module's invariant
    and its references accounted for, what a handler can rely on, and the races
    that remain. *)

From Stdlib Require Import ZArith Lia.
From stdpp Require Import base numbers list gmap strings.
From S2P Require Import Prelude Abi Ring Kernel Registry SyscallTable Probes Snapshot Ioctl Smp.

(** ** What a running program holds

    A program holds the references of the calls it made and has neither
    dropped again nor handed to the shared state: a list of calls, up to
    their net effect. *)

(** The blocks that no file owns: kill requests, path buffers, event lists. *)
Definition temps (x : mem) (cs : list kcall) : Z :=
  match x with MemState | MemArray => 0 | _ => allocs x cs end.

(** Those that the shared state records: one kill request per queued kill. *)
Definition queued (x : mem) (m : mstate) : Z :=
  match x with MemReq => Z.of_nat (length (g_wq (m_guard m))) | _ => 0 end.

Lemma temps_app x cs cs' : temps x (cs ++ cs') = temps x cs + temps x cs'.
Proof. destruct x; unfold temps; rewrite ?allocs_app; lia. Qed.

Lemma temps_nil x : temps x [] = 0.
Proof. by destruct x. Qed.

Lemma temps_free x cs : (forall x, allocs x cs = 0) -> temps x cs = 0.
Proof. intros H. destruct x; cbn [temps]; rewrite ?H; done. Qed.

Definition same_refs (h h' : list kcall) : Prop :=
  forall t p x,
    task_refs t h = task_refs t h' /\ pid_refs p h = pid_refs p h' /\
    mm_refs t h = mm_refs t h' /\ module_refs h = module_refs h' /\ temps x h = temps x h'.

#[export] Instance same_refs_equiv : Equivalence same_refs.
Proof.
  split.
  - intros h t p x. done.
  - intros h h' H t p x. destruct (H t p x) as (-> & -> & -> & -> & ->). done.
  - intros h1 h2 h3 H H' t p x. destruct (H t p x) as (-> & -> & -> & -> & ->). apply H'.
Qed.

#[export] Instance same_refs_app : Proper (same_refs ==> same_refs ==> same_refs) app.
Proof.
  intros h1 h1' H1 h2 h2' H2 t p x.
  destruct (H1 t p x) as (? & ? & ? & ? & ?), (H2 t p x) as (? & ? & ? & ? & ?).
  rewrite !task_refs_app, !pid_refs_app, !mm_refs_app, !module_refs_app, !temps_app.
  split_and!; lia.
Qed.

(** A section takes the calls [cs] and leaves the program with [h'] for [h]:
    the difference is what the shared state records. *)
Definition transfers (h : list kcall) (m : mstate) (cs h' : list kcall) (m' : mstate) : Prop :=
  forall t p x,
    task_refs t h + task_refs t cs = slot_refs (m_reg m') t - slot_refs (m_reg m) t + task_refs t h' /\
    pid_refs p h + pid_refs p cs = pending (m_guard m') p - pending (m_guard m) p + pid_refs p h' /\
    mm_refs t h + mm_refs t cs = mm_refs t h' /\
    ac_lock_count m' = s32 (ac_lock_count m + (module_refs h + module_refs cs - module_refs h')) /\
    temps x h + temps x cs = queued x m' - queued x m + temps x h'.

Fixpoint accounts {A} (Q : A -> list kcall) (h : list kcall) (p : prog A) : Prop :=
  match p with
  | Ret a => same_refs h (Q a)
  | Sect act next =>
      forall m, mod_inv m ->
        mod_inv (act m).1.2 /\
        exists h', transfers h m (act m).2 h' (act m).1.2 /\ accounts Q h' (next (act m).1.1)
  end.

Lemma transfers_same h1 h2 m cs h' m' : same_refs h1 h2 -> transfers h1 m cs h' m' -> transfers h2 m cs h' m'.
Proof. intros H T t p x. destruct (H t p x) as (<- & <- & <- & <- & <-). apply T. Qed.

Lemma accounts_same {A} (Q : A -> list kcall) h h' p : same_refs h h' -> accounts Q h p -> accounts Q h' p.
Proof.
  intros H. destruct p as [a|X act next]; simpl; [intros Hh; by rewrite <- H|].
  intros Hp m Hm. destruct (Hp m Hm) as (H1 & h1 & H2 & H3). split; [done|]. exists h1.
  split; [|done]. by eapply transfers_same.
Qed.

Lemma accounts_bind {A B} (Q : A -> list kcall) (R : B -> list kcall) h p (f : A -> prog B) :
  accounts Q h p -> (forall a, accounts R (Q a) (f a)) -> accounts R h (p ≫= f).
Proof.
  intros Hp Hf. revert h Hp. induction p as [a|X act next IH]; intros h Hp.
  - cbn. eapply accounts_same; [symmetry; exact Hp|apply Hf].
  - intros m Hm. destruct (Hp m Hm) as (H1 & h1 & H2 & H3). split; [done|]. exists h1.
    split; [done|]. by apply IH.
Qed.

Lemma accounts_weaken {A} (Q R : A -> list kcall) h p :
  (forall a, same_refs (Q a) (R a)) -> accounts Q h p -> accounts R h p.
Proof.
  intros HQ. revert h. induction p as [a|X act next IH]; intros h Hp; cbn in *; [by rewrite <- HQ|].
  intros m Hm. destruct (Hp m Hm) as (H1 & h1 & H2 & H3). split; [done|]. exists h1. split; [done|by apply IH].
Qed.

Lemma accounts_ret {A} (Q : A -> list kcall) h a : same_refs h (Q a) -> accounts Q h (Ret a).
Proof. done. Qed.

Lemma accounts_fmap {A B} (f : A -> B) (R : B -> list kcall) h p :
  accounts (fun a => R (f a)) h p -> accounts R h (f <$> p).
Proof. intros Hp. eapply accounts_bind; [exact Hp|]. intros a. by apply accounts_ret. Qed.

Lemma lock_kept m d : mod_inv m -> d = 0 -> ac_lock_count m = s32 (ac_lock_count m + d).
Proof. intros [_ Hl] ->. by rewrite Z.add_0_r, s32_id. Qed.

(** A section that leaves registry, queue and lock count alone keeps its calls. *)
Lemma accounts_quiet {A} (act : mstate -> A * mstate * list kcall) h (c : list kcall) :
  (forall m, mod_inv m -> mod_inv (act m).1.2 /\ m_reg (act m).1.2 = m_reg m /\
     g_wq (m_guard (act m).1.2) = g_wq (m_guard m) /\ ac_lock_count (act m).1.2 = ac_lock_count m /\
     (act m).2 = c) ->
  accounts (fun _ => h ++ c) h (Sect act Ret).
Proof.
  intros H m Hm. destruct (H m Hm) as (H1 & H2 & H3 & H4 & H5). split; [done|]. exists (h ++ c).
  split; [|by apply accounts_ret]. intros t p x. rewrite H2, H4, H5.
  unfold pending, queued. rewrite H3.
  rewrite task_refs_app, pid_refs_app, mm_refs_app, module_refs_app, temps_app.
  split_and!; try lia. apply lock_kept; [done|lia].
Qed.

Lemma accounts_call c h : accounts (fun _ => h ++ [c]) h (call c).
Proof. by apply accounts_quiet. Qed.

Lemma accounts_calls cs : forall h, accounts (fun _ => h ++ cs) h (calls cs).
Proof.
  induction cs as [|c cs IH]; intros h; [apply accounts_ret; by rewrite app_nil_r|].
  change (calls (c :: cs)) with (call c ≫= fun _ => calls cs).
  eapply accounts_bind; [apply accounts_call|]. intros ?.
  eapply accounts_weaken; [|apply IH]. intros ?. by rewrite <- app_assoc.
Qed.

Lemma accounts_read {X} (f : mstate -> X) h : accounts (fun _ => h) h (read f).
Proof.
  eapply accounts_weaken; [|apply (accounts_quiet _ h [])]; [intros ?; by rewrite app_nil_r|done].
Qed.

Lemma accounts_reg_read {X} (f : registry -> X) h :
  accounts (fun _ => h) h (reg_section (fun r => (f r, r, []))).
Proof.
  eapply accounts_weaken; [|apply (accounts_quiet _ h [])]; [intros ?; by rewrite app_nil_r|].
  intros m Hm. cbn. by rewrite set_reg_id.
Qed.

Lemma accounts_ring {X} (f : ring -> X * ring) h :
  (forall r, ring_inv r -> ring_inv (f r).2) -> accounts (fun _ => h) h (ring_section f).
Proof.
  intros Hf. eapply accounts_weaken; [|apply (accounts_quiet _ h [])]; [intros ?; by rewrite app_nil_r|].
  intros m [[Hr Hq] Hl]. pose proof (Hf _ Hq) as H. unfold m_ring.
  destruct (f (g_ring (m_guard m))) as [x r]. cbn in *. by split_and!.
Qed.

Lemma accounts_emit ev h : accounts (fun _ => h) h (emit_section ev).
Proof. apply accounts_ring. intros r Hr. by apply ac_emit_refines. Qed.

(** The two sections that move references between the program and the slots. *)
Lemma accounts_reg {X} (f : registry -> X * registry * list kcall) h :
  (forall r, registry_inv r ->
     registry_inv (f r).1.2 /\
     forall t p, task_refs t (f r).2 = slot_refs (f r).1.2 t - slot_refs r t /\ pid_refs p (f r).2 = 0 /\
       mm_refs t (f r).2 = 0 /\ module_refs (f r).2 = 0 /\ forall x, allocs x (f r).2 = 0) ->
  accounts (fun _ => h) h (reg_section f).
Proof.
  intros Hf m Hm. pose proof Hm as [[Hr Hq] Hl]. destruct (Hf _ Hr) as [H1 H2]. unfold m_reg.
  destruct (f (g_reg (m_guard m))) as [[x r] cs]. cbn [fst snd] in *. split; [by split|].
  exists h. split; [|by apply accounts_ret]. intros t p y.
  destruct (H2 t p) as (E1 & E2 & E3 & E4 & E5). pose proof (temps_free y cs E5) as E6.
  unfold pending, m_reg, queued. cbn. rewrite E1, E2, E3, E4, E6. split_and!; try lia.
  apply lock_kept; [done|lia].
Qed.

Lemma accounts_add k t jit h : accounts (fun _ => h) h (add_prot_task_prog k t jit).
Proof.
  apply accounts_reg. intros r Hr. pose proof (ac_add_refines k t jit r Hr) as Ha.
  assert (Hb := fun t' p' => ac_add_refs k t jit r t' p' Hr).
  pose proof (ac_add_ref_calls k t jit r) as Hc.
  destruct (ac_add_prot_task k t jit r) as [[ret r'] cs]. cbn [fst snd] in *. split; [apply Ha|].
  intros t' p'. destruct (Hb t' p') as (? & ? & ?), (ref_calls_pure cs t' Hc) as (? & ? & ?). done.
Qed.

Lemma accounts_del t h : accounts (fun _ => h) h (del_prot_task_prog t).
Proof.
  apply accounts_reg. intros r Hr. pose proof (ac_del_refines t r Hr) as Ha.
  assert (Hb := fun t' p' => ac_del_refs t r t' p' Hr). pose proof (ac_del_ref_calls t r) as Hc.
  destruct (ac_del_prot_task t r) as [r' cs]. cbn [fst snd] in *. split; [apply Ha|].
  intros t' p'. destruct (Hb t' p') as (? & ? & ?), (ref_calls_pure cs t' Hc) as (? & ? & ?). done.
Qed.

Create HintDb acc.
#[export] Hint Resolve accounts_call accounts_calls accounts_read accounts_reg_read accounts_emit
  accounts_add accounts_del : acc.

(** What a lookup leaves its caller with. *)
Definition found (t : option task) : list kcall :=
  match t with Some t => [KGetTask t] | None => [] end.

(** Equations between explicit call lists. *)
Ltac same_refs :=
  let y := fresh in
  intros ? ? y; unfold found; split_and!; [..|destruct y; cbn [temps]]; refs_simpl.

(** One bind whose first part is known, or the end of the program. *)
Ltac acc_bind := eapply accounts_bind; [eauto with acc|intros ?; cbn beta].
Ltac acc_end :=
  first [apply accounts_ret; solve [same_refs]
        |eapply accounts_weaken; [|eauto with acc]; intros ?; solve [same_refs]].

Section accounting.
Context (k : kernel).

Lemma accounts_find_task pid h : accounts (fun t => h ++ found t) h (find_task_prog k pid).
Proof.
  unfold find_task_prog. destruct (find_get_pid k pid) as [p|]; [|acc_end].
  acc_bind. destruct (get_pid_task k p) as [t|]; repeat acc_bind; acc_end.
Qed.
Hint Resolve accounts_find_task : acc.

Lemma accounts_find_task_in_ns_of nr ref_pid h :
  accounts (fun t => h ++ found t) h (find_task_in_ns_of_prog k nr ref_pid).
Proof.
  unfold find_task_in_ns_of_prog. acc_bind. destruct a as [r|]; [|acc_end].
  destruct (_ ≫= _) as [p|]; [|acc_bind; acc_end].
  do 2 acc_bind. destruct (get_pid_task k p); repeat acc_bind; acc_end.
Qed.

Lemma accounts_is_protected_pid pid h : accounts (fun _ => h) h (is_protected_pid_prog k pid).
Proof.
  unfold is_protected_pid_prog, is_protected_task_prog. acc_bind. destruct a as [t|]; [|acc_end].
  repeat acc_bind; acc_end.
Qed.
Hint Resolve accounts_is_protected_pid : acc.

Lemma accounts_add_prot_pid pid ref_pid jit h : accounts (fun _ => h) h (add_prot_pid_prog k pid ref_pid jit).
Proof.
  unfold add_prot_pid_prog.
  eapply (accounts_bind (fun t => h ++ found t)).
  { destruct (0 <? ref_pid); [apply accounts_find_task_in_ns_of|apply accounts_find_task]. }
  intros [t|]; [|acc_end]. repeat acc_bind; acc_end.
Qed.
Hint Resolve accounts_add_prot_pid : acc.

(** Queueing a kill hands the request and its pid reference to the queue. *)
Lemma accounts_schedule_kill t h : accounts (fun _ => h) h (schedule_kill_prog k t).
Proof.
  unfold schedule_kill_prog. destruct (alloc_state k); [|acc_end]. do 2 acc_bind.
  intros m Hm. split; [by destruct Hm as [[]]|]. exists h. split; [|by apply accounts_ret].
  intros t' p' x. cbn. unfold pending. cbn. rewrite filter_app, length_app, filter_cons.
  split_and!; [refs_simpl|case_decide; refs_simpl; simpl; lia|refs_simpl| |].
  - apply lock_kept; [done|refs_simpl].
  - destruct x; cbn [temps queued m_guard set_wq set_guard g_wq]; rewrite ?length_app; refs_simpl; simpl; lia.
Qed.
Hint Resolve accounts_schedule_kill : acc.

Lemma accounts_ptrace c args : accounts (fun _ => []) [] (ptrace_prog k c args).
Proof.
  unfold ptrace_prog, is_protected_task_prog. eapply (accounts_bind (fun _ => [])).
  { destruct (_ =? PTRACE_TRACEME); [acc_bind; acc_end|]. destruct (0 <? _); [|acc_end].
    acc_bind. destruct a as [prot comm]. acc_end. }
  intros [[[deny kill] target] tcomm]. destruct (negb deny); [acc_end|]. do 2 acc_bind.
  eapply (accounts_bind (fun _ => [])); [|intros ?; acc_end].
  destruct (kill && _); [eauto with acc|acc_end].
Qed.

Lemma accounts_clone retval : accounts (fun _ => []) [] (clone_prog k retval).
Proof.
  unfold clone_prog, is_protected_task_prog. destruct (_ <=? 0); [acc_end|].
  acc_bind. destruct (negb a); [acc_end|]. acc_bind. destruct a0 as [c|]; [|acc_end].
  do 3 acc_bind. acc_end.
Qed.

Lemma accounts_exit : accounts (fun _ => []) [] (exit_prog k).
Proof.
  unfold exit_prog, is_protected_task_prog. acc_bind. destruct (negb a); [acc_end|]. acc_bind. acc_end.
Qed.

Lemma accounts_exec : accounts (fun _ => []) [] (exec_prog k).
Proof.
  unfold exec_prog, is_protected_task_prog. acc_bind. destruct (negb a); [acc_end|]. acc_end.
Qed.

(** Taking an item hands the request and its pid reference to the worker. *)
Lemma accounts_work : accounts (fun _ => []) [] (work_prog k).
Proof.
  unfold work_prog.
  eapply (accounts_bind (fun p => match p with Some p => [KAlloc MemReq; KGetPid p] | None => [] end)).
  - intros m Hm. destruct (g_wq (m_guard m)) as [|p ps] eqn:E; cbn [fst snd].
    + split; [done|]. exists []. split; [|by apply accounts_ret].
      intros t p x. split_and!; [refs_simpl..|apply lock_kept; [done|refs_simpl]|rewrite temps_nil; lia].
    + split; [by destruct Hm as [[]]|]. exists [KAlloc MemReq; KGetPid p]. split; [|by apply accounts_ret].
      intros t p' x. cbn. unfold pending. cbn. rewrite E, filter_cons.
      split_and!; [refs_simpl|case_decide; refs_simpl; simpl; lia|refs_simpl| |].
      * apply lock_kept; [done|refs_simpl].
      * destruct x; cbn [temps queued m_guard set_wq set_guard g_wq]; rewrite ?E; refs_simpl; simpl; lia.
  - intros [p|]; [|acc_end].
    eapply (accounts_bind (fun _ => [KAlloc MemReq; KGetPid p])); [|intros ?; acc_bind; acc_end].
    destruct (get_pid_task k p); [|acc_end]. do 2 acc_bind. acc_end.
Qed.
End accounting.

Section accounting_ioctl.
Context (k : kernel).
Hint Resolve accounts_find_task accounts_add_prot_pid : acc.

Lemma accounts_emit_if ev e n h : accounts (fun _ => h) h (emit_if ev e n).
Proof. unfold emit_if. destruct ev; [acc_bind|]; acc_end. Qed.
Hint Resolve accounts_emit_if : acc.

Lemma accounts_path i v h : accounts (fun _ => h) h (calls (path_calls k i v)).
Proof.
  unfold path_calls. destruct (vm_file v); [destruct (alloc_path k i)|]; [|acc_end..].
  eapply accounts_weaken; [|apply accounts_calls]. intros ?. same_refs.
Qed.

Lemma accounts_walk_vma pid ev v w h : accounts (fun _ => h) h (walk_vma k pid ev v w).
Proof.
  unfold walk_vma. eapply (accounts_bind (fun _ => h)); [apply accounts_path|intros _].
  eapply (accounts_bind (fun _ => h)); [destruct (is_rwx _); [eauto with acc|acc_end]|].
  intros n1. eapply (accounts_bind (fun _ => h)); [destruct (is_anon_exec _); [eauto with acc|acc_end]|].
  intros n2. acc_end.
Qed.
Hint Resolve accounts_walk_vma : acc.

Lemma accounts_walk_loop pid ev vs h : forall w, accounts (fun _ => h) h (walk_loop k pid ev vs w).
Proof.
  induction vs as [|v vs IH]; intros w; cbn [walk_loop]; [acc_end|].
  destruct (_ <=? _)%nat; [acc_end|]. acc_bind. apply IH.
Qed.
Hint Resolve accounts_walk_loop : acc.

Lemma accounts_kvfree {A} (x : option A) h : accounts (fun _ => h) h (calls (kvfree x)).
Proof.
  destruct x; cbn [kvfree]; [|acc_end].
  eapply accounts_weaken; [|apply accounts_calls]. intros ?. same_refs.
Qed.
Hint Resolve accounts_kvfree : acc.

Lemma accounts_build_vma st pid ev h : accounts (fun _ => h) h (build_vma_prog k st pid ev).
Proof.
  unfold build_vma_prog. eapply (accounts_bind (fun _ => h)); [apply accounts_kvfree|intros ?].
  acc_bind. destruct a0 as [t|]; [|acc_end]. destruct (task_vmas k t) as [vs|]; [|acc_bind; acc_end].
  do 2 acc_bind. destruct (alloc_bulk k); [|acc_bind; acc_end]. do 2 acc_bind.
  destruct a3 as [w tr]. acc_bind. acc_end.
Qed.
Hint Resolve accounts_build_vma : acc.

Lemma accounts_check x js h : forall out n, accounts (fun _ => h) h (check_prog k x js out n).
Proof.
  induction js as [|j js IH]; intros out n; cbn [check_prog]; [acc_end|].
  destruct (table_entry _ _ _) as [e|]; [|apply IH]. destruct (e =? 0); [apply IH|].
  destruct (ac_entry_bad _ _ _); [acc_bind|]; apply IH.
Qed.
Hint Resolve accounts_check : acc.

Lemma accounts_get_fd_state pd h : accounts (fun _ => h) h (get_fd_state_prog k pd).
Proof.
  unfold get_fd_state_prog, ac_get_fd_state. destruct pd; [|destruct (alloc_state k)]; acc_bind; acc_end.
Qed.
Hint Resolve accounts_get_fd_state : acc.

(** The lock count takes over the reference of [try_module_get], and gives it
    to the caller of [module_put]. *)
Lemma accounts_count d h h' :
  module_refs h - module_refs h' = d ->
  (forall t p x, task_refs t h = task_refs t h' /\ pid_refs p h = pid_refs p h' /\
     mm_refs t h = mm_refs t h' /\ temps x h = temps x h') ->
  accounts (fun _ => h') h (Sect (fun m => (tt, set_lock (s32 (ac_lock_count m + d)) m, [])) Ret).
Proof.
  intros Hd Hh m [Hg Hl]. split; [split; [done|apply s32_range]|]. exists h'.
  split; [|by apply accounts_ret]. intros t p x. destruct (Hh t p x) as (-> & -> & -> & ->). cbn [fst snd].
  change (m_reg (set_lock _ m)) with (m_reg m). change (m_guard (set_lock _ m)) with (m_guard m).
  change (task_refs t []) with 0. change (pid_refs p []) with 0. change (mm_refs t []) with 0.
  change (module_refs []) with 0. rewrite temps_nil. change (queued x (set_lock _ m)) with (queued x m).
  split_and!; [lia..| |lia]. cbn [ac_lock_count set_lock]. f_equal. lia.
Qed.

Lemma accounts_ioctl req pd : accounts (fun _ => []) [] (ioctl_prog k req pd).
Proof.
  unfold ioctl_prog. destruct (negb (capable_admin k)); [acc_end|].
  destruct req; try apply accounts_fmap; try (cbn [private_prog]; acc_end).
  - unfold status_prog. repeat acc_bind. acc_end.
  - unfold add_proc_prog. destruct (negb _); [acc_end|]. acc_bind. acc_end.
  - unfold del_proc_prog. destruct (negb _); [acc_end|]. acc_bind.
    destruct a as [t|]; [|acc_end]. do 2 acc_bind. acc_end.
  - unfold scan_begin_prog. destruct (negb _); [acc_end|]. acc_bind. destruct a as [st|]; [|acc_end].
    acc_bind. destruct a as [ret st']. destruct (negb _); acc_end.
  - cbn [private_prog]. destruct pd; [|acc_end].
    eapply (accounts_bind (fun _ => [])); [apply accounts_kvfree|intros ?; acc_end].
  - unfold check_syscalls_ioctl_prog, check_syscalls_prog.
    eapply (accounts_bind (fun _ => [])).
    { acc_bind. destruct (_ =? 0); [acc_end|]. acc_bind. acc_end. }
    intros [ret c]. destruct (negb _); [acc_end|].
    eapply (accounts_bind (fun _ => [] ++ [])); [by apply accounts_quiet; intros m []|intros ?; acc_end].
  - unfold mods_begin_prog, ac_build_mod_snapshot. acc_bind. destruct a as [st|]; [|acc_end].
    destruct (alloc_bulk k).
    + eapply (accounts_bind (fun _ => [])); [|intros ?; destruct (negb _); acc_end].
      eapply accounts_weaken; [|apply accounts_calls]. intros ?.
      destruct (fs_mods st); cbn [kvfree]; same_refs.
    + eapply (accounts_bind (fun _ => [])); [apply accounts_kvfree|intros ?; destruct (negb _); acc_end].
  - cbn [private_prog]. destruct pd; [|acc_end].
    eapply (accounts_bind (fun _ => [])); [apply accounts_kvfree|intros ?; acc_end].
  - unfold get_events_prog. destruct (negb _); [acc_end|].
    acc_bind. eapply (accounts_bind (fun _ => [KAlloc MemEvents])); [|intros ?; acc_bind; acc_end].
    apply accounts_ring. intros r Hr. pose proof (ac_drain_refines r Hr) as H.
    destruct (ac_drain_events r). by apply H.
  - unfold flush_events_prog. eapply (accounts_bind (fun _ => [])); [|intros ?; acc_end].
    apply accounts_ring. intros r Hr. by apply ac_flush_refines.
  - unfold list_protected_prog. acc_bind. acc_end.
  - unfold lock_prog. destruct (try_module_get k); [|acc_end]. acc_bind.
    eapply (accounts_bind (fun _ => [])); [apply accounts_count; [done|intros ?? x; split_and!; [..|destruct x; cbn [temps]]; refs_simpl]|].
    intros ?. acc_end.
  - unfold unlock_prog. acc_bind. destruct (0 <? a); [|acc_end].
    eapply (accounts_bind (fun _ => [KModuleGet]));
      [apply (accounts_count (-1)); [done|intros ?? x; split_and!; [..|destruct x; cbn [temps]]; refs_simpl]|].
    intros ?. acc_bind. acc_end.
Qed.
End accounting_ioctl.

Lemma accounts_entry e : accounts (fun _ => []) [] (entry_prog e).
Proof.
  destruct e; apply accounts_fmap.
  - apply accounts_ptrace.
  - apply accounts_clone.
  - apply accounts_exit.
  - apply accounts_exec.
  - apply accounts_work.
  - apply accounts_ioctl.
Qed.

(** ** Interleavings *)

(** The static state and the programs entered so far, finished ones included. *)
Record pool := Pool { po_mod : mstate; po_threads : list (prog outcome) }.

(** A step enters a new program ([Some e]) or runs one section of one. *)
Inductive pool_step : pool -> option entry -> list kcall -> pool -> Prop :=
  | pool_enter e s :
      pool_step s (Some e) [] (Pool (po_mod s) (po_threads s ++ [entry_prog e]))
  | pool_run i X (act : mstate -> X * mstate * list kcall) next s :
      po_threads s !! i = Some (Sect act next) ->
      pool_step s None (act (po_mod s)).2
        (Pool (act (po_mod s)).1.2 (<[i := next (act (po_mod s)).1.1]> (po_threads s))).

(** Histories in which only entries of [E] are made and every step starts in a
    state of [R]. *)
Inductive reaches_in (E : entry -> Prop) (R : mstate -> Prop) (s0 : pool) : list kcall -> pool -> Prop :=
  | pool_start : reaches_in E R s0 [] s0
  | pool_next cs s l cs' s' :
      reaches_in E R s0 cs s -> R (po_mod s) -> (forall e, l = Some e -> E e) -> pool_step s l cs' s' ->
      reaches_in E R s0 (cs ++ cs') s'.

Definition pool_reaches : pool -> list kcall -> pool -> Prop :=
  reaches_in (fun _ => True) (fun _ => True).

Definition finished (s : pool) : Prop := Forall (fun p => exists o, p = Ret o) (po_threads s).

(** The calls [cs] made since [m0] account for the shared state and for what
    the programs [hs] hold. *)
Definition shares (m0 : mstate) (cs : list kcall) (m : mstate) (hs : list (list kcall)) : Prop :=
  transfers [] m0 cs (concat hs) m.

Record pool_inv (m0 : mstate) (cs : list kcall) (s : pool) (hs : list (list kcall)) : Prop := {
  pv_mod : mod_inv (po_mod s);
  pv_threads : Forall2 (accounts (fun _ => [])) hs (po_threads s);
  pv_shares : shares m0 cs (po_mod s) hs
}.

(** Exchanging one entry of a list of holdings. *)
Lemma concat_insert {A} (ls : list (list A)) i l l' :
  ls !! i = Some l ->
  exists l1 l2, concat ls = l1 ++ l ++ l2 /\ concat (<[i := l']> ls) = l1 ++ l' ++ l2.
Proof.
  intros Hi. exists (concat (take i ls)), (concat (drop (S i) ls)). split.
  - rewrite <- (take_drop_middle ls i l Hi) at 1. rewrite concat_app. done.
  - rewrite insert_take_drop by (by eapply lookup_lt_Some). rewrite concat_app. done.
Qed.

(** Transfers of one program add up with what the others hold. *)
Lemma transfers_frame h m cs h' m' m0 cs0 l1 l2 :
  transfers [] m0 cs0 (l1 ++ h ++ l2) m -> transfers h m cs h' m' ->
  transfers [] m0 (cs0 ++ cs) (l1 ++ h' ++ l2) m'.
Proof.
  intros T0 T t p x.
  destruct (T0 t p x) as (A1 & A2 & A3 & A4 & A5), (T t p x) as (B1 & B2 & B3 & B4 & B5).
  rewrite !task_refs_app in *. rewrite !pid_refs_app in *. rewrite !mm_refs_app in *.
  rewrite !module_refs_app in *. rewrite !temps_app in *. split_and!; try lia. rewrite B4, A4, s32_add. f_equal. lia.
Qed.

Lemma transfers_refl h m : mod_inv m -> transfers h m [] h m.
Proof.
  intros Hm t p x. change (task_refs t []) with 0. change (pid_refs p []) with 0.
  change (mm_refs t []) with 0. change (module_refs []) with 0. rewrite temps_nil.
  split_and!; [lia..| |lia]. apply lock_kept; [done|lia].
Qed.

Lemma pool_step_inv m0 cs s hs l cs' s' :
  pool_inv m0 cs s hs -> pool_step s l cs' s' -> exists hs', pool_inv m0 (cs ++ cs') s' hs'.
Proof.
  intros [Hm Ht Hs] Hstep. destruct Hstep as [e s|i X act next s Hi].
  - exists (hs ++ [[]]). split; cbn [po_mod po_threads]; [done| |].
    + apply Forall2_app; [done|]. constructor; [apply accounts_entry|constructor].
    + unfold shares. rewrite concat_app. cbn. by rewrite !app_nil_r.
  - destruct (Forall2_lookup_r _ _ _ _ _ Ht Hi) as (h & Hh & Hp).
    destruct (Hp _ Hm) as (Hm' & h' & Htr & Hp'). exists (<[i := h']> hs).
    split; cbn [po_mod po_threads]; [done|by apply Forall2_insert|].
    destruct (concat_insert hs i h h' Hh) as (l1 & l2 & E & E'). unfold shares in *. rewrite E'.
    rewrite E in Hs. by eapply transfers_frame.
Qed.

Lemma pool_reaches_inv E R m0 cs s :
  mod_inv m0 -> reaches_in E R (Pool m0 []) cs s -> exists hs, pool_inv m0 cs s hs.
Proof.
  intros Hm. induction 1 as [|cs s l cs' s' _ [hs IH] _ _ Hstep]; [|by eapply pool_step_inv].
  exists []. split; [done|constructor|]. by apply transfers_refl.
Qed.

Lemma reaches_in_trans E R s1 cs s2 cs' s3 :
  reaches_in E R s1 cs s2 -> reaches_in E R s2 cs' s3 -> reaches_in E R s1 (cs ++ cs') s3.
Proof.
  intros H12. induction 1 as [|cs' s l cs'' s' _ IH HR HE Hs]; [by rewrite app_nil_r|].
  rewrite app_assoc. by eapply pool_next.
Qed.

(** A program that is let run to its end. *)
Lemma pool_finish_one i p : forall m ts,
  ts !! i = Some p ->
  exists cs o m', pool_reaches (Pool m ts) cs (Pool m' (<[i := Ret o]> ts)).
Proof.
  induction p as [o|X act next IH]; intros m ts Hi.
  - exists [], o, m. rewrite list_insert_id by done. apply pool_start.
  - destruct (IH (act m).1.1 (act m).1.2 (<[i := next (act m).1.1]> ts)) as (cs & o & m' & Hr).
    { apply list_lookup_insert_eq. by eapply lookup_lt_Some. }
    rewrite list_insert_insert_eq in Hr. exists (([] ++ (act m).2) ++ cs), o, m'.
    eapply reaches_in_trans; [|exact Hr]. eapply pool_next; [apply pool_start|done|done|].
    by apply (pool_run i X act next (Pool m ts)).
Qed.

Lemma pool_finish_first j : forall m ts,
  (j <= length ts)%nat ->
  exists cs m' ts', pool_reaches (Pool m ts) cs (Pool m' ts') /\ length ts' = length ts /\
    forall i p, (i < j)%nat -> ts' !! i = Some p -> exists o, p = Ret o.
Proof.
  induction j as [|j IH]; intros m ts Hj.
  { exists [], m, ts. split_and!; [apply pool_start|done|lia]. }
  destruct (IH m ts ltac:(lia)) as (cs & m1 & ts1 & Hr & Hl & Hf).
  destruct (lookup_lt_is_Some_2 ts1 j) as [p Hp]; [lia|].
  destruct (pool_finish_one j p m1 ts1 Hp) as (cs' & o & m2 & Hr').
  exists (cs ++ cs'), m2, (<[j := Ret o]> ts1).
  split_and!; [by eapply reaches_in_trans|by rewrite length_insert|].
  intros i q Hi Hq. destruct (decide (i = j)) as [->|Hne].
  - rewrite list_lookup_insert_eq in Hq by (by eapply lookup_lt_Some). injection Hq as <-. by exists o.
  - rewrite list_lookup_insert_ne in Hq by done. apply (Hf i q); [lia|done].
Qed.

Lemma pool_can_finish s : exists cs s', pool_reaches s cs s' /\ finished s'.
Proof.
  destruct s as [m ts].
  destruct (pool_finish_first (length ts) m ts ltac:(lia)) as (cs & m' & ts' & Hr & Hl & Hf).
  exists cs, (Pool m' ts'). split; [done|]. apply Forall_lookup. intros i p Hp.
  apply (Hf i p); [|done]. rewrite <- Hl. by eapply lookup_lt_Some.
Qed.

Lemma finished_holds hs s :
  Forall2 (accounts (fun _ => [])) hs (po_threads s) -> finished s -> same_refs (concat hs) [].
Proof.
  unfold finished. intros H. induction H as [|h p hs ps Hp _ IH]; intros Hf; [done|].
  apply Forall_cons in Hf as [[o ->] Hf]. cbn [concat]. cbn in Hp. rewrite Hp. by apply IH.
Qed.

(** ** What a program ensures

    Rely and guarantee: if every section starts in a state of [I], then every
    section is a step of [G] and the result satisfies [Q]; other programs may
    run in between. *)
Fixpoint ensures {A} (I : mstate -> Prop) (G : mstate -> mstate -> Prop) (Q : A -> Prop) (p : prog A) : Prop :=
  match p with
  | Ret a => Q a
  | Sect act next =>
      forall m, mod_inv m -> I m -> G m (act m).1.2 /\ ensures I G Q (next (act m).1.1)
  end.

Lemma ensures_bind {A B} I G (Q : A -> Prop) (R : B -> Prop) p (f : A -> prog B) :
  ensures I G Q p -> (forall a, Q a -> ensures I G R (f a)) -> ensures I G R (p ≫= f).
Proof.
  intros Hp Hf. induction p as [a|X act next IH]; [by apply Hf|].
  intros m Hm Hi. destruct (Hp m Hm Hi) as [H1 H2]. split; [done|]. by apply IH.
Qed.

Lemma ensures_weaken {A} I G (Q R : A -> Prop) p :
  (forall a, Q a -> R a) -> ensures I G Q p -> ensures I G R p.
Proof.
  intros HQ. induction p as [a|X act next IH]; [apply HQ|].
  intros Hp m Hm Hi. destruct (Hp m Hm Hi) as [H1 H2]. split; [done|by apply IH].
Qed.

Lemma ensures_fmap {A B} I G (f : A -> B) (R : B -> Prop) p :
  ensures I G (fun a => R (f a)) p -> ensures I G R (f <$> p).
Proof. intros Hp. eapply ensures_bind; [exact Hp|]. done. Qed.

(** The module's invariant, with programs in flight that keep the books. *)
Definition sound_pool (s : pool) : Prop :=
  mod_inv (po_mod s) /\ Forall (fun p => exists h, accounts (fun _ => []) h p) (po_threads s).

Lemma sound_pool_start m : mod_inv m -> sound_pool (Pool m []).
Proof. intros Hm. by split; [|constructor]. Qed.

Lemma sound_pool_runs E R s0 cs s : sound_pool s0 -> reaches_in E R s0 cs s -> sound_pool s.
Proof.
  intros H0. induction 1 as [|cs s l cs' s' _ [Hm Ht] _ _ Hs]; [done|].
  destruct Hs as [e s|j X act next s Hj]; split; cbn [po_threads po_mod] in *; [done| |..].
  - apply Forall_app. split; [done|]. constructor; [|constructor]. exists []. apply accounts_entry.
  - destruct (proj1 (Forall_lookup _ _) Ht _ _ Hj) as [h Hh]. by destruct (Hh _ Hm).
  - destruct (proj1 (Forall_lookup _ _) Ht _ _ Hj) as [h Hh]. destruct (Hh _ Hm) as (_ & h' & _ & Hn).
    apply Forall_insert; [done|by exists h'].
Qed.

(** In a history within [I], a program that is in flight still ensures what it
    ensured at its start. *)
Lemma ensures_runs I (Q : outcome -> Prop) E s0 i p cs s :
  sound_pool s0 -> po_threads s0 !! i = Some p -> ensures I (fun _ _ => True) Q p ->
  reaches_in E I s0 cs s ->
  exists p', po_threads s !! i = Some p' /\ ensures I (fun _ _ => True) Q p'.
Proof.
  intros H0 Hi Hp Hr. induction Hr as [|cs s l cs' s' Hr IH HI _ Hs]; [by exists p|].
  destruct IH as (q & Hq & Hens). destruct (sound_pool_runs _ _ _ _ _ H0 Hr) as [Hm _].
  destruct Hs as [e s|j X act next s Hj]; cbn [po_threads po_mod] in *.
  - exists q. split; [|done]. rewrite lookup_app_l; [done|by eapply lookup_lt_Some].
  - destruct (decide (j = i)) as [->|Hne].
    + rewrite Hj in Hq. injection Hq as <-. destruct (Hens _ Hm HI) as [_ Hn]. eexists. split; [|exact Hn].
      apply list_lookup_insert_eq. by eapply lookup_lt_Some.
    + exists q. by rewrite list_lookup_insert_ne.
Qed.

(** Programs that only take steps of [G], whatever the others do. *)
Definition guarantees (G : mstate -> mstate -> Prop) : prog outcome -> Prop :=
  ensures (fun _ => True) G (fun _ => True).

(** Together they only take steps of [G]. *)
Lemma guarantees_runs G `{!PreOrder G} E s0 cs s :
  sound_pool s0 -> Forall (guarantees G) (po_threads s0) ->
  (forall e, E e -> guarantees G (entry_prog e)) ->
  reaches_in E (fun _ => True) s0 cs s ->
  G (po_mod s0) (po_mod s) /\ Forall (guarantees G) (po_threads s).
Proof.
  intros H0 Ht HE Hr. induction Hr as [|cs s l cs' s' Hr [IH1 IH2] _ Hl Hs]; [done|].
  destruct (sound_pool_runs _ _ _ _ _ H0 Hr) as [Hm _].
  destruct Hs as [e s|j X act next s Hj]; cbn [po_threads po_mod] in *.
  - split; [done|]. apply Forall_app. split; [done|]. constructor; [by apply HE, Hl|constructor].
  - destruct (proj1 (Forall_lookup _ _) IH2 _ _ Hj _ Hm Logic.I) as [H1 H2].
    split; [by transitivity (po_mod s)|]. by apply Forall_insert.
Qed.

(** *** The ptrace decision under contention *)

(** The task a request is directed at, protected or not. *)
Definition ptrace_subject (k : kernel) (c : bool) (args : pt_regs) : option task :=
  if request_of c args =? PTRACE_TRACEME then Some (current k)
  else if 0 <? target_of c args then (ac_find_task k (s32 (target_of c args))).1 else None.

Definition is_prot (t : task) (m : mstate) : bool := bool_decide (is_Some (protected (m_reg m) !! t)).

Section rely.
Context (k : kernel).

Lemma ensures_find_task I pid : ensures I (fun _ _ => True) (fun t => t = (ac_find_task k pid).1) (find_task_prog k pid).
Proof.
  unfold find_task_prog, ac_find_task. destruct (find_get_pid k pid) as [p|]; [|done].
  by destruct (get_pid_task k p); cbn.
Qed.

Lemma ensures_is_protected t b :
  ensures (fun m => is_prot t m = b) (fun _ _ => True) (fun prot => prot = b) (is_protected_task_prog t).
Proof.
  intros m Hm Hb. split; [done|]. cbn. rewrite ac_is_protected_task_spec. exact Hb.
Qed.

Lemma ensures_ptrace c args v b :
  ptrace_subject k c args = Some v ->
  ensures (fun m => is_prot v m = b) (fun _ _ => True)
    (fun args' => args' = if b then neutralised c args else args) (ptrace_prog k c args).
Proof.
  unfold ptrace_subject, ptrace_prog. fold (request_of c args) (target_of c args). intros Hv.
  eapply (ensures_bind _ _ (fun d => d.1.1.1 = b)).
  - destruct (_ =? PTRACE_TRACEME).
    + injection Hv as ->. eapply ensures_bind; [apply ensures_is_protected|].
      intros prot ->. cbn. by destruct b.
    + destruct (0 <? _); [|done]. unfold is_protected_pid_prog.
      eapply (ensures_bind _ _ (fun r => r.1 = b)); [|by intros [prot comm]].
      eapply ensures_bind; [apply ensures_find_task|]. intros t ->. rewrite Hv.
      eapply ensures_bind; [apply ensures_is_protected|]. intros prot ->. cbn. done.
  - intros [[[deny kill] target] tcomm]. cbn [fst]. intros ->. destruct b; cbn [negb]; [|done].
    eapply (ensures_bind _ _ (fun _ => True)).
    { intros m Hm _. unfold emit_section. cbn. done. }
    intros _ _. eapply (ensures_bind _ _ (fun _ => True)); [by intros m|]. intros pol _.
    eapply (ensures_bind _ _ (fun _ => True)).
    { destruct (kill && _); [|done]. unfold schedule_kill_prog. by destruct (alloc_state k); cbn. }
    intros _ _. cbn. by destruct c.
Qed.
End rely.

(** *** Steps of the shared state that entries take

    A relation that holds of every section which neither removes a task nor
    takes events out of the ring. *)
Record allows (G : mstate -> mstate -> Prop) : Prop := {
  al_quiet m m' : m_reg m' = m_reg m -> m_ring m' = m_ring m -> G m m';
  al_emit ev m : mod_inv m -> G m (set_ring (ac_emit ev (m_ring m)) m);
  al_add k t jit m : mod_inv m -> G m (set_reg (ac_add_prot_task k t jit (m_reg m)).1.2 m)
}.

(** What more it has to allow for DEL_PROC and exits, and for the two commands
    that empty the ring. *)
Definition removable (G : mstate -> mstate -> Prop) (t : task) : Prop :=
  forall m, mod_inv m -> G m (set_reg (ac_del_prot_task t (m_reg m)).1 m).

Definition drainable (G : mstate -> mstate -> Prop) : Prop :=
  forall m, mod_inv m ->
    G m (set_ring (ac_drain_events (m_ring m)).2 m) /\ G m (set_ring (ac_flush_events (m_ring m)) m).

Definition entry_kernel (e : entry) : kernel :=
  match e with
  | EPtrace k _ _ | EClone k _ | EExit k | EExec k | EWork k | EIoctl k _ _ => k
  end.

(** The tasks an entry can meet: the one it runs in, and those it can find. *)
Definition meets (k : kernel) (t : task) : Prop := current k = t \/ exists p, get_pid_task k p = Some t.

Definition empties (e : entry) : bool :=
  match e with EIoctl _ (ReqGetEvents | ReqFlushEvents) _ => true | _ => false end.

Section keeps.
Context (G : mstate -> mstate -> Prop) (HG : allows G) (k : kernel).
Context (Hmeets : forall t, meets k t -> removable G t).

Abbreviation keeps := (ensures (fun _ => True) G).

Lemma keeps_quiet {A} (act : mstate -> A * mstate * list kcall) :
  (forall m, m_reg (act m).1.2 = m_reg m /\ m_ring (act m).1.2 = m_ring m) -> keeps (fun _ => True) (Sect act Ret).
Proof. intros Ha m Hm Hp. split; [|done]. destruct (Ha m). by apply al_quiet. Qed.

Lemma keeps_ret {A} (a : A) : keeps (fun _ => True) (Ret a).
Proof. done. Qed.

Lemma keeps_call c : keeps (fun _ => True) (call c).
Proof. by apply keeps_quiet. Qed.

Lemma keeps_calls cs : keeps (fun _ => True) (calls cs).
Proof.
  induction cs as [|c cs IH]; [done|]. change (calls (c :: cs)) with (call c ≫= fun _ => calls cs).
  eapply ensures_bind; [apply keeps_call|]. done.
Qed.

Lemma keeps_read {X} (f : mstate -> X) : keeps (fun _ => True) (read f).
Proof. by apply keeps_quiet. Qed.

Lemma keeps_reg_read {X} (f : registry -> X) : keeps (fun _ => True) (reg_section (fun r => (f r, r, []))).
Proof. by apply keeps_quiet. Qed.

Lemma keeps_emit ev : keeps (fun _ => True) (emit_section ev).
Proof. intros m Hm Hp. split; [|done]. by apply al_emit. Qed.

Lemma keeps_add t' jit : keeps (fun _ => True) (add_prot_task_prog k t' jit).
Proof.
  intros m Hm Hp. split; [|done]. pose proof (al_add G HG k t' jit m Hm) as H. cbn.
  by destruct (ac_add_prot_task k t' jit (m_reg m)) as [[ret r] cs].
Qed.

Lemma keeps_del t' : removable G t' -> keeps (fun _ => True) (del_prot_task_prog t').
Proof.
  intros Hr m Hm Hp. split; [|done]. pose proof (Hr m Hm) as H. cbn.
  by destruct (ac_del_prot_task t' (m_reg m)) as [r cs].
Qed.

Create HintDb kp.
Hint Resolve keeps_ret keeps_call keeps_calls keeps_read keeps_reg_read keeps_emit keeps_add : kp.

(** The next part, whose result does not matter. *)
Local Ltac kp_bind := eapply (ensures_bind _ _ (fun _ => True)); [eauto with kp|intros ? _].
Local Ltac kp := repeat first [progress eauto with kp | kp_bind | case_match].

Lemma keeps_find_task pid : keeps (fun o => forall t, o = Some t -> removable G t) (find_task_prog k pid).
Proof.
  unfold find_task_prog. destruct (find_get_pid k pid) as [p|]; [|done]. kp_bind.
  destruct (get_pid_task k p) as [t'|] eqn:E; [|kp_bind; done]. do 2 kp_bind.
  intros t [= <-]. apply Hmeets. right. by exists p.
Qed.

Lemma keeps_find_task_in_ns_of nr ref_pid : keeps (fun o => forall t, o = Some t -> removable G t) (find_task_in_ns_of_prog k nr ref_pid).
Proof.
  unfold find_task_in_ns_of_prog. eapply ensures_bind; [apply keeps_find_task|]. intros [r|] _; [|by intros].
  destruct (_ ≫= _) as [p|]; [|kp_bind; done]. do 2 kp_bind.
  destruct (get_pid_task k p) as [t'|] eqn:E; [|kp_bind; done]. do 2 kp_bind.
  intros t [= <-]. apply Hmeets. right. by exists p.
Qed.

Lemma keeps_any_task pid : keeps (fun _ => True) (find_task_prog k pid).
Proof. eapply ensures_weaken; [|apply keeps_find_task]. done. Qed.
Hint Resolve keeps_any_task : kp.

Lemma keeps_add_prot_pid pid ref_pid jit : keeps (fun _ => True) (add_prot_pid_prog k pid ref_pid jit).
Proof.
  unfold add_prot_pid_prog. eapply (ensures_bind _ _ (fun o => forall t, o = Some t -> removable G t)).
  { destruct (0 <? ref_pid); [apply keeps_find_task_in_ns_of|apply keeps_find_task]. }
  intros [t'|] _; kp.
Qed.

Lemma keeps_is_protected_pid pid : keeps (fun _ => True) (is_protected_pid_prog k pid).
Proof. unfold is_protected_pid_prog, is_protected_task_prog. kp. Qed.
Hint Resolve keeps_add_prot_pid keeps_is_protected_pid : kp.

Lemma keeps_schedule_kill v : keeps (fun _ => True) (schedule_kill_prog k v).
Proof. unfold schedule_kill_prog. destruct (alloc_state k); [|done]. do 2 kp_bind. by apply keeps_quiet. Qed.
Hint Resolve keeps_schedule_kill : kp.

Lemma keeps_walk_loop pid ev vs : forall w, keeps (fun _ => True) (walk_loop k pid ev vs w).
Proof.
  induction vs as [|v vs IH]; intros w; cbn [walk_loop]; [done|]. destruct (_ <=? _)%nat; [done|].
  eapply (ensures_bind _ _ (fun _ => True)); [|intros w' _; apply IH].
  unfold walk_vma, emit_if. kp_bind. eapply (ensures_bind _ _ (fun _ => True)); [kp|intros n1 _].
  eapply (ensures_bind _ _ (fun _ => True)); [kp|intros n2 _]. done.
Qed.
Hint Resolve keeps_walk_loop : kp.

Lemma keeps_check x js : forall out n, keeps (fun _ => True) (check_prog k x js out n).
Proof.
  induction js as [|j js IH]; intros out n; cbn [check_prog]; [done|]. repeat case_match; eauto.
  kp_bind. apply IH.
Qed.
Hint Resolve keeps_check : kp.

Lemma keeps_ioctl req pd :
  (empties (EIoctl k req pd) = true -> drainable G) -> keeps (fun _ => True) (ioctl_prog k req pd).
Proof.
  intros Hdrain.
  unfold ioctl_prog. destruct (negb (capable_admin k)); [done|].
  destruct req; first [apply ensures_fmap|cbn [private_prog]]. 16: done.
  - unfold status_prog. kp.
  - unfold add_proc_prog. kp.
  - unfold del_proc_prog. destruct (negb _); [done|]. eapply ensures_bind; [apply keeps_find_task|].
    intros [t'|] Ht; [|done].
    eapply (ensures_bind _ _ (fun _ => True)); [apply keeps_del; by apply Ht|intros ? _; kp].
  - unfold scan_begin_prog, get_fd_state_prog, build_vma_prog. destruct (negb _); [done|].
    eapply (ensures_bind _ _ (fun _ => True)); [destruct (ac_get_fd_state k pd); kp|].
    intros [st|] _; [|done]. eapply (ensures_bind _ _ (fun _ => True)); [kp|].
    intros [ret st'] _. kp.
  - done.
  - kp.
  - unfold check_syscalls_ioctl_prog, check_syscalls_prog.
    eapply (ensures_bind _ _ (fun _ => True)); [kp|]. intros [ret c] _. destruct (negb _); [done|].
    eapply (ensures_bind _ _ (fun _ => True)); [by apply keeps_quiet|intros ? _; kp].
  - unfold mods_begin_prog, get_fd_state_prog.
    eapply (ensures_bind _ _ (fun _ => True)); [destruct (ac_get_fd_state k pd); kp|].
    intros [st|] _; [|done]. destruct (ac_build_mod_snapshot k st) as [[ret st'] cs]. kp.
  - done.
  - kp.
  - unfold get_events_prog. destruct (negb _); [done|].
    kp_bind. eapply (ensures_bind _ _ (fun _ => True)); [|intros ? _; kp]. intros m Hm Hp. split; [|done].
    destruct (Hdrain eq_refl m Hm) as [H _]. cbn. by destruct (ac_drain_events (m_ring m)).
  - unfold flush_events_prog. eapply (ensures_bind _ _ (fun _ => True)); [|intros ? _; done].
    intros m Hm Hp. split; [|done]. by destruct (Hdrain eq_refl m Hm) as [_ H].
  - unfold list_protected_prog. kp.
  - unfold lock_prog. destruct (try_module_get k); [|done]. kp_bind.
    eapply (ensures_bind _ _ (fun _ => True)); [by apply keeps_quiet|intros ? _; kp].
  - unfold unlock_prog. kp_bind. destruct (0 <? a); [|done].
    eapply (ensures_bind _ _ (fun _ => True)); [by apply keeps_quiet|intros ? _; kp].
Qed.

Lemma keeps_entry e :
  entry_kernel e = k -> (empties e = true -> drainable G) -> keeps (fun _ => True) (entry_prog e).
Proof.
  destruct e as [k' c args|k' retval|k'|k'|k'|k' req pd]; cbn [entry_kernel]; intros -> Hd; apply ensures_fmap.
  - unfold ptrace_prog, is_protected_task_prog. eapply (ensures_bind _ _ (fun _ => True)); [kp|].
    intros [[[deny kill] target] tcomm] _. kp.
  - unfold clone_prog, is_protected_task_prog. kp.
  - unfold exit_prog, is_protected_task_prog. kp_bind. destruct (negb _); [done|]. kp_bind.
    apply keeps_del, Hmeets. by left.
  - unfold exec_prog, is_protected_task_prog. kp.
  - unfold work_prog. eapply (ensures_bind _ _ (fun _ => True)).
    { apply keeps_quiet. intros m. by destruct (g_wq (m_guard m)). }
    intros [p|] _; [|done]. eapply (ensures_bind _ _ (fun _ => True)); [kp|intros ? _; kp].
  - by apply keeps_ioctl.
Qed.
End keeps.

(** *** A task that no entry can meet stays protected *)

Definition gone (t : task) (k : kernel) : Prop := ~ meets k t.

Definition keeps_prot (t : task) (m m' : mstate) : Prop := is_prot t m = true -> is_prot t m' = true.

#[export] Instance keeps_prot_preorder t : PreOrder (keeps_prot t).
Proof. split; [intros m H; exact H|]. intros m1 m2 m3 H1 H2 H. by apply H2, H1. Qed.

Lemma keeps_prot_allows t : allows (keeps_prot t).
Proof.
  split; unfold keeps_prot, is_prot; [by intros m m' -> _|done|]. intros k t' jit m Hm.
  rewrite !bool_decide_eq_true. intros Hp.
  pose proof (ac_add_inherit k t' jit (m_reg m) (gi_reg _ (mi_guard _ Hm))) as Ha.
  destruct (ac_add_prot_task k t' jit (m_reg m)) as [[ret r] cs]. destruct Ha as [_ Ha].
  unfold m_reg in *. cbn. rewrite Ha. unfold inherit.
  destruct (decide (t' = t)) as [->|Hne].
  - destruct Hp as [i Hi]. rewrite Hi, lookup_insert_eq. by eexists.
  - repeat case_match; by rewrite ?lookup_insert_ne.
Qed.

Lemma keeps_prot_removable t t' : t' <> t -> removable (keeps_prot t) t'.
Proof.
  intros Hne m Hm. unfold keeps_prot, is_prot. rewrite !bool_decide_eq_true. intros Hp.
  pose proof (ac_del_refines t' (m_reg m) (gi_reg _ (mi_guard _ Hm))) as Hd.
  destruct (ac_del_prot_task t' (m_reg m)) as [r cs]. destruct Hd as (_ & Hd & _).
  unfold m_reg in *. cbn. rewrite Hd. by rewrite lookup_delete_ne.
Qed.

Lemma gone_keeps t e : gone t (entry_kernel e) -> guarantees (keeps_prot t) (entry_prog e).
Proof.
  intros Hg. eapply (keeps_entry _ (keeps_prot_allows t)); [|done|intros _ m _; split; exact id].
  intros t' Ht'. apply keeps_prot_removable. intros ->. by apply Hg.
Qed.

(** *** The race of ADD_PROC with the exit of its target *)

(** What is left of ADD_PROC once its target is found. *)
Definition add_rest (k : kernel) (a : ac_proc_id) (t : task) (pd : option ac_fd_state) : prog outcome :=
  OAnswer <$> (Some <$>
    ('ret ← ('ret ← add_prot_task_prog k t (negb (pi_jit_allowed a =? 0)); _ ← call (KPutTask t); Ret ret);
     Ret (ret, None, pd))).

Lemma add_proc_unfolds k a p t pd :
  capable_admin k = true -> user_readable k = true -> pi_ref_pid a <= 0 ->
  find_get_pid k (pi_pid a) = Some p -> get_pid_task k p = Some t ->
  entry_prog (EIoctl k (ReqAddProc a) pd) =
  Sect (fun m => (tt, m, [KGetPid p])) (fun _ => Sect (fun m => (tt, m, [KGetTask t]))
    (fun _ => Sect (fun m => (tt, m, [KPutPid p])) (fun _ => add_rest k a t pd))).
Proof.
  intros H1 H2 H3 H4 H5. cbn [entry_prog]. unfold ioctl_prog, add_proc_prog, add_prot_pid_prog, find_task_prog.
  rewrite H1, H2, H4, H5. cbn [negb]. rewrite (proj2 (Z.ltb_ge 0 (pi_ref_pid a))) by lia. reflexivity.
Qed.

(** The exit probe on a task that is not protected. *)
Lemma exit_unfolds k :
  entry_prog (EExit k) =
  Sect (fun m => (ac_is_protected_task (current k) (m_reg m), set_reg (m_reg m) m, []))
    (fun prot => (fun _ => ONone) <$>
       (if negb prot then Ret tt
        else _ ← emit_section (mk_event (ktime k 0) AC_EV_EXIT (task_pid k (current k))
                                 (Some (task_comm k (current k))) (bs "protected process exited"));
             del_prot_task_prog (current k))).
Proof. reflexivity. Qed.

(** One section of one program, and one entry. *)
Lemma runs_section E (R : mstate -> Prop) i X (act : mstate -> X * mstate * list kcall) next m ts x m' cs0 cs s :
  ts !! i = Some (Sect act next) -> R m -> act m = (x, m', cs0) ->
  reaches_in E R (Pool m' (<[i := next x]> ts)) cs s ->
  reaches_in E R (Pool m ts) (cs0 ++ cs) s.
Proof.
  intros Hi HR Ha Hr. eapply reaches_in_trans; [|exact Hr].
  pose proof (pool_run i X act next (Pool m ts) Hi) as Hs. cbn [po_mod po_threads] in Hs. rewrite Ha in Hs.
  rewrite <- (app_nil_l cs0). eapply pool_next; [apply pool_start|done| |exact Hs]. done.
Qed.

Lemma runs_entry (E : entry -> Prop) e m ts cs s :
  E e -> reaches_in E (fun _ => True) (Pool m (ts ++ [entry_prog e])) cs s ->
  reaches_in E (fun _ => True) (Pool m ts) cs s.
Proof.
  intros He Hr. rewrite <- (app_nil_l cs). eapply reaches_in_trans; [|exact Hr].
  rewrite <- (app_nil_l []). eapply pool_next; [apply pool_start|done| |apply (pool_enter e (Pool m ts))].
  by intros ? [= <-].
Qed.

(** What ADD_PROC does once it has found its target, with room for it. *)
Lemma add_rest_runs E k a t pd m ts :
  mod_inv m -> is_prot t m = false -> (size (protected (m_reg m)) < AC_PROT_MAX)%nat ->
  exists m', is_prot t m' = true /\
    reaches_in E (fun _ => True) (Pool m (add_rest k a t pd :: ts)) [KGetTask t; KPutTask t]
      (Pool m' (Ret (OAnswer (Some (0, None, pd))) :: ts)).
Proof.
  intros Hm Hp Hroom. unfold is_prot in Hp. apply bool_decide_eq_false in Hp.
  pose proof (ac_add_refines k t (negb (pi_jit_allowed a =? 0)) (m_reg m) (gi_reg _ (mi_guard _ Hm))) as Ha.
  destruct (ac_add_prot_task k t _ (m_reg m)) as [[ret r] cs] eqn:Eadd. destruct Ha as [_ Ha].
  destruct (protected (m_reg m) !! t) eqn:El; [by destruct Hp; eexists|].
  rewrite (proj2 (Nat.ltb_lt _ _) Hroom) in Ha. destruct Ha as (-> & -> & Ha).
  exists (set_reg r m). split.
  { unfold is_prot, m_reg. cbn. apply bool_decide_eq_true. rewrite Ha, lookup_insert_eq. by eexists. }
  eapply (runs_section E _ 0%nat Z _ _ _ _ 0 (set_reg r m) [_]); [reflexivity|done|cbn; by rewrite Eadd|].
  eapply (runs_section E _ 0%nat unit _ _ _ _ tt _ [_]); [done..|]. apply pool_start.
Qed.

(** ** Properties *)

(** C4: concurrency keeps the books.  However many probe hits, work items and
    commands of any callers run interleaved, at the granularity of their atomic
    sections: the invariants of registry and ring hold at every moment (and the
    lock count stays an [int]), the references taken are exactly those of the
    protected tasks, the queued kills and the lock count, and the kill requests,
    path buffers and event lists allocated are one request per queued kill, plus
    what the programs in flight hold and will give back; so once all have
    returned nothing is left over.  From every state the programs in flight can
    be run to their end.  Run without interference, each program is its
    sequential handler. *)
Theorem smp_accounts (m0 : mstate) (cs : list kcall) (s : pool) :
  mod_inv m0 -> pool_reaches (Pool m0 []) cs s ->
  mod_inv (po_mod s) /\
  (exists hs, Forall2 (accounts (fun _ => [])) hs (po_threads s) /\
     transfers [] m0 cs (concat hs) (po_mod s)) /\
  (finished s -> transfers [] m0 cs [] (po_mod s)) /\
  (exists cs' s', pool_reaches s cs' s' /\ finished s') /\
  (forall e m, alone (entry_prog e) m = sequential e m).
Proof.
  intros Hm Hr. destruct (pool_reaches_inv _ _ m0 cs s Hm Hr) as [hs [H1 H2 H3]].
  split; [done|]. split; [by exists hs|]. split; [|split; [apply pool_can_finish|apply alone_entry]].
  intros Hf t p x. pose proof (finished_holds hs s H2 Hf t p x) as (E1 & E2 & E3 & E4 & E5).
  destruct (H3 t p x) as (T1 & T2 & T3 & T4 & T5). split_and!; [lia..| |lia].
  rewrite T4. f_equal. lia.
Qed.

Definition add_game : entry := EIoctl game_kernel (ReqAddProc (ProcId 100 0 0 [])) None.

(** ADD_PROC and a clone in flight together, the first holding a pid. *)
Lemma smp_accounts_witness :
  exists s, mod_inv idle_module /\ pool_reaches (Pool idle_module []) [KGetPid 7%positive] s /\
    length (po_threads s) = 2%nat /\ mod_inv (po_mod s).
Proof.
  assert (Hr : exists s, pool_reaches (Pool idle_module []) [KGetPid 7%positive] s /\
                 length (po_threads s) = 2%nat).
  { eexists. split.
    - apply (runs_entry _ add_game); [done|]. apply (runs_entry _ (EClone fork_kernel 101)); [done|].
      eapply (runs_section _ _ 0%nat unit _ _ _ _ tt idle_module [_]); [done..|apply pool_start].
    - done. }
  destruct Hr as (s & Hr & Hl). destruct (smp_accounts idle_module _ s idle_module_inv Hr) as (H & _).
  exists s. by split_and!; [exact idle_module_inv|..].
Defined.

(** C8: no window for a tracer.  While a ptrace call goes through the probe and
    any other entries run interleaved with it: if the task it is directed at is
    protected at every moment, the request is neutralised; if it is protected
    at no moment, the frame is left alone. *)
Theorem ptrace_no_window k c args v (b : bool) m0 cs0 s0 i cs s o :
  mod_inv m0 -> pool_reaches (Pool m0 []) cs0 s0 ->
  po_threads s0 !! i = Some (entry_prog (EPtrace k c args)) -> ptrace_subject k c args = Some v ->
  reaches_in (fun _ => True) (fun m => is_prot v m = b) s0 cs s ->
  po_threads s !! i = Some (Ret o) ->
  o = OFrame (if b then neutralised c args else args).
Proof.
  intros Hm H0 Hi Hv Hr Ho.
  destruct (ensures_runs (fun m => is_prot v m = b) (fun o => o = OFrame (if b then neutralised c args else args))
    (fun _ => True) s0 i _ cs s (sound_pool_runs _ _ _ _ _ (sound_pool_start _ Hm) H0) Hi) as (p & Hp & He); [|exact Hr|].
  - apply ensures_fmap. eapply ensures_weaken; [|by apply ensures_ptrace]. by intros ? ->.
  - rewrite Ho in Hp. by injection Hp as <-.
Qed.

Definition game_module : mstate := MState game_guard text_init 0 0 probes_init 1.

(** The next section of the only program, with its result, state and calls. *)
Local Ltac run_one X x m cs :=
  eapply (runs_section _ _ 0%nat X _ _ _ _ x m cs); [reflexivity|vm_compute; reflexivity|reflexivity|].

(** The ptrace call of the examples, gdb (pid 200) attaching to the game, run to
    its end while the game is protected. *)
Definition attach : entry := EPtrace game_kernel false (PtRegs 0 0 16 100).

Lemma attach_runs E :
  exists cs m o,
    reaches_in E (fun m => is_prot 7%positive m = true) (Pool game_module [entry_prog attach]) cs (Pool m [Ret o]) /\
    m_ring m = ac_emit (mk_event 0 AC_EV_PTRACE 100 (Some (bs "game"))
                 (bs "ptrace req 16 by pid 200 (gdb) DENIED")) (m_ring game_module).
Proof.
  pose (emitted := set_ring (ac_emit (mk_event 0 AC_EV_PTRACE 100 (Some (bs "game"))
    (bs "ptrace req 16 by pid 200 (gdb) DENIED")) (m_ring game_module)) game_module).
  eexists _, (set_wq [9%positive] emitted), _. split; [|reflexivity].
  run_one unit tt game_module [KGetPid 7%positive]. run_one unit tt game_module [KGetTask 7%positive].
  run_one unit tt game_module [KPutPid 7%positive].
  run_one bool true game_module (@nil kcall). run_one unit tt game_module [KPutTask 7%positive].
  run_one unit tt emitted (@nil kcall). run_one Z 1 emitted (@nil kcall).
  run_one unit tt emitted [KAlloc MemReq]. run_one unit tt emitted [KGetPid 9%positive].
  run_one unit tt (set_wq [9%positive] emitted) (@nil kcall). apply pool_start.
Qed.

Lemma ptrace_no_window_witness :
  exists cs s, reaches_in (fun _ => True) (fun m => is_prot 7%positive m = true)
      (Pool game_module [entry_prog attach]) cs s /\
    po_threads s !! 0%nat = Some (Ret (OFrame (PtRegs 0 0 (2 ^ 64 - 1) 100))).
Proof.
  assert (Hm : mod_inv game_module) by (split; [exact game_guard_inv|simpl; lia]).
  assert (H0 : pool_reaches (Pool game_module []) [] (Pool game_module [entry_prog attach])).
  { eapply runs_entry; [done|]. apply pool_start. }
  destruct (attach_runs (fun _ => True)) as (cs & m & o & Hr & _).
  exists cs, (Pool m [Ret o]). split; [exact Hr|].
  rewrite (ptrace_no_window game_kernel false (PtRegs 0 0 16 100) 7%positive true game_module [] _ 0%nat cs _ o
    Hm H0 eq_refl eq_refl Hr eq_refl). reflexivity.
Defined.

(** C37: the race that strands a protected task.  [ADD_PROC] looks its target up
    and registers it in two separate sections.  When the target's exit probe
    runs in between it finds nothing to remove; [ADD_PROC] then registers the
    dead task and answers success.  Once the task can no longer be found, no
    entry removes it again, whatever runs: its slot and task reference are held
    for as long as the module is loaded. *)
Theorem exit_add_race_strands ka kx a p t pd m0 :
  mod_inv m0 -> is_prot t m0 = false -> (size (protected (m_reg m0)) < AC_PROT_MAX)%nat ->
  capable_admin ka = true -> user_readable ka = true -> pi_ref_pid a <= 0 ->
  find_get_pid ka (pi_pid a) = Some p -> get_pid_task ka p = Some t -> current kx = t ->
  exists s1 s2 s3,
    reaches_in (fun e => e = EIoctl ka (ReqAddProc a) pd) (fun _ => True) (Pool m0 [])
      [KGetPid p; KGetTask t; KPutPid p] s1 /\
    reaches_in (fun e => e = EExit kx) (fun _ => True) s1 [] s2 /\
    po_mod s2 = m0 /\ po_threads s2 !! 1%nat = Some (Ret ONone) /\
    reaches_in (fun _ => False) (fun _ => True) s2 [KGetTask t; KPutTask t] s3 /\
    finished s3 /\ po_threads s3 !! 0%nat = Some (Ret (OAnswer (Some (0, None, pd)))) /\
    forall cs s, reaches_in (fun e => gone t (entry_kernel e)) (fun _ => True) s3 cs s ->
      is_prot t (po_mod s) = true.
Proof.
  intros Hm Hp Hroom Hadm Hread Href Hpid Htask Hcur.
  destruct (add_rest_runs (fun _ => False) ka a t pd m0 [Ret ONone] Hm Hp Hroom) as (m3 & Hp3 & Hr3).
  set (s1 := Pool m0 [add_rest ka a t pd]). set (s2 := Pool m0 [add_rest ka a t pd; Ret ONone]).
  set (s3 := Pool m3 [Ret (OAnswer (Some (0, None, pd))); Ret ONone]).
  assert (H1 : reaches_in (fun e => e = EIoctl ka (ReqAddProc a) pd) (fun _ => True) (Pool m0 [])
                 [KGetPid p; KGetTask t; KPutPid p] s1).
  { eapply runs_entry; [done|]. rewrite (add_proc_unfolds ka a p t pd) by done.
    do 3 (eapply (runs_section _ _ 0%nat unit _ _ _ _ tt m0 [_]); [done..|]). apply pool_start. }
  assert (H2 : reaches_in (fun e => e = EExit kx) (fun _ => True) s1 [] s2).
  { eapply runs_entry; [done|]. rewrite exit_unfolds. unfold is_prot in Hp.
    eapply (runs_section _ _ 1%nat bool _ _ _ _ false m0 []); [done|done| |apply pool_start].
    by rewrite Hcur, ac_is_protected_task_spec, Hp, set_reg_id. }
  assert (H3 : finished s3) by (repeat constructor; by eexists).
  exists s1, s2, s3. split_and!; [done..|]. intros cs s Hr.
  assert (H0 : sound_pool s3).
  { eapply sound_pool_runs; [|exact Hr3]. eapply sound_pool_runs; [|exact H2].
    eapply sound_pool_runs; [|exact H1]. by apply sound_pool_start. }
  destruct (guarantees_runs (keeps_prot t) (fun e => gone t (entry_kernel e)) s3 cs s H0) as [Hk _]; try done.
  - by repeat constructor.
  - intros e He. by apply gone_keeps.
  - by apply Hk.
Qed.

Lemma exit_add_race_strands_witness :
  exists s, finished s /\ is_prot 7%positive (po_mod s) = true.
Proof.
  destruct (exit_add_race_strands game_kernel fork_kernel (ProcId 100 0 0 []) 7%positive 7%positive None idle_module
    idle_module_inv eq_refl ltac:(vm_compute; lia) eq_refl eq_refl ltac:(simpl; lia) eq_refl eq_refl eq_refl)
    as (s1 & s2 & s3 & _ & _ & _ & _ & _ & H & _ & Hs).
  exists s3. split; [exact H|]. apply (Hs []). apply pool_start.
Defined.
