(* ===== verification/Device.v ===== *)
(** * The device as the daemon sees it

    [/dev/anticheat] through the calls the daemon makes, as a type class: the
    operations, and the laws the daemon's logic relies on.  The module's
    ioctl handlers are an instance; the theorems about the daemon are proved
    against the class. *)

From Stdlib Require Import ZArith Lia.
From stdpp Require Import base numbers list gmap strings.
From S2P Require Import Prelude Abi SlotTable Ring Kernel Registry SyscallTable Probes Snapshot Ioctl.

(** [None] is an ioctl that returned a negative value. *)
Class Device (D : Type) := {
  dev_list_protected : D -> option ac_prot_list * D;
  dev_scan_begin : Z -> Z -> D -> option ac_scan_begin * D;   (* pid, emit_events *)
  dev_scan_get : Z -> Z -> D -> option ac_vma_info * D;       (* pid, index *)
  dev_scan_end : D -> D;
  dev_check_syscalls : D -> option ac_syscall_check * D;
  dev_mods_begin : D -> option Z * D;
  dev_mods_get : Z -> D -> option ac_mod_info * D;
  dev_mods_end : D -> D;
  dev_get_events : D -> option ac_event_list * D;
  dev_status : D -> option ac_status * D;
  dev_add_proc : ac_proc_id -> D -> bool * D;                 (* whether it returned 0 *)
  dev_del_proc : ac_proc_id -> D -> bool * D;
  dev_lock : bool -> D -> bool * D                            (* LOCK or UNLOCK *)
}.

(** The item the listing shows for an entry. *)
Definition info_item (i : prot_info) : ac_prot_item :=
  ProtItem (in_pid i) (Z.b2z (in_jit i)) (in_comm i).

(** What the module promises a privileged caller whose buffers are mapped:
    lists are within their arrays and complete, the get calls read the snapshot of the last
    successful begin, the counters count its mappings, and events arrive in
    order, oldest first. *)
Class DeviceLaws (D : Type) `{Device D} := {
  dev_ok : D -> Prop;
  dev_vmas : D -> list ac_vma_info;
  dev_mods : D -> list ac_mod_info;
  dev_queue : D -> list ac_event;
  dev_prot : D -> gmap task prot_info;               (* who is protected *)
  dev_resolve : D -> Z -> Z -> option task;          (* pid, namespace of: the task *)
  vmas_bound d : dev_ok d -> (length (dev_vmas d) <= AC_MAX_VMAS)%nat;
  list_protected_law d :
    dev_ok d -> let '(r, d') := dev_list_protected d in
    dev_ok d' /\
    forall pl, r = Some pl ->
      pl_count pl = Z.of_nat (length (pl_items pl)) /\ (length (pl_items pl) <= AC_MAX_PROTS)%nat;
  scan_begin_law pid ev d :
    dev_ok d -> let '(r, d') := dev_scan_begin pid ev d in
    dev_ok d' /\
    forall b, r = Some b ->
      sb_n_vmas b = Z.of_nat (length (dev_vmas d')) /\
      sb_rwx_count b = count is_rwx (dev_vmas d') /\
      sb_anon_exec_count b = count is_anon_exec (dev_vmas d');
  scan_get_law pid i d :
    dev_ok d -> 0 <= i < 2 ^ 32 -> let '(r, d') := dev_scan_get pid i d in
    dev_ok d' /\ dev_vmas d' = dev_vmas d /\ r = dev_vmas d !! Z.to_nat i;
  scan_end_law d : dev_ok d -> dev_ok (dev_scan_end d);
  check_syscalls_law d : dev_ok d -> dev_ok (dev_check_syscalls d).2;
  mods_begin_law d :
    dev_ok d -> let '(r, d') := dev_mods_begin d in
    dev_ok d' /\
    forall n, r = Some n ->
      n = Z.of_nat (length (dev_mods d')) /\ (length (dev_mods d') <= AC_MAX_MODS)%nat;
  mods_get_law i d :
    dev_ok d -> 0 <= i < 2 ^ 32 -> let '(r, d') := dev_mods_get i d in
    dev_ok d' /\ dev_mods d' = dev_mods d /\ r = dev_mods d !! Z.to_nat i;
  mods_end_law d : dev_ok d -> dev_ok (dev_mods_end d);
  get_events_law d :
    dev_ok d -> let '(r, d') := dev_get_events d in
    dev_ok d' /\
    match r with
    | None => dev_queue d' = dev_queue d
    | Some el =>
        el_events el = take AC_MAX_EVENTS (dev_queue d) /\
        dev_queue d' = drop AC_MAX_EVENTS (dev_queue d) /\
        el_count el = Z.of_nat (length (el_events el))
    end;
  status_law d :
    dev_ok d -> let '(r, d') := dev_status d in
    dev_ok d' /\ dev_prot d' = dev_prot d /\
    forall st, r = Some st -> st_active_procs st = Z.of_nat (size (dev_prot d));
  listing_law d :
    dev_ok d -> let '(r, d') := dev_list_protected d in
    dev_prot d' = dev_prot d /\
    forall pl, r = Some pl -> pl_items pl ≡ₚ info_item <$> (map_to_list (dev_prot d)).*2;
  add_proc_law a d :
    dev_ok d -> let '(ok, d') := dev_add_proc a d in
    dev_ok d' /\
    if ok : bool then
      exists t i, dev_resolve d (pi_pid a) (pi_ref_pid a) = Some t /\
        in_jit i = negb (pi_jit_allowed a =? 0) /\ dev_prot d' = <[t := i]> (dev_prot d)
    else
      dev_prot d' = dev_prot d /\
      match dev_resolve d (pi_pid a) (pi_ref_pid a) with
      | None => True
      | Some t => dev_prot d !! t = None /\ size (dev_prot d) = AC_PROT_MAX
      end;
  del_proc_law a d :
    dev_ok d -> let '(ok, d') := dev_del_proc a d in
    dev_ok d' /\
    match dev_resolve d (pi_pid a) 0 with
    | None => ok = false /\ dev_prot d' = dev_prot d
    | Some t => ok = true /\ dev_prot d' = delete t (dev_prot d)
    end;
  lock_law b d : dev_ok d -> dev_ok (dev_lock b d).2 /\ dev_prot (dev_lock b d).2 = dev_prot d
}.

(** ** Streaming a snapshot *)

(** The loop [for (v = 0; v < b.n_vmas; v++)] around SCAN_GET, which ends early
    when the call fails; [body] gets the index and the mapping. *)
Fixpoint get_loop {D S} `{Device D} (body : nat -> ac_vma_info -> S -> S) (pid : Z) (n : nat)
    (v : Z) (s : S) (d : D) : S * D :=
  match n with
  | O => (s, d)
  | S n =>
      match dev_scan_get pid v d with
      | (None, d) => (s, d)
      | (Some vi, d) => get_loop body pid n (u32 (v + 1)) (body (Z.to_nat v) vi s) d
      end
  end.

(** The same over a list of mappings. *)
Fixpoint fold_vmas {S} (body : nat -> ac_vma_info -> S -> S) (i : nat) (vis : list ac_vma_info)
    (s : S) : S :=
  match vis with
  | [] => s
  | vi :: vis => fold_vmas body (Datatypes.S i) vis (body i vi s)
  end.

Section streaming.
Context {D : Type} `{DeviceLaws D}.

Lemma get_loop_from {S} (body : nat -> ac_vma_info -> S -> S) pid n : forall v s d vis,
  dev_ok d -> 0 <= v -> vis = drop (Z.to_nat v) (dev_vmas d) -> n = length vis ->
  let '(s', d') := get_loop body pid n v s d in
  dev_ok d' /\ dev_vmas d' = dev_vmas d /\ s' = fold_vmas body (Z.to_nat v) vis s.
Proof.
  induction n as [|n IH]; intros v s d vis Hd Hv E Hn; simpl.
  - by destruct vis.
  - destruct vis as [|vi vis]; [done|]. simpl in Hn.
    assert (dev_vmas d !! Z.to_nat v = Some vi) as Hvi.
    { rewrite <- (Nat.add_0_r (Z.to_nat v)), <- lookup_drop, <- E. done. }
    pose proof (lookup_lt_Some _ _ _ Hvi) as Hlt. pose proof (vmas_bound d Hd) as Hb.
    assert (v < 2 ^ 31) as Hv31 by (unfold AC_MAX_VMAS in Hb; lia).
    pose proof (scan_get_law pid v d Hd ltac:(lia)) as Hg.
    destruct (dev_scan_get pid v d) as [r d1]. destruct Hg as (Hd1 & Hm & ->). rewrite Hvi.
    assert (u32 (v + 1) = v + 1) as -> by (unfold u32; apply Z.mod_small; lia).
    specialize (IH (v + 1) (body (Z.to_nat v) vi s) d1 vis Hd1 ltac:(lia)).
    replace (Z.to_nat (v + 1)) with (Datatypes.S (Z.to_nat v)) in IH by lia.
    rewrite Hm in IH. apply IH; [|lia].
    pose proof (drop_S _ _ _ Hvi) as Hdr. rewrite <- E in Hdr. by injection Hdr.
Qed.

(** After a successful SCAN_BEGIN the loop visits exactly the snapshot. *)
Lemma get_loop_spec {S} (body : nat -> ac_vma_info -> S -> S) pid s d :
  dev_ok d ->
  let '(s', d') := get_loop body pid (length (dev_vmas d)) 0 s d in
  dev_ok d' /\ dev_vmas d' = dev_vmas d /\ s' = fold_vmas body 0 (dev_vmas d) s.
Proof. intros Hd. by apply (get_loop_from body pid _ 0 s d (dev_vmas d)). Qed.
End streaming.

(** ** The module as a device *)

(** An open file of the daemon: the kernel during each of its calls (the
    machine changes between calls), the number of calls made, the file's
    [private_data] and the module. *)
Record mdev := MDev {
  md_kernel : nat -> kernel;
  md_calls : nat;
  md_pd : option ac_fd_state;
  md_mod : mstate
}.

(** One [ioctl(dev_fd, ...)]: the return value and what was copied out. *)
Definition mdev_ioctl (req : ioctl_req) (d : mdev) : (Z * option ioctl_out) * mdev :=
  match ac_ioctl (md_kernel d (md_calls d)) req (md_pd d) (md_mod d) with
  | Some rp => ((rp_ret rp, rp_out rp), MDev (md_kernel d) (S (md_calls d)) (rp_pd rp) (rp_mod rp))
  | None => ((- EFAULT, None), d)
  end.

Definition out_with {A} (f : ioctl_out -> option A) (r : Z * option ioctl_out) : option A :=
  if r.1 <? 0 then None else r.2 ≫= f.

Definition zero_vma : ac_vma_info := VmaInfo 0 0 0 0 0 0 [].
Definition zero_mod : ac_mod_info := ModInfo [] 0 0.

#[export] Instance mdev_device : Device mdev := {
  dev_list_protected d :=
    let '(r, d) := mdev_ioctl ReqListProtected d in
    (out_with (fun o => match o with OutProtected pl => Some pl | _ => None end) r, d);
  dev_scan_begin pid ev d :=
    let '(r, d) := mdev_ioctl (ReqScanBegin (ScanBegin pid ev 0 0 0 0 0)) d in
    (out_with (fun o => match o with OutScanBegin b => Some b | _ => None end) r, d);
  dev_scan_get pid i d :=
    let '(r, d) := mdev_ioctl (ReqScanGet (ScanGet pid i zero_vma)) d in
    (out_with (fun o => match o with OutScanGet g => Some (sg_vma g) | _ => None end) r, d);
  dev_scan_end d := (mdev_ioctl ReqScanEnd d).2;
  dev_check_syscalls d :=
    let '(r, d) := mdev_ioctl ReqCheckSyscalls d in
    (out_with (fun o => match o with OutSyscalls c => Some c | _ => None end) r, d);
  dev_mods_begin d :=
    let '(r, d) := mdev_ioctl ReqModsBegin d in
    (out_with (fun o => match o with OutCount n => Some n | _ => None end) r, d);
  dev_mods_get i d :=
    let '(r, d) := mdev_ioctl (ReqModsGet (ModGet i zero_mod)) d in
    (out_with (fun o => match o with OutModGet g => Some (mg_mod g) | _ => None end) r, d);
  dev_mods_end d := (mdev_ioctl ReqModsEnd d).2;
  dev_get_events d :=
    let '(r, d) := mdev_ioctl ReqGetEvents d in
    (out_with (fun o => match o with OutEvents el => Some el | _ => None end) r, d);
  dev_status d :=
    let '(r, d) := mdev_ioctl ReqStatus d in
    (out_with (fun o => match o with OutStatus st => Some st | _ => None end) r, d);
  dev_add_proc a d := let '(r, d) := mdev_ioctl (ReqAddProc a) d in (r.1 =? 0, d);
  dev_del_proc a d := let '(r, d) := mdev_ioctl (ReqDelProc a) d in (r.1 =? 0, d);
  dev_lock b d :=
    let '(r, d) := mdev_ioctl (if b : bool then ReqLock else ReqUnlock) d in (r.1 =? 0, d)
}.

(** A privileged caller with mapped buffers, on a sound module. *)
Record mdev_ok (d : mdev) : Prop := {
  mk_admin n : capable_admin (md_kernel d n) = true;
  mk_read n : user_readable (md_kernel d n) = true;
  mk_write n : user_writable (md_kernel d n) = true;
  mk_mod : mod_inv (md_mod d);
  mk_fd : fd_ok (md_pd d)
}.

Definition mdev_vmas (d : mdev) : list ac_vma_info :=
  default [] (md_pd d ≫= fs_vmas).
Definition mdev_mods (d : mdev) : list ac_mod_info :=
  default [] (md_pd d ≫= fs_mods).
Definition mdev_queue (d : mdev) : list ac_event := contents (m_ring (md_mod d)).
Definition mdev_prot (d : mdev) : gmap task prot_info := protected (m_reg (md_mod d)).
Definition mdev_resolve (d : mdev) (pid ref_pid : Z) : option task :=
  let k := md_kernel d (md_calls d) in
  (if 0 <? ref_pid then ac_find_task_in_ns_of k pid ref_pid else ac_find_task k pid).1.

Lemma mdev_ioctl_ok req d :
  mdev_ok d -> req_ok req ->
  exists rp, ac_ioctl (md_kernel d (md_calls d)) req (md_pd d) (md_mod d) = Some rp /\
    mdev_ioctl req d = ((rp_ret rp, rp_out rp), MDev (md_kernel d) (S (md_calls d)) (rp_pd rp) (rp_mod rp)) /\
    mdev_ok (MDev (md_kernel d) (S (md_calls d)) (rp_pd rp) (rp_mod rp)).
Proof.
  intros [] Hq.
  destruct (ac_ioctl_sound (md_kernel d (md_calls d)) req _ _ mk_mod0 mk_fd0 Hq)
    as (rp & E & H1 & H2 & _).
  exists rp. unfold mdev_ioctl. rewrite E. split_and!; try done.
Qed.

(** Every request keeps the device usable. *)
Lemma mdev_ioctl_keeps req d : mdev_ok d -> req_ok req -> mdev_ok (mdev_ioctl req d).2.
Proof. intros Hd Hq. by destruct (mdev_ioctl_ok req d Hd Hq) as (rp & _ & -> & ?). Qed.

(** ** The module discharges the laws *)

Lemma vma_at_lookup pd i : vma_at pd i = default [] (pd ≫= fs_vmas) !! Z.to_nat i.
Proof. unfold vma_at. destruct pd as [st|]; [|done]. simpl. by destruct (fs_vmas st). Qed.

Lemma mod_at_lookup pd i : mod_at pd i = default [] (pd ≫= fs_mods) !! Z.to_nat i.
Proof. unfold mod_at. destruct pd as [st|]; [|done]. simpl. by destruct (fs_mods st). Qed.

Lemma mdev_vmas_bound d : mdev_ok d -> (length (mdev_vmas d) <= AC_MAX_VMAS)%nat.
Proof.
  intros []. unfold mdev_vmas. destruct (md_pd d) as [st|]; [|simpl; lia].
  exact (fi_vmas_max _ (mk_fd0 st eq_refl)).
Qed.

Lemma mdev_list_protected d :
  mdev_ok d -> let '(r, d') := dev_list_protected d in
  mdev_ok d' /\
  forall pl, r = Some pl ->
    pl_count pl = Z.of_nat (length (pl_items pl)) /\ (length (pl_items pl) <= AC_MAX_PROTS)%nat.
Proof.
  intros Hd. destruct (mdev_ioctl_ok ReqListProtected d Hd I) as (rp & E & Ei & Ho).
  destruct Hd. cbn [dev_list_protected mdev_device]. rewrite Ei. split; [done|]. intros pl Hpl.
  unfold ac_ioctl, ioctl_list_protected, copy_out in E.
  rewrite mk_admin0, mk_write0 in E. injection E as <-. injection Hpl as <-.
  destruct mk_mod0 as [[Hr _] _]. destruct (ac_list_refines _ Hr) as [_ H2].
  split; [done|]. pose proof (registry_bound _ Hr) as Hb. rewrite <- (protected_size _ Hr) in Hb.
  unfold AC_MAX_PROTS, AC_PROT_MAX, m_reg in *. cbn [pl_count ac_list_protected] in H2.
  apply Nat2Z.inj in H2. unfold ac_list_protected. cbn [pl_items]. lia.
Qed.

Lemma mdev_scan_begin pid ev d :
  mdev_ok d -> let '(r, d') := dev_scan_begin pid ev d in
  mdev_ok d' /\
  forall b, r = Some b ->
    sb_n_vmas b = Z.of_nat (length (mdev_vmas d')) /\
    sb_rwx_count b = count is_rwx (mdev_vmas d') /\
    sb_anon_exec_count b = count is_anon_exec (mdev_vmas d').
Proof.
  intros Hd. destruct (mdev_ioctl_ok (ReqScanBegin (ScanBegin pid ev 0 0 0 0 0)) d Hd I)
    as (rp & E & Ei & Ho).
  cbn [dev_scan_begin mdev_device]. rewrite Ei. split; [done|]. intros b Hb.
  unfold out_with in Hb. cbn [fst snd] in Hb. destruct (Z.ltb_spec (rp_ret rp) 0) as [|Hret]; [done|].
  assert (Hz : rp_ret rp = 0).
  { unfold ac_ioctl, ioctl_scan_begin, copy_out, ac_build_vma_snapshot in E.
    repeat (case_match; simplify_eq/=; try done). }
  destruct (scan_begin_succeeds _ _ _ _ _ E Hz) as (vs & st & _ & Est & Ev & H1 & H2 & Eo).
  rewrite Eo in Hb. injection Hb as <-. unfold mdev_vmas. cbn [md_pd]. rewrite Est. simpl. rewrite Ev.
  simpl. by rewrite H1, H2.
Qed.

Lemma mdev_scan_get pid i d :
  mdev_ok d -> 0 <= i < 2 ^ 32 -> let '(r, d') := dev_scan_get pid i d in
  mdev_ok d' /\ mdev_vmas d' = mdev_vmas d /\ r = mdev_vmas d !! Z.to_nat i.
Proof.
  intros Hd Hi. destruct (mdev_ioctl_ok (ReqScanGet (ScanGet pid i zero_vma)) d Hd Hi)
    as (rp & E & Ei & Ho).
  destruct Hd. cbn [dev_scan_get mdev_device]. rewrite Ei. split; [done|].
  unfold ac_ioctl in E. rewrite mk_admin0 in E. cbn [negb] in E.
  rewrite (scan_get_spec _ _ _ mk_fd0) in E by (simpl; lia). rewrite mk_read0 in E. cbn [negb] in E.
  rewrite vma_at_lookup in E. cbn [sg_index] in E. fold (mdev_vmas d) in E.
  injection E as <-. unfold copy_out, out_with. rewrite mk_write0.
  by destruct (mdev_vmas d !! Z.to_nat i).
Qed.

Lemma mdev_mods_begin d :
  mdev_ok d -> let '(r, d') := dev_mods_begin d in
  mdev_ok d' /\
  forall n, r = Some n ->
    n = Z.of_nat (length (mdev_mods d')) /\ (length (mdev_mods d') <= AC_MAX_MODS)%nat.
Proof.
  intros Hd. destruct (mdev_ioctl_ok ReqModsBegin d Hd I) as (rp & E & Ei & Ho).
  cbn [dev_mods_begin mdev_device]. rewrite Ei. split; [done|]. intros n Hn.
  destruct Hd. unfold ac_ioctl, ioctl_mods_begin, ac_build_mod_snapshot in E.
  rewrite mk_admin0 in E. cbn [negb] in E.
  destruct (ac_get_fd_state _ _) as [[st|] cs]; [|by simplify_eq/=].
  destruct (alloc_bulk _); [|by simplify_eq/=].
  unfold copy_out in E. cbn [negb Z.eqb] in E. rewrite mk_write0 in E. injection E as <-.
  unfold out_with in Hn. simpl in Hn. injection Hn as <-. unfold mdev_mods. simpl.
  split; [done|apply length_mod_loop].
Qed.

Lemma mdev_mods_get i d :
  mdev_ok d -> 0 <= i < 2 ^ 32 -> let '(r, d') := dev_mods_get i d in
  mdev_ok d' /\ mdev_mods d' = mdev_mods d /\ r = mdev_mods d !! Z.to_nat i.
Proof.
  intros Hd Hi. destruct (mdev_ioctl_ok (ReqModsGet (ModGet i zero_mod)) d Hd Hi)
    as (rp & E & Ei & Ho).
  destruct Hd. cbn [dev_mods_get mdev_device]. rewrite Ei. split; [done|].
  unfold ac_ioctl in E. rewrite mk_admin0 in E. cbn [negb] in E.
  rewrite (mods_get_spec _ _ _ mk_fd0) in E by (simpl; lia). rewrite mk_read0 in E. cbn [negb] in E.
  rewrite mod_at_lookup in E. cbn [mg_index] in E. fold (mdev_mods d) in E.
  injection E as <-. unfold copy_out, out_with. rewrite mk_write0.
  by destruct (mdev_mods d !! Z.to_nat i).
Qed.

Lemma mdev_get_events d :
  mdev_ok d -> let '(r, d') := dev_get_events d in
  mdev_ok d' /\
  match r with
  | None => mdev_queue d' = mdev_queue d
  | Some el =>
      el_events el = take AC_MAX_EVENTS (mdev_queue d) /\
      mdev_queue d' = drop AC_MAX_EVENTS (mdev_queue d) /\
      el_count el = Z.of_nat (length (el_events el))
  end.
Proof.
  intros Hd. destruct (mdev_ioctl_ok ReqGetEvents d Hd I) as (rp & E & Ei & Ho).
  cbn [dev_get_events mdev_device]. rewrite Ei. split; [done|].
  destruct Hd. unfold ac_ioctl, ioctl_get_events in E. rewrite mk_admin0 in E. cbn [negb] in E.
  destruct (alloc_bulk _); cbn [negb] in E; [|injection E as <-; done].
  pose proof (ac_drain_refines _ (gi_ring _ (mi_guard _ mk_mod0))) as H. unfold m_ring in E.
  destruct (ac_drain_events _) as [el r]. unfold copy_out in E. rewrite mk_write0 in E.
  injection E as <-. destruct H as (_ & H1 & H2 & H3 & _). unfold mdev_queue, m_ring. simpl. done.
Qed.

Lemma mdev_check_syscalls d : mdev_ok d -> mdev_ok (dev_check_syscalls d).2.
Proof.
  intros Hd. pose proof (mdev_ioctl_keeps ReqCheckSyscalls d Hd I) as H.
  cbn [dev_check_syscalls mdev_device]. by destruct (mdev_ioctl ReqCheckSyscalls d).
Qed.

Lemma mdev_reg_inv d : mdev_ok d -> registry_inv (m_reg (md_mod d)).
Proof. intros []. exact (gi_reg _ (mi_guard _ mk_mod0)). Qed.

Lemma mdev_status d :
  mdev_ok d -> let '(r, d') := dev_status d in
  mdev_ok d' /\ mdev_prot d' = mdev_prot d /\
  forall st, r = Some st -> st_active_procs st = Z.of_nat (size (mdev_prot d)).
Proof.
  intros Hd. destruct (mdev_ioctl_ok ReqStatus d Hd I) as (rp & E & Ei & Ho).
  pose proof (registry_count _ (mdev_reg_inv d Hd)) as Hc. destruct Hd.
  cbn [dev_status mdev_device]. rewrite Ei. split; [done|].
  unfold ac_ioctl, ioctl_status, copy_out in E. rewrite mk_admin0, mk_write0 in E. injection E as <-.
  split; [done|]. intros st Hst. unfold out_with in Hst. simpl in Hst. injection Hst as <-. exact Hc.
Qed.

(** The listing is the map's entries. *)
Lemma omap_items ps :
  omap entry_item ps = info_item <$> (omap (slot_kv pe_task entry_info) ps).*2.
Proof. induction ps as [|[[t|] ???] ps IH]; [done|..]; cbn; [by f_equal|done]. Qed.

Lemma mdev_listing d :
  mdev_ok d -> let '(r, d') := dev_list_protected d in
  mdev_prot d' = mdev_prot d /\
  forall pl, r = Some pl -> pl_items pl ≡ₚ info_item <$> (map_to_list (mdev_prot d)).*2.
Proof.
  intros Hd. destruct (mdev_ioctl_ok ReqListProtected d Hd I) as (rp & E & Ei & Ho).
  pose proof (mdev_reg_inv d Hd) as Hr. destruct Hd. cbn [dev_list_protected mdev_device]. rewrite Ei.
  unfold ac_ioctl, ioctl_list_protected, copy_out in E. rewrite mk_admin0, mk_write0 in E.
  injection E as <-. split; [done|]. intros pl Hpl. injection Hpl as <-.
  rewrite (proj1 (ac_list_refines _ Hr)), omap_items. apply fmap_Permutation, fmap_Permutation.
  unfold mdev_prot, protected, slot_map. symmetry. apply map_to_list_to_map.
  rewrite omap_slot_kv. exact (reg_nodup _ Hr).
Qed.

Lemma mdev_add_proc a d :
  mdev_ok d -> let '(ok, d') := dev_add_proc a d in
  mdev_ok d' /\
  if ok : bool then
    exists t i, mdev_resolve d (pi_pid a) (pi_ref_pid a) = Some t /\
      in_jit i = negb (pi_jit_allowed a =? 0) /\ mdev_prot d' = <[t := i]> (mdev_prot d)
  else
    mdev_prot d' = mdev_prot d /\
    match mdev_resolve d (pi_pid a) (pi_ref_pid a) with
    | None => True
    | Some t => mdev_prot d !! t = None /\ size (mdev_prot d) = AC_PROT_MAX
    end.
Proof.
  intros Hd. destruct (mdev_ioctl_ok (ReqAddProc a) d Hd I) as (rp & E & Ei & Ho).
  pose proof (mdev_reg_inv d Hd) as Hr. pose proof (registry_bound _ Hr) as Hb.
  rewrite <- (protected_size _ Hr) in Hb. destruct Hd. cbn [dev_add_proc mdev_device]. rewrite Ei.
  split; [done|]. cbn [fst].
  unfold ac_ioctl, ioctl_add_proc, ac_add_prot_pid in E. rewrite mk_admin0, mk_read0 in E. cbn [negb] in E.
  unfold mdev_resolve, mdev_prot. set (k := md_kernel d (md_calls d)) in *.
  destruct (if 0 <? pi_ref_pid a then _ else _) as [[t|] cs]; [|by injection E as <-].
  pose proof (ac_add_refines k t (negb (pi_jit_allowed a =? 0)) _ Hr) as H. cbn [fst].
  destruct (ac_add_prot_task k t _ _) as [[ret r'] cs']. injection E as <-.
  cbn [rp_ret rp_mod m_reg set_reg md_mod m_guard set_guard g_reg]. destruct H as [_ H].
  destruct (protected (m_reg (md_mod d)) !! t) as [i|].
  - destruct H as (-> & _ & H). cbn [Z.eqb]. eexists t, _. split; [done|]. split; [|exact H]. done.
  - destruct (Nat.ltb_spec (size (protected (m_reg (md_mod d)))) AC_PROT_MAX).
    + destruct H as (-> & _ & H). cbn [Z.eqb]. eexists t, _. split; [done|]. split; [|exact H]. done.
    + destruct H as (-> & _ & ->). split; [done|]. split; [done|lia].
Qed.

Lemma mdev_del_proc a d :
  mdev_ok d -> let '(ok, d') := dev_del_proc a d in
  mdev_ok d' /\
  match mdev_resolve d (pi_pid a) 0 with
  | None => ok = false /\ mdev_prot d' = mdev_prot d
  | Some t => ok = true /\ mdev_prot d' = delete t (mdev_prot d)
  end.
Proof.
  intros Hd. destruct (mdev_ioctl_ok (ReqDelProc a) d Hd I) as (rp & E & Ei & Ho).
  pose proof (mdev_reg_inv d Hd) as Hr. destruct Hd. cbn [dev_del_proc mdev_device]. rewrite Ei.
  split; [done|]. unfold ac_ioctl, ioctl_del_proc in E. rewrite mk_admin0, mk_read0 in E. cbn [negb] in E.
  unfold mdev_resolve, mdev_prot. cbn [Z.ltb Z.compare fst].
  destruct (ac_find_task _ (pi_pid a)) as [[t|] cs]; [|by injection E as <-].
  pose proof (ac_del_refines t _ Hr) as H. destruct (ac_del_prot_task t _) as [r' cs'].
  injection E as <-. destruct H as (_ & H & _). split; [done|exact H].
Qed.

Lemma mdev_lock b d :
  mdev_ok d -> mdev_ok (dev_lock b d).2 /\ mdev_prot (dev_lock b d).2 = mdev_prot d.
Proof.
  intros Hd. cbn [dev_lock mdev_device].
  destruct (mdev_ioctl_ok (if b then ReqLock else ReqUnlock) d Hd ltac:(by destruct b)) as (rp & E & -> & Ho).
  split; [done|]. destruct Hd. unfold ac_ioctl, ioctl_lock, ioctl_unlock in E. rewrite mk_admin0 in E.
  destruct b; cbn [negb] in E; repeat case_match; by injection E as <-.
Qed.

#[export] Instance mdev_laws : DeviceLaws mdev := {
  dev_ok := mdev_ok;
  dev_vmas := mdev_vmas;
  dev_mods := mdev_mods;
  dev_queue := mdev_queue;
  dev_prot := mdev_prot;
  dev_resolve := mdev_resolve;
  vmas_bound := mdev_vmas_bound;
  list_protected_law := mdev_list_protected;
  scan_begin_law := mdev_scan_begin;
  scan_get_law := mdev_scan_get;
  scan_end_law d Hd := mdev_ioctl_keeps ReqScanEnd d Hd I;
  check_syscalls_law := mdev_check_syscalls;
  mods_begin_law := mdev_mods_begin;
  mods_get_law := mdev_mods_get;
  mods_end_law d Hd := mdev_ioctl_keeps ReqModsEnd d Hd I;
  get_events_law := mdev_get_events;
  status_law := mdev_status;
  listing_law := mdev_listing;
  add_proc_law := mdev_add_proc;
  del_proc_law := mdev_del_proc;
  lock_law := mdev_lock
}.
