(* ===== verification/Log.v ===== *)
(** * Logging and severities (src/anticheat_daemon.c, [logmsg])

    The daemon's observable output: syslog lines, standard error, and the
    reports that go to the server. *)

From Stdlib Require Import ZArith Lia.
From stdpp Require Import base numbers list strings.
From S2P Require Import Prelude Abi.

(** The priorities of <syslog.h> the daemon uses. *)
Definition LOG_ALERT : Z := 1.
Definition LOG_CRIT : Z := 2.
Definition LOG_WARNING : Z := 4.
Definition LOG_NOTICE : Z := 5.
Definition LOG_INFO : Z := 6.

Inductive effect :=
  | Syslog (pri : Z) (text : cstring)
  | Stderr (text : cstring)
  | Report (event_type detail : cstring).     (* a call of ac_report *)

#[global] Instance effect_eq_dec : EqDecision effect.
Proof. solve_decision. Defined.

Definition LOG_BUF : nat := 512.

(** [logmsg], for the formatted text; [verbose] is [g_verbose]. *)
Definition logmsg (verbose : bool) (pri : Z) (text : cstring) : list effect :=
  let buf := snprintf LOG_BUF text in
  [Syslog pri buf]
  ++ (if (pri <=? LOG_WARNING) || verbose then [Stderr buf] else [])
  ++ (if pri <=? LOG_CRIT
      then [Report (if pri <=? LOG_ALERT then bs "ALERT" else bs "CRITICAL") buf] else []).

(** [ev_type_str]. *)
Definition ev_type_str (t : Z) : cstring :=
  if t =? ev_code AC_EV_FORK then bs "FORK"
  else if t =? ev_code AC_EV_EXEC then bs "EXEC"
  else if t =? ev_code AC_EV_EXIT then bs "EXIT"
  else if t =? ev_code AC_EV_PTRACE then bs "PTRACE-DENIED"
  else if t =? ev_code AC_EV_SYSCALL_HOOK then bs "SYSCALL-HOOK"
  else if t =? ev_code AC_EV_RWX then bs "RWX"
  else if t =? ev_code AC_EV_ANON_EXEC then bs "ANON-EXEC"
  else if t =? ev_code AC_EV_INFO then bs "INFO"
  else bs "UNKNOWN".

Definition is_report (e : effect) : bool := match e with Report _ _ => true | _ => false end.

(** The reports among some effects. *)
Definition reports (es : list effect) : list effect := List.filter is_report es.

Lemma reports_app es es' : reports (es ++ es') = reports es ++ reports es'.
Proof. apply List.filter_app. Qed.

(** Warnings and below never reach the ban pipeline. *)
Lemma logmsg_no_report verbose pri text : LOG_CRIT < pri -> reports (logmsg verbose pri text) = [].
Proof.
  intros H. unfold logmsg. rewrite (proj2 (Z.leb_gt _ _) H), app_nil_r.
  by destruct ((pri <=? LOG_WARNING) || verbose).
Qed.

Lemma logmsg_reports verbose pri text :
  pri <= LOG_CRIT ->
  reports (logmsg verbose pri text) =
  [Report (if pri <=? LOG_ALERT then bs "ALERT" else bs "CRITICAL") (snprintf LOG_BUF text)].
Proof.
  intros H. unfold logmsg. rewrite (proj2 (Z.leb_le _ _) H).
  rewrite !reports_app. by destruct ((pri <=? LOG_WARNING) || verbose).
Qed.
