(* ===== verification/Tracker.v ===== *)
(** * Per-process tables of the daemon (src/anticheat_daemon.c)

    The four tables of 64 slots in which the monitor remembers protected
    processes between its cycles: the baselines of anonymous executable
    mappings and of unrecognised implicit layers, and the processes already
    warned about for [LD_PRELOAD] and for Vulkan layers; with the scan cycle
    that feeds the first. *)

From Stdlib Require Import ZArith Lia.
From stdpp Require Import base numbers list gmap strings.
From S2P Require Import Prelude Abi SlotTable Ring Kernel Registry Probes Snapshot Ioctl Device Log.

(** [struct ac_anon_baseline] and its siblings: [A] is [unsigned int] where
    there is a count and [unit] where there is none. *)
Record slot (A : Type) := Slot { sl_pid : Z; sl_val : A; sl_in_use : bool }.
Arguments Slot {A}.
Arguments sl_pid {A}.
Arguments sl_val {A}.
Arguments sl_in_use {A}.

Definition slot_key {A} (s : slot A) : option Z := if sl_in_use s then Some (sl_pid s) else None.

(** Static storage. *)
Definition table_zero {A} (a : A) : list (slot A) := replicate AC_MAX_PROTS (Slot 0 a false).

(** Whether a pid occurs in the listed items. *)
Definition listed (pl : ac_prot_list) (pid : Z) : bool :=
  existsb (fun it => pt_pid it =? pid) (take (Z.to_nat (pl_count pl)) (pl_items pl)).

(** The [*_forget_stale] loops. *)
Definition forget_slot {A} (pl : ac_prot_list) (s : slot A) : slot A :=
  if negb (sl_in_use s) then s
  else if listed pl (sl_pid s) then s
  else Slot (sl_pid s) (sl_val s) false.

Definition forget_stale {A} (pl : ac_prot_list) (tbl : list (slot A)) : list (slot A) :=
  forget_slot pl <$> tbl.

Definition anon_baseline_forget_stale : ac_prot_list -> list (slot Z) -> list (slot Z) :=
  forget_stale.
Definition preload_warned_forget_stale : ac_prot_list -> list (slot unit) -> list (slot unit) :=
  forget_stale.
Definition vklayer_warned_forget_stale : ac_prot_list -> list (slot unit) -> list (slot unit) :=
  forget_stale.
Definition implicit_layer_baseline_forget_stale
    : ac_prot_list -> list (slot Z) -> list (slot Z) := forget_stale.

(** [*_already_warned] and [*_mark_warned]. *)
Definition already_warned (pid : Z) (tbl : list (slot unit)) : bool :=
  existsb (fun s => sl_in_use s && (sl_pid s =? pid)) tbl.

Definition mark_warned (pid : Z) (tbl : list (slot unit)) : list (slot unit) :=
  match slot_search slot_key 0 tbl pid None with
  | inl _ => tbl
  | inr (Some free_slot) => <[free_slot := Slot pid tt true]> tbl
  | inr None => tbl
  end.

Definition preload_already_warned : Z -> list (slot unit) -> bool := already_warned.
Definition preload_mark_warned : Z -> list (slot unit) -> list (slot unit) := mark_warned.
Definition vklayer_already_warned : Z -> list (slot unit) -> bool := already_warned.
Definition vklayer_mark_warned : Z -> list (slot unit) -> list (slot unit) := mark_warned.

(** The texts of [anon_baseline_check]. *)
Definition anon_growth (pid : Z) (comm : cstring) (old now : Z) : cstring :=
  bs "pid " ++ fmt_d pid ++ bs " (" ++ comm ++ bs "): " ++ fmt_d (u32 (now - old))
  ++ bs " new anonymous executable mapping(s) since first observed (was " ++ fmt_d old
  ++ bs ", now " ++ fmt_d now ++ bs ") -- ".

Definition anon_baseline_check (verbose : bool) (pid : Z) (comm : cstring) (count : Z)
    (jit_allowed : bool) (tbl : list (slot Z)) : list (slot Z) * list effect :=
  match slot_search slot_key 0 tbl pid None with
  | inl i =>
      let old := default 0 (sl_val <$> tbl !! i) in
      (alter (fun s => Slot (sl_pid s) count (sl_in_use s)) i tbl,
       if old <? count then
         if jit_allowed then
           logmsg verbose LOG_WARNING
             (anon_growth pid comm old count
              ++ bs "expected for a JIT-marked process, not auto-reported")
         else
           logmsg verbose LOG_CRIT
             (anon_growth pid comm old count
              ++ bs "possible code injection after process start")
       else [])
  | inr (Some free_slot) => (<[free_slot := Slot pid count true]> tbl, [])
  | inr None => (tbl, [])
  end.

(** The count update at the end of a cycle of
    [check_implicit_layers_periodic], for the [unknown] layers found and their
    joined [names]. *)
Definition implicit_baseline_check (verbose : bool) (pid : Z) (comm : cstring) (unknown : Z)
    (names : cstring) (tbl : list (slot Z)) : list (slot Z) * list effect :=
  match slot_search slot_key 0 tbl pid None with
  | inr (Some free_slot) => (<[free_slot := Slot pid unknown true]> tbl, [])
  | inr None => (tbl, [])
  | inl i =>
      let old := default 0 (sl_val <$> tbl !! i) in
      (alter (fun s => Slot (sl_pid s) unknown (sl_in_use s)) i tbl,
       if old <? unknown then
         logmsg verbose LOG_WARNING
           (bs "pid " ++ fmt_d pid ++ bs " (" ++ comm ++ bs "): " ++ fmt_d unknown
            ++ bs " unrecognized implicit Vulkan layer(s) active (" ++ names
            ++ bs ") -- not in the known-overlay allowlist; informational only, "
            ++ bs "not a verdict on its own")
       else [])
  end.

(** ** The scan cycle *)

Section cycle.
Context {D : Type} `{Device D}.

(** One iteration of the loop of [scan_protected_periodic]. *)
Definition scan_item (verbose : bool) (it : ac_prot_item) (s : D * list (slot Z) * list effect)
    : D * list (slot Z) * list effect :=
  let '(d, tbl, es) := s in
  match dev_scan_begin (pt_pid it) 0 d with
  | (None, d) => (d, tbl, es)
  | (Some b, d) =>
      let warn := if 0 <? sb_rwx_count b then
                    logmsg verbose LOG_WARNING
                      (bs "pid " ++ fmt_d (pt_pid it) ++ bs " (" ++ pt_comm it ++ bs "): "
                       ++ fmt_d (sb_rwx_count b) ++ bs " RWX mapping(s) present")
                  else [] in
      let '(tbl, es') := anon_baseline_check verbose (pt_pid it) (pt_comm it)
                           (sb_anon_exec_count b) (negb (pt_jit_allowed it =? 0)) tbl in
      (dev_scan_end d, tbl, es ++ warn ++ es')
  end.

Definition scan_protected_periodic (verbose : bool) (d : D) (tbl : list (slot Z))
    : Z * D * list (slot Z) * list effect :=
  match dev_list_protected d with
  | (None, d) => (-1, d, tbl, [])
  | (Some pl, d) =>
      let tbl := anon_baseline_forget_stale pl tbl in
      let '(d, tbl, es) := foldl (fun s it => scan_item verbose it s) (d, tbl, [])
                             (take (Z.to_nat (pl_count pl)) (pl_items pl)) in
      (0, d, tbl, es)
  end.
End cycle.

(** ** The tables as maps *)

Definition tracked {A} (tbl : list (slot A)) : gmap Z A := slot_map slot_key sl_val tbl.

Record table_inv {A} (tbl : list (slot A)) : Prop := {
  ti_size : length tbl = AC_MAX_PROTS;
  ti_nodup : NoDup (slot_keys slot_key tbl)
}.

Lemma table_zero_inv {A} (a : A) : table_inv (table_zero a) /\ tracked (table_zero a) = ∅.
Proof.
  assert (Hk : slot_keys slot_key (table_zero a) = []) by done.
  split; [split; [done|rewrite Hk; apply NoDup_nil_2]|].
  apply map_eq. intros i. rewrite lookup_empty. apply slot_map_None. rewrite Hk. set_solver.
Qed.

Lemma tracked_size {A} (tbl : list (slot A)) :
  table_inv tbl -> (size (tracked tbl) <= AC_MAX_PROTS)%nat.
Proof.
  intros [Hs Hn]. unfold tracked. rewrite slot_map_size by done. rewrite <- Hs. apply slot_keys_length.
Qed.

Lemma forget_stale_refines {A} pl (tbl : list (slot A)) :
  table_inv tbl ->
  table_inv (forget_stale pl tbl) /\
  tracked (forget_stale pl tbl) = filter (fun kv => listed pl kv.1 = true) (tracked tbl).
Proof.
  intros [Hs Hn]. unfold forget_stale.
  destruct (slot_filter slot_key sl_val (listed pl) (forget_slot pl) tbl) as [H1 H2].
  - intros [pid v [|]]; unfold forget_slot, slot_key; simpl; [|done]. by destruct (listed pl pid).
  - intros [pid v [|]]; unfold forget_slot; simpl; [|done]. by destruct (listed pl pid).
  - done.
  - split; [split; [by rewrite length_fmap|done]|done].
Qed.

(** Recording a value: the search followed by an update of the slot found or a
    store into the free one. *)
Lemma record_refines {A} pid (v : A) tbl :
  table_inv tbl ->
  match slot_search slot_key 0 tbl pid None with
  | inl i =>
      exists old, tbl !! i = Some old /\ tracked tbl !! pid = Some (sl_val old) /\
        let tbl' := alter (fun s => Slot (sl_pid s) v (sl_in_use s)) i tbl in
        table_inv tbl' /\ tracked tbl' = <[pid := v]> (tracked tbl)
  | inr (Some i) =>
      tracked tbl !! pid = None /\ (size (tracked tbl) < AC_MAX_PROTS)%nat /\
      let tbl' := <[i := Slot pid v true]> tbl in
      table_inv tbl' /\ tracked tbl' = <[pid := v]> (tracked tbl)
  | inr None => tracked tbl !! pid = None /\ size (tracked tbl) = AC_MAX_PROTS
  end.
Proof.
  intros [Hs Hn]. unfold tracked. pose proof (slot_search_spec slot_key tbl pid 0 None) as H.
  destruct (slot_search slot_key 0 tbl pid None) as [i|[i|]].
  - destruct H as (l1 & p & l2 & -> & -> & Hp). exists p. rewrite Nat.add_0_l.
    rewrite lookup_middle, alter_middle. set (q := Slot (sl_pid p) v (sl_in_use p)).
    destruct (slot_overwrite slot_key sl_val l1 p q l2 pid Hn Hp Hp) as (H1 & H2 & H3).
    split_and!; [done..|split; [|done]|done]. by rewrite <- Hs, !length_app.
  - destruct H as [Hk (l1 & p & l2 & -> & -> & Hp)]. rewrite Nat.add_0_l, insert_middle.
    destruct (slot_take slot_key sl_val l1 p (Slot pid v true) l2 pid Hn Hp eq_refl Hk)
      as (H1 & H2 & H3).
    rewrite slot_map_size by done. rewrite Hs in H3.
    split_and!; [by apply slot_map_None|done|split; [|done]|done]. by rewrite <- Hs, !length_app.
  - destruct H as [Hk Hl]. rewrite slot_map_size by done.
    split; [by apply slot_map_None|]. by rewrite Hl.
Qed.

(** What an observation of [count] for [pid] logs against the table. *)
Definition growth_effects (verbose : bool) (m : gmap Z Z) (pid : Z) (comm : cstring)
    (count : Z) (jit : bool) : list effect :=
  match m !! pid with
  | Some old =>
      if old <? count then
        if jit then
          logmsg verbose LOG_WARNING
            (anon_growth pid comm old count
             ++ bs "expected for a JIT-marked process, not auto-reported")
        else
          logmsg verbose LOG_CRIT
            (anon_growth pid comm old count
             ++ bs "possible code injection after process start")
      else []
  | None => []
  end.

(** There is room for a pid when it is present or a slot is free. *)
Definition has_room {A} (m : gmap Z A) (pid : Z) : Prop :=
  is_Some (m !! pid) \/ (size m < AC_MAX_PROTS)%nat.

Lemma anon_check_refines verbose pid comm count jit tbl :
  table_inv tbl -> has_room (tracked tbl) pid ->
  let '(tbl', es) := anon_baseline_check verbose pid comm count jit tbl in
  table_inv tbl' /\ tracked tbl' = <[pid := count]> (tracked tbl) /\
  es = growth_effects verbose (tracked tbl) pid comm count jit.
Proof.
  intros Ht Hroom. pose proof (record_refines pid count tbl Ht) as H.
  unfold anon_baseline_check, growth_effects.
  destruct (slot_search slot_key 0 tbl pid None) as [i|[i|]].
  - destruct H as (old & E1 & E2 & H1 & H2). rewrite E1, E2. cbn. split_and!; [done..|].
    by destruct jit.
  - destruct H as (E & _ & H1 & H2). rewrite E. done.
  - destruct H as (E1 & E2). destruct Hroom as [Hr|Hr]; [|lia].
    rewrite E1 in Hr. by destruct Hr.
Qed.

Lemma mark_warned_refines pid tbl :
  table_inv tbl -> has_room (tracked tbl) pid ->
  table_inv (mark_warned pid tbl) /\ tracked (mark_warned pid tbl) = <[pid := tt]> (tracked tbl).
Proof.
  intros Ht Hroom. pose proof (record_refines pid tt tbl Ht) as H. unfold mark_warned.
  destruct (slot_search slot_key 0 tbl pid None) as [i|[i|]].
  - destruct H as (old & E1 & E2 & _). split; [done|]. symmetry. apply insert_id.
    by destruct (sl_val old).
  - by destruct H as (_ & _ & H1 & H2).
  - destruct H as (E1 & E2). destruct Hroom as [Hr|Hr]; [|lia].
    rewrite E1 in Hr. by destruct Hr.
Qed.

Lemma already_warned_spec pid tbl :
  already_warned pid tbl = bool_decide (is_Some (tracked tbl !! pid)).
Proof.
  unfold already_warned, tracked. symmetry.
  assert (E : existsb (fun s => sl_in_use s && (sl_pid s =? pid)) tbl = true <->
              pid ∈ slot_keys slot_key tbl).
  { clear. induction tbl as [|[p v u] tbl IH]; [set_solver|]. cbn [existsb].
    rewrite slot_keys_cons. unfold slot_key at 1. cbn [sl_in_use sl_pid].
    rewrite orb_true_iff, IH. destruct u; simpl; [|naive_solver].
    rewrite elem_of_cons, Z.eqb_eq. naive_solver. }
  rewrite (bool_decide_ext _ _ (slot_map_dom slot_key sl_val tbl pid)).
  destruct (existsb _ tbl) eqn:Ex.
  - by apply bool_decide_eq_true, E.
  - apply bool_decide_eq_false. intros Hk. apply E in Hk. congruence.
Qed.

(** ** The cycle against the table of a map *)

(** All keys belong to a set of at most 64 pids. *)
Definition within {A} (m : gmap Z A) (pids : gset Z) : Prop :=
  dom m ⊆ pids /\ (size pids <= AC_MAX_PROTS)%nat.

Lemma within_room {A} (m : gmap Z A) pids pid : within m pids -> pid ∈ pids -> has_room m pid.
Proof.
  intros [Hd Hs] Hp. destruct (m !! pid) eqn:E; [left; by rewrite E|right].
  apply not_elem_of_dom in E. rewrite <- size_dom.
  apply Nat.lt_le_trans with (size pids); [|done]. apply subset_size. set_solver.
Qed.

Lemma within_insert {A} (m : gmap Z A) pids pid v :
  within m pids -> pid ∈ pids -> within (<[pid := v]> m) pids.
Proof. intros [Hd Hs] Hp. split; [|done]. rewrite dom_insert_L. set_solver. Qed.

Definition pids_of (items : list ac_prot_item) : gset Z := list_to_set (pt_pid <$> items).

Lemma within_listed {A} (m : gmap Z A) pl :
  pl_count pl = Z.of_nat (length (pl_items pl)) -> (length (pl_items pl) <= AC_MAX_PROTS)%nat ->
  within (filter (fun kv => listed pl kv.1 = true) m) (pids_of (pl_items pl)).
Proof.
  intros Hc Hl. unfold pids_of. split.
  - intros pid Hp. apply elem_of_dom in Hp as [v Hv]. apply map_lookup_filter_Some in Hv as [_ Hv].
    apply elem_of_list_to_set. unfold listed in Hv. simpl in Hv.
    rewrite Hc, Nat2Z.id, firstn_all in Hv. apply existsb_exists in Hv as (it & Hin & Heq).
    apply Z.eqb_eq in Heq. subst. apply list_elem_of_fmap_2. by apply list_elem_of_In.
  - etrans; [|exact Hl]. rewrite <- (length_fmap pt_pid (pl_items pl)).
    generalize (pt_pid <$> pl_items pl). clear. intros l. induction l as [|x l IH]; [done|].
    cbn [list_to_set length]. rewrite size_union_alt, size_singleton.
    pose proof (subseteq_size (list_to_set l ∖ {[x]} : gset Z) (list_to_set l) ltac:(set_solver)).
    lia.
Qed.

Section cycle_spec.
Context {D : Type} `{DeviceLaws D}.

(** What the cycle asks of the device: a count per item, where the scan
    succeeds. *)
Fixpoint observe (items : list ac_prot_item) (d : D) : list (ac_prot_item * option Z) * D :=
  match items with
  | [] => ([], d)
  | it :: items =>
      match dev_scan_begin (pt_pid it) 0 d with
      | (None, d) => let '(obs, d) := observe items d in ((it, None) :: obs, d)
      | (Some b, d) =>
          let '(obs, d) := observe items (dev_scan_end d) in
          ((it, Some (sb_anon_exec_count b)) :: obs, d)
      end
  end.

(** The table and the reports these observations call for. *)
Fixpoint judge (obs : list (ac_prot_item * option Z)) (m : gmap Z Z) : gmap Z Z * list effect :=
  match obs with
  | [] => (m, [])
  | (_, None) :: obs => judge obs m
  | (it, Some c) :: obs =>
      let '(m', rs) := judge obs (<[pt_pid it := c]> m) in
      (m', match m !! pt_pid it with
           | Some old =>
               if (old <? c) && (pt_jit_allowed it =? 0) then
                 [Report (bs "CRITICAL")
                    (snprintf LOG_BUF (anon_growth (pt_pid it) (pt_comm it) old c
                       ++ bs "possible code injection after process start"))]
               else []
           | None => []
           end ++ rs)
  end.

Lemma growth_reports verbose m pid comm c jit :
  reports (growth_effects verbose m pid comm c jit) =
  match m !! pid with
  | Some old =>
      if (old <? c) && negb jit then
        [Report (bs "CRITICAL")
           (snprintf LOG_BUF (anon_growth pid comm old c
              ++ bs "possible code injection after process start"))]
      else []
  | None => []
  end.
Proof.
  unfold growth_effects. destruct (m !! pid) as [old|]; [|done].
  destruct (old <? c); [|done]. destruct jit; cbn [negb andb].
  - by apply logmsg_no_report.
  - by apply logmsg_reports.
Qed.

Lemma scan_items_spec verbose pids items : forall d tbl es,
  dev_ok d -> table_inv tbl -> within (tracked tbl) pids -> pids_of items ⊆ pids ->
  let '(d', tbl', es') := foldl (fun s it => scan_item verbose it s) (d, tbl, es) items in
  let '(obs, d'') := observe items d in
  let '(m, rs) := judge obs (tracked tbl) in
  d' = d'' /\ dev_ok d' /\ table_inv tbl' /\ tracked tbl' = m /\ reports es' = reports es ++ rs.
Proof.
  induction items as [|it items IH]; intros d tbl es Hd Ht Hw Hs; cbn [foldl observe].
  { simpl. by rewrite app_nil_r. }
  assert (Hin : pt_pid it ∈ pids) by (apply Hs; unfold pids_of; set_solver).
  assert (Hs' : pids_of items ⊆ pids) by (unfold pids_of in *; set_solver).
  unfold scan_item at 2. pose proof (scan_begin_law (pt_pid it) 0 d Hd) as Hb.
  destruct (dev_scan_begin (pt_pid it) 0 d) as [[b|] d1]; destruct Hb as [Hd1 _].
  - pose proof (anon_check_refines verbose (pt_pid it) (pt_comm it) (sb_anon_exec_count b)
      (negb (pt_jit_allowed it =? 0)) tbl Ht (within_room _ _ _ Hw Hin)) as Ha.
    destruct (anon_baseline_check _ _ _ _ _ tbl) as [tbl1 es1]. destruct Ha as (H1 & H2 & ->).
    match goal with |- context [foldl _ (_, _, ?e) _] =>
      specialize (IH (dev_scan_end d1) tbl1 e (scan_end_law d1 Hd1) H1) end.
    rewrite H2 in IH. specialize (IH (within_insert _ _ _ _ Hw Hin) Hs').
    destruct (foldl _ _ items) as [[d' tbl'] es'].
    destruct (observe items (dev_scan_end d1)) as [obs d'']. cbn [judge].
    destruct (judge obs _) as [m rs]. destruct IH as (-> & I1 & I2 & I3 & I4).
    split_and!; [done..|]. rewrite I4, !reports_app, growth_reports, negb_involutive, <- !app_assoc.
    f_equal. destruct (0 <? sb_rwx_count b); [|done]. by rewrite logmsg_no_report.
  - specialize (IH d1 tbl es Hd1 Ht Hw Hs'). destruct (foldl _ _ items) as [[d' tbl'] es'].
    by destruct (observe items d1) as [obs d''].
Qed.
End cycle_spec.

(** ** Properties *)

Lemma scan_cycle_spec {D} `{DeviceLaws D} (verbose : bool) (d : D) (tbl : list (slot Z)) :
  dev_ok d -> table_inv tbl ->
  let '(ret, d', tbl', es) := scan_protected_periodic verbose d tbl in
  dev_ok d' /\ table_inv tbl' /\
  match dev_list_protected d with
  | (None, _) => ret = -1 /\ tbl' = tbl /\ es = []
  | (Some pl, d1) =>
      ret = 0 /\
      let '(obs, d2) := observe (pl_items pl) d1 in
      let '(m, rs) := judge obs (filter (fun kv => listed pl kv.1 = true) (tracked tbl)) in
      d' = d2 /\ tracked tbl' = m /\ reports es = rs
  end.
Proof.
  intros Hd Ht. unfold scan_protected_periodic. pose proof (list_protected_law d Hd) as Hl.
  destruct (dev_list_protected d) as [[pl|] d1]; destruct Hl as [Hd1 Hl]; [|done].
  destruct (Hl pl eq_refl) as [Hc Hn]. rewrite Hc, Nat2Z.id, firstn_all.
  destruct (forget_stale_refines pl tbl Ht) as [Ht1 E1].
  pose proof (scan_items_spec verbose (pids_of (pl_items pl)) (pl_items pl) d1
    (anon_baseline_forget_stale pl tbl) [] Hd1 Ht1) as Hs.
  unfold anon_baseline_forget_stale in *. rewrite E1 in Hs.
  specialize (Hs (within_listed _ pl Hc Hn) ltac:(done)).
  destruct (foldl _ _ _) as [[d' tbl'] es]. destruct (observe (pl_items pl) d1) as [obs d2].
  destruct (judge obs _) as [m rs]. destruct Hs as (-> & ? & ? & ? & ?). done.
Qed.

(** C22: a monitoring cycle over a device that keeps the module's promises
    judges every protected process against its own history and loses none: the
    baseline table after the cycle is the previous one without the processes
    no longer protected, updated with the count of every process that could be
    scanned (64 slots always suffice, since stale ones are freed first); and
    the reports sent to the server are exactly the "possible code injection"
    ones, one for each scanned process that had a baseline, whose count grew,
    and which is not marked as a JIT; nothing else in the cycle (RWX warnings,
    JIT growth) is ever reported.  The baseline judged against is the count of
    the latest earlier scan, since every scan overwrites it: counts 2, 1, 2
    send a report at the third.  README 77-80 and 122-124, the comment at
    daemon.c 1532-1543 and the text of the message speak of the first scan's
    count instead; the theorem states what the code does. *)
Theorem scan_cycle_judges {D} `{DeviceLaws D} (verbose : bool) (d : D) (tbl : list (slot Z)) :
  dev_ok d -> table_inv tbl ->
  let '(ret, d', tbl', es) := scan_protected_periodic verbose d tbl in
  dev_ok d' /\ table_inv tbl' /\
  match dev_list_protected d with
  | (None, _) => ret = -1 /\ tbl' = tbl /\ es = []
  | (Some pl, d1) =>
      ret = 0 /\
      let '(obs, d2) := observe (pl_items pl) d1 in
      let '(m, rs) := judge obs (filter (fun kv => listed pl kv.1 = true) (tracked tbl)) in
      d' = d2 /\ tracked tbl' = m /\ reports es = rs
  end.
Proof. apply scan_cycle_spec. Qed.

(** The example process, protected and first seen without unbacked code. *)
Definition watched_device : mdev :=
  MDev (fun _ => mapped_kernel) 0 None
    (set_reg (ac_add_prot_task mapped_kernel 7%positive false registry_init).1.2 idle_module).

Definition watched_table : list (slot Z) :=
  (anon_baseline_check false 100 (bs "game") 0 false (table_zero 0)).1.

Lemma watched_device_ok : dev_ok watched_device.
Proof.
  split; [done..| |exact no_fd_ok]. destruct idle_module_inv as [[_ Hq] Hl].
  split; [|done]. split; [|done]. unfold watched_device, set_reg. cbn [md_mod m_guard set_guard g_reg].
  pose proof (ac_add_refines mapped_kernel 7%positive false registry_init registry_init_inv) as H.
  destruct (ac_add_prot_task _ _ _ _) as [[ret r] cs]. exact (proj1 H).
Qed.

Lemma watched_table_inv : table_inv watched_table.
Proof.
  destruct (table_zero_inv 0) as [Hi Hm].
  pose proof (anon_check_refines false 100 (bs "game") 0 false (table_zero 0) Hi) as H.
  unfold watched_table. rewrite Hm in H. specialize (H ltac:(right; vm_compute; lia)).
  destruct (anon_baseline_check _ _ _ _ _ _) as [tbl es]. apply H.
Qed.

Lemma scan_cycle_judges_witness :
  length (reports (scan_protected_periodic false watched_device watched_table).2) = 1%nat.
Proof.
  pose proof (scan_cycle_judges false watched_device watched_table watched_device_ok
    watched_table_inv) as H.
  destruct (scan_protected_periodic false watched_device watched_table) as [[[ret d'] tbl'] es].
  destruct H as (_ & _ & H).
  destruct (dev_list_protected watched_device) as [[pl|] d1] eqn:El;
    [|exfalso; vm_compute in El; discriminate].
  destruct H as [_ H]. destruct (observe (pl_items pl) d1) as [obs d2] eqn:Eo.
  destruct (judge obs _) as [m rs] eqn:Ej. destruct H as (_ & _ & H). cbn [snd]. rewrite H.
  vm_compute in El. injection El as <- <-. vm_compute in Eo. injection Eo as <- <-.
  vm_compute in Ej. injection Ej as <- <-. reflexivity.
Defined.
