(* ===== verification/Environ.v ===== *)
(** * Reading a process's environment (src/anticheat_daemon.c)

    The parser of [/proc/<pid>/environ] and the checks built on it: library
    preloading and the Vulkan layer variables, once per process in the
    periodic monitor. *)

From Stdlib Require Import ZArith Lia Strings.Byte.
From stdpp Require Import base numbers list gmap strings.
From S2P Require Import Prelude Abi SlotTable Snapshot Device Log Tracker.

Definition AC_ENVIRON_BUF : nat := Z.to_nat (256 * 1024).
Definition AC_ENVIRON_VAL_LEN : nat := 512.

(** [struct ac_environ_query]. *)
Record ac_environ_query := Query { q_name : cstring; q_value : cstring; q_found : bool }.

(** An open file: what [read] returns at an offset for a buffer size ([None]
    is an error, the empty list the end of the file). *)
Definition reader : Type := nat -> nat -> option (list byte).

(** What the daemon finds under /proc, and whether [malloc] succeeds. *)
Record procfs := ProcFs {
  pf_environ : Z -> option reader;
  pf_malloc : bool
}.

(** The body of the loop that reads to the end of the file or the end of the
    buffer; [buf] is what has been read. *)
Definition read_body (rd : reader) (cap : nat) (buf : list byte) : list byte + option (list byte) :=
  if (length buf <? cap)%nat then
    match rd (length buf) (cap - length buf)%nat with
    | None => inr None
    | Some [] => inr (Some buf)
    | Some chunk => inl (buf ++ take (cap - length buf) chunk)
    end
  else inr (Some buf).

(** The whole loop: a round that goes on adds a byte. *)
Definition read_file (rd : reader) (cap : nat) : option (list byte) :=
  mjoin (run_loop (read_body rd cap) (S cap) []).

(** [strncmp(entry, name, nlen) == 0 && entry[nlen] == '=']. *)
Definition entry_matches (name entry : cstring) : bool :=
  (length name <? length entry)%nat
  && bool_decide (take (length name) entry = name)
  && match entry !! length name with Some b => Byte.eqb b x3d | None => false end.

Definition match_entry (entry : cstring) (q : ac_environ_query) : ac_environ_query :=
  if negb (q_found q) && entry_matches (q_name q) entry then
    Query (q_name q) (snprintf AC_ENVIRON_VAL_LEN (drop (length (q_name q) + 1) entry)) true
  else q.

(** The body of the loop over the buffer; [rest] is [buf + pos], up to the
    terminator stored at [buf[total]]. *)
Definition parse_body (s : list byte * list ac_environ_query)
    : (list byte * list ac_environ_query) + list ac_environ_query :=
  let '(rest, vars) := s in
  match rest with
  | [] => inr vars
  | _ =>
      let entry := cstr rest in
      if (length entry =? 0)%nat then inr vars
      else inl (drop (length entry + 1) rest, match_entry entry <$> vars)
  end.

Definition parse_environ (buf : list byte) (vars : list ac_environ_query) : list ac_environ_query :=
  default vars (run_loop parse_body (S (length buf)) (buf, vars)).

(** [ac_read_environ_vars]: the return value and the filled queries. *)
Definition ac_read_environ_vars (fs : procfs) (pid : Z) (vars : list ac_environ_query)
    : Z * list ac_environ_query :=
  let vars := (fun q => Query (q_name q) (q_value q) false) <$> vars in
  match pf_environ fs pid with
  | None => (-1, vars)
  | Some rd =>
      if negb (pf_malloc fs) then (-1, vars)
      else
        match read_file rd (AC_ENVIRON_BUF - 1) with
        | None => (-1, vars)
        | Some buf =>
            if (length buf =? 0)%nat then (0, vars)
            else
              let truncated := (AC_ENVIRON_BUF - 1 <=? length buf)%nat in
              (if truncated then -1 else 0, parse_environ buf vars)
        end
  end.

(** [ac_read_ld_preload(pid, out, outsz)]. *)
Definition ac_read_ld_preload (fs : procfs) (pid : Z) (outsz : nat) : Z * option cstring :=
  let '(rc, vars) := ac_read_environ_vars fs pid [Query (bs "LD_PRELOAD") [] false] in
  if rc <? 0 then (-1, None)
  else match vars with
       | q :: _ => if q_found q then (1, Some (snprintf outsz (q_value q))) else (0, None)
       | [] => (0, None)
       end.

Definition AC_VK_LAYER_ENV_VARS : list cstring :=
  [bs "VK_INSTANCE_LAYERS"; bs "VK_LOADER_LAYERS_ENABLE"; bs "VK_LAYER_PATH";
   bs "VK_ADD_LAYER_PATH"].

Definition vk_queries : list ac_environ_query :=
  (fun name => Query name [] false) <$> AC_VK_LAYER_ENV_VARS.

(** The return values of [check_ld_preload] and [check_vk_layer_env]. *)
Definition check_ld_preload (fs : procfs) (pid : Z) : Z :=
  let '(rc, _) := ac_read_ld_preload fs pid 512 in
  if rc <? 0 then -1 else if rc =? 0 then 0 else 1.

Definition check_vk_layer_env (fs : procfs) (pid : Z) : Z :=
  let '(rc, vars) := ac_read_environ_vars fs pid vk_queries in
  if rc <? 0 then -1 else if existsb q_found vars then 1 else 0.

(** ** The periodic checks *)

Section periodic.
Context {D : Type} `{Device D}.

Definition preload_text (pid : Z) (comm val : cstring) : cstring :=
  bs "pid " ++ fmt_d pid ++ bs " (" ++ comm ++ bs "): LD_PRELOAD=" ++ val
  ++ bs " set at exec -- common for legitimate overlay/compat tools (MangoHud, "
  ++ bs "gamemode, gamescope) as well as library-injection hooking; "
  ++ bs "informational only, not a verdict on its own".

(** One iteration of [check_ld_preload_periodic]. *)
Definition preload_item (verbose : bool) (fs : procfs) (s : list (slot unit) * list effect)
    (it : ac_prot_item) : list (slot unit) * list effect :=
  let '(tbl, es) := s in
  if preload_already_warned (pt_pid it) tbl then (tbl, es)
  else
    match ac_read_ld_preload fs (pt_pid it) 512 with
    | (1, Some val) =>
        (preload_mark_warned (pt_pid it) tbl,
         es ++ logmsg verbose LOG_WARNING (preload_text (pt_pid it) (pt_comm it) val))
    | _ => (tbl, es)
    end.

Definition check_ld_preload_periodic (verbose : bool) (fs : procfs) (d : D)
    (tbl : list (slot unit)) : D * list (slot unit) * list effect :=
  match dev_list_protected d with
  | (None, d) => (d, tbl, [])
  | (Some pl, d) =>
      let '(tbl, es) := foldl (preload_item verbose fs)
                          (preload_warned_forget_stale pl tbl, [])
                          (take (Z.to_nat (pl_count pl)) (pl_items pl)) in
      (d, tbl, es)
  end.

Definition vklayer_text (pid : Z) (comm : cstring) (q : ac_environ_query) : cstring :=
  bs "pid " ++ fmt_d pid ++ bs " (" ++ comm ++ bs "): " ++ q_name q ++ bs "=" ++ q_value q
  ++ bs " set at exec -- common for legitimate overlay tools (MangoHud) as well "
  ++ bs "as Vulkan-layer-based hooking; informational only, not a verdict on its own".

(** One iteration of [check_vk_layers_periodic]. *)
Definition vklayer_item (verbose : bool) (fs : procfs) (s : list (slot unit) * list effect)
    (it : ac_prot_item) : list (slot unit) * list effect :=
  let '(tbl, es) := s in
  if vklayer_already_warned (pt_pid it) tbl then (tbl, es)
  else
    let '(rc, vars) := ac_read_environ_vars fs (pt_pid it) vk_queries in
    if rc <? 0 then (tbl, es)
    else
      (vklayer_mark_warned (pt_pid it) tbl,
       es ++ (List.filter q_found vars ≫= fun q =>
                logmsg verbose LOG_WARNING (vklayer_text (pt_pid it) (pt_comm it) q))).

Definition check_vk_layers_periodic (verbose : bool) (fs : procfs) (d : D)
    (tbl : list (slot unit)) : D * list (slot unit) * list effect :=
  match dev_list_protected d with
  | (None, d) => (d, tbl, [])
  | (Some pl, d) =>
      let '(tbl, es) := foldl (vklayer_item verbose fs)
                          (vklayer_warned_forget_stale pl tbl, [])
                          (take (Z.to_nat (pl_count pl)) (pl_items pl)) in
      (d, tbl, es)
  end.
End periodic.

(** ** Specification *)

(** A reader of the content [c]: every read returns some next bytes, and at
    least one before the end (short reads are allowed). *)
Definition reads (rd : reader) (c : list byte) : Prop :=
  forall off n, (0 < n)%nat ->
    exists m, rd off n = Some (take m (drop off c)) /\ (m <= n)%nat /\
              ((off < length c)%nat -> (0 < m)%nat).

(** The pieces of a content between its NULs; [cur] is the piece being read. *)
Fixpoint pieces (c cur : list byte) : list cstring :=
  match c with
  | [] => [cur]
  | b :: c => if Byte.eqb b x00 then cur :: pieces c [] else pieces c (cur ++ [b])
  end.

(** The entries before the first empty piece: an empty entry, or the end. *)
Fixpoint before_empty (es : list cstring) : list cstring :=
  match es with
  | [] | [] :: _ => []
  | e :: es => e :: before_empty es
  end.

Definition env_entries (c : list byte) : list cstring := before_empty (pieces c []).

(** An environment as [execve] lays it out: entries without NUL, each terminated
    by one. *)
Definition env_bytes (es : list cstring) : list byte := es ≫= fun e => e ++ [x00].

(** What there is to read of a process's environment: its content, or nothing
    when it cannot be opened, the buffer cannot be allocated or a read fails. *)
Definition environ_is (fs : procfs) (pid : Z) (oc : option (list byte)) : Prop :=
  match oc with
  | Some c => exists rd, pf_environ fs pid = Some rd /\ pf_malloc fs = true /\ reads rd c
  | None =>
      pf_environ fs pid = None \/ pf_malloc fs = false \/
      exists rd, pf_environ fs pid = Some rd /\ read_file rd (AC_ENVIRON_BUF - 1) = None
  end.

(** The value of the first entry [name=...]. *)
Fixpoint env_get (name : cstring) (es : list cstring) : option cstring :=
  match es with
  | [] => None
  | e :: es =>
      if bool_decide ((name ++ [x3d]) `prefix_of` e) then Some (drop (length name + 1) e)
      else env_get name es
  end.

Definition answer (es : list cstring) (q : ac_environ_query) : ac_environ_query :=
  match env_get (q_name q) es with
  | Some v => Query (q_name q) (take (AC_ENVIRON_VAL_LEN - 1) v) true
  | None => Query (q_name q) (q_value q) false
  end.

(** ** Reading *)

Lemma read_loop_spec rd c cap : reads rd c -> forall fuel buf,
  buf = take (length buf) c -> (length buf <= cap)%nat -> (cap - length buf < fuel)%nat ->
  run_loop (read_body rd cap) fuel buf = Some (Some (take cap c)).
Proof.
  intros Hr. induction fuel as [|fuel IH]; intros buf Hb Hl Hf; [lia|].
  - cbn [run_loop]. unfold read_body at 1.
    destruct (Nat.ltb_spec (length buf) cap) as [Hlt|]; [|rewrite Hb; do 3 f_equal; lia].
    destruct (Hr (length buf) (cap - length buf)%nat ltac:(lia)) as (m & -> & Hm & Hpos).
    destruct (Nat.lt_ge_cases (length buf) (length c)) as [Hc|Hc].
    + assert (Hne : take m (drop (length buf) c) <> []).
      { intros E. apply (f_equal length) in E. rewrite length_take, length_drop in E. simpl in E.
        specialize (Hpos Hc). lia. }
      destruct (take m (drop (length buf) c)) as [|b chunk] eqn:E; [done|]. rewrite <- E.
      rewrite (take_ge (take m _)) by (rewrite length_take; lia).
      assert (E2 : buf ++ take m (drop (length buf) c) = take (length buf + m) c).
      { rewrite Hb at 1. apply take_take_drop. }
      rewrite E2.
      assert (E3 : length (take (length buf + m) c) = Nat.min (length buf + m) (length c))
        by apply length_take.
      apply IH.
      * rewrite E3. destruct (Nat.le_ge_cases (length buf + m) (length c)).
        -- by rewrite Nat.min_l.
        -- rewrite Nat.min_r by done. rewrite !take_ge by lia. done.
      * lia.
      * specialize (Hpos Hc). lia.
    + rewrite drop_ge, take_nil by lia. rewrite Hb. by rewrite !take_ge by lia.
Qed.

Lemma read_file_spec rd c cap : reads rd c -> read_file rd cap = Some (take cap c).
Proof.
  intros Hr. unfold read_file. rewrite (read_loop_spec rd c cap Hr); [done|done|simpl; lia|simpl; lia].
Qed.

(** ** Parsing *)

Lemma pieces_cstr c : forall cur,
  pieces c cur = match drop (length (cstr c)) c with
                 | [] => [cur ++ cstr c]
                 | _ :: rest => (cur ++ cstr c) :: pieces rest []
                 end.
Proof.
  induction c as [|b c IH]; intros cur; cbn [pieces cstr]; [by rewrite app_nil_r|].
  destruct (Byte.eqb b x00); cbn [length drop]; [by rewrite app_nil_r|].
  rewrite IH. destruct (drop (length (cstr c)) c); by rewrite <- app_assoc.
Qed.

(** One iteration of the loop, on the entries. *)
Lemma env_entries_step c :
  env_entries c = match cstr c with
                  | [] => []
                  | e => e :: env_entries (drop (length (cstr c) + 1) c)
                  end.
Proof.
  unfold env_entries. rewrite pieces_cstr. cbn [app].
  assert (Ed : drop (length (cstr c) + 1) c = drop 1 (drop (length (cstr c)) c)) by (by rewrite drop_drop).
  rewrite Ed. destruct (drop (length (cstr c)) c) as [|x rest]; cbn [drop]; by destruct (cstr c).
Qed.

Lemma cstr_idem l : cstr (cstr l) = cstr l.
Proof. induction l as [|b l IH]; [done|]. cbn. destruct (Byte.eqb b x00) eqn:E; [done|]. cbn. by rewrite E, IH. Qed.

Lemma parse_loop_spec : forall fuel c vars,
  (length c < fuel)%nat ->
  run_loop parse_body fuel (c, vars) = Some (foldl (fun vs e => match_entry e <$> vs) vars (env_entries c)).
Proof.
  induction fuel as [|fuel IH]; intros c vars Hf; [lia|].
  rewrite env_entries_step. cbn [run_loop parse_body]. destruct c as [|b c]; [done|].
  destruct (cstr (b :: c)) as [|b' e] eqn:E; [done|]. cbn [length Nat.eqb]. cbn [foldl].
  apply IH. rewrite length_drop. cbn [length] in *. lia.
Qed.

Lemma parse_environ_spec c vars :
  parse_environ c vars = foldl (fun vs e => match_entry e <$> vs) vars (env_entries c).
Proof. unfold parse_environ. by rewrite parse_loop_spec by lia. Qed.

Lemma env_entries_wf c : Forall (fun e => cstr e = e) (env_entries c).
Proof.
  remember (length c) as n eqn:Hn. assert (Hl : (length c <= n)%nat) by lia. clear Hn. revert c Hl.
  induction n as [|n IH]; intros c Hl; rewrite env_entries_step;
    destruct (cstr c) as [|b e] eqn:E; try constructor.
  - by destruct c; [|simpl in Hl; lia].
  - by destruct c; [|simpl in Hl; lia].
  - rewrite <- E. apply cstr_idem.
  - apply IH. rewrite length_drop. cbn [length]. destruct c; [done|]. cbn [length] in *. lia.
Qed.

(** On the layout of [execve] these are the entries up to the first empty one. *)
Lemma env_entries_bytes es : Forall (fun e => cstr e = e) es -> env_entries (env_bytes es) = before_empty es.
Proof.
  induction 1 as [|e es He _ IH]; [done|]. rewrite env_entries_step. unfold env_bytes. cbn [mbind list_bind].
  rewrite <- app_assoc. cbn [app].
  assert (Ec : forall rest, cstr (e ++ x00 :: rest) = e).
  { intros rest. clear -He. induction e as [|b e IH]; [done|]. cbn in *. destruct (Byte.eqb b x00); [done|].
    injection He as He. by rewrite IH. }
  rewrite Ec. destruct e as [|b e]; [done|]. cbn [before_empty]. f_equal. rewrite <- IH. unfold env_bytes.
  f_equal. rewrite drop_app_ge by (cbn [length]; lia). replace (length (b :: e) + 1 - length (b :: e))%nat with 1%nat by lia.
  done.
Qed.

Lemma entry_matches_spec name e :
  entry_matches name e = bool_decide ((name ++ [x3d]) `prefix_of` e).
Proof.
  unfold entry_matches. symmetry. destruct (bool_decide _) eqn:E.
  - apply bool_decide_eq_true in E as [v ->]. rewrite <- app_assoc. cbn [app].
    rewrite length_app. simpl. rewrite (proj2 (Nat.ltb_lt _ _)) by lia.
    rewrite take_app_length, bool_decide_true, lookup_middle by done. done.
  - apply bool_decide_eq_false in E. symmetry.
    destruct (length name <? length e)%nat eqn:El; [|done]. simpl.
    destruct (bool_decide (take (length name) e = name)) eqn:Et; [|done]. simpl.
    destruct (e !! length name) as [b|] eqn:Eb; [|done].
    apply bool_decide_eq_true in Et. apply not_true_iff_false. intros Hb.
    apply Byte.byte_dec_bl in Hb. subst b. destruct E. exists (drop (length name + 1) e).
    rewrite <- app_assoc. cbn [app]. rewrite <- Et at 1.
    rewrite <- (take_drop_middle e (length name) x3d) at 1 by done. do 3 f_equal. lia.
Qed.

Lemma foldl_queries es : forall vars : list ac_environ_query,
  foldl (fun vs e => match_entry e <$> vs) vars es =
  (fun q => foldl (fun q e => match_entry e q) q es) <$> vars.
Proof.
  induction es as [|e es IH]; intros vars; simpl; [by rewrite list_fmap_id|].
  rewrite IH, <- list_fmap_compose. done.
Qed.

Lemma found_stays es q : q_found q = true -> foldl (fun q e => match_entry e q) q es = q.
Proof.
  intros Hf. induction es as [|e es IH]; [done|]. cbn [foldl].
  unfold match_entry at 2. rewrite Hf. exact IH.
Qed.

Lemma cstr_drop n l : cstr l = l -> cstr (drop n l) = drop n l.
Proof.
  revert n. induction l as [|b l IH]; intros [|n] H; simpl in *; try done.
  apply IH. destruct (Byte.eqb b x00); [done|]. by injection H.
Qed.

Lemma query_answer es q :
  Forall (fun e => cstr e = e) es -> q_found q = false -> foldl (fun q e => match_entry e q) q es = answer es q.
Proof.
  intros Hw. unfold answer. induction Hw as [|e es He Hw IH]; intros Hf; simpl.
  - destruct q; simpl in *. by subst.
  - unfold match_entry at 2. rewrite Hf, entry_matches_spec. cbn [negb andb].
    destruct (bool_decide _) eqn:Eb; [|by apply IH].
    rewrite found_stays by done. unfold snprintf. by rewrite cstr_drop.
Qed.

Lemma read_environ_spec fs pid oc vars :
  environ_is fs pid oc ->
  let '(rc, vars') := ac_read_environ_vars fs pid vars in
  match oc with
  | Some c => if (length c <? AC_ENVIRON_BUF - 1)%nat
              then rc = 0 /\ vars' = answer (env_entries c) <$> vars else rc = -1
  | None => rc = -1
  end.
Proof.
  unfold ac_read_environ_vars. destruct oc as [c|].
  2:{ intros [-> |[Hm|(rd & -> & Hr)]]; [done| |].
      - destruct (pf_environ fs pid); [|done]. by rewrite Hm.
      - destruct (negb (pf_malloc fs)); [done|]. by rewrite Hr. }
  intros (rd & -> & -> & Hr). cbn [negb].
  rewrite (read_file_spec rd _ _ Hr), length_take.
  assert (HB : (AC_ENVIRON_BUF - 1 <> 0)%nat) by (unfold AC_ENVIRON_BUF; lia).
  revert HB. generalize (AC_ENVIRON_BUF - 1)%nat. intros cap HB.
  assert (Hreset : forall q : ac_environ_query,
    foldl (fun q e => match_entry e q) (Query (q_name q) (q_value q) false) (env_entries c)
    = answer (env_entries c) q) by (intros q; rewrite query_answer; [done|apply env_entries_wf|done]).
  destruct (Nat.ltb_spec (length c) cap) as [Hlt|Hge].
  - rewrite take_ge by lia. rewrite Nat.min_r by lia.
    destruct (Nat.eqb_spec (length c) 0) as [E0|E0].
    + apply (nil_length_inv c) in E0. by subst.
    + rewrite (proj2 (Nat.leb_gt _ _)) by lia. split; [done|].
      rewrite parse_environ_spec, foldl_queries, <- list_fmap_compose.
      apply list_fmap_ext. intros _ q _. apply Hreset.
  - rewrite Nat.min_l by lia. rewrite (proj2 (Nat.eqb_neq _ _)) by lia.
    by rewrite Nat.leb_refl.
Qed.

(** ** Warning once per process *)

(** A check that acts on processes not seen before: [act] is what it does for
    one, if anything. *)
Definition once_item (act : ac_prot_item -> option (list effect))
    (s : list (slot unit) * list effect) (it : ac_prot_item) : list (slot unit) * list effect :=
  let '(tbl, es) := s in
  if already_warned (pt_pid it) tbl then (tbl, es)
  else match act it with
       | Some e => (mark_warned (pt_pid it) tbl, es ++ e)
       | None => (tbl, es)
       end.

(** Which items are acted on, and the processes remembered. *)
Fixpoint once (act : ac_prot_item -> option (list effect)) (items : list ac_prot_item)
    (m : gmap Z unit) : list (ac_prot_item * list effect) * gmap Z unit :=
  match items with
  | [] => ([], m)
  | it :: items =>
      match m !! pt_pid it, act it with
      | None, Some e =>
          let '(ws, m') := once act items (<[pt_pid it := tt]> m) in ((it, e) :: ws, m')
      | _, _ => once act items m
      end
  end.

Lemma once_items_spec act pids items : forall tbl es,
  table_inv tbl -> within (tracked tbl) pids -> pids_of items ⊆ pids ->
  let '(tbl', es') := foldl (once_item act) (tbl, es) items in
  let '(ws, m) := once act items (tracked tbl) in
  table_inv tbl' /\ tracked tbl' = m /\ es' = es ++ (ws ≫= snd).
Proof.
  induction items as [|it items IH]; intros tbl es Ht Hw Hs; cbn [foldl once].
  { by rewrite app_nil_r. }
  assert (Hin : pt_pid it ∈ pids) by (apply Hs; unfold pids_of; set_solver).
  assert (Hs' : pids_of items ⊆ pids) by (unfold pids_of in *; set_solver).
  unfold once_item at 2. rewrite already_warned_spec.
  destruct (tracked tbl !! pt_pid it) as [[]|] eqn:E; simpl; [by apply IH|].
  destruct (act it) as [e|]; [|by apply IH].
  destruct (mark_warned_refines (pt_pid it) tbl Ht (within_room _ _ _ Hw Hin)) as [H1 H2].
  specialize (IH (mark_warned (pt_pid it) tbl) (es ++ e) H1). rewrite H2 in IH.
  specialize (IH (within_insert _ _ _ _ Hw Hin) Hs').
  destruct (foldl _ _ items) as [tbl' es']. destruct (once act items _) as [ws m].
  destruct IH as (? & ? & ->). split_and!; [done..|]. cbn. by rewrite app_assoc.
Qed.

(** Nobody is acted on twice, nor if already remembered; whoever is acted on is
    remembered. *)
Lemma once_at_most act items : forall m,
  let '(ws, m') := once act items m in
  NoDup (pt_pid <$> ws.*1) /\ m ⊆ m' /\
  Forall (fun w => m !! pt_pid w.1 = None /\ m' !! pt_pid w.1 = Some tt /\ act w.1 = Some w.2) ws.
Proof.
  induction items as [|it items IH]; intros m; cbn [once]; [split_and!; [constructor|done|constructor]|].
  destruct (m !! pt_pid it) as [[]|] eqn:E; [by apply IH|].
  destruct (act it) as [e|] eqn:Ea; [|by apply IH].
  specialize (IH (<[pt_pid it := tt]> m)). destruct (once act items _) as [ws m'].
  destruct IH as (H1 & H2 & H3). split_and!.
  - cbn. apply NoDup_cons. split; [|done]. intros Hin.
    apply list_elem_of_fmap_1 in Hin as (x & Hx & Hin). apply list_elem_of_fmap_1 in Hin as (w & -> & Hin).
    rewrite Forall_forall in H3. destruct (H3 w Hin) as (Hn & _). rewrite Hx, lookup_insert_eq in Hn. done.
  - etrans; [|exact H2]. by apply insert_subseteq.
  - constructor.
    + split_and!; [done| |done]. eapply lookup_weaken; [|exact H2]. apply lookup_insert_eq.
    + eapply Forall_impl; [exact H3|]. intros w (Hn & ? & ?). split_and!; try done.
      by apply lookup_insert_None in Hn as [? _].
Qed.

Definition preload_act (verbose : bool) (fs : procfs) (it : ac_prot_item) : option (list effect) :=
  match ac_read_ld_preload fs (pt_pid it) 512 with
  | (1, Some val) => Some (logmsg verbose LOG_WARNING (preload_text (pt_pid it) (pt_comm it) val))
  | _ => None
  end.

Definition vklayer_act (verbose : bool) (fs : procfs) (it : ac_prot_item) : option (list effect) :=
  let '(rc, vars) := ac_read_environ_vars fs (pt_pid it) vk_queries in
  if rc <? 0 then None
  else Some (List.filter q_found vars ≫= fun q =>
               logmsg verbose LOG_WARNING (vklayer_text (pt_pid it) (pt_comm it) q)).

Lemma preload_item_once verbose fs s it :
  preload_item verbose fs s it = once_item (preload_act verbose fs) s it.
Proof.
  destruct s as [tbl es]. unfold preload_item, once_item, preload_act, preload_already_warned,
    preload_mark_warned.
  destruct (already_warned _ _); [done|].
  destruct (ac_read_ld_preload fs (pt_pid it) 512) as [z [v|]]; destruct z as [|[]|]; done.
Qed.

Lemma vklayer_item_once verbose fs s it :
  vklayer_item verbose fs s it = once_item (vklayer_act verbose fs) s it.
Proof.
  destruct s as [tbl es]. unfold vklayer_item, once_item, vklayer_act, vklayer_already_warned,
    vklayer_mark_warned.
  destruct (already_warned _ _); [done|].
  destruct (ac_read_environ_vars fs (pt_pid it) vk_queries) as [rc vars]. by destruct (rc <? 0).
Qed.

Lemma foldl_ext {A B} (f g : A -> B -> A) l : (forall a b, f a b = g a b) -> forall a, foldl f a l = foldl g a l.
Proof. intros H. induction l as [|b l IH]; intros a; simpl; [done|]. by rewrite H, IH. Qed.

(** ** Properties *)


(** A process started with a preload library, read eight bytes at a time. *)
Definition preload_env : list cstring :=
  [bs "HOME=/root"; bs "LD_PRELOAD_X=1"; bs "LD_PRELOAD=/tmp/x.so"; bs "LD_PRELOAD=late"].

Definition preload_reader : reader :=
  fun off n => Some (take (Nat.min 8 n) (drop off (env_bytes preload_env))).

Definition preload_fs : procfs := ProcFs (fun _ => Some preload_reader) true.

Lemma preload_reader_reads : reads preload_reader (env_bytes preload_env).
Proof.
  intros off n Hn. exists (Nat.min 8 n). split; [reflexivity|]. split; [lia|]. intros _. lia.
Qed.

Lemma preload_is : environ_is preload_fs 100 (Some (env_bytes preload_env)).
Proof. exists preload_reader. split; [done|]. split; [done|exact preload_reader_reads]. Qed.


Lemma environ_checks_spec {D} `{DeviceLaws D} (verbose : bool) (fs : procfs) (d : D)
    (tbl : list (slot unit)) :
  dev_ok d -> table_inv tbl ->
  forall act run,
    (act = preload_act verbose fs /\ run = check_ld_preload_periodic verbose fs d tbl) \/
    (act = vklayer_act verbose fs /\ run = check_vk_layers_periodic verbose fs d tbl) ->
    let '(d', tbl', es) := run in
    dev_ok d' /\ table_inv tbl' /\ reports es = [] /\
    match dev_list_protected d with
    | (None, _) => tbl' = tbl /\ es = []
    | (Some pl, _) =>
        exists ws,
          let known := filter (fun kv => listed pl kv.1 = true) (tracked tbl) in
          once act (pl_items pl) known = (ws, tracked tbl') /\
          es = ws ≫= snd /\ NoDup (pt_pid <$> ws.*1) /\ known ⊆ tracked tbl' /\
          Forall (fun w => known !! pt_pid w.1 = None /\ tracked tbl' !! pt_pid w.1 = Some tt /\
                           act w.1 = Some w.2) ws
    end.
Proof.
  intros Hd Ht act run Hrun.
  assert (Hq : forall it e, act it = Some e -> reports e = []).
  { intros it e. destruct Hrun as [[-> _]|[-> _]].
    - unfold preload_act. destruct (ac_read_ld_preload _ _ _) as [z [v|]]; [|by destruct z as [|[]|]].
      destruct z as [|[]|]; try done. intros [= <-]. by apply logmsg_no_report.
    - unfold vklayer_act. destruct (ac_read_environ_vars _ _ _) as [rc vars].
      destruct (rc <? 0); [done|]. intros [= <-]. induction (List.filter q_found vars) as [|q qs IH]; [done|].
      cbn [mbind list_bind]. rewrite reports_app, IH, logmsg_no_report by done. done. }
  pose proof (list_protected_law d Hd) as Hl.
  assert (Er : run = match dev_list_protected d with
                     | (None, d) => (d, tbl, [])
                     | (Some pl, d) =>
                         let '(tbl, es) := foldl (once_item act) (forget_stale pl tbl, [])
                                             (take (Z.to_nat (pl_count pl)) (pl_items pl)) in
                         (d, tbl, es)
                     end).
  { destruct Hrun as [[-> ->]|[-> ->]];
      unfold check_ld_preload_periodic, check_vk_layers_periodic;
      destruct (dev_list_protected d) as [[pl|] d1]; try done.
    - rewrite (foldl_ext _ (once_item (preload_act verbose fs))) by apply preload_item_once. done.
    - rewrite (foldl_ext _ (once_item (vklayer_act verbose fs))) by apply vklayer_item_once. done. }
  rewrite Er. destruct (dev_list_protected d) as [[pl|] d1]; destruct Hl as [Hd1 Hl]; [|done].
  destruct (Hl pl eq_refl) as [Hc Hn]. rewrite Hc, Nat2Z.id, firstn_all.
  destruct (forget_stale_refines pl tbl Ht) as [Ht1 E1].
  pose proof (once_items_spec act (pids_of (pl_items pl)) (pl_items pl) (forget_stale pl tbl) [] Ht1) as Hs.
  rewrite E1 in Hs. specialize (Hs (within_listed _ pl Hc Hn) ltac:(done)).
  destruct (foldl (once_item act) (forget_stale pl tbl, []) (pl_items pl)) as [tbl' es].
  pose proof (once_at_most act (pl_items pl) (filter (fun kv => listed pl kv.1 = true) (tracked tbl))) as Ho.
  destruct (once act (pl_items pl) _) as [ws m] eqn:Ew. destruct Hs as (H1 & H2 & ->).
  rewrite <- H2 in *. destruct Ho as (O1 & O2 & O3).
  split_and!; [done|done| |exists ws; by split_and!].
  cbn [app]. clear -O3 Hq. induction O3 as [|w ws (_ & _ & Ha) _ IH]; [done|].
  cbn [mbind list_bind]. by rewrite reports_app, IH, (Hq _ _ Ha).
Qed.

(** C29: preload and layer warnings come at most once per process.  In one
    cycle of either periodic check the messages logged are exactly those of
    the listed processes not remembered from before for which the check
    applies, each once; they are remembered afterwards, whoever was remembered
    and is still protected stays so (and is therefore silent in every later
    cycle), and nobody is forgotten for lack of slots; neither check ever
    sends a report to the server. *)
Theorem environ_checks_warn_once {D} `{DeviceLaws D} (verbose : bool) (fs : procfs) (d : D)
    (tbl : list (slot unit)) :
  dev_ok d -> table_inv tbl ->
  forall act run,
    (act = preload_act verbose fs /\ run = check_ld_preload_periodic verbose fs d tbl) \/
    (act = vklayer_act verbose fs /\ run = check_vk_layers_periodic verbose fs d tbl) ->
    let '(d', tbl', es) := run in
    dev_ok d' /\ table_inv tbl' /\ reports es = [] /\
    match dev_list_protected d with
    | (None, _) => tbl' = tbl /\ es = []
    | (Some pl, _) =>
        exists ws,
          let known := filter (fun kv => listed pl kv.1 = true) (tracked tbl) in
          once act (pl_items pl) known = (ws, tracked tbl') /\
          es = ws ≫= snd /\ NoDup (pt_pid <$> ws.*1) /\ known ⊆ tracked tbl' /\
          Forall (fun w => known !! pt_pid w.1 = None /\ tracked tbl' !! pt_pid w.1 = Some tt /\
                           act w.1 = Some w.2) ws
    end.
Proof. apply environ_checks_spec. Qed.

(** The watched process has the preload above: one warning, then silence. *)
Lemma environ_checks_warn_once_witness :
  exists d' tbl' es,
    check_ld_preload_periodic false preload_fs watched_device (table_zero tt) = (d', tbl', es) /\
    length es = 2%nat /\ tracked tbl' !! 100 = Some tt.
Proof.
  destruct (check_ld_preload_periodic false preload_fs watched_device (table_zero tt))
    as [[d' tbl'] es] eqn:E.
  pose proof (environ_checks_warn_once false preload_fs watched_device (table_zero tt)
    watched_device_ok (proj1 (table_zero_inv tt)) _ _ (or_introl (conj eq_refl eq_refl))) as H.
  rewrite E in H. destruct H as (_ & _ & _ & H).
  destruct (dev_list_protected watched_device) as [[pl|] d1] eqn:El;
    [|exfalso; vm_compute in El; discriminate].
  destruct H as (ws & Ho & -> & _). exists d', tbl'. eexists. split; [reflexivity|].
  vm_compute in El. injection El as <- <-.
  assert (Ea : preload_act false preload_fs (ProtItem 100 0 (bs "game")) =
    Some (logmsg false LOG_WARNING (preload_text 100 (bs "game") (bs "/tmp/x.so")))).
  { unfold preload_act, ac_read_ld_preload.
    pose proof (read_environ_spec preload_fs 100 (Some (env_bytes preload_env))
      [Query (bs "LD_PRELOAD") [] false] preload_is) as H.
    cbv beta iota in H. rewrite (proj2 (Nat.ltb_lt _ _)) in H.
    - change (pt_pid (ProtItem 100 0 (bs "game"))) with 100.
      destruct (ac_read_environ_vars preload_fs 100 _) as [rc vars]. destruct H as [-> ->].
      vm_compute. reflexivity.
    - assert (length (env_bytes preload_env) = 63%nat) as -> by reflexivity.
      unfold AC_ENVIRON_BUF. lia. }
  change (pl_items _) with [ProtItem 100 0 (bs "game")] in Ho. cbn [once] in Ho.
  change (pt_pid (ProtItem 100 0 (bs "game"))) with 100 in Ho.
  assert (Em : forall pl, filter (fun kv => listed pl kv.1 = true) (tracked (table_zero tt)) = ∅).
  { intros pl. rewrite (proj2 (table_zero_inv tt)). apply map_filter_empty. }
  rewrite Em, lookup_empty, Ea in Ho. injection Ho as <- <-. split; reflexivity.
Defined.
