(* ===== verification/Json.v ===== *)
(** * JSON in and out of the daemon (src/anticheat_daemon.c)

    The extractor for Vulkan layer manifests, which are attacker-controlled
    files, and the escaping and framing of the reports sent to the server,
    whose texts contain attacker-controlled names. *)

From Stdlib Require Import ZArith Lia Strings.Byte.
From stdpp Require Import base numbers list strings sets.
From S2P Require Import Prelude Libc.

(** Bytes the code compares with. *)
Definition quote : byte := x22.
Definition backslash : byte := x5c.
Definition colon : byte := x3a.
Definition lbrace : byte := x7b.

(** [if (oi + 1 < outsz) out[oi++] = c]. *)
Definition push (outsz : nat) (out : list byte) (c : byte) : list byte :=
  if (length out + 1 <? outsz)%nat then out ++ [c] else out.

(** The copying loop shared by both extractors: [q] is the rest of the file,
    [out] the bytes stored so far. *)
Fixpoint copy_string (q : list byte) (outsz : nat) (out : list byte) : list byte :=
  match q with
  | [] => out
  | c :: q =>
      if Byte.eqb c quote then out
      else if Byte.eqb c backslash then
        match q with
        | c2 :: q => copy_string q outsz (push outsz out c2)
        | [] => push outsz out c
        end
      else copy_string q outsz (push outsz out c)
  end.

(** The body of the outer loop of [json_extract_string]; [p] is what is left
    to search. *)
Definition extract_body (needle : cstring) (outsz : nat) (p : list byte) : list byte + option cstring :=
  match p with
  | [] => inr None
  | _ =>
      match memmem needle p with
      | None => inr None
      | Some hit =>
          match skip_ws (drop (length needle) hit) with
          | c :: q =>
              if Byte.eqb c colon then
                match skip_ws q with
                | c :: q =>
                    if Byte.eqb c quote then inr (Some (cstr (copy_string q outsz [])))
                    else inl (drop 1 hit)
                | [] => inl (drop 1 hit)
                end
              else inl (drop 1 hit)
          | [] => inl (drop 1 hit)
          end
      end
  end.

Definition quoted (s : cstring) : cstring := quote :: s ++ [quote].

(** [json_extract_string]: [Some] is the return value 1 with the string left
    in [out]. *)
Definition json_extract_string (json : list byte) (key : cstring) (outsz : nat) : option cstring :=
  if (64 <=? length (quoted key))%nat then None
  else mjoin (run_loop (extract_body (quoted key) outsz) (S (length json)) json).

(** [json_extract_disable_env]. *)
Definition json_extract_disable_env (json : list byte) (outsz : nat) : option cstring :=
  match memmem (quoted (bs "disable_environment")) json with
  | None => None
  | Some hit =>
      match skip_ws (drop (length (quoted (bs "disable_environment"))) hit) with
      | c :: q =>
          if Byte.eqb c colon then
            match skip_ws q with
            | c :: q =>
                if Byte.eqb c lbrace then
                  match skip_ws q with
                  | c :: q =>
                      if Byte.eqb c quote then Some (cstr (copy_string q outsz [])) else None
                  | [] => None
                  end
                else None
            | [] => None
            end
          else None
      | [] => None
      end
  end.

(** ** Reports *)

(** What one input byte is written as. *)
Definition escape_byte (c : byte) : list byte :=
  if Byte.eqb c quote then [backslash; quote]
  else if Byte.eqb c backslash then [backslash; backslash]
  else if byte_Z c =? 10 then [backslash; x6e]
  else if byte_Z c =? 13 then [backslash; x72]
  else if byte_Z c =? 9 then [backslash; x74]
  else if byte_Z c <? 32 then
    [backslash; x75; x30; x30; hex_digit (byte_Z c / 16); hex_digit (byte_Z c mod 16)]
  else [c].

(** The loop of [ac_json_escape]; [o] is what has been written. *)
Fixpoint escape_loop (inp : cstring) (outsz : nat) (o : list byte) : list byte :=
  match inp with
  | [] => o
  | c :: inp =>
      if (length o + 7 <? outsz)%nat then escape_loop inp outsz (o ++ escape_byte c) else o
  end.

(** [ac_json_escape]; nothing is written when [outsz] is zero. *)
Definition ac_json_escape (inp : cstring) (outsz : nat) : option cstring :=
  if (outsz =? 0)%nat then None else Some (escape_loop (cstr inp) outsz []).

Definition escape (inp : cstring) (outsz : nat) : cstring := escape_loop (cstr inp) outsz [].

(** ** Reference: reading a JSON string (RFC 8259)

    [json_string l] reads [l], which starts just behind an opening quote, up to
    the closing one, and returns the decoded bytes and what follows. Control
    bytes are not allowed in a string; of the [\u] escapes only those of ASCII
    characters are in the fragment. Bytes from 0x80 on stand for themselves: that
    they form characters is the separate condition [utf8] on the whole text. *)
Definition hex_val (b : byte) : option Z :=
  let z := byte_Z b in
  if (48 <=? z) && (z <=? 57) then Some (z - 48)
  else if (97 <=? z) && (z <=? 102) then Some (z - 87)
  else if (65 <=? z) && (z <=? 70) then Some (z - 55)
  else None.

Definition hex4 (a b c d : byte) : option byte :=
  match hex_val a, hex_val b, hex_val c, hex_val d with
  | Some a, Some b, Some c, Some d =>
      let z := 4096 * a + 256 * b + 16 * c + d in
      if z <? 128 then Some (Z_byte z) else None
  | _, _, _, _ => None
  end.

Definition cons_fst (c : byte) (r : option (list byte * list byte)) :=
  match r with Some (s, rest) => Some (c :: s, rest) | None => None end.

Fixpoint json_string (l : list byte) : option (list byte * list byte) :=
  match l with
  | [] => None
  | x22 :: l => Some ([], l)
  | x5c :: x22 :: l => cons_fst x22 (json_string l)
  | x5c :: x5c :: l => cons_fst x5c (json_string l)
  | x5c :: x2f :: l => cons_fst x2f (json_string l)
  | x5c :: x62 :: l => cons_fst x08 (json_string l)
  | x5c :: x66 :: l => cons_fst x0c (json_string l)
  | x5c :: x6e :: l => cons_fst x0a (json_string l)
  | x5c :: x72 :: l => cons_fst x0d (json_string l)
  | x5c :: x74 :: l => cons_fst x09 (json_string l)
  | x5c :: x75 :: a :: b :: c :: d :: l =>
      match hex4 a b c d with Some ch => cons_fst ch (json_string l) | None => None end
  | x5c :: _ => None
  | c :: l => if byte_Z c <? 32 then None else cons_fst c (json_string l)
  end.

(** Well-formed UTF-8 (RFC 3629), which a JSON text has to be. *)
Definition between (lo hi : Z) (b : byte) : Prop := lo <= byte_Z b <= hi.

(** The second byte of a longer character, by its first. *)
Definition second_ok (a b : byte) : Prop :=
  between 0x80 0xBF b /\
  (byte_Z a = 0xE0 -> 0xA0 <= byte_Z b) /\ (byte_Z a = 0xED -> byte_Z b <= 0x9F) /\
  (byte_Z a = 0xF0 -> 0x90 <= byte_Z b) /\ (byte_Z a = 0xF4 -> byte_Z b <= 0x8F).

Inductive utf8 : list byte -> Prop :=
  | utf8_nil : utf8 []
  | utf8_1 a l : between 0 0x7F a -> utf8 l -> utf8 (a :: l)
  | utf8_2 a b l : between 0xC2 0xDF a -> between 0x80 0xBF b -> utf8 l -> utf8 (a :: b :: l)
  | utf8_3 a b c l :
      between 0xE0 0xEF a -> second_ok a b -> between 0x80 0xBF c -> utf8 l -> utf8 (a :: b :: c :: l)
  | utf8_4 a b c d l :
      between 0xF0 0xF4 a -> second_ok a b -> between 0x80 0xBF c -> between 0x80 0xBF d -> utf8 l ->
      utf8 (a :: b :: c :: d :: l).

Definition ascii (l : list byte) : Prop := Forall (between 0 0x7F) l.

(** Text in front of, and behind, an ASCII character is judged on its own. *)
Lemma utf8_app l l' : utf8 l -> utf8 l' -> utf8 (l ++ l').
Proof. intros H Hl. induction H; cbn [app]; [done|by constructor..]. Qed.

Lemma utf8_ascii l : ascii l -> utf8 l.
Proof. induction 1; by constructor. Qed.

Lemma utf8_ascii_strip l l' : ascii l -> utf8 (l ++ l') -> utf8 l'.
Proof.
  induction 1 as [|a l Ha _ IH]; [done|]. cbn [app]. intros H. apply IH.
  inversion H as [|? ? ? H'|? ? ? H1 ? H'|? ? ? ? H1 ? ? H'|? ? ? ? ? H1 ? ? ? H']; subst; [done|..];
    unfold between in *; lia.
Qed.

Lemma utf8_split q l' : between 0 0x7F q -> forall n l, (length l <= n)%nat -> utf8 (l ++ q :: l') -> utf8 l.
Proof.
  intros Hq. induction n as [|n IH]; intros l Hn H.
  { destruct l; [constructor|simpl in Hn; lia]. }
  destruct l as [|a l]; [constructor|]. cbn [app] in H. simpl in Hn.
  remember (a :: l ++ q :: l') as t eqn:E.
  destruct H as [|x t H1 H'|x b t H1 H2 H'|x b c t H1 H2 H3 H'|x b c d t H1 H2 H3 H4 H'];
    [done|injection E as -> E..].
  - subst t. constructor; [done|]. apply IH; [lia|done].
  - destruct l as [|b' l]; cbn [app] in E; simplify_eq; [unfold between in *; lia|].
    constructor; [done|done|]. apply IH; [simpl in Hn; lia|done].
  - destruct l as [|b' [|c' l]]; cbn [app] in E; simplify_eq; [unfold second_ok, between in *; lia..|].
    constructor; [done|done|done|]. apply IH; [simpl in Hn; lia|done].
  - destruct l as [|b' [|c' [|d' l]]]; cbn [app] in E; simplify_eq; [unfold second_ok, between in *; lia..|].
    constructor; [done..|]. apply IH; [simpl in Hn; lia|done].
Qed.

Lemma utf8_app_strip s t : utf8 s -> utf8 (s ++ t) -> utf8 t.
Proof.
  induction 1 as [|a l Ha _ IH|a b l Ha Hb _ IH|a b c l Ha Hb Hc _ IH|a b c d l Ha Hb Hc Hd _ IH];
    cbn [app]; [done|..]; intros H; apply IH; inversion H; subst; try done;
    unfold second_ok, between in *; lia.
Qed.

Lemma utf8_between a s q rest :
  ascii a -> between 0 0x7F q -> (utf8 (a ++ s ++ q :: rest) <-> utf8 s /\ utf8 rest).
Proof.
  intros Ha Hq. split.
  - intros H. apply utf8_ascii_strip in H; [|done].
    assert (Hs : utf8 s) by (by apply (utf8_split q rest Hq (length s))).
    split; [done|]. apply utf8_app_strip in H; [|done]. by apply (utf8_ascii_strip [q]); [by constructor|].
  - intros [H1 H2]. apply utf8_app; [by apply utf8_ascii|]. apply utf8_app; [done|]. by constructor.
Qed.

(** ** Escaping *)

(** One byte written and read back. *)
Lemma json_string_escape_byte c rest :
  c <> x00 -> json_string (escape_byte c ++ rest) = cons_fst c (json_string rest).
Proof. intros H. destruct c; try reflexivity; done. Qed.

Lemma escape_byte_bounds c : (1 <= length (escape_byte c) <= 6)%nat.
Proof. destruct c; cbn; lia. Qed.

(** The text the loop adds for the bytes it takes. *)
Definition escaped (s : cstring) : cstring := s ≫= escape_byte.

Lemma escaped_cons c s : escaped (c :: s) = escape_byte c ++ escaped s.
Proof. done. Qed.

(** Escaping keeps ASCII and leaves other bytes alone, so it neither makes nor
    mends invalid UTF-8. *)
Lemma escape_byte_ascii c :
  (between 0 0x7F c /\ ascii (escape_byte c)) \/ (between 0x80 0xFF c /\ escape_byte c = [c]).
Proof.
  destruct (Z.le_gt_cases (byte_Z c) 0x7F) as [H|H].
  - left. split; [split; [apply byte_Z_range|done]|]. unfold ascii, between.
    destruct c; try (exfalso; vm_compute in H; congruence); repeat constructor; by vm_compute.
  - right. split; [split; [lia|pose proof (byte_Z_range c); lia]|].
    destruct c; try (exfalso; vm_compute in H; congruence); reflexivity.
Qed.

Lemma utf8_escaped s : utf8 s -> utf8 (escaped s).
Proof.
  assert (Hi : forall c, between 0x80 0xFF c -> escape_byte c = [c]).
  { intros c Hc. destruct (escape_byte_ascii c) as [[? _]|[_ ?]]; [unfold between in *; lia|done]. }
  induction 1 as [|a l Ha _ IH|a b l Ha Hb _ IH|a b c l Ha Hb Hc _ IH|a b c d l Ha Hb Hc Hd _ IH].
  - constructor.
  - rewrite escaped_cons. apply utf8_app; [|done]. apply utf8_ascii.
    destruct (escape_byte_ascii a) as [[_ ?]|[? _]]; [done|unfold between in *; lia].
  - rewrite !escaped_cons, !Hi by (unfold between in *; lia). by constructor.
  - rewrite !escaped_cons, !Hi by (unfold second_ok, between in *; lia). by constructor.
  - rewrite !escaped_cons, !Hi by (unfold second_ok, between in *; lia). by constructor.
Qed.

(** The converse, by the length of the text. *)
Lemma escaped_high c l s :
  between 0x80 0xFF c -> escaped s = c :: l -> exists s', s = c :: s' /\ escaped s' = l.
Proof.
  intros Hc. destruct s as [|c' s]; [done|]. rewrite escaped_cons.
  destruct (escape_byte_ascii c') as [[Hl Ha]|[Hh ->]].
  - pose proof (escape_byte_bounds c') as Hb. destruct (escape_byte c') as [|x r]; [simpl in Hb; lia|].
    intros [= -> _]. apply Forall_cons in Ha as [Ha _]. unfold between in *. lia.
  - intros [= -> <-]. by exists s.
Qed.

Lemma utf8_unescaped : forall n s, (length s <= n)%nat -> utf8 (escaped s) -> utf8 s.
Proof.
  induction n as [|n IH]; intros [|c s] Hn H; simpl in Hn; try lia; try apply utf8_nil.
  rewrite escaped_cons in H. destruct (escape_byte_ascii c) as [[Hl Ha]|[Hh E]].
  { constructor; [done|]. apply IH; [lia|]. by eapply utf8_ascii_strip. }
  rewrite E in H. cbn [app] in H. remember (c :: escaped s) as t eqn:Et.
  assert (Hi : forall x, between 0x80 0xBF x -> between 0x80 0xFF x) by (unfold between; lia).
  destruct H as [|x t H1 H'|x b t H1 H2 H'|x b d t H1 H2 H3 H'|x b d e t H1 H2 H3 H4 H'];
    [done|injection Et as -> Et; symmetry in Et..].
  - unfold between in *. lia.
  - apply escaped_high in Et as (s' & -> & <-); [|by apply Hi]. constructor; [done|done|].
    apply IH; [simpl in Hn; lia|done].
  - apply escaped_high in Et as (s1 & -> & Et); [|by apply Hi, H2].
    apply escaped_high in Et as (s2 & -> & <-); [|by apply Hi]. constructor; [done..|].
    apply IH; [simpl in Hn; lia|done].
  - apply escaped_high in Et as (s1 & -> & Et); [|by apply Hi, H2].
    apply escaped_high in Et as (s2 & -> & Et); [|by apply Hi].
    apply escaped_high in Et as (s3 & -> & <-); [|by apply Hi]. constructor; [done..|].
    apply IH; [simpl in Hn; lia|done].
Qed.

Lemma escape_loop_split inp outsz o :
  exists n, escape_loop inp outsz o = o ++ escaped (take n inp) /\
    (n <= length inp)%nat /\
    (n = length inp \/ outsz <= length (escape_loop inp outsz o) + 7)%nat.
Proof.
  revert o. induction inp as [|c inp IH]; intros o; simpl.
  - exists 0%nat. rewrite app_nil_r. auto.
  - destruct (Nat.ltb_spec (length o + 7) outsz) as [Hlt|Hge].
    + destruct (IH (o ++ escape_byte c)) as (n & E & Hn & Hd).
      exists (S n). rewrite E in *. rewrite <- app_assoc in *. rewrite firstn_cons, escaped_cons. simpl.
      split; [done|]. split; [lia|]. destruct Hd as [->|Hd]; [by left|by right].
    + exists 0%nat. simpl. rewrite app_nil_r. repeat split; [lia|]. right. lia.
Qed.

Lemma escape_loop_length inp outsz o :
  (length o < outsz -> length (escape_loop inp outsz o) < outsz)%nat.
Proof.
  revert o. induction inp as [|c inp IH]; intros o H; simpl; [done|].
  destruct (Nat.ltb_spec (length o + 7) outsz); [|done].
  apply IH. rewrite length_app. pose proof (escape_byte_bounds c). lia.
Qed.

Lemma json_string_escaped s rest :
  x00 ∉ s -> json_string (escaped s ++ quote :: rest) = Some (s, rest).
Proof.
  induction s as [|c s IH]; intros H; [done|].
  rewrite escaped_cons, <- app_assoc, json_string_escape_byte by set_solver.
  rewrite IH by set_solver. done.
Qed.

(** What the reader gets from an escaped string in quotes. *)
Lemma escape_reads_back inp outsz :
  exists n,
    (forall rest, json_string (escape inp outsz ++ quote :: rest) = Some (take n (cstr inp), rest)) /\
    (utf8 (escape inp outsz) <-> utf8 (take n (cstr inp))) /\ (n <= length (cstr inp))%nat /\
    (n = length (cstr inp) \/ outsz <= length (escape inp outsz) + 7)%nat.
Proof.
  unfold escape. destruct (escape_loop_split (cstr inp) outsz []) as (n & E & Hn & Hd).
  exists n. rewrite E in *. simpl in *. split; [|split; [|auto]].
  - intros rest. apply json_string_escaped. intros H. apply (cstr_no_nul inp).
    by eapply (sublist_subseteq (take n (cstr inp))); [apply sublist_take|].
  - split; [by apply (utf8_unescaped (length (take n (cstr inp))))|apply utf8_escaped].
Qed.

(** [ac_json_escape] is a correct JSON string encoder under truncation: for
    a buffer of any non-zero size its output and terminating NUL fit the
    buffer, and reading the quoted output byte by byte ends exactly at the
    closing quote, whatever the input bytes, and decodes a prefix of the
    input. The prefix is the whole input unless fewer than eight bytes of the
    buffer were left, and always when the buffer has room for six bytes per
    input byte and eight more. *)
Theorem json_escape_roundtrip inp outsz out rest :
  ac_json_escape inp outsz = Some out ->
  (length out < outsz)%nat /\
  exists n, json_string (out ++ quote :: rest) = Some (take n (cstr inp), rest) /\
    (n = length (cstr inp) \/ outsz <= length out + 7)%nat /\
    (6 * length (cstr inp) + 7 < outsz -> n = length (cstr inp))%nat.
Proof.
  unfold ac_json_escape. destruct (Nat.eqb_spec outsz 0) as [|H0]; [done|]. intros [= <-].
  fold (escape inp outsz). split; [apply escape_loop_length; simpl; lia|].
  destruct (escape_loop_split (cstr inp) outsz []) as (m & Em & Hm & Hd).
  fold (escape inp outsz) in *.
  destruct (escape_reads_back inp outsz) as (n & E & _ & Hn & Hd').
  exists n. split; [done|]. split; [done|]. intros Hfit.
  destruct Hd' as [|Hd']; [done|].
  assert (length (escaped (take m (cstr inp))) <= 6 * length (take m (cstr inp)))%nat as Hl.
  { clear. induction (take m (cstr inp)) as [|c s IH]; [done|].
    rewrite escaped_cons, length_app. pose proof (escape_byte_bounds c). simpl in *. lia. }
  rewrite length_take in Hl. rewrite Em in Hd'. simpl in Hd'. lia.
Qed.

(** A process name made to break out of the string. *)
Definition evil_comm : cstring := bs "x" ++ [quote; x0a] ++ bs ",".

Lemma json_escape_roundtrip_witness :
  exists out, ac_json_escape evil_comm 64 = Some out /\
    json_string (out ++ quote :: bs "}") = Some (evil_comm, bs "}").
Proof.
  eexists. split; [reflexivity|].
  destruct (json_escape_roundtrip evil_comm 64 _ (bs "}") eq_refl) as (_ & n & E & _ & Hn).
  rewrite E, Hn by (vm_compute; lia). reflexivity.
Defined.

(** ** Extraction *)

(** The text of a member with a string value, up to the opening quote of the
    value: the quoted key, a colon, and blanks around the colon. *)
Definition member_text (needle ws1 ws2 rest : list byte) : list byte :=
  needle ++ ws1 ++ colon :: ws2 ++ quote :: rest.

(** [enc] writes [v] with a backslash before any byte, and always before a
    quote or a backslash. *)
Inductive encodes : list byte -> list byte -> Prop :=
  | enc_nil : encodes [] []
  | enc_raw c v enc : c <> quote -> c <> backslash -> encodes v enc -> encodes (c :: v) (c :: enc)
  | enc_esc c v enc : encodes v enc -> encodes (c :: v) (backslash :: c :: enc).

(** What the loop body finds at one occurrence of the key: the text behind the
    opening quote of the value. *)
Definition value_at (needle p : list byte) : option (list byte) :=
  if bool_decide (needle `prefix_of` p) then
    match skip_ws (drop (length needle) p) with
    | c :: q =>
        if Byte.eqb c colon then
          match skip_ws q with
          | c :: q => if Byte.eqb c quote then Some q else None
          | [] => None
          end
        else None
    | [] => None
    end
  else None.

Lemma value_at_member needle ws1 ws2 rest :
  blanks ws1 -> blanks ws2 -> value_at needle (member_text needle ws1 ws2 rest) = Some rest.
Proof.
  intros H1 H2. unfold value_at, member_text.
  rewrite bool_decide_true by (by eexists).
  by rewrite drop_app_length, !skip_ws_blanks by done.
Qed.

Lemma value_at_inv needle p rest :
  value_at needle p = Some rest ->
  exists ws1 ws2, blanks ws1 /\ blanks ws2 /\ p = member_text needle ws1 ws2 rest.
Proof.
  unfold value_at, member_text. case_bool_decide as Hp; [|done]. destruct Hp as [l ->].
  rewrite drop_app_length. destruct (skip_ws_split l) as (ws1 & H1 & E1).
  destruct (skip_ws l) as [|c q]; [done|]. destruct (byte_eqb_spec c colon) as [->|]; [|done].
  destruct (skip_ws_split q) as (ws2 & H2 & E2).
  destruct (skip_ws q) as [|c q']; [done|]. destruct (byte_eqb_spec c quote) as [->|]; [|done].
  intros [= ->]. exists ws1, ws2. split; [done|]. split; [done|]. by rewrite E1, E2.
Qed.

(** The leftmost member, as the reference for the search loop. *)
Fixpoint first_value (needle p : list byte) : option (list byte) :=
  match value_at needle p with
  | Some q => Some q
  | None => match p with [] => None | _ :: p => first_value needle p end
  end.

Lemma first_value_unfold needle p :
  first_value needle p =
  match value_at needle p with
  | Some q => Some q
  | None => match p with [] => None | _ :: p => first_value needle p end
  end.
Proof. by destruct p. Qed.

Lemma memmem_first needle l :
  match memmem needle l with
  | Some hit => needle `prefix_of` hit /\ (length hit <= length l)%nat /\
      first_value needle l = first_value needle hit
  | None => first_value needle l = None
  end.
Proof.
  induction l as [|b l IH]; simpl; case_bool_decide as Hp; simpl.
  - auto.
  - unfold value_at. by rewrite bool_decide_false.
  - auto.
  - assert (value_at needle (b :: l) = None) as ->
      by (unfold value_at; by rewrite bool_decide_false).
    destruct (memmem needle l) as [hit|]; [|done]. naive_solver lia.
Qed.

Lemma extract_loop_first fuel needle p outsz :
  needle <> [] -> (length p < fuel)%nat ->
  run_loop (extract_body needle outsz) fuel p =
  Some ((fun q => cstr (copy_string q outsz [])) <$> first_value needle p).
Proof.
  intros Hne. revert p. induction fuel as [|fuel IH]; intros p Hp; [lia|]. cbn [run_loop].
  unfold extract_body at 1. destruct p as [|b p].
  - rewrite first_value_unfold. unfold value_at.
    rewrite bool_decide_false; [done|]. intros H%prefix_nil_inv. done.
  - pose proof (memmem_first needle (b :: p)) as Hm.
    destruct (memmem needle (b :: p)) as [hit|]; [|by rewrite Hm].
    destruct Hm as (Hpre & Hl & ->).
    assert (run_loop (extract_body needle outsz) fuel (drop 1 hit) =
            Some ((fun q => cstr (copy_string q outsz [])) <$>
            match hit with [] => None | _ :: p => first_value needle p end)) as Hnext.
    { destruct hit as [|b' hit].
      - by apply prefix_nil_inv in Hpre.
      - simpl in *. apply IH. lia. }
    rewrite first_value_unfold. unfold value_at. rewrite bool_decide_true by done.
    destruct (skip_ws (drop (length needle) hit)) as [|c q]; [done|].
    destruct (Byte.eqb c colon); [|done].
    destruct (skip_ws q) as [|c' q']; [done|]. by destruct (Byte.eqb c' quote).
Qed.

Lemma first_value_leftmost needle pre p :
  (forall pre1 pre2, pre = pre1 ++ pre2 -> pre2 <> [] -> value_at needle (pre2 ++ p) = None) ->
  is_Some (value_at needle p) ->
  first_value needle (pre ++ p) = value_at needle p.
Proof.
  intros H [q Hq]. induction pre as [|b pre IH]; simpl app.
  - by rewrite first_value_unfold, Hq.
  - rewrite first_value_unfold. change (b :: pre ++ p) with ((b :: pre) ++ p).
    rewrite (H [] (b :: pre)) by done. simpl. apply IH. intros pre1 pre2 -> Hne. apply (H (b :: pre1) pre2); done.
Qed.

Lemma first_value_some needle p q :
  first_value needle p = Some q -> exists pre p', p = pre ++ p' /\ value_at needle p' = Some q.
Proof.
  induction p as [|b p IH]; rewrite first_value_unfold; destruct (value_at needle _) eqn:E; try done.
  - intros [= ->]. by exists [], [].
  - intros [= ->]. by exists [], (b :: p).
  - intros (pre & p' & -> & H)%IH. by exists (b :: pre), p'.
Qed.

Lemma push_length outsz out c : (length out < outsz -> length (push outsz out c) < outsz)%nat.
Proof.
  intros. unfold push. destruct (Nat.ltb_spec (length out + 1) outsz); [|done].
  rewrite length_app; simpl; lia.
Qed.

Lemma push_take outsz out c v :
  (length out < outsz)%nat ->
  push outsz out c ++ take (outsz - 1 - length (push outsz out c)) v =
  out ++ take (outsz - 1 - length out) (c :: v).
Proof.
  intros. unfold push. destruct (Nat.ltb_spec (length out + 1) outsz).
  - rewrite length_app, <- app_assoc; simpl. f_equal.
    by replace (outsz - 1 - length out)%nat with (S (outsz - 1 - (length out + 1))) by lia.
  - by replace (outsz - 1 - length out)%nat with 0%nat by lia.
Qed.

Lemma copy_string_length q outsz out :
  (length out < outsz -> length (copy_string q outsz out) < outsz)%nat.
Proof.
  remember (length q) as n eqn:En. revert q out En.
  induction (lt_wf n) as [n _ IH]. intros q out -> Hout.
  destruct q as [|c q]; simpl; [done|]. destruct (Byte.eqb c quote); [done|].
  destruct (Byte.eqb c backslash); [|eapply IH; [|done|by apply push_length]; simpl; lia].
  destruct q as [|c2 q]; [by apply push_length|].
  eapply IH; [|done|by apply push_length]; simpl; lia.
Qed.

(** What stands behind the opening quote of a value, and what the value is: up
    to the closing quote, or up to the end of the input when it is not closed (a
    backslash there stands for itself). *)
Inductive value_text : list byte -> list byte -> Prop :=
  | vt_closed v enc rest : encodes v enc -> value_text v (enc ++ quote :: rest)
  | vt_open v enc : encodes v enc -> value_text v enc
  | vt_cut v enc : encodes v enc -> value_text (v ++ [backslash]) (enc ++ [backslash]).

(** Every text is one of these. *)
Lemma value_text_total : forall n q, (length q <= n)%nat -> exists v, value_text v q.
Proof.
  assert (H : forall n q, (length q <= n)%nat ->
    exists v enc, encodes v enc /\ ((exists rest, q = enc ++ quote :: rest) \/ q = enc \/ q = enc ++ [backslash])).
  { induction n as [|n IH]; intros [|c q] Hq; simpl in Hq; try lia; try (exists [], []; split; [constructor|solve [auto]]).
    destruct (decide (c = quote)) as [->|Hc]; [exists [], []; split; [constructor|left; by exists q]|].
    destruct (decide (c = backslash)) as [->|Hb].
    - destruct q as [|c2 q]; [exists [], []; split; [constructor|auto]|].
      destruct (IH q ltac:(simpl in Hq; lia)) as (v & enc & He & Ht). exists (c2 :: v), (backslash :: c2 :: enc).
      split; [by constructor|]. destruct Ht as [[rest ->]|[-> | ->]]; [left; by exists rest|by right; left|by right; right].
    - destruct (IH q ltac:(lia)) as (v & enc & He & Ht). exists (c :: v), (c :: enc).
      split; [by constructor|]. destruct Ht as [[rest ->]|[-> | ->]]; [left; by exists rest|by right; left|by right; right]. }
  intros n q Hq. destruct (H n q Hq) as (v & enc & He & [[rest ->]|[-> | ->]]); eexists; by constructor.
Qed.

Lemma copy_string_value v q outsz :
  value_text v q -> (0 < outsz)%nat -> copy_string q outsz [] = take (outsz - 1) v.
Proof.
  assert (Hgen : forall v enc tail, encodes v enc -> forall out, (length out < outsz)%nat ->
    copy_string (enc ++ tail) outsz out =
    copy_string tail outsz (out ++ take (outsz - 1 - length out) v)).
  { induction 1 as [|c w enc Hq Hb _ IH|c w enc _ IH]; intros out Hout; cbn [app].
    - by rewrite take_nil, app_nil_r.
    - cbn [copy_string]. destruct (byte_eqb_spec c quote); [done|]. destruct (byte_eqb_spec c backslash); [done|].
      by rewrite IH, push_take by auto using push_length.
    - cbn [copy_string]. change (Byte.eqb backslash quote) with false. change (Byte.eqb backslash backslash) with true.
      cbv iota. by rewrite IH, push_take by auto using push_length. }
  intros Hv Ho. destruct Hv as [v enc rest He|v enc He|v enc He].
  - rewrite (Hgen v enc _ He []) by done. cbn [copy_string app length]. by rewrite Nat.sub_0_r.
  - rewrite <- (app_nil_r enc), (Hgen v enc _ He []) by done. cbn [copy_string app length]. by rewrite Nat.sub_0_r.
  - rewrite (Hgen v enc _ He []) by done. cbn [app length]. rewrite Nat.sub_0_r. cbn [copy_string].
    change (Byte.eqb backslash quote) with false. change (Byte.eqb backslash backslash) with true. cbv iota.
    unfold push. rewrite length_take. destruct (Nat.ltb_spec (Nat.min (outsz - 1) (length v) + 1) outsz).
    + rewrite !take_ge; [done|rewrite length_app; simpl; lia|lia].
    + rewrite take_app_le by lia. done.
Qed.

(** C30: [json_extract_string] is exact on any file content, well-formed or not,
    for a non-empty output buffer. A key of more than 61 bytes does not fit the
    needle and yields 0. Otherwise, with a member [key : "..."] in the text it
    returns 1 and the value of the leftmost one, unescaped, cut to the output
    buffer and to the first NUL; a value that is not closed extends to the end
    of the input (the code returns 1 with what there is); occurrences of the key
    that are not followed by a colon and an opening quote (for example the key
    as a value) are passed over. Without such a member it returns 0. The output
    always fits the buffer. *)
Theorem json_extract_string_exact json key outsz :
  (0 < outsz)%nat ->
  ((61 < length key)%nat -> json_extract_string json key outsz = None) /\
  ((length key <= 61)%nat -> forall pre ws1 ws2 q,
     blanks ws1 -> blanks ws2 -> json = pre ++ member_text (quoted key) ws1 ws2 q ->
     (forall pre' ws1' ws2' q', blanks ws1' -> blanks ws2' ->
        json = pre' ++ member_text (quoted key) ws1' ws2' q' -> (length pre <= length pre')%nat) ->
     exists v, value_text v q /\
       json_extract_string json key outsz = Some (cstr (take (outsz - 1) v))) /\
  ((forall pre ws1 ws2 q, blanks ws1 -> blanks ws2 ->
      json <> pre ++ member_text (quoted key) ws1 ws2 q) ->
   json_extract_string json key outsz = None) /\
  (forall out, json_extract_string json key outsz = Some out -> (length out < outsz)%nat).
Proof.
  intros Hout. assert (Hl : length (quoted key) = (2 + length key)%nat)
    by (unfold quoted; cbn [length]; rewrite length_app; cbn [length]; lia).
  unfold json_extract_string. destruct (Nat.leb_spec 64 (length (quoted key))) as [Hk|Hk].
  { split_and!; [done|intros; lia|done|done]. }
  rewrite extract_loop_first by (done || lia). cbn [mjoin option_join]. split_and!.
  - intros; lia.
  - intros _ pre ws1 ws2 q H1 H2 -> Hleft. destruct (value_text_total (length q) q) as [v Hv]; [done|].
    exists v. split; [done|]. rewrite first_value_leftmost; rewrite ?value_at_member by done; [| |by eexists].
    { simpl. by rewrite (copy_string_value v q). }
    intros pre1 pre2 -> Hne. destruct (value_at _ (pre2 ++ _)) as [q'|] eqn:E; [exfalso|done].
    apply value_at_inv in E as (ws1' & ws2' & H1' & H2' & E).
    specialize (Hleft pre1 ws1' ws2' q' H1' H2').
    rewrite <- app_assoc, E, length_app in Hleft. specialize (Hleft eq_refl).
    destruct pre2; [done|]. simpl in Hleft. lia.
  - intros Hno. destruct (first_value (quoted key) json) as [q|] eqn:E; [|done].
    apply first_value_some in E as (pre & p & -> & (ws1 & ws2 & H1 & H2 & ->)%value_at_inv).
    by destruct (Hno pre ws1 ws2 q H1 H2).
  - intros out. destruct (first_value (quoted key) json) as [q|]; [|done]. intros [= <-].
    eapply Nat.le_lt_trans; [apply cstr_length|]. by apply copy_string_length.
Qed.

(** A manifest with the key as a value first, and an escaped quote. *)
Definition demo_manifest : list byte :=
  bs "{" ++ quoted (bs "type") ++ bs ":" ++ quoted (bs "name") ++ bs ", "
  ++ quoted (bs "name") ++ bs " : " ++ [quote; x41; backslash; quote; x42; quote] ++ bs "}".

Lemma json_extract_string_exact_witness :
  json_extract_string demo_manifest (bs "name") 256 = Some [x41; quote; x42] /\
  json_extract_string demo_manifest (bs "name") 2 = Some [x41] /\
  (length [x41] < 2)%nat.
Proof.
  split; [reflexivity|]. split; [reflexivity|].
  apply (json_extract_string_exact demo_manifest (bs "name") 2); [lia|reflexivity].
Defined.
