(* ===== verification/Report.v ===== *)
(** * Reporting to the server (src/anticheat_daemon.c, [ac_report])

    A detection is POSTed as a JSON object over a connection whose resolution,
    connect and transfer are all bounded in time. What the C library and the
    network answer is a value of [world]; the calls made are a trace. *)

From Stdlib Require Import ZArith Lia Strings.Byte.
From stdpp Require Import base numbers list strings sets.
From S2P Require Import Prelude Libc Json.

Definition AC_REPORT_TIMEOUT_SEC : Z := 3.
Definition AC_RESOLVE_MAX : nat := 8.
Definition O_NONBLOCK : Z := 2048.
Definition EINPROGRESS : Z := 115.
Definition EPIPE : Z := 32.

(** ** A bounded connect *)

(** The answers one attempt meets: [fcntl(F_GETFL)], whether the first
    [fcntl(F_SETFL)] succeeds, the errno of [connect] (0: connected at once),
    the results of [poll] and of [getsockopt(SO_ERROR)] ([None]: it fails). *)
Record connect_answers := {
  a_getfl : Z; a_setfl : bool; a_connect : Z; a_poll : Z; a_so_error : option Z }.

(** The result of [ac_connect_timeout]: return value, the status flags left on
    the descriptor, and the timeouts given to [poll]. *)
Record connect_result := { cr_rc : Z; cr_flags : Z; cr_waits : list Z }.

(** [ac_connect_timeout] on a descriptor whose status flags are [fl]. *)
Definition ac_connect_timeout (a : connect_answers) (fl timeout_sec : Z) : connect_result :=
  if a_getfl a <? 0 then {| cr_rc := -1; cr_flags := fl; cr_waits := [] |}
  else
    let flags := a_getfl a in
    if negb (a_setfl a) then {| cr_rc := -1; cr_flags := fl; cr_waits := [] |}
    else
      (* from here the descriptor has [Z.lor flags O_NONBLOCK], until restored *)
      if a_connect a =? 0 then {| cr_rc := 0; cr_flags := flags; cr_waits := [] |}
      else if negb (a_connect a =? EINPROGRESS)
      then {| cr_rc := -1; cr_flags := flags; cr_waits := [] |}
      else
        let waits := [s32 (timeout_sec * 1000)] in
        if a_poll a <=? 0 then {| cr_rc := -1; cr_flags := flags; cr_waits := waits |}
        else match a_so_error a with
             | None => {| cr_rc := -1; cr_flags := flags; cr_waits := waits |}
             | Some err =>
                 {| cr_rc := if err =? 0 then 0 else -1; cr_flags := flags; cr_waits := waits |}
             end.

(** ** A bounded name resolution *)

(** [struct ac_resolved_addr]; [ra_addr] is what [addrlen] bytes of [addr]
    hold. *)
Record resolved_addr := {
  ra_family : Z; ra_socktype : Z; ra_protocol : Z; ra_addrlen : Z; ra_addr : list byte }.

(** Its layout: four 32-bit fields and a [struct sockaddr_storage]. *)
Definition STORAGE : nat := 128.
Definition RECORD : nat := 144.

(** [memset], the field assignments and the [memcpy] of the child. *)
Definition record_bytes (a : resolved_addr) : list byte :=
  le 4 (ra_family a) ++ le 4 (ra_socktype a) ++ le 4 (ra_protocol a)
  ++ le 4 (ra_addrlen a) ++ ra_addr a ++ replicate (STORAGE - length (ra_addr a)) x00.

(** [memcpy(&out[n++], buf, sizeof(buf))]: the structure a full buffer holds. *)
Definition record_of_bytes (b : list byte) : resolved_addr :=
  let field i := le_val (take 4 (drop i b)) in
  {| ra_family := s32 (field 0%nat); ra_socktype := s32 (field 4%nat);
     ra_protocol := s32 (field 8%nat); ra_addrlen := field 12%nat;
     ra_addr := take (Z.to_nat (field 12%nat)) (drop 16 b) |}.

(** The child: every address of [getaddrinfo] that fits the storage goes down
    the pipe ([None]: [getaddrinfo] failed). *)
Definition resolver_child (res : option (list resolved_addr)) : list byte :=
  match res with
  | None => []
  | Some res =>
      mjoin (record_bytes <$> List.filter (fun a => ra_addrlen a <=? Z.of_nat STORAGE) res)
  end.

(** One round of the parent's loop: the clock, the result of [poll], and how
    many bytes the pipe has ready for the [read]. *)
Record poll_round := { r_sec : Z; r_nsec : Z; r_poll : Z; r_ready : nat }.

(** The [while (n < max)] loop: the bytes still in the pipe, the partial
    record, the addresses so far; also the timeouts given to [poll]. When the
    rounds are over the pipe is at end of file. *)
Fixpoint resolve_loop (rounds : list poll_round) (dsec dnsec : Z) (max : nat)
    (pipe buf : list byte) (out : list resolved_addr) : list resolved_addr * list (poll_round * Z) :=
  match rounds with
  | [] => (out, [])
  | r :: rounds =>
      if (max <=? length out)%nat then (out, [])
      else
        let remaining_ms := (dsec - r_sec r) * 1000 + Z.quot (dnsec - r_nsec r) 1000000 in
        if remaining_ms <=? 0 then (out, [])
        else
          let wait := (r, s32 remaining_ms) in
          if r_poll r <=? 0 then (out, [wait])
          else
            let n := Nat.min (r_ready r) (RECORD - length buf) in
            let got := take n pipe in
            if bool_decide (got = []) then (out, [wait])
            else
              let buf := buf ++ got in
              let '(out, waits) :=
                if (length buf =? RECORD)%nat
                then resolve_loop rounds dsec dnsec max (drop n pipe) []
                       (out ++ [record_of_bytes buf])
                else resolve_loop rounds dsec dnsec max (drop n pipe) buf out in
              (out, wait :: waits)
  end.

(** The answers [ac_resolve_timeout] meets. *)
Record resolve_answers := {
  a_pipe : bool; a_fork : bool; a_getaddrinfo : option (list resolved_addr);
  a_start_sec : Z; a_start_nsec : Z; a_rounds : list poll_round }.

Record resolve_result := {
  rr_n : Z; rr_out : list resolved_addr; rr_waits : list (poll_round * Z); rr_reaped : bool }.

(** [ac_resolve_timeout]; [rr_reaped] says that a child that was started was
    killed and waited for. *)
Definition ac_resolve_timeout (a : resolve_answers) (max : nat) (timeout_sec : Z) : resolve_result :=
  if negb (a_pipe a) then {| rr_n := -1; rr_out := []; rr_waits := []; rr_reaped := false |}
  else if negb (a_fork a) then {| rr_n := -1; rr_out := []; rr_waits := []; rr_reaped := false |}
  else
    let '(out, waits) :=
      resolve_loop (a_rounds a) (a_start_sec a + timeout_sec) (a_start_nsec a) max
        (resolver_child (a_getaddrinfo a)) [] [] in
    {| rr_n := Z.of_nat (length out); rr_out := out; rr_waits := waits; rr_reaped := true |}.

(** ** The report *)

(** Result of one [write] on the socket. *)
Inductive write_answer :=
  | Wrote (n : nat)
  | WriteErr (errno : Z).

(** What a report meets: the environment and files it reads, the resolver, and
    per address whether [socket] succeeds and how [connect] goes; the answers
    of the successive [write]s and of the final [read]. *)
Record world := {
  w_url : option cstring; w_key : option cstring;
  w_machine_id : option (list byte); w_hostname : option cstring; w_time : Z;
  w_resolve : cstring -> cstring -> resolve_answers;
  w_socket : nat -> bool; w_connect : nat -> connect_answers;
  w_write : nat -> write_answer; w_response : option (list byte);
  w_strerror : Z -> cstring }.

(** The calls a report makes that others can see. *)
Inductive ncall :=
  | NSocket
  | NClose
  | NWrite (bytes : list byte)
  | NStderr (text : cstring)
  | NKilled.                      (* SIGPIPE ends the process *)

(** The end of [ac_report_client_id]: the hostname, or a fixed name. *)
Definition fallback_id (w : world) : cstring :=
  match w_hostname w with
  | Some h => match cstr h with [] => bs "unknown" | h => h end
  | None => bs "unknown"
  end.

(** [ac_report_client_id]. *)
Definition ac_report_client_id (w : world) (outsz : nat) : cstring :=
  match w_machine_id w with
  | None => fallback_id w
  | Some content =>
      match (fgets outsz content).1 with
      | [] => fallback_id w
      | line => match strip_eol (cstr line) with [] => fallback_id w | id => id end
      end
  end.

(** [strrchr(host, ':')] and the split it is used for. *)
Fixpoint split_last_colon (l : cstring) : option (cstring * cstring) :=
  match l with
  | [] => None
  | b :: l =>
      match split_last_colon l with
      | Some (h, p) => Some (b :: h, p)
      | None => if Byte.eqb b colon then Some ([], l) else None
      end
  end.

(** The body and the request of [ac_report], before [snprintf] cuts them. *)
Definition report_body (client_id event_type detail : cstring) (ts : Z) : cstring :=
  bs "{" ++ quoted (bs "client_id") ++ bs ":" ++ quoted client_id ++ bs ","
  ++ quoted (bs "event_type") ++ bs ":" ++ quoted (escape event_type 64) ++ bs ","
  ++ quoted (bs "detail") ++ bs ":" ++ quoted (escape detail 600) ++ bs ","
  ++ quoted (bs "ts") ++ bs ":" ++ fmt_d ts ++ bs "}".

Definition crlf : cstring := [x0d; x0a].

Definition report_request (host key body : cstring) : cstring :=
  bs "POST /report HTTP/1.1" ++ crlf ++ bs "Host: " ++ host ++ crlf
  ++ bs "Authorization: Bearer " ++ key ++ crlf
  ++ bs "Content-Type: application/json" ++ crlf
  ++ bs "Content-Length: " ++ fmt_d (Z.of_nat (length body)) ++ crlf
  ++ bs "Connection: close" ++ crlf ++ crlf ++ body.

(** The loop over the resolved addresses: socket, bounded connect, and close on
    failure. [true]: a connected descriptor. *)
Fixpoint connect_loop (w : world) (i : nat) (addrs : list resolved_addr) : list ncall * bool :=
  match addrs with
  | [] => ([], false)
  | _ :: addrs =>
      if negb (w_socket w i) then connect_loop w (S i) addrs
      else if cr_rc (ac_connect_timeout (w_connect w i) 0 AC_REPORT_TIMEOUT_SEC) =? 0
      then ([NSocket], true)
      else let '(calls, ok) := connect_loop w (S i) addrs in (NSocket :: NClose :: calls, ok)
  end.

Inductive send_result := SentAll | SendFailed | ShortWrite (sent : nat) | Killed.

(** The [while (sent < reqlen)] loop; [k] counts the writes. A write to a
    closed connection raises SIGPIPE, which the daemon leaves at its default
    action. Every write but a zero one makes progress, so the length of the
    request is enough fuel. *)
Fixpoint send_loop (w : world) (fuel k sent : nat) (rest : list byte) : list ncall * send_result :=
  match rest with
  | [] => ([], SentAll)
  | _ =>
      match fuel with
      | O => ([], ShortWrite sent)
      | S fuel =>
          match w_write w k with
          | WriteErr e =>
              if e =? EPIPE then ([NKilled], Killed)
              else ([NStderr (bs "ac_report: send failed: " ++ w_strerror w e)], SendFailed)
          | Wrote O => ([], ShortWrite sent)
          | Wrote n =>
              let '(calls, r) := send_loop w fuel (S k) (sent + n) (drop n rest) in
              (NWrite (take n rest) :: calls, r)
          end
      end
  end.

(** The end of [ac_report]: the first bytes of the response are looked at. *)
Definition check_response (w : world) : list ncall :=
  match w_response w with
  | Some ((_ :: _) as r) =>
      let resp := cstr (take 63 r) in
      if negb (strstr resp (bs " 200")) && negb (strstr resp (bs " 201"))
      then [NStderr (bs "ac_report: server response: " ++ take 60 resp)] else []
  | _ => []
  end.

(** [ac_report]. *)
Definition ac_report (w : world) (event_type detail : cstring) : list ncall :=
  match w_url w, w_key w with
  | Some ((_ :: _) as url), Some ((_ :: _) as key) =>
      match split_last_colon (snprintf 256 url) with
      | None => [NStderr (bs "ac_report: AC_REPORT_URL must be host:port")]
      | Some (host, port) =>
          let client_id := ac_report_client_id w 128 in
          let body := snprintf 1024 (report_body client_id event_type detail (w_time w)) in
          let res := ac_resolve_timeout (w_resolve w host port) AC_RESOLVE_MAX
                       AC_REPORT_TIMEOUT_SEC in
          if rr_n res <=? 0
          then [NStderr (bs "ac_report: could not resolve " ++ host ++ bs ":" ++ port)]
          else
            let '(calls, ok) := connect_loop w 0 (rr_out res) in
            calls ++
            if negb ok
            then [NStderr (bs "ac_report: could not connect to " ++ host ++ bs ":" ++ port)]
            else
              let req := report_request host key body in
              if (2048 <=? length req)%nat
              then [NStderr (bs "ac_report: request too large to send (AC_REPORT_KEY/AC_REPORT_URL too long?)");
                    NClose]
              else
                let '(calls, r) := send_loop w (length req) 0 0 req in
                calls ++
                match r with
                | Killed => []
                | SendFailed => [NClose]
                | ShortWrite sent =>
                    [NStderr (bs "ac_report: short write (" ++ fmt_d (Z.of_nat sent) ++ bs " of "
                              ++ fmt_d (Z.of_nat (length req)) ++ bs " bytes)"); NClose]
                | SentAll => check_response w ++ [NClose]
                end
      end
  | _, _ => []
  end.

(** ** The resolver's pipe *)

(** The addresses [getaddrinfo] returns: [int] fields and an address of
    [addrlen] bytes. *)
Definition int32 (z : Z) : Prop := -2 ^ 31 <= z < 2 ^ 31.

Definition addr_ok (a : resolved_addr) : Prop :=
  int32 (ra_family a) /\ int32 (ra_socktype a) /\ int32 (ra_protocol a) /\
  0 <= ra_addrlen a < 2 ^ 32 /\ length (ra_addr a) = Z.to_nat (ra_addrlen a).

Lemma s32_of_u32 z : int32 z -> s32 (z mod 2 ^ 32) = z.
Proof.
  unfold int32, s32. intros H. rewrite Zplus_mod_idemp_l, Z.mod_small; lia.
Qed.

Lemma take_drop_app {A} (l1 l2 : list A) i n :
  i = length l1 -> take n (drop i (l1 ++ l2)) = take n l2.
Proof. intros ->. by rewrite drop_app_length. Qed.

Lemma record_roundtrip a :
  addr_ok a -> ra_addrlen a <= Z.of_nat STORAGE ->
  length (record_bytes a) = RECORD /\ record_of_bytes (record_bytes a) = a.
Proof.
  intros (H1 & H2 & H3 & H4 & H5) Hle. unfold record_bytes. split.
  - rewrite !length_app, !le_length, length_replicate. unfold STORAGE, RECORD in *. lia.
  - set (tl := ra_addr a ++ _). unfold record_of_bytes.
    assert (forall z l, le_val (take 4 (le 4 z ++ l)) = z mod 2 ^ 32) as Hf.
    { intros z l. rewrite take_app_length', le_val_bytes by (by rewrite le_length). done. }
    rewrite drop_0, Hf.
    rewrite (drop_app_length' (le 4 (ra_family a))), Hf by (by rewrite le_length).
    rewrite (app_assoc (le 4 (ra_family a))).
    rewrite (drop_app_length' (_ ++ le 4 (ra_socktype a)) _ 8), Hf by done.
    rewrite (app_assoc (_ ++ le 4 (ra_socktype a))).
    rewrite (drop_app_length' (_ ++ le 4 (ra_protocol a)) _ 12), Hf by done.
    rewrite (app_assoc (_ ++ le 4 (ra_protocol a))).
    rewrite (drop_app_length' (_ ++ le 4 (ra_addrlen a)) _ 16) by done.
    rewrite !s32_of_u32, (Z.mod_small (ra_addrlen a)) by done.
    unfold tl. rewrite take_app_length' by done. by destruct a.
Qed.

(** The milliseconds left before the deadline, as the loop computes them. *)
Definition remaining (dsec dnsec : Z) (r : poll_round) : Z :=
  (dsec - r_sec r) * 1000 + Z.quot (dnsec - r_nsec r) 1000000.

(** A round in which the pipe has data before the deadline. *)
Definition fruitful (dsec dnsec : Z) (r : poll_round) : Prop :=
  0 < remaining dsec dnsec r /\ 0 < r_poll r /\ (0 < r_ready r)%nat.

Definition storable (a : resolved_addr) : Prop :=
  addr_ok a /\ ra_addrlen a <= Z.of_nat STORAGE.

(** A partial record is not an address. *)
Lemma partial_record buf addrs :
  Forall storable addrs -> (length buf < RECORD)%nat ->
  buf = mjoin (record_bytes <$> addrs) -> addrs = [].
Proof.
  intros Ha Hb ->. destruct addrs as [|a addrs]; [done|]. exfalso.
  apply Forall_cons in Ha as [[Hok Hst] _]. destruct (record_roundtrip a Hok Hst) as [Hlen _].
  cbn [fmap list_fmap mjoin list_join] in Hb. rewrite length_app in Hb. lia.
Qed.

Lemma resolve_loop_exact rounds dsec dnsec max pipe buf out addrs :
  Forall storable addrs -> (length buf < RECORD)%nat -> (length out <= max)%nat ->
  buf ++ pipe = mjoin (record_bytes <$> addrs) ->
  exists k, (resolve_loop rounds dsec dnsec max pipe buf out).1 = out ++ take k addrs /\
    (length out + k <= max)%nat /\
    (Forall (fruitful dsec dnsec) rounds -> (length pipe <= length rounds)%nat ->
     k = Nat.min (max - length out) (length addrs)).
Proof.
  revert pipe buf out addrs. induction rounds as [|r rounds IH]; intros pipe buf out addrs Ha Hb Ho E;
    simpl.
  { exists 0%nat. rewrite app_nil_r, Nat.add_0_r. split; [done|]. split; [done|].
    intros _ Hp. destruct pipe; [|simpl in Hp; lia]. rewrite app_nil_r in E.
    rewrite (partial_record buf addrs) by done. simpl. lia. }
  assert (forall P : Prop, (P -> (length out = max)%nat \/ addrs = []) ->
            exists k, out = out ++ take k addrs /\ (length out + k <= max)%nat /\
              (P -> k = Nat.min (max - length out) (length addrs))) as Hstop.
  { intros P HP. exists 0%nat. rewrite app_nil_r, Nat.add_0_r. split; [done|]. split; [done|].
    intros [ | -> ]%HP; simpl; lia. }
  destruct (Nat.leb_spec max (length out)) as [|Hmax].
  { destruct (Hstop True) as (k & ? & ? & Hk); [lia|]. exists k. auto. }
  fold (remaining dsec dnsec r).
  destruct (Z.leb_spec (remaining dsec dnsec r) 0).
  { destruct (Hstop (fruitful dsec dnsec r)) as (k & ? & ? & Hk); [intros (? & ?); lia|].
    exists k. split; [done|]. split; [done|]. intros [? _]%Forall_cons _. auto. }
  destruct (Z.leb_spec (r_poll r) 0).
  { destruct (Hstop (fruitful dsec dnsec r)) as (k & ? & ? & Hk); [intros (? & ? & ?); lia|].
    exists k. split; [done|]. split; [done|]. intros [? _]%Forall_cons _. auto. }
  set (n := Nat.min _ _). case_bool_decide as Hgot.
  { destruct (Hstop (fruitful dsec dnsec r)) as (k & ? & ? & Hk).
    - intros (_ & _ & Hr). right. apply (partial_record buf); [done|done|].
      destruct pipe as [|b pipe]; [by rewrite app_nil_r in E|].
      destruct n as [|n'] eqn:En; [lia|done].
    - exists k. split; [done|]. split; [done|]. intros [? _]%Forall_cons _. auto. }
  assert (length (buf ++ take n pipe) <= RECORD)%nat as Hle
    by (rewrite length_app, length_take; lia).
  assert (length (drop n pipe) < length pipe)%nat as Hdrop.
  { rewrite length_drop. destruct pipe; [by rewrite take_nil in Hgot|].
    destruct n; [done|]. simpl. lia. }
  assert ((buf ++ take n pipe) ++ drop n pipe = mjoin (record_bytes <$> addrs)) as E'
    by (by rewrite <- app_assoc, take_drop).
  destruct (Nat.eqb_spec (length (buf ++ take n pipe)) RECORD) as [Hfull|Hpart].
  - destruct addrs as [|a addrs]; cbn [fmap list_fmap mjoin list_join] in E'.
    { apply (f_equal length) in E'. rewrite length_app, Hfull in E'. done. }
    apply Forall_cons in Ha as [[Hok Hst] Ha].
    destruct (record_roundtrip a Hok Hst) as [Hlen Hrt].
    apply app_inj_1 in E' as [-> E']; [|congruence]. rewrite Hrt.
    destruct (IH (drop n pipe) [] (out ++ [a]) addrs Ha) as (k & Hk & Hm & Hall);
      [unfold RECORD; simpl; lia|rewrite length_app; simpl; lia|done|].
    exists (S k). destruct (resolve_loop _ _ _ _ _ _ _) as [o w]. simpl in *.
    rewrite Hk, <- app_assoc. rewrite length_app in Hm, Hall. simpl in Hm, Hall.
    split; [done|]. split; [lia|]. intros [_ Hr]%Forall_cons Hp.
    rewrite Hall by (done || lia). lia.
  - destruct (IH (drop n pipe) (buf ++ take n pipe) out addrs Ha) as (k & Hk & Hm & Hall);
      [lia|done|done|].
    exists k. destruct (resolve_loop _ _ _ _ _ _ _) as [o w]. split; [done|]. split; [done|].
    intros [_ Hr]%Forall_cons Hp. apply Hall; [done|lia].
Qed.

(** The clock of a round, in nanoseconds. *)
Definition round_ns (r : poll_round) : Z := r_sec r * 1000000000 + r_nsec r.

Definition clock_ok (start_ns : Z) (r : poll_round) : Prop :=
  0 <= r_nsec r < 1000000000 /\ start_ns <= round_ns r.

Lemma resolve_loop_waits rounds ssec snsec timeout_sec max pipe buf out :
  0 <= snsec < 1000000000 -> 0 <= timeout_sec < 2000000 ->
  Forall (clock_ok (ssec * 1000000000 + snsec)) rounds ->
  Forall (fun w => 0 < w.2 /\
            round_ns w.1 + w.2 * 1000000 <
              (ssec + timeout_sec) * 1000000000 + snsec + 1000000)
    (resolve_loop rounds (ssec + timeout_sec) snsec max pipe buf out).2.
Proof.
  intros Hs Ht. revert pipe buf out.
  induction rounds as [|r rounds IH]; intros pipe buf out Hc; simpl; [constructor|].
  apply Forall_cons in Hc as [[Hr1 Hr2] Hc].
  destruct (Nat.leb _ _); [constructor|].
  fold (remaining (ssec + timeout_sec) snsec r).
  destruct (Z.leb_spec (remaining (ssec + timeout_sec) snsec r) 0) as [|Hrem]; [constructor|].
  assert (0 < s32 (remaining (ssec + timeout_sec) snsec r) /\
          round_ns r + s32 (remaining (ssec + timeout_sec) snsec r) * 1000000 <
              (ssec + timeout_sec) * 1000000000 + snsec + 1000000) as Hw.
  { unfold round_ns, remaining in *.
    assert (1000000 * Z.quot (snsec - r_nsec r) 1000000 < snsec - r_nsec r + 1000000)
      by (Z.to_euclidean_division_equations; lia).
    set (q := Z.quot (snsec - r_nsec r) 1000000) in *.
    unfold s32. rewrite Z.mod_small by lia. lia. }
  destruct (r_poll r <=? 0); [by constructor; [|constructor]|].
  case_bool_decide; [by constructor; [|constructor]|].
  destruct (Nat.eqb _ _);
    match goal with
    | |- context [resolve_loop rounds _ _ _ ?p ?b ?o] => specialize (IH p b o Hc)
    end;
    destruct (resolve_loop _ _ _ _ _ _ _) as [o w]; by constructor.
Qed.

Definition usable (res : list resolved_addr) : list resolved_addr :=
  List.filter (fun a => ra_addrlen a <=? Z.of_nat STORAGE) res.

Lemma usable_storable res : Forall addr_ok res -> Forall storable (usable res).
Proof.
  induction 1 as [|a res Ha _ IH]; simpl; [constructor|].
  destruct (Z.leb_spec (ra_addrlen a) (Z.of_nat STORAGE)); [by constructor|done].
Qed.

(** Name resolution is exact and bounded in time. However the pipe cuts the
    resolver's records into reads, [ac_resolve_timeout] returns the first
    addresses of [getaddrinfo] that fit the storage, in order and unchanged, at
    most [max] of them, and all of them (up to [max]) when the data arrives
    before the deadline; the child is reaped. Every wait ends before
    the one deadline set on entry (plus the millisecond of rounding). *)
Theorem resolve_exact_and_bounded a res max timeout_sec :
  a_pipe a = true -> a_fork a = true -> a_getaddrinfo a = Some res -> Forall addr_ok res ->
  let r := ac_resolve_timeout a max timeout_sec in
  (exists k, rr_out r = take k (usable res) /\ (k <= max)%nat /\
     (Forall (fruitful (a_start_sec a + timeout_sec) (a_start_nsec a)) (a_rounds a) ->
      (length (resolver_child (Some res)) <= length (a_rounds a))%nat ->
      k = Nat.min max (length (usable res)))) /\
  rr_n r = Z.of_nat (length (rr_out r)) /\ rr_reaped r = true /\
  (0 <= a_start_nsec a < 1000000000 -> 0 <= timeout_sec < 2000000 ->
   Forall (clock_ok (a_start_sec a * 1000000000 + a_start_nsec a)) (a_rounds a) ->
   Forall (fun w => 0 < w.2 /\ round_ns w.1 + w.2 * 1000000 <
             (a_start_sec a + timeout_sec) * 1000000000 + a_start_nsec a + 1000000)
     (rr_waits r)).
Proof.
  intros Hp Hf Hg Hok r. subst r. unfold ac_resolve_timeout. rewrite Hp, Hf, Hg. cbn [negb].
  pose proof (resolve_loop_exact (a_rounds a) (a_start_sec a + timeout_sec) (a_start_nsec a) max
    (resolver_child (Some res)) [] [] (usable res) (usable_storable res Hok)
    ltac:(unfold RECORD; simpl; lia) ltac:(simpl; lia) eq_refl) as (k & Hk & Hm & Hall).
  pose proof (resolve_loop_waits (a_rounds a) (a_start_sec a) (a_start_nsec a) timeout_sec max
    (resolver_child (Some res)) [] []) as Hw.
  destruct (resolve_loop _ _ _ _ _ _ _) as [out waits]. simpl in *. rewrite Nat.sub_0_r in Hall.
  split; [by exists k|]. split; [done|]. split; [done|]. auto.
Qed.

(** Two addresses, the second too long for the storage, arriving in three
    reads. *)
Definition demo_addr : resolved_addr :=
  {| ra_family := 2; ra_socktype := 1; ra_protocol := 6; ra_addrlen := 16;
     ra_addr := replicate 16 x01 |}.
Definition long_addr : resolved_addr :=
  {| ra_family := 1; ra_socktype := 1; ra_protocol := 0; ra_addrlen := 200;
     ra_addr := replicate 200 x02 |}.

Definition demo_resolver : resolve_answers := {|
  a_pipe := true; a_fork := true; a_getaddrinfo := Some [long_addr; demo_addr];
  a_start_sec := 100; a_start_nsec := 0;
  a_rounds := [ {| r_sec := 100; r_nsec := 5000000; r_poll := 1; r_ready := 50 |};
                {| r_sec := 101; r_nsec := 0; r_poll := 1; r_ready := 50 |};
                {| r_sec := 102; r_nsec := 0; r_poll := 1; r_ready := 4096 |} ] |}.

Lemma resolve_exact_and_bounded_witness :
  rr_out (ac_resolve_timeout demo_resolver 8 3) = [demo_addr] /\
  rr_reaped (ac_resolve_timeout demo_resolver 8 3) = true.
Proof.
  split; [by vm_compute|].
  apply (resolve_exact_and_bounded demo_resolver [long_addr; demo_addr] 8 3);
    try reflexivity.
  repeat constructor; vm_compute; congruence.
Defined.

(** ** Reference: reading a flat JSON object

    Members are strings or natural numbers. *)
Inductive jval := JStr (s : list byte) | JNum (z : Z).

Definition json_value (l : list byte) : option (jval * list byte) :=
  match l with
  | x22 :: l => '(s, l) ← json_string l; Some (JStr s, l)
  | _ => let '(ds, r) := digits l in
         match ds with [] => None | _ => Some (JNum (dec_val 0 ds), r) end
  end.

Fixpoint json_members (fuel : nat) (l : list byte) : option (list (list byte * jval) * list byte) :=
  match fuel, l with
  | S fuel, x22 :: l =>
      '(key, l) ← json_string l;
      match l with
      | x3a :: l =>
          '(v, l) ← json_value l;
          match l with
          | x2c :: l => '(ms, l) ← json_members fuel l; Some ((key, v) :: ms, l)
          | x7d :: l => Some ([(key, v)], l)
          | _ => None
          end
      | _ => None
      end
  | _, _ => None
  end.

Definition json_object (l : list byte) : option (list (list byte * jval) * list byte) :=
  match l with x7b :: l => json_members (length l) l | _ => None end.

(** ** The body of a report *)







Lemma ascii_bs s : forallb (fun c => byte_Z c <=? 127) (bs s) = true -> ascii (bs s).
Proof.
  rewrite List.forallb_forall. intros H. apply List.Forall_forall. intros c Hc%H.
  split; [apply byte_Z_range|lia].
Qed.



Lemma escape_no_nul s outsz : x00 ∉ escape s outsz.
Proof.
  unfold escape. destruct (escape_loop_split (cstr s) outsz []) as (n & -> & _).
  pose proof (cstr_no_nul s) as Hs. rewrite <- (take_drop n (cstr s)) in Hs.
  revert Hs. simpl. generalize (take n (cstr s)) as l. induction l as [|c l IH]; [set_solver|].
  intros Hs. rewrite escaped_cons. apply not_elem_of_app. split; [|set_solver].
  assert (c <> x00) by set_solver. clear -H. by destruct c; apply (bool_decide_unpack _).
Qed.

Lemma digits_no_nul ds : Forall (fun b => is_digit b = true) ds -> x00 ∉ ds.
Proof. induction 1 as [|b ds Hb _ IH]; [set_solver|]. intros [<-|]%elem_of_cons; done. Qed.

(** The body always fits its buffer: [snprintf] cuts nothing. *)
Lemma report_body_fits client_id event_type detail ts :
  x00 ∉ client_id -> (length client_id <= 127)%nat -> 0 <= ts < 2 ^ 63 ->
  let body := report_body client_id event_type detail ts in
  snprintf 1024 body = body /\ (length body <= 860)%nat.
Proof.
  intros Hnul Hid Hts body. destruct (fmt_d_numeral ts) as (Hd & _ & _ & Hl); [lia|].
  assert (length body <= 860)%nat as Hlen.
  { pose proof (escape_loop_length (cstr event_type) 64 [] ltac:(simpl; lia)).
    pose proof (escape_loop_length (cstr detail) 600 [] ltac:(simpl; lia)).
    specialize (Hl 19 ltac:(lia) ltac:(lia)).
    unfold body, report_body, quoted, escape. rewrite !length_app. cbn [length].
    rewrite !length_app. cbn [length].
    change (length (bs "client_id")) with 9%nat. change (length (bs "event_type")) with 10%nat.
    change (length (bs "detail")) with 6%nat. change (length (bs "ts")) with 2%nat.
    change (length (bs "{")) with 1%nat. change (length (bs "}")) with 1%nat.
    change (length (bs ":")) with 1%nat. change (length (bs ",")) with 1%nat. lia. }
  split; [|done]. unfold snprintf. rewrite no_nul_cstr; [apply take_ge; lia|].
  unfold body, report_body, quoted.
  pose proof (escape_no_nul event_type 64). pose proof (escape_no_nul detail 600).
  pose proof (digits_no_nul _ Hd).
  assert (forall l, forallb (fun c => negb (Byte.eqb c x00)) l = true -> x00 ∉ l) as Hlit.
  { intros l Hl' Hin%list_elem_of_In. rewrite List.forallb_forall in Hl'.
    by apply Hl' in Hin. }
  repeat first [done | apply Hlit; reflexivity
               | apply not_elem_of_app; split | apply not_elem_of_cons; split].
Qed.

(** ** The client id *)

Lemma strip_rev_suffix l : strip_rev l `suffix_of` l.
Proof.
  induction l as [|b l IH]; simpl; [done|]. destruct (_ || _); [|done].
  by apply suffix_cons_r.
Qed.

Lemma strip_eol_prefix l : strip_eol l `prefix_of` l.
Proof.
  unfold strip_eol. destruct (strip_rev_suffix (rev l)) as [k E].
  exists (rev k). apply (f_equal (@rev byte)) in E.
  by rewrite rev_involutive, rev_app_distr in E.
Qed.

(** What [gethostname] and [time] return. *)
Record world_ok (w : world) : Prop := {
  wo_hostname : forall h, w_hostname w = Some h -> (length h <= 127)%nat;
  wo_time : 0 <= w_time w < 2 ^ 63 }.

Lemma client_id_ok w :
  world_ok w ->
  let id := ac_report_client_id w 128 in x00 ∉ id /\ (length id <= 127)%nat /\ id <> [].
Proof.
  intros Hw id.
  assert (x00 ∉ fallback_id w /\ (length (fallback_id w) <= 127)%nat /\ fallback_id w <> []) as Hf.
  { unfold fallback_id.
    assert (x00 ∉ bs "unknown" /\ (length (bs "unknown") <= 127)%nat /\ bs "unknown" <> []) as Hunk
      by (split; [by apply (bool_decide_unpack _)|split; [vm_compute; lia|done]]).
    destruct (w_hostname w) as [h|] eqn:E; [|done].
    pose proof (cstr_no_nul h). pose proof (cstr_length h). apply (wo_hostname w Hw) in E.
    destruct (cstr h); [done|]. split; [done|]. split; [lia|done]. }
  subst id. unfold ac_report_client_id. destruct (w_machine_id w) as [content|]; [|done].
  pose proof (fgets_length 128 content) as Hl.
  destruct ((fgets 128 content).1) as [|b line]; [done|].
  pose proof (strip_eol_prefix (cstr (b :: line))) as Hp.
  pose proof (cstr_no_nul (b :: line)) as Hn. pose proof (cstr_length (b :: line)) as Hc.
  destruct (strip_eol _) as [|c s]; [done|]. split; [|split; [|done]].
  - intros Hin. apply Hn. destruct Hp as [k ->]. apply elem_of_app. by left.
  - apply prefix_length in Hp. lia.
Qed.

(** ** Traces of a report *)

Definition wire (calls : list ncall) : list byte :=
  calls ≫= fun c => match c with NWrite b => b | _ => [] end.
Definition opened (calls : list ncall) : nat :=
  length (List.filter (fun c => match c with NSocket => true | _ => false end) calls).
Definition closed (calls : list ncall) : nat :=
  length (List.filter (fun c => match c with NClose => true | _ => false end) calls).
Definition complains (calls : list ncall) : Prop :=
  exists t, NStderr t ∈ calls.

Lemma wire_app a b : wire (a ++ b) = wire a ++ wire b.
Proof. apply bind_app. Qed.
Lemma opened_app a b : opened (a ++ b) = (opened a + opened b)%nat.
Proof. unfold opened. by rewrite List.filter_app, length_app. Qed.
Lemma closed_app a b : closed (a ++ b) = (closed a + closed b)%nat.
Proof. unfold closed. by rewrite List.filter_app, length_app. Qed.

Create HintDb trace.
#[export] Hint Rewrite wire_app opened_app closed_app : trace.

Lemma connect_loop_trace w i addrs :
  let '(calls, ok) := connect_loop w i addrs in
  wire calls = [] /\ opened calls = (closed calls + if ok then 1 else 0)%nat /\
  NKilled ∉ calls.
Proof.
  revert i. induction addrs as [|a addrs IH]; intros i; simpl; [set_solver|].
  specialize (IH (S i)). destruct (w_socket w i); simpl; [|done].
  destruct (_ =? 0); [split; [done|split; [done|set_solver]]|].
  destruct (connect_loop w (S i) addrs) as [calls ok]. destruct IH as (H1 & H2 & H3).
  split; [done|]. split; [unfold opened, closed in *; simpl; lia|set_solver].
Qed.

Lemma send_loop_trace w fuel k sent rest :
  let '(calls, r) := send_loop w fuel k sent rest in
  wire calls `prefix_of` rest /\ opened calls = 0%nat /\ closed calls = 0%nat /\
  match r with
  | SentAll => wire calls = rest /\ NKilled ∉ calls
  | SendFailed => complains calls
  | ShortWrite _ => True
  | Killed => NKilled ∈ calls
  end.
Proof.
  revert k sent rest. induction fuel as [|fuel IH]; intros k sent rest; simpl.
  - destruct rest; simpl; repeat split; try apply prefix_nil; set_solver.
  - destruct rest as [|b rest]; [repeat split; set_solver|]. destruct (w_write w k) as [[|n]|e].
    + repeat split; apply prefix_nil.
    + specialize (IH (S k) (sent + S n)%nat (drop (S n) (b :: rest))).
      destruct (send_loop _ _ _ _ _) as [calls r]. destruct IH as (H1 & H2 & H3 & H4).
      change (wire (NWrite (take (S n) (b :: rest)) :: calls))
        with (take (S n) (b :: rest) ++ wire calls).
      split; [destruct H1 as [t H1]; exists t; by rewrite <- app_assoc, <- H1, take_drop|].
      split; [done|]. split; [done|]. destruct r; [|destruct H4 as [t Ht]; exists t| |]; try set_solver.
      destruct H4 as [H4 H5]. rewrite H4, take_drop. split; [done|]. set_solver.
    + destruct (e =? EPIPE); repeat split; try apply prefix_nil; [set_solver|].
      eexists. apply list_elem_of_singleton. done.
Qed.

Lemma send_loop_complete w fuel k sent rest :
  (forall i, exists n, w_write w i = Wrote (S n)) -> (length rest <= fuel)%nat ->
  (send_loop w fuel k sent rest).2 = SentAll.
Proof.
  intros Hw. revert k sent rest. induction fuel as [|fuel IH]; intros k sent rest Hl; simpl.
  - destruct rest; [done|simpl in Hl; lia].
  - destruct rest as [|b rest]; [done|]. destruct (Hw k) as [n ->].
    specialize (IH (S k) (sent + S n)%nat (drop (S n) (b :: rest))).
    destruct (send_loop _ _ _ _ _). apply IH. rewrite length_drop. simpl in *. lia.
Qed.

Lemma check_response_trace w :
  wire (check_response w) = [] /\ opened (check_response w) = 0%nat /\
  closed (check_response w) = 0%nat /\ NKilled ∉ check_response w.
Proof.
  unfold check_response. destruct (w_response w) as [[|b r]|]; [| |]; try case_match;
    repeat split; set_solver.
Qed.

(** The body as [ac_report] leaves it in its buffer. *)
Definition report_text (w : world) (event_type detail : cstring) : cstring :=
  snprintf 1024 (report_body (ac_report_client_id w 128) event_type detail (w_time w)).

(** Reporting is configured, for the given host, port and key. *)
Definition configured (w : world) (host port key : cstring) : Prop :=
  exists url, w_url w = Some url /\ url <> [] /\ w_key w = Some key /\ key <> [] /\
    split_last_colon (snprintf 256 url) = Some (host, port).

Lemma ac_report_configured w host port key event_type detail :
  configured w host port key ->
  ac_report w event_type detail =
  (let res := ac_resolve_timeout (w_resolve w host port) AC_RESOLVE_MAX AC_REPORT_TIMEOUT_SEC in
   if rr_n res <=? 0
   then [NStderr (bs "ac_report: could not resolve " ++ host ++ bs ":" ++ port)]
   else
     let '(calls, ok) := connect_loop w 0 (rr_out res) in
     calls ++
     if negb ok
     then [NStderr (bs "ac_report: could not connect to " ++ host ++ bs ":" ++ port)]
     else
       let req := report_request host key (report_text w event_type detail) in
       if (2048 <=? length req)%nat
       then [NStderr (bs "ac_report: request too large to send (AC_REPORT_KEY/AC_REPORT_URL too long?)");
             NClose]
       else
         let '(calls, r) := send_loop w (length req) 0 0 req in
         calls ++
         match r with
         | Killed => []
         | SendFailed => [NClose]
         | ShortWrite sent =>
             [NStderr (bs "ac_report: short write (" ++ fmt_d (Z.of_nat sent) ++ bs " of "
                       ++ fmt_d (Z.of_nat (length req)) ++ bs " bytes)"); NClose]
         | SentAll => check_response w ++ [NClose]
         end).
Proof.
  intros (url & Hu & Hun & Hk & Hkn & Hs). unfold ac_report. rewrite Hu, Hk.
  destruct url as [|u url]; [done|]. destruct key as [|k key]; [done|]. by rewrite Hs.
Qed.

Lemma complains_app_l a b : complains a -> complains (a ++ b).
Proof. intros [t Ht]. exists t. set_solver. Qed.
Lemma complains_app_r a b : complains b -> complains (a ++ b).
Proof. intros [t Ht]. exists t. set_solver. Qed.
Lemma complains_cons t l : complains (NStderr t :: l).
Proof. exists t. set_solver. Qed.
#[local] Hint Resolve complains_app_l complains_app_r complains_cons : trace.

(** A report is never partial in silence. Whatever the resolver and the
    network answer, the bytes written are a prefix of the one request; if they
    are not all of it, the daemon says so on standard error or the process
    has been ended by SIGPIPE; and every socket opened is closed again. *)
Theorem report_never_partial w host port key event_type detail :
  configured w host port key ->
  let calls := ac_report w event_type detail in
  let req := report_request host key (report_text w event_type detail) in
  wire calls `prefix_of` req /\
  (wire calls = req \/ complains calls \/ NKilled ∈ calls) /\
  (NKilled ∉ calls -> opened calls = closed calls).
Proof.
  intros Hc calls req. subst calls. rewrite (ac_report_configured w _ _ _ _ _ Hc). cbv zeta.
  fold req. destruct (_ <=? 0); [by eauto 10 using prefix_nil with trace|].
  pose proof (connect_loop_trace w 0
    (rr_out (ac_resolve_timeout (w_resolve w host port) AC_RESOLVE_MAX AC_REPORT_TIMEOUT_SEC))) as Hcl.
  destruct (connect_loop _ _ _) as [c1 ok]. destruct Hcl as (W1 & O1 & K1).
  destruct ok; simpl negb; cbn iota; autorewrite with trace; rewrite W1.
  2: { split; [apply prefix_nil|]. split; [eauto with trace|]. intros _. cbn. lia. }
  destruct (2048 <=? length req)%nat.
  { split; [apply prefix_nil|]. split; [eauto with trace|]. intros _. cbn. lia. }
  pose proof (send_loop_trace w (length req) 0 0 req) as Hs.
  destruct (send_loop _ _ _ _ _) as [c2 r]. destruct Hs as (P & O2 & C2 & R).
  destruct (check_response_trace w) as (W3 & O3 & C3 & _).
  autorewrite with trace. rewrite O2, C2.
  destruct r; autorewrite with trace; rewrite ?W3, ?O3, ?C3; cbn [app]; rewrite ?app_nil_r;
    (split; [done|]; split; [|intros HK; try (cbn; lia)]).
  1: left; apply R. 1-2: right; left; eauto 6 with trace. 1: set_solver.
  exfalso. set_solver.
Qed.

Lemma connect_loop_connects w i addrs j :
  (i <= j < i + length addrs)%nat -> w_socket w j = true ->
  cr_rc (ac_connect_timeout (w_connect w j) 0 AC_REPORT_TIMEOUT_SEC) = 0 ->
  (connect_loop w i addrs).2 = true.
Proof.
  intros Hj Hs Hc. revert i Hj. induction addrs as [|a addrs IH]; intros i Hj; simpl in *; [lia|].
  destruct (decide (i = j)) as [->|].
  - rewrite Hs, Hc. done.
  - specialize (IH (S i) ltac:(lia)). destruct (w_socket w i); [|done]. simpl.
    destruct (_ =? 0); [done|]. by destruct (connect_loop w (S i) addrs).
Qed.

Lemma split_last_colon_length l h p :
  split_last_colon l = Some (h, p) -> l = h ++ colon :: p.
Proof.
  revert h p. induction l as [|b l IH]; intros h p; simpl; [done|].
  destruct (split_last_colon l) as [[h' p']|].
  - intros [= <- <-]. simpl. f_equal. by apply IH.
  - destruct (byte_eqb_spec b colon) as [->|]; [|done]. by intros [= <- <-].
Qed.

Lemma request_length host key body :
  (length body <= 860)%nat ->
  (length (report_request host key body) <= length host + length key + length body + 160)%nat.
Proof.
  intros Hb. destruct (fmt_d_numeral (Z.of_nat (length body))) as (_ & _ & _ & Hl); [lia|].
  specialize (Hl 3 ltac:(lia) ltac:(change (10 ^ 3) with 1000; lia)).
  unfold report_request. rewrite !length_app.
  repeat match goal with |- context [length (bs ?s)] =>
    let n := eval vm_compute in (length (bs s)) in change (length (bs s)) with n end.
  change (length crlf) with 2%nat. lia.
Qed.

Lemma resolve_nonempty a max timeout_sec j :
  (j < length (rr_out (ac_resolve_timeout a max timeout_sec)))%nat ->
  (rr_n (ac_resolve_timeout a max timeout_sec) <=? 0) = false.
Proof.
  unfold ac_resolve_timeout. destruct (a_pipe a), (a_fork a); simpl; try lia.
  destruct (resolve_loop _ _ _ _ _ _ _); simpl. lia.
Qed.

(** C27: with a reachable server a report goes out whole. If reporting is
    configured with a key of up to 700 bytes, the name resolves, one of the
    addresses accepts the connection and every write makes progress (however
    short), then the bytes on the wire are exactly the request, once, whatever
    the detail text was. *)
Theorem report_delivered w host port key event_type detail j :
  configured w host port key -> world_ok w -> (length key <= 700)%nat ->
  let addrs := rr_out (ac_resolve_timeout (w_resolve w host port) AC_RESOLVE_MAX
                         AC_REPORT_TIMEOUT_SEC) in
  (j < length addrs)%nat -> w_socket w j = true ->
  cr_rc (ac_connect_timeout (w_connect w j) 0 AC_REPORT_TIMEOUT_SEC) = 0 ->
  (forall i, exists n, w_write w i = Wrote (S n)) ->
  wire (ac_report w event_type detail) =
    report_request host key (report_text w event_type detail) /\
  NKilled ∉ ac_report w event_type detail.
Proof.
  intros Hc Hw Hk addrs Hj Hs Hcon Hwr.
  rewrite (ac_report_configured w _ _ _ _ _ Hc). cbv zeta.
  rewrite (resolve_nonempty (w_resolve w host port) _ _ j Hj). fold addrs.
  pose proof (connect_loop_connects w 0 addrs j ltac:(lia) Hs Hcon) as Hok.
  pose proof (connect_loop_trace w 0 addrs) as Hcl.
  destruct (connect_loop w 0 addrs) as [c1 ok]. simpl in Hok. subst ok.
  destruct Hcl as (W1 & _ & K1). simpl negb. cbv iota.
  set (req := report_request host key _).
  assert (length req < 2048)%nat as Hreq.
  { destruct (client_id_ok w Hw) as (N1 & N2 & _).
    destruct (report_body_fits _ event_type detail _ N1 N2 (wo_time w Hw)) as [B1 B2].
    destruct Hc as (url & _ & _ & _ & _ & Hsp). apply split_last_colon_length in Hsp.
    assert (length host < 256)%nat.
    { apply (f_equal length) in Hsp. rewrite length_app in Hsp. unfold snprintf in Hsp.
      rewrite length_take in Hsp. cbn [length] in Hsp. lia. }
    unfold req, report_text. rewrite B1. pose proof (request_length host key _ B2). lia. }
  rewrite (proj2 (Nat.leb_gt _ _) Hreq).
  pose proof (send_loop_complete w (length req) 0 0 req Hwr (le_n _)) as Hdone.
  pose proof (send_loop_trace w (length req) 0 0 req) as Hst.
  destruct (send_loop _ _ _ _ _) as [c2 r]. simpl in Hdone. subst r.
  destruct Hst as (_ & _ & _ & W2 & K2). destruct (check_response_trace w) as (W3 & _ & _ & K3).
  autorewrite with trace. rewrite W1, W2, W3. cbn. rewrite app_nil_r. split; [done|].
  rewrite !not_elem_of_app. repeat split; try done. apply not_elem_of_cons; split; [done|apply not_elem_of_nil].
Qed.


(** A server that reads one byte at a time. *)
Definition slow_world : world := {|
  w_url := Some (bs "srv:9000"); w_key := Some (bs "secret");
  w_machine_id := Some (bs "0af3" ++ [x0a]); w_hostname := Some (bs "pc"); w_time := 1700000000;
  w_resolve := fun _ _ => demo_resolver; w_socket := fun _ => true;
  w_connect := fun _ => {| a_getfl := 2; a_setfl := true; a_connect := EINPROGRESS; a_poll := 1;
                           a_so_error := Some 0 |};
  w_write := fun _ => Wrote 1; w_response := Some (bs "HTTP/1.1 200 OK");
  w_strerror := fun _ => bs "?" |}.

Lemma slow_world_configured : configured slow_world (bs "srv") (bs "9000") (bs "secret").
Proof. eexists. repeat split; done. Qed.

Lemma slow_world_ok : world_ok slow_world.
Proof. split; [|by vm_compute]. intros h [= <-]. vm_compute. lia. Qed.

Lemma report_never_partial_witness :
  wire (ac_report slow_world (bs "ALERT") evil_comm) `prefix_of`
    report_request (bs "srv") (bs "secret") (report_text slow_world (bs "ALERT") evil_comm) /\
  wire (ac_report slow_world (bs "ALERT") evil_comm) <> [].
Proof.
  split; [|by vm_compute].
  apply (report_never_partial slow_world _ _ _ (bs "ALERT") evil_comm slow_world_configured).
Defined.

Lemma report_delivered_witness :
  wire (ac_report slow_world (bs "ALERT") evil_comm) =
  report_request (bs "srv") (bs "secret") (report_text slow_world (bs "ALERT") evil_comm).
Proof.
  apply (report_delivered slow_world _ (bs "9000") _ _ _ 0);
    [apply slow_world_configured|apply slow_world_ok|vm_compute; lia|vm_compute; lia|done|done|].
  intros i. by exists 0%nat.
Defined.


(** ** Where the report path falls short *)

(** The client id goes into the body without escaping. A machine-id file
    (or hostname) with a quote in it changes the structure of the report: here
    the reader gets a second [event_type] member that the daemon never sent. *)
Lemma client_id_not_escaped :
  let w := {| w_url := w_url slow_world; w_key := w_key slow_world;
              w_machine_id := Some (bs "x" ++ [quote] ++ bs "," ++ quoted (bs "event_type")
                                    ++ bs ":" ++ [quote] ++ bs "INFO");
              w_hostname := None; w_time := 1; w_resolve := w_resolve slow_world;
              w_socket := w_socket slow_world; w_connect := w_connect slow_world;
              w_write := w_write slow_world; w_response := None; w_strerror := fun _ => [] |} in
  world_ok w /\
  json_object (report_text w (bs "ALERT") (bs "ptrace")) =
    Some ([(bs "client_id", JStr (bs "x")); (bs "event_type", JStr (bs "INFO"));
           (bs "event_type", JStr (bs "ALERT")); (bs "detail", JStr (bs "ptrace"));
           (bs "ts", JNum 1)], []).
Proof. split; [split; [done|by vm_compute]|by vm_compute]. Qed.

Lemma send_loop_epipe w rest :
  rest <> [] -> w_write w 0 = WriteErr EPIPE ->
  send_loop w (length rest) 0 0 rest = ([NKilled], Killed).
Proof. intros H Hw. destruct rest as [|b rest]; [done|]. simpl. by rewrite Hw. Qed.

(** A server that drops the connection ends the daemon. SIGPIPE is left at
    its default action, so if the first write meets a closed connection, the
    trace ends with the death of the process instead of the diagnostic of the
    [w < 0] branch, and nothing of the report was delivered. *)
Theorem report_sigpipe_kills w host port key event_type detail j :
  configured w host port key ->
  let addrs := rr_out (ac_resolve_timeout (w_resolve w host port) AC_RESOLVE_MAX
                         AC_REPORT_TIMEOUT_SEC) in
  (j < length addrs)%nat -> w_socket w j = true ->
  cr_rc (ac_connect_timeout (w_connect w j) 0 AC_REPORT_TIMEOUT_SEC) = 0 ->
  (length (report_request host key (report_text w event_type detail)) < 2048)%nat ->
  w_write w 0 = WriteErr EPIPE ->
  last (ac_report w event_type detail) = Some NKilled /\ wire (ac_report w event_type detail) = [].
Proof.
  intros Hc addrs Hj Hs Hcon Hreq Hwr.
  rewrite (ac_report_configured w _ _ _ _ _ Hc). cbv zeta.
  rewrite (resolve_nonempty (w_resolve w host port) _ _ j Hj). fold addrs.
  pose proof (connect_loop_connects w 0 addrs j ltac:(lia) Hs Hcon) as Hok.
  pose proof (connect_loop_trace w 0 addrs) as Hcl.
  destruct (connect_loop w 0 addrs) as [c1 ok]. simpl in Hok. subst ok.
  destruct Hcl as (W1 & _). simpl negb. cbv iota.
  rewrite (proj2 (Nat.leb_gt _ _) Hreq).
  set (req := report_request host key _) in *.
  assert (send_loop w (length req) 0 0 req = ([NKilled], Killed)) as ->.
  { apply send_loop_epipe; [|done]. unfold req, report_request. by intros [? _]%app_eq_nil. }
  autorewrite with trace. rewrite W1. split; [by rewrite last_app|done].
Qed.

Lemma report_sigpipe_kills_witness :
  let w := {| w_url := w_url slow_world; w_key := w_key slow_world;
              w_machine_id := w_machine_id slow_world; w_hostname := w_hostname slow_world;
              w_time := w_time slow_world; w_resolve := w_resolve slow_world;
              w_socket := w_socket slow_world; w_connect := w_connect slow_world;
              w_write := fun _ => WriteErr EPIPE; w_response := None;
              w_strerror := w_strerror slow_world |} in
  last (ac_report w (bs "ALERT") evil_comm) = Some NKilled.
Proof.
  intros w. apply (report_sigpipe_kills w (bs "srv") (bs "9000") (bs "secret") _ _ 0);
    [eexists; repeat split; done|vm_compute; lia|done|done|vm_compute; lia|done].
Defined.
