(* ===== verification/Modules.v ===== *)
(** * Hidden modules and hooked system calls (src/anticheat_daemon.c)

    The cross-check of the kernel's module list against [/proc/modules], and
    the two periodic checks that raise critical alerts. *)

From Stdlib Require Import ZArith Lia Strings.Byte.
From stdpp Require Import base numbers list strings sets.
From S2P Require Import Prelude Libc Abi Snapshot Ioctl Device Log.

Definition AC_MAX_PROC_MODS : nat := Z.to_nat 4096.
Definition LINE : nat := 256.

(** The body of the loop of [collect_proc_modules]: the rest of the file and the
    names so far. *)
Definition collect_body (cap : nat) (s : list byte * list cstring) : (list byte * list cstring) + list cstring :=
  let '(l, names) := s in
  match fgets LINE l with
  | ([], _) => inr names
  | (line, rest) =>
      if (length names <? cap)%nat then
        match sscanf_s 63 line with
        | Some name => inl (rest, names ++ [name])
        | None => inl (rest, names)
        end
      else inr names
  end.

(** [collect_proc_modules]: the names in the file, [None] being a failed
    [fopen]. Every [fgets] that returns a line consumes a byte. *)
Definition collect_proc_modules (cap : nat) (file : option (list byte)) : list cstring :=
  match file with
  | None => []
  | Some l => default [] (run_loop (collect_body cap) (S (length l)) (l, []))
  end.

(** [%#llx]. *)
Definition fmt_alt_x (z : Z) : cstring := if z =? 0 then bs "0" else bs "0x" ++ fmt_x z.

Section checks.
Context {D : Type} `{Device D}.

(** [strcmp(proc_names[j], g.mod.name) == 0] for some [j]. *)
Definition visible (names : list cstring) (m : ac_mod_info) : bool :=
  existsb (fun n => bool_decide (cstr n = cstr (mi_name m))) names.

(** The line printed for a module. *)
Definition mod_line (names : list cstring) (m : ac_mod_info) : cstring :=
  nl (bs "  " ++ pad_right 20 (cstr (mi_name m)) ++ bs " size=" ++ pad_right 10 (fmt_d (mi_size m))
      ++ bs " state=" ++ fmt_d (mi_state m) ++ bs " "
      ++ (if visible names m then [] else bs "[HIDDEN FROM /proc/modules!]")).

(** The loop over the snapshot: [n] modules left from index [i] on; the count
    and what is printed. *)
Fixpoint crosscheck_loop (verbose : bool) (n : nat) (i : Z) (names : list cstring) (hidden : Z) (d : D)
    : Z * list cstring * D :=
  match n with
  | O => (hidden, [], d)
  | S n =>
      match dev_mods_get i d with
      | (None, d) => (hidden, [], d)
      | (Some m, d) =>
          let '(hidden, out, d) :=
            crosscheck_loop verbose n (u32 (i + 1)) names
              (if visible names m then hidden else u32 (hidden + 1)) d in
          (hidden, (if verbose then [mod_line names m] else []) ++ out, d)
      end
  end.

(** [crosscheck_modules]; [file] is the content of [/proc/modules] when it is
    read. *)
Definition crosscheck_modules (verbose : bool) (file : option (list byte)) (d : D)
    : Z * list cstring * D :=
  match dev_mods_begin d with
  | (None, d) => (-1, [], d)
  | (Some count, d) =>
      let names := collect_proc_modules AC_MAX_PROC_MODS file in
      let '(hidden, out, d) := crosscheck_loop verbose (Z.to_nat count) 0 names 0 d in
      (hidden,
       (if verbose then nl (fmt_d count ++ bs " modules in kernel list:")
                        :: out ++ [nl (bs "hidden modules: " ++ fmt_d hidden)] else out),
       dev_mods_end d)
  end.

(** [cmd_modules]: its exit status and what it prints. *)
Definition cmd_modules (file : option (list byte)) (d : D) : Z * list cstring * D :=
  let '(hidden, out, d) := crosscheck_modules true file d in
  (if hidden <? 0 then 1 else if hidden =? 0 then 0 else 2, out, d).

(** [check_modules_periodic]. *)
Definition check_modules_periodic (verbose : bool) (file : option (list byte)) (d : D)
    : Z * D * list effect :=
  let '(hidden, _, d) := crosscheck_modules false file d in
  (hidden, d,
   if 0 <? hidden
   then logmsg verbose LOG_CRIT (fmt_d hidden ++ bs " module(s) hidden from /proc/modules")
   else []).

(** [check_syscalls_periodic]. *)
Definition check_syscalls_periodic (verbose : bool) (d : D) : Z * D * list effect :=
  match dev_check_syscalls d with
  | (None, d) => (-1, d, [])
  | (Some c, d) =>
      (sc_hooked c, d,
       if negb (sc_hooked c =? 0)
       then logmsg verbose LOG_CRIT
              (bs "SYSCALL TABLE COMPROMISED: " ++ fmt_d (sc_hooked c)
               ++ bs " hooked entries (table @ " ++ fmt_alt_x (sc_table_addr c) ++ bs ")")
       else [])
  end.
End checks.

(** ** What [/proc/modules] holds *)

(** A line of the file: a name, a blank, the other fields, a newline. *)
Record proc_line := ProcLine { pm_name : cstring; pm_fields : list byte }.

Definition line_bytes (p : proc_line) : list byte := pm_name p ++ x20 :: pm_fields p.
Definition file_bytes (ps : list proc_line) : list byte := ps ≫= fun p => line_bytes p ++ [x0a].

(** Names of the kernel's size without blanks, and lines that fit the
    buffer. *)
Definition name_ok (n : cstring) : Prop :=
  n <> [] /\ (length n <= 63)%nat /\ x00 ∉ n /\ Forall (fun b => isspace b = false) n.

Definition line_ok (p : proc_line) : Prop :=
  name_ok (pm_name p) /\ Forall (fun b => byte_Z b <> 10) (pm_fields p) /\
  (length (line_bytes p) + 2 <= LINE)%nat.

Lemma not_space_not_newline b : isspace b = false -> byte_Z b <> 10.
Proof. intros H E. unfold isspace in H. rewrite E in H. done. Qed.

Lemma cstr_app_cons l b l' : x00 ∉ l -> b <> x00 -> cstr (l ++ b :: l') = l ++ b :: cstr l'.
Proof.
  intros Hl Hb. induction l as [|c l IH]; simpl.
  - destruct (byte_eqb_spec b x00); done.
  - destruct (byte_eqb_spec c x00); [set_solver|]. rewrite IH; [done|set_solver].
Qed.

Lemma sscanf_line p tl : line_ok p -> sscanf_s 63 (line_bytes p ++ tl) = Some (pm_name p).
Proof.
  intros ((Hne & Hlen & Hnul & Hsp) & _). unfold sscanf_s, line_bytes.
  rewrite <- app_assoc. cbn [app]. rewrite cstr_app_cons by done.
  assert (forall r, skip_ws (pm_name p ++ r) = pm_name p ++ r) as ->.
  { intros r. destruct (pm_name p) as [|b n]; [done|]. simpl. apply Forall_cons in Hsp as [-> _]. done. }
  rewrite word_blank, take_ge by done. by destruct (pm_name p).
Qed.

Lemma collect_loop_file ps fuel cap names :
  Forall line_ok ps -> (length names + length ps <= cap)%nat ->
  (length (file_bytes ps) < fuel)%nat ->
  run_loop (collect_body cap) fuel (file_bytes ps, names) = Some (names ++ (pm_name <$> ps)).
Proof.
  intros Hps. revert fuel names. induction Hps as [|p ps Hp Hps IH]; intros fuel names Hcap Hf.
  - rewrite app_nil_r. by destruct fuel; [cbn in Hf; lia|].
  - destruct fuel as [|fuel]; [lia|].
    change (file_bytes (p :: ps)) with ((line_bytes p ++ [x0a]) ++ file_bytes ps) in *.
    rewrite length_app, length_app in Hf. cbn [run_loop collect_body length] in *.
    rewrite <- app_assoc. cbn [app].
    destruct Hp as (Hn & Hfl & Hlen).
    rewrite fgets_line; [| |done].
    2: { apply Forall_app. split.
         - eapply Forall_impl; [apply Hn|]. apply not_space_not_newline.
         - constructor; done. }
    assert (exists b l, line_bytes p ++ [x0a] = b :: l) as (b & l & E).
    { unfold line_bytes. destruct (pm_name p); simpl; eauto. }
    pose proof (sscanf_line p [x0a] (conj Hn (conj Hfl Hlen))) as Hw. rewrite E in *.
    rewrite (proj2 (Nat.ltb_lt _ _)) by lia. rewrite Hw.
    rewrite IH by (rewrite ?length_app; simpl; lia). by rewrite <- app_assoc.
Qed.

Lemma visible_names ps m :
  Forall line_ok ps ->
  negb (visible (pm_name <$> ps) m) = bool_decide (cstr (mi_name m) ∉ pm_name <$> ps).
Proof.
  intros Hps. unfold visible. induction Hps as [|p ps (Hn & _) _ IH].
  - by rewrite bool_decide_true by apply not_elem_of_nil.
  - cbn [fmap list_fmap existsb]. rewrite negb_orb, IH.
    rewrite (no_nul_cstr (pm_name p)) by apply Hn. rewrite <- bool_decide_not, <- bool_decide_and.
    apply bool_decide_ext. rewrite not_elem_of_cons. naive_solver.
Qed.

(** Enough names are collected for every line of a readable file. *)
Lemma collect_names ps :
  Forall line_ok ps -> (length ps <= AC_MAX_PROC_MODS)%nat ->
  collect_proc_modules AC_MAX_PROC_MODS (Some (file_bytes ps)) = pm_name <$> ps.
Proof.
  intros Hps Hl. unfold collect_proc_modules.
  rewrite collect_loop_file; [done|done|simpl; lia|lia].
Qed.

(** ** The cross-check is exact *)

Section laws.
Context {D : Type} `{DeviceLaws D}.

Definition hidden_count (names : list cstring) (mods : list ac_mod_info) : Z :=
  Z.of_nat (length (List.filter (fun m => negb (visible names m)) mods)).

Lemma hidden_count_bound names mods : 0 <= hidden_count names mods <= Z.of_nat (length mods).
Proof.
  unfold hidden_count. split; [lia|]. apply Nat2Z.inj_le, List.filter_length_le.
Qed.

Lemma crosscheck_loop_counts verbose n i names hidden d mods :
  dev_ok d -> (length (dev_mods d) <= AC_MAX_MODS)%nat -> 0 <= hidden ->
  hidden + Z.of_nat (length mods) <= Z.of_nat AC_MAX_MODS ->
  mods = drop (Z.to_nat i) (dev_mods d) -> 0 <= i -> n = length mods ->
  let '(h, out, d') := crosscheck_loop verbose n i names hidden d in
  h = hidden + hidden_count names mods /\ out = (if verbose then mod_line names <$> mods else []) /\
  dev_ok d'.
Proof.
  revert i hidden d mods. induction n as [|n IH]; intros i hidden d mods Hd Hb Hh Hs E Hi Hn; simpl.
  - destruct mods; [|done]. unfold hidden_count. simpl. split; [lia|]. by destruct verbose.
  - destruct mods as [|m mods]; [done|]. simpl in Hn, Hs.
    assert (dev_mods d !! Z.to_nat i = Some m) as Hm.
    { rewrite <- (Nat.add_0_r (Z.to_nat i)), <- lookup_drop, <- E. done. }
    pose proof (lookup_lt_Some _ _ _ Hm) as Hlt.
    assert (i < 2 ^ 32) by (unfold AC_MAX_MODS in *; lia).
    pose proof (mods_get_law i d Hd ltac:(lia)) as Hg.
    destruct (dev_mods_get i d) as [r d']. destruct Hg as (Hd' & Hm' & ->). rewrite Hm.
    assert (u32 (i + 1) = i + 1) as -> by (unfold u32; apply Z.mod_small; unfold AC_MAX_MODS in *; lia).
    assert ((if visible names m then hidden else u32 (hidden + 1)) =
            hidden + (if visible names m then 0 else 1)) as ->.
    { destruct (visible names m); [lia|]. unfold u32. rewrite Z.mod_small; [done|].
      unfold AC_MAX_MODS in *. lia. }
    specialize (IH (i + 1) (hidden + (if visible names m then 0 else 1)) d' mods).
    destruct (crosscheck_loop _ _ _ _ _ _) as [[h out] d''].
    destruct IH as (-> & -> & Hok); try done; try (destruct (visible names m); lia).
    + by rewrite Hm'.
    + rewrite Hm'. replace (Z.to_nat (i + 1)) with (S (Z.to_nat i)) by lia.
      pose proof (drop_S _ _ _ Hm) as Hdr. rewrite <- E in Hdr. by injection Hdr.
    + split; [|by destruct verbose]. unfold hidden_count. simpl. destruct (visible names m); simpl; lia.
Qed.

(** What [crosscheck_modules] returns and prints, for any names read. *)
Definition modules_listing (names : list cstring) (mods : list ac_mod_info) : list cstring :=
  nl (fmt_d (Z.of_nat (length mods)) ++ bs " modules in kernel list:")
  :: (mod_line names <$> mods) ++ [nl (bs "hidden modules: " ++ fmt_d (hidden_count names mods))].

Lemma crosscheck_counts verbose file d n d1 :
  dev_ok d -> dev_mods_begin d = (Some n, d1) ->
  let names := collect_proc_modules AC_MAX_PROC_MODS file in
  let '(h, out, d') := crosscheck_modules verbose file d in
  h = hidden_count names (dev_mods d1) /\
  out = (if verbose then modules_listing names (dev_mods d1) else []) /\ dev_ok d'.
Proof.
  intros Hd E. pose proof (mods_begin_law d Hd) as Hl. unfold crosscheck_modules. rewrite E in *.
  destruct Hl as [Hd1 Hn]. destruct (Hn n eq_refl) as [-> Hb]. rewrite Nat2Z.id.
  pose proof (crosscheck_loop_counts verbose (length (dev_mods d1)) 0
    (collect_proc_modules AC_MAX_PROC_MODS file) 0 d1 (dev_mods d1) Hd1 Hb (Z.le_refl 0)
    (proj1 (Nat2Z.inj_le _ _) Hb) eq_refl (Z.le_refl 0) eq_refl) as Hc.
  destruct (crosscheck_loop _ _ _ _ _ _) as [[h out] d'']. destruct Hc as (-> & -> & Hok).
  split; [done|]. split; [by destruct verbose|by apply mods_end_law].
Qed.

(** Whether or not the list can be read. *)
Lemma crosscheck_ok verbose file d : dev_ok d -> dev_ok (crosscheck_modules verbose file d).2.
Proof.
  intros Hd. destruct (dev_mods_begin d) as [[n|] d1] eqn:E.
  - pose proof (crosscheck_counts verbose file d n d1 Hd E) as Hc.
    destruct (crosscheck_modules verbose file d) as [[h out] d']. by destruct Hc as (_ & _ & ?).
  - unfold crosscheck_modules. rewrite E. pose proof (mods_begin_law d Hd) as Hm. rewrite E in Hm.
    by destruct Hm.
Qed.

(** A name that is on no line. *)
Definition unlisted (ps : list proc_line) (name : cstring) : bool := bool_decide (cstr name ∉ pm_name <$> ps).

(** The same for a file of well-formed lines: the modules on no line. *)
Lemma crosscheck_absent verbose ps d n d1 :
  dev_ok d -> dev_mods_begin d = (Some n, d1) ->
  Forall line_ok ps -> (length ps <= AC_MAX_PROC_MODS)%nat ->
  let '(h, out, d') := crosscheck_modules verbose (Some (file_bytes ps)) d in
  h = Z.of_nat (length (List.filter (fun m => unlisted ps (mi_name m)) (dev_mods d1))) /\
  out = (if verbose then modules_listing (pm_name <$> ps) (dev_mods d1) else []) /\ dev_ok d'.
Proof.
  intros Hd E Hps Hl. pose proof (crosscheck_counts verbose (Some (file_bytes ps)) d n d1 Hd E) as Hc.
  cbn zeta in Hc. rewrite collect_names in Hc by done.
  destruct (crosscheck_modules _ _ d) as [[h out] d']. destruct Hc as (-> & -> & Hok). split; [|done].
  unfold hidden_count. do 2 f_equal. apply List.filter_ext. intros m. by apply visible_names.
Qed.

(** The listing marks the modules on no line. *)
Lemma listing_marks ps mods :
  Forall line_ok ps ->
  modules_listing (pm_name <$> ps) mods =
  nl (fmt_d (Z.of_nat (length mods)) ++ bs " modules in kernel list:")
  :: ((fun m => nl (bs "  " ++ pad_right 20 (cstr (mi_name m)) ++ bs " size="
                    ++ pad_right 10 (fmt_d (mi_size m)) ++ bs " state=" ++ fmt_d (mi_state m) ++ bs " "
                    ++ (if unlisted ps (mi_name m) then bs "[HIDDEN FROM /proc/modules!]" else [])))
      <$> mods)
  ++ [nl (bs "hidden modules: "
          ++ fmt_d (Z.of_nat (length (List.filter (fun m => unlisted ps (mi_name m)) mods))))].
Proof.
  intros Hps. unfold modules_listing, hidden_count. do 2 f_equal.
  - apply list_fmap_ext. intros _ m _. unfold mod_line, unlisted. rewrite <- visible_names by done.
    by destruct (visible _ m).
  - do 6 f_equal. apply List.filter_ext. intros m. by apply visible_names.
Qed.

(** C24: the hidden-module check is exact. When the kernel list can be read and
    [/proc/modules] holds at most 4096 lines, all well formed and fitting the
    line buffer, [crosscheck_modules] returns the
    number of modules of the kernel's snapshot whose name is on no line; the
    periodic check raises one critical report exactly when that number is
    positive and prints nothing, and the [modules] command exits with 2 exactly
    then and prints one line for each module, marked exactly when it is
    hidden, between the two counts. *)
Theorem hidden_modules_exact verbose ps d n d1 :
  dev_ok d -> dev_mods_begin d = (Some n, d1) ->
  Forall line_ok ps -> (length ps <= AC_MAX_PROC_MODS)%nat ->
  let file := Some (file_bytes ps) in
  let absent := List.filter (fun m => unlisted ps (mi_name m)) (dev_mods d1) in
  (crosscheck_modules false file d).1 = (Z.of_nat (length absent), []) /\
  (cmd_modules file d).1 =
    (if bool_decide (absent = []) then 0 else 2,
     nl (fmt_d (Z.of_nat (length (dev_mods d1))) ++ bs " modules in kernel list:")
     :: ((fun m => nl (bs "  " ++ pad_right 20 (cstr (mi_name m)) ++ bs " size="
                       ++ pad_right 10 (fmt_d (mi_size m)) ++ bs " state=" ++ fmt_d (mi_state m) ++ bs " "
                       ++ (if unlisted ps (mi_name m) then bs "[HIDDEN FROM /proc/modules!]" else [])))
         <$> dev_mods d1)
     ++ [nl (bs "hidden modules: " ++ fmt_d (Z.of_nat (length absent)))]) /\
  reports (check_modules_periodic verbose file d).2 =
    (if bool_decide (absent = []) then []
     else [Report (bs "CRITICAL")
             (snprintf LOG_BUF (fmt_d (Z.of_nat (length absent))
                                ++ bs " module(s) hidden from /proc/modules"))]) /\
  dev_ok (check_modules_periodic verbose file d).1.2.
Proof.
  intros Hd E Hps Hl file absent.
  pose proof (crosscheck_absent false ps d n d1 Hd E Hps Hl) as Hc.
  pose proof (crosscheck_absent true ps d n d1 Hd E Hps Hl) as Hv.
  fold file absent in Hc, Hv. unfold cmd_modules, check_modules_periodic.
  destruct (crosscheck_modules false file d) as [[h out] d']. destruct Hc as (-> & -> & Hok).
  destruct (crosscheck_modules true file d) as [[h out] d'']. destruct Hv as (-> & -> & _).
  cbn [fst snd]. split; [done|]. split.
  - f_equal; [case_bool_decide as Ha; [by rewrite Ha|]|by apply listing_marks].
    rewrite (proj2 (Z.ltb_ge _ 0)), (proj2 (Z.eqb_neq _ 0)); [done|destruct absent; [done|cbn; lia]|lia].
  - split; [|done]. case_bool_decide as Ha; [by rewrite Ha|].
    rewrite (proj2 (Z.ltb_lt _ _)) by (destruct absent; [done|cbn; lia]). by rewrite logmsg_reports by done.
Qed.
End laws.

(** The example kernel with its one live module, and a file that lists
    another. *)
Definition idle_device : mdev := MDev (fun _ => mapped_kernel) 0 None idle_module.
Definition other_line : proc_line := ProcLine (bs "ext4") (bs "40960 1 - Live 0x0").

Lemma idle_device_ok : dev_ok idle_device.
Proof. split; [done..|apply idle_module_inv|exact no_fd_ok]. Qed.

Lemma other_line_ok : line_ok other_line.
Proof.
  split; [|split; [repeat constructor; done|vm_compute; lia]].
  split; [done|]. split; [vm_compute; lia|]. split; [by apply (bool_decide_unpack _)|].
  repeat constructor.
Qed.

Lemma hidden_modules_exact_witness :
  (crosscheck_modules false (Some (file_bytes [other_line])) idle_device).1 = (1, []).
Proof.
  destruct (dev_mods_begin idle_device) as [[n|] d1] eqn:E; [|by vm_compute in E].
  destruct (hidden_modules_exact false [other_line] idle_device n d1) as [-> _];
    [apply idle_device_ok|done|constructor; [apply other_line_ok|constructor]|vm_compute; lia|].
  vm_compute in E. injection E as <- <-. reflexivity.
Defined.

(** An unreadable [/proc/modules] is taken for an empty one: when [fopen]
    fails, every module the kernel lists is counted as hidden, and with any
    module loaded the check sends a critical report. *)
Theorem unreadable_proc_modules_alarms {D} `{DeviceLaws D} verbose d n d1 :
  dev_ok d -> dev_mods_begin d = (Some n, d1) -> 0 < n ->
  (crosscheck_modules false None d).1.1 = n /\
  reports (check_modules_periodic verbose None d).2 =
    [Report (bs "CRITICAL") (snprintf LOG_BUF (fmt_d n ++ bs " module(s) hidden from /proc/modules"))].
Proof.
  intros Hd E Hn. pose proof (crosscheck_counts false None d n d1 Hd E) as Hc.
  pose proof (mods_begin_law d Hd) as Hl. rewrite E in Hl. destruct (proj2 Hl n eq_refl) as [Hlen _].
  unfold check_modules_periodic. destruct (crosscheck_modules false None d) as [[h out] d'].
  destruct Hc as [-> _].
  assert (hidden_count (collect_proc_modules AC_MAX_PROC_MODS None) (dev_mods d1) = n) as ->.
  { rewrite Hlen. unfold hidden_count. f_equal. clear. induction (dev_mods d1); simpl; auto. }
  split; [done|]. rewrite (proj2 (Z.ltb_lt _ _) Hn). cbn [snd]. by rewrite logmsg_reports by done.
Qed.

Lemma unreadable_proc_modules_alarms_witness :
  (crosscheck_modules false None idle_device).1.1 = 1.
Proof.
  destruct (dev_mods_begin idle_device) as [[n|] d1] eqn:E; [|by vm_compute in E].
  destruct (unreadable_proc_modules_alarms false idle_device n d1) as [-> _];
    [apply idle_device_ok|done|vm_compute in E; injection E as <- <-; lia|].
  vm_compute in E. injection E as <- <-. reflexivity.
Defined.
