(* ===== verification/Monitor.v ===== *)
(** * The monitoring loop (src/anticheat_daemon.c, [cmd_start])

    Draining the module's events with their severities, and the schedule of
    the eight periodic checks with the intervals the operator can override. *)

From Stdlib Require Import ZArith Lia Strings.Byte Sorting.Sorted.
From stdpp Require Import base numbers list strings sets.
From S2P Require Import Prelude Libc Abi Ring Registry Probes Snapshot Ioctl Device Log.

Definition INT_MAX : Z := 2 ^ 31 - 1.

(** ** Intervals *)

(** [ac_env_interval], for the value [getenv] returns. *)
Definition ac_env_interval (e : option cstring) (default_secs : Z) : Z :=
  match e with
  | None | Some [] => default_secs
  | Some e =>
      match strtol10 e with
      | (None, _) => default_secs
      | (Some v, rest) =>
          if negb (bool_decide (rest = [])) || bool_decide (rest = e) || (v <=? 0) || (INT_MAX <? v)
          then default_secs else v
      end
  end.

(** The eight checks of the loop, in its order. *)
Inductive check :=
  | ChkSyscalls | ChkModules | ChkScan | ChkBaseline | ChkRender | ChkPreload | ChkVkLayer
  | ChkImplicit.

#[global] Instance check_eq_dec : EqDecision check.
Proof. solve_decision. Defined.

Definition all_checks : list check :=
  [ChkSyscalls; ChkModules; ChkScan; ChkBaseline; ChkRender; ChkPreload; ChkVkLayer; ChkImplicit].

(** The overridable intervals, for an environment. *)
Section intervals.
Variable env : cstring -> option cstring.

Definition ac_baseline_check_interval : Z := ac_env_interval (env (bs "AC_BASELINE_CHECK_INTERVAL")) 60.
Definition ac_scan_check_interval : Z := ac_env_interval (env (bs "AC_SCAN_CHECK_INTERVAL")) 30.
Definition ac_render_hook_check_interval : Z :=
  ac_env_interval (env (bs "AC_RENDER_HOOK_CHECK_INTERVAL")) 30.
Definition ac_ld_preload_check_interval : Z :=
  ac_env_interval (env (bs "AC_LD_PRELOAD_CHECK_INTERVAL")) 10.
Definition ac_vk_layer_check_interval : Z :=
  ac_env_interval (env (bs "AC_VK_LAYER_CHECK_INTERVAL")) 10.
Definition ac_implicit_layer_check_interval : Z :=
  ac_env_interval (env (bs "AC_IMPLICIT_LAYER_CHECK_INTERVAL")) 30.

Definition check_interval (c : check) : Z :=
  match c with
  | ChkSyscalls => 5
  | ChkModules => 10
  | ChkScan => ac_scan_check_interval
  | ChkBaseline => ac_baseline_check_interval
  | ChkRender => ac_render_hook_check_interval
  | ChkPreload => ac_ld_preload_check_interval
  | ChkVkLayer => ac_vk_layer_check_interval
  | ChkImplicit => ac_implicit_layer_check_interval
  end.

(** The [next_*] variables, one per check. *)
Definition next_times : Type := check -> Z.
Definition schedule_init : next_times := fun _ => 0.

(** The eight [if (now >= next_x)] of one iteration: the checks that run, in
    order, and the new values of the variables. *)
Definition tick (now : Z) (next : next_times) : list check * next_times :=
  (List.filter (fun c => next c <=? now) all_checks,
   fun c => if next c <=? now then now + check_interval c else next c).

(** The iterations of the loop at the given clock readings: what ran when. *)
Fixpoint iterate (times : list Z) (next : next_times) : list (list check) :=
  match times with
  | [] => []
  | now :: times => let '(run, next) := tick now next in run :: iterate times next
  end.
End intervals.

(** ** Events *)

(** The [logmsg] of one event. *)
Definition event_msg (verbose : bool) (e : ac_event) : list effect :=
  let long := ev_type_str (ev_type e) ++ bs " pid=" ++ fmt_d (ev_pid e) ++ bs " comm=" ++ ev_comm e
              ++ bs " " ++ ev_data e in
  if ev_type e =? ev_code AC_EV_PTRACE then logmsg verbose LOG_ALERT long
  else if ev_type e =? ev_code AC_EV_SYSCALL_HOOK
  then logmsg verbose LOG_CRIT (ev_type_str (ev_type e) ++ bs " " ++ ev_data e)
  else logmsg verbose LOG_INFO long.

Section events.
Context {D : Type} `{Device D}.

(** The event part of an iteration. *)
Definition handle_events (verbose : bool) (d : D) : D * list effect :=
  match dev_get_events d with
  | (None, d) => (d, [])
  | (Some el, d) =>
      (d, take (Z.to_nat (s32 (el_count el))) (el_events el) ≫= event_msg verbose)
  end.

(** The event parts of [n] iterations. *)
Fixpoint handle_rounds (verbose : bool) (n : nat) (d : D) : D * list effect :=
  match n with
  | O => (d, [])
  | S n =>
      let '(d, es) := handle_events verbose d in
      let '(d, es') := handle_rounds verbose n d in (d, es ++ es')
  end.
End events.

(** ** Intervals are parsed exactly *)

(** The strings [strtol] takes whole: blanks, an optional sign, digits. *)
Definition denotes (s : cstring) (v : Z) : Prop :=
  exists ws ds, blanks ws /\ ds <> [] /\ Forall (fun b => is_digit b = true) ds /\
    ((s = ws ++ ds /\ v = dec_val 0 ds) \/ (s = ws ++ x2b :: ds /\ v = dec_val 0 ds) \/
     (s = ws ++ x2d :: ds /\ v = - dec_val 0 ds)).

Lemma digit_not_space b : is_digit b = true -> isspace b = false.
Proof. unfold is_digit, isspace. lia. Qed.

Lemma digits_spec l :
  let '(ds, r) := digits l in
  l = ds ++ r /\ Forall (fun b => is_digit b = true) ds.
Proof.
  induction l as [|b l IH]; simpl; [done|]. destruct (is_digit b) eqn:E; [|done].
  destruct (digits l) as [ds r]. destruct IH as [-> H]. split; [done|by constructor].
Qed.

Lemma strtol10_denotes s v :
  denotes s v -> - 2 ^ 63 <= v < 2 ^ 63 -> strtol10 s = (Some v, []) /\ s <> [].
Proof.
  intros (ws & ds & Hws & Hne & Hds & Hs) Hv.
  destruct ds as [|d ds]; [done|]. pose proof (Forall_inv Hds) as Hd.
  pose proof (digits_app (d :: ds) [] Hds I) as Hdig. rewrite app_nil_r in Hdig.
  assert (d <> x2b /\ d <> x2d) as [Hp Hm] by (split; intros ->; done).
  split; [|destruct Hs as [[-> _]|[[-> _]|[-> _]]]; by destruct ws].
  unfold strtol10. destruct Hs as [[-> ->]|[[-> ->]|[-> ->]]]; rewrite skip_ws_blanks;
    try done; try (by apply digit_not_space).
  - assert (match d :: ds with x2d :: l => (true, l) | x2b :: l => (false, l) | _ => (false, d :: ds) end
            = (false, d :: ds)) as -> by (by destruct d).
    rewrite Hdig. rewrite andb_true_intro by (split; lia). done.
  - rewrite Hdig. rewrite andb_true_intro by (split; lia). done.
  - rewrite Hdig. rewrite andb_true_intro by (split; lia). done.
Qed.

Lemma strtol10_inv s v : strtol10 s = (Some v, []) -> s <> [] -> denotes s v.
Proof.
  unfold strtol10. intros E Hs. destruct (skip_ws_split s) as (ws & Hws & Es).
  set (l := skip_ws s) in *.
  destruct (match l with x2d :: l => (true, l) | x2b :: l => (false, l) | _ => (false, l) end)
    as [neg l'] eqn:El.
  pose proof (digits_spec l') as Hd. destruct (digits l') as [[|d ds] rest]; [by simplify_eq|].
  destruct Hd as [-> Hd]. destruct (_ && _); [|done].
  injection E as Ev ->. rewrite app_nil_r in *. exists ws, (d :: ds).
  split; [done|]. split; [done|]. split; [done|].
  destruct l as [|b l]; [done|].
  destruct (decide (b = x2d)) as [->|H1]; [right; right|destruct (decide (b = x2b)) as [->|H2]].
  - injection El as <- ->. done.
  - right. left. injection El as <- ->. done.
  - left. assert ((false, b :: l) = (neg, d :: ds)) as [= <- -> ->] by (by rewrite <- El; destruct b).
    done.
Qed.

(** Intervals are parsed strictly. A setting that is a decimal number from 1
    to [INT_MAX] (with the blanks and sign [strtol] allows) is the interval;
    anything else, unset, empty, trailing text, zero, negative, or out of
    range at any width, gives the default. *)
Theorem env_interval_exact e default_secs :
  (forall s v, e = Some s -> denotes s v -> 1 <= v <= INT_MAX ->
     ac_env_interval e default_secs = v) /\
  ((forall s v, e = Some s -> denotes s v -> ~ 1 <= v <= INT_MAX) ->
   ac_env_interval e default_secs = default_secs).
Proof.
  unfold INT_MAX. split.
  - intros s v -> Hd Hv. destruct (strtol10_denotes s v Hd ltac:(lia)) as [E Hne].
    unfold ac_env_interval, INT_MAX. destruct s as [|b s]; [done|]. rewrite E.
    rewrite bool_decide_true, bool_decide_false by done. simpl.
    rewrite (proj2 (Z.leb_gt _ _)), (proj2 (Z.ltb_ge _ _)) by lia. done.
  - intros Hno. unfold ac_env_interval, INT_MAX. destruct e as [[|b s]|]; [done| |done].
    destruct (strtol10 (b :: s)) as [[v|] rest] eqn:E; [|done].
    case_bool_decide as Hr; [|done]. subst rest. simpl.
    specialize (Hno (b :: s) v eq_refl (strtol10_inv _ _ E ltac:(done))).
    destruct (Z.leb_spec v 0), (Z.ltb_spec (2 ^ 31 - 1) v); try done. lia.
Qed.

Lemma env_interval_pos e default_secs :
  1 <= default_secs -> 1 <= ac_env_interval e default_secs.
Proof.
  intros H. unfold ac_env_interval. destruct e as [[|b s]|]; [done| |done].
  destruct (strtol10 (b :: s)) as [[v|] rest]; [|done].
  destruct (_ || _ || _ || _) eqn:E; [done|].
  apply orb_false_iff in E as [[_ E]%orb_false_iff _]. lia.
Qed.

Lemma check_interval_pos env c : 1 <= check_interval env c.
Proof. destruct c; [simpl; lia|simpl; lia|..]; apply env_interval_pos; lia. Qed.

(** ** The schedule *)

Section scheduling.
Variable env : cstring -> option cstring.

(** Check [c] runs in the [i]-th iteration. *)
Definition ran (times : list Z) (next : next_times) (c : check) (i : nat) : Prop :=
  exists run, iterate env times next !! i = Some run /\ c ∈ run.

Lemma all_checks_complete c : c ∈ all_checks.
Proof. destruct c; unfold all_checks; set_solver. Qed.

Lemma iterate_cons now times next :
  iterate env (now :: times) next =
  List.filter (fun c => next c <=? now) all_checks :: iterate env times (tick env now next).2.
Proof. done. Qed.

Lemma tick_next now next c :
  (tick env now next).2 c = if next c <=? now then now + check_interval env c else next c.
Proof. done. Qed.

Lemma ran_first now times next c : ran (now :: times) next c 0 <-> next c <= now.
Proof.
  unfold ran. rewrite iterate_cons. split.
  - intros (run & E & Hin). apply (inj Some) in E. subst run. apply list_elem_of_In, List.filter_In in Hin as [_ H]. lia.
  - intros H. eexists. split; [done|]. apply list_elem_of_In, List.filter_In.
    split; [apply list_elem_of_In, all_checks_complete|lia].
Qed.

Lemma ran_later now times next c i :
  ran (now :: times) next c (S i) <-> ran times (tick env now next).2 c i.
Proof. done. Qed.

Lemma ran_reading times next c i : ran times next c i -> exists t, times !! i = Some t.
Proof.
  revert next i. induction times as [|now times IH]; intros next [|i] (run & E & Hin); try done.
  - by exists now.
  - apply (IH (tick env now next).2 i). by exists run.
Qed.

(** A check does not run before its time. *)
Lemma ran_not_early times next c i t :
  ran times next c i -> times !! i = Some t -> next c <= t.
Proof.
  revert next i. induction times as [|now times IH]; intros next [|i] Hr Ht; try done.
  - injection Ht as ->. by apply ran_first in Hr.
  - apply ran_later in Hr. specialize (IH (tick env now next).2 i Hr Ht). rewrite tick_next in IH.
    pose proof (check_interval_pos env c). destruct (Z.leb_spec (next c) now); lia.
Qed.

Lemma ran_spaced times next c i j a b :
  (i < j)%nat -> ran times next c i -> ran times next c j ->
  times !! i = Some a -> times !! j = Some b -> a + check_interval env c <= b.
Proof.
  revert next i j. induction times as [|now times IH]; intros next i j Hij Hi Hj Ha Hb; [done|].
  destruct j as [|j]; [lia|]. apply ran_later in Hj. destruct i as [|i].
  - injection Ha as ->. apply ran_first in Hi. pose proof (ran_not_early _ (tick env a next).2 _ _ _ Hj Hb) as H.
    rewrite tick_next, (proj2 (Z.leb_le _ _) Hi) in H. done.
  - apply ran_later in Hi. apply (IH _ i j ltac:(lia) Hi Hj Ha Hb).
Qed.

(** Since a run at [last] no more than the interval has passed without one. *)
Lemma ran_recently times next c last i t :
  StronglySorted Z.le (last :: times) -> next c = last + check_interval env c ->
  times !! i = Some t ->
  last <= t < last + check_interval env c \/
  exists j r, (j <= i)%nat /\ times !! j = Some r /\ ran times next c j /\
    r <= t < r + check_interval env c.
Proof.
  revert next last i. induction times as [|now times IH]; intros next last i Hs Hn Ht; [done|].
  pose proof (check_interval_pos env c) as Hpos.
  apply StronglySorted_inv in Hs as [Hs Hle]. pose proof (Forall_inv Hle) as Hnow.
  destruct (Z.le_gt_cases (next c) now) as [Hrun|Hskip].
  - right. destruct i as [|i].
    + injection Ht as ->. exists 0%nat, t. split; [done|]. split; [done|].
      split; [by apply ran_first|lia].
    + destruct (IH (tick env now next).2 now i Hs) as [Hin|(j & r & Hj & Hr & Hran & Hin)];
        [by rewrite tick_next, (proj2 (Z.leb_le _ _) Hrun)|done| |].
      * exists 0%nat, now. split; [lia|]. split; [done|]. split; [by apply ran_first|done].
      * exists (S j), r. split; [lia|]. split; [done|]. split; [by apply ran_later|done].
  - destruct i as [|i]; [injection Ht as ->; left; lia|].
    assert (StronglySorted Z.le (last :: times)) as Hs'.
    { apply StronglySorted_inv in Hs as [Hs _]. constructor; [done|]. by apply Forall_inv_tail in Hle. }
    destruct (IH (tick env now next).2 last i Hs') as [Hin|(j & r & Hj & Hr & Hran & Hin)];
      [by rewrite tick_next, (proj2 (Z.leb_gt _ _) Hskip)|done|by left|].
    right. exists (S j), r. split; [lia|]. split; [done|]. split; [by apply ran_later|done].
Qed.

(** C26: every check runs on time. While the clock does not go back, at every
    iteration of the loop each of the eight checks has run within its interval
    (counting that iteration), all of them run in the first iteration, and two
    runs of a check are at least its interval apart. *)
Theorem checks_on_time times c i t :
  StronglySorted Z.le (0 :: times) -> times !! i = Some t ->
  (exists j r, (j <= i)%nat /\ times !! j = Some r /\ ran times schedule_init c j /\
     r <= t < r + check_interval env c) /\
  ran times schedule_init c 0 /\
  (forall j b, (i < j)%nat -> times !! j = Some b ->
     ran times schedule_init c i -> ran times schedule_init c j -> t + check_interval env c <= b).
Proof.
  intros Hs Ht. pose proof (check_interval_pos env c).
  destruct times as [|now times]; [done|].
  apply StronglySorted_inv in Hs as [Hs Hle]. pose proof (Forall_inv Hle) as Hnow.
  assert (ran (now :: times) schedule_init c 0) as H0 by (apply ran_first; done).
  split; [|split; [done|]].
  - destruct i as [|i].
    + injection Ht as ->. exists 0%nat, t. repeat split; [done|done|lia|lia].
    + destruct (ran_recently times (tick env now schedule_init).2 c now i t Hs)
        as [Hin|(j & r & Hj & Hr & Hran & Hin)]; [|done| |].
      * rewrite tick_next. unfold schedule_init at 1. by rewrite (proj2 (Z.leb_le _ _) Hnow).
      * exists 0%nat, now. repeat split; [lia|done|lia|lia].
      * exists (S j), r. repeat split; [lia|done|done|lia|lia].
  - intros j b Hij Hb Hi Hj. by eapply ran_spaced.
Qed.

(** A clock that is set back suspends the checks. The loop compares wall
    clock readings, so after an iteration at [now] in which a check ran, no
    iteration runs it again while the readings stay below [now] plus the
    interval, however much time really passes. *)
Theorem clock_setback_suspends now times next c i :
  next c <= now -> Forall (fun t => t < now + check_interval env c) times ->
  ~ ran (now :: times) next c (S i).
Proof.
  intros Hrun Hall Hr. apply ran_later in Hr.
  destruct (ran_reading _ _ _ _ Hr) as [t Ht].
  pose proof (ran_not_early _ (tick env now next).2 _ _ _ Hr Ht) as H.
  rewrite tick_next, (proj2 (Z.leb_le _ _) Hrun) in H.
  apply Forall_lookup_1 with (i := i) (x := t) in Hall; [lia|done].
Qed.
End scheduling.

(** ** Events reach the log *)

(** What an event contributes to the ban pipeline. *)
Definition event_report (e : ac_event) : option effect :=
  if ev_type e =? ev_code AC_EV_PTRACE then
    Some (Report (bs "ALERT") (snprintf LOG_BUF
      (bs "PTRACE-DENIED pid=" ++ fmt_d (ev_pid e) ++ bs " comm=" ++ ev_comm e ++ bs " " ++ ev_data e)))
  else if ev_type e =? ev_code AC_EV_SYSCALL_HOOK then
    Some (Report (bs "CRITICAL") (snprintf LOG_BUF (bs "SYSCALL-HOOK " ++ ev_data e)))
  else None.

Lemma event_msg_reports verbose e :
  reports (event_msg verbose e) = match event_report e with Some r => [r] | None => [] end.
Proof.
  unfold event_msg, event_report.
  destruct (Z.eqb_spec (ev_type e) (ev_code AC_EV_PTRACE)) as [->|].
  - rewrite logmsg_reports by done. done.
  - destruct (Z.eqb_spec (ev_type e) (ev_code AC_EV_SYSCALL_HOOK)) as [->|].
    + rewrite logmsg_reports by done. done.
    + by rewrite logmsg_no_report by done.
Qed.

Lemma events_reports verbose es : reports (es ≫= event_msg verbose) = omap event_report es.
Proof.
  induction es as [|e es IH]; [done|]. rewrite bind_cons, reports_app, event_msg_reports, IH.
  cbn. by destruct (event_report e).
Qed.

Section laws.
Context {D : Type} `{DeviceLaws D}.

Lemma handle_events_spec verbose d :
  dev_ok d ->
  let '(d', es) := handle_events verbose d in
  dev_ok d' /\
  exists k, es = take k (dev_queue d) ≫= event_msg verbose /\ dev_queue d' = drop k (dev_queue d) /\
    (is_Some (dev_get_events d).1 -> k = AC_MAX_EVENTS).
Proof.
  intros Hd. pose proof (get_events_law d Hd) as Hg. unfold handle_events.
  destruct (dev_get_events d) as [[el|] d'].
  - destruct Hg as (Hok & He & Hq & Hc). split; [done|]. exists AC_MAX_EVENTS.
    split; [|done]. rewrite Hc.
    assert (length (el_events el) <= 64)%nat by (rewrite He, length_take; unfold AC_MAX_EVENTS; lia).
    unfold s32. rewrite Z.mod_small by lia. replace (Z.of_nat (length (el_events el)) + 2 ^ 31 - 2 ^ 31)
      with (Z.of_nat (length (el_events el))) by lia.
    rewrite Nat2Z.id, firstn_all. by rewrite He.
  - destruct Hg as [Hok Hq]. split; [done|]. exists 0%nat. split; [done|]. split; [done|].
    by intros [? ?].
Qed.

(** Detections reach the log once, in order, with the right severity. Over
    any number of iterations the loop logs a prefix of the module's event
    queue, each event in one message and in order, and the rest stays queued;
    64 events per iteration when the device answers. The reports among the
    messages are one alert per denied ptrace and one critical report per hooked
    system call, in order, and no other event is reported. *)
Theorem events_reach_log verbose n d :
  dev_ok d ->
  let '(d', es) := handle_rounds verbose n d in
  dev_ok d' /\
  exists k, es = take k (dev_queue d) ≫= event_msg verbose /\
    dev_queue d' = drop k (dev_queue d) /\
    reports es = omap event_report (take k (dev_queue d)) /\
    ((forall d0, dev_ok d0 -> is_Some (dev_get_events d0).1) -> k = (n * AC_MAX_EVENTS)%nat).
Proof.
  revert d. induction n as [|n IH]; intros d Hd; cbn [handle_rounds].
  - split; [done|]. by exists 0%nat.
  - pose proof (handle_events_spec verbose d Hd) as H1. destruct (handle_events verbose d) as [d1 es1].
    destruct H1 as (Hd1 & k1 & -> & Q1 & F1). specialize (IH d1 Hd1).
    destruct (handle_rounds verbose n d1) as [d2 es2]. destruct IH as (Hd2 & k2 & -> & Q2 & _ & F2).
    split; [done|]. exists (k1 + k2)%nat. rewrite Q2, Q1, drop_drop.
    assert (take (k1 + k2) (dev_queue d) = take k1 (dev_queue d) ++ take k2 (drop k1 (dev_queue d))) as Et.
    { by rewrite <- (take_drop k1 (take (k1 + k2) _)), take_take, Nat.min_l, <- take_drop_commute by lia. }
    rewrite <- bind_app, <- Et. split; [done|]. split; [done|].
    split; [apply events_reports|]. intros Hall. rewrite F1, F2 by auto. lia.
Qed.
End laws.

(** The module with one denied ptrace in its ring. *)
Definition denied : ac_event :=
  Event 5 100 (bs "game") (ev_code AC_EV_PTRACE) (bs "ptrace req 16").

Definition alarmed_device : mdev :=
  MDev (fun _ => mapped_kernel) 0 None
    (set_guard (Guard registry_init (ac_emit denied ring_init) []) idle_module).

Lemma alarmed_device_ok : dev_ok alarmed_device.
Proof.
  split; [done..| |exact no_fd_ok]. destruct idle_module_inv as [[Hr Hq] Hl].
  split; [|done]. split; [exact Hr|].
  apply (ac_emit_refines denied ring_init). exact Hq.
Qed.

Lemma events_reach_log_witness :
  omap event_report (take 1 (dev_queue alarmed_device)) =
    reports (handle_rounds false 1 alarmed_device).2 /\
  length (reports (handle_rounds false 1 alarmed_device).2) = 1%nat.
Proof.
  pose proof (events_reach_log false 1 alarmed_device alarmed_device_ok) as H.
  destruct (handle_rounds false 1 alarmed_device) as [d' es] eqn:E.
  destruct H as (_ & k & Hes & _ & Hr & _). cbn [snd]. vm_compute in E. injection E as <- <-.
  split; [reflexivity|reflexivity].
Defined.

Lemma checks_on_time_witness :
  exists j r, (j <= 2)%nat /\ [1000; 1001; 1007] !! j = Some r /\
    ran (fun _ => None) [1000; 1001; 1007] schedule_init ChkSyscalls j /\ r <= 1007 < r + 5.
Proof.
  apply (checks_on_time (fun _ => None) [1000; 1001; 1007] ChkSyscalls 2 1007).
  - repeat constructor; lia.
  - reflexivity.
Defined.

Lemma env_interval_exact_witness : ac_env_interval (Some (bs " 15")) 30 = 15.
Proof.
  apply (env_interval_exact (Some (bs " 15")) 30) with (s := bs " 15"); [done| |done].
  exists [x20], (bs "15"). repeat split; [repeat constructor|done|repeat constructor|by left].
Defined.

Lemma clock_setback_suspends_witness :
  ~ ran (fun _ => None) [5000; 1400; 4999] schedule_init ChkModules 2.
Proof.
  apply (clock_setback_suspends (fun _ => None) 5000 [1400; 4999] schedule_init ChkModules 1);
    [done|]. repeat constructor.
Defined.
