(* ===== verification/EndToEnd.v ===== *)
(** * From the kernel to the report

    The module's handlers, the interleavings of Interleave.v and the daemon's
    loop put together: which events of the kernel reach the ban pipeline, how
    many iterations that takes, and when they are lost on the way. *)

From Stdlib Require Import ZArith Lia.
From stdpp Require Import base numbers list gmap strings.
From S2P Require Import Prelude Abi Ring Kernel Registry SyscallTable Probes Snapshot Ioctl Smp Interleave.
From S2P Require Import Device Log Modules Monitor.

(** ** What everybody else does to the ring *)

Definition emits (r : ring) (es : list ac_event) : ring := foldl (fun r e => ac_emit e r) r es.

(** The ring has only taken events. *)
Definition adds (m m' : mstate) : Prop := exists es, m_ring m' = emits (m_ring m) es.

#[export] Instance adds_preorder : PreOrder adds.
Proof.
  split; [by exists []|]. intros m1 m2 m3 [es H] [es' H']. exists (es ++ es').
  unfold emits in *. by rewrite foldl_app, <- H.
Qed.

Lemma adds_allows : allows adds.
Proof.
  split; [by exists []|intros ev m _; by exists [ev]|]. intros k t jit m _. by exists [].
Qed.

(** Whoever does not drain or flush only adds. *)
Lemma entry_adds e : empties e = false -> guarantees adds (entry_prog e).
Proof.
  intros He. eapply (keeps_entry _ adds_allows); [|done|by rewrite He].
  intros t _ m _. by exists [].
Qed.

(** ** The daemon among the others

    The daemon reads the events once per iteration.  In between, any programs
    run interleaved, its own other commands among them, as long as nobody else
    drains or flushes the ring; [es] are the events they emit.  The kernels of
    the daemon's calls are fixed by the call's number, its file may change. *)
Inductive watch (verbose : bool)
    : list (prog outcome) -> mdev -> list (list ac_event) -> list effect -> mdev -> Prop :=
  | watch_end ts d : watch verbose ts d [] [] d
  | watch_round ts d cs m1 ts1 es n pd d1 d2 effs bursts effs' d3 :
      reaches_in (fun e => empties e = false) (fun _ => True) (Pool (md_mod d) ts) cs (Pool m1 ts1) ->
      m_ring m1 = emits (m_ring (md_mod d)) es -> fd_ok pd ->
      d1 = MDev (md_kernel d) n pd m1 -> handle_events verbose d1 = (d2, effs) ->
      watch verbose ts1 d2 bursts effs' d3 ->
      watch verbose ts d (es :: bursts) (effs ++ effs') d3.

(** Every such history has its bursts: the relation leaves none out. *)
Lemma history_adds m ts cs m1 ts1 :
  sound_pool (Pool m ts) -> Forall (guarantees adds) ts ->
  reaches_in (fun e => empties e = false) (fun _ => True) (Pool m ts) cs (Pool m1 ts1) ->
  adds m m1 /\ Forall (guarantees adds) ts1.
Proof. intros Hs Ht Hr. by apply (guarantees_runs adds _ _ _ _ Hs Ht entry_adds Hr). Qed.

(** *** One round *)

Definition books (ts : list (prog outcome)) : Prop :=
  Forall (fun p => exists h, accounts (fun _ => []) h p) ts.

(** GET_EVENTS on the module, when its buffer can be allocated. *)
Lemma module_answers d :
  mdev_ok d -> alloc_bulk (md_kernel d (md_calls d)) = true -> is_Some (dev_get_events d).1.
Proof.
  intros Hd Ha. destruct (mdev_ioctl_ok ReqGetEvents d Hd I) as (rp & E & Ei & _).
  cbn [dev_get_events mdev_device]. rewrite Ei. unfold ac_ioctl, ioctl_get_events in E.
  rewrite (mk_admin d Hd), Ha in E. cbn [negb] in E. destruct (ac_drain_events _) as [el r].
  unfold copy_out in E. rewrite (mk_write d Hd) in E. injection E as <-. by eexists.
Qed.

Lemma handle_events_kernel verbose d : md_kernel (handle_events verbose d).1 = md_kernel d.
Proof.
  unfold handle_events. cbn [dev_get_events mdev_device]. unfold mdev_ioctl.
  destruct (ac_ioctl _ _ _ _) as [rp|]; cbn; by destruct (out_with _ _).
Qed.

(** A burst and the read that follows: the oldest go if the ring overflows,
    the next 64 are logged. *)
Lemma round_spec verbose ts d cs m1 ts1 es n pd :
  mdev_ok d -> books ts ->
  reaches_in (fun e => empties e = false) (fun _ => True) (Pool (md_mod d) ts) cs (Pool m1 ts1) ->
  m_ring m1 = emits (m_ring (md_mod d)) es -> fd_ok pd ->
  let d1 := MDev (md_kernel d) n pd m1 in
  let q := drop (length (mdev_queue d ++ es) - AC_RING_SIZE) (mdev_queue d ++ es) in
  let '(d2, effs) := handle_events verbose d1 in
  mdev_ok d2 /\ md_kernel d2 = md_kernel d /\ books ts1 /\
  exists k, effs = take k q ≫= event_msg verbose /\ mdev_queue d2 = drop k q /\
    (alloc_bulk (md_kernel d n) = true -> k = AC_MAX_EVENTS).
Proof.
  intros Hd Hts Hr Hring Hpd d1 q. pose proof (mk_mod d Hd) as Hm0.
  assert (Hs : sound_pool (Pool (md_mod d) ts)) by (by split).
  destruct (sound_pool_runs _ _ _ _ _ Hs Hr) as [Hm1 Hts1].
  assert (Hd1 : mdev_ok d1) by (destruct Hd; by split).
  assert (Hq : mdev_queue d1 = q).
  { unfold mdev_queue, d1. cbn [md_mod]. rewrite Hring.
    pose proof (gi_ring _ (mi_guard _ Hm0)) as Hri.
    destruct (emits_refine es _ Hri) as (_ & E & _). unfold emits, m_ring. rewrite E.
    apply foldl_queue_push. rewrite length_contents. apply (ri_count _ Hri). }
  pose proof (handle_events_spec verbose d1 Hd1) as H. pose proof (handle_events_kernel verbose d1) as Hk.
  destruct (handle_events verbose d1) as [d2 effs]. destruct H as (Hd2 & k & He & Hq2 & Ha).
  split_and!; [done|done|done|]. exists k. cbn [dev_queue mdev_laws] in *. rewrite Hq in *.
  split_and!; [done..|]. intros Hb. apply Ha. by apply module_answers.
Qed.

(** *** All rounds *)

(** With at most 64 events per iteration, and room for one such burst to begin
    with, nothing is dropped: what is logged and what is still queued is all
    there was, in order, and each iteration logs 64 of the waiting events. *)
Lemma watch_complete verbose ts d bursts effs d' :
  mdev_ok d -> books ts -> (forall n, alloc_bulk (md_kernel d n) = true) ->
  (length (mdev_queue d) <= AC_RING_SIZE - AC_MAX_EVENTS)%nat ->
  Forall (fun es => length es <= AC_MAX_EVENTS)%nat bursts ->
  watch verbose ts d bursts effs d' ->
  exists logged,
    mdev_queue d ++ concat bursts = logged ++ mdev_queue d' /\
    effs = logged ≫= event_msg verbose /\
    (Nat.min (length bursts * AC_MAX_EVENTS) (length (mdev_queue d)) <= length logged)%nat.
Proof.
  intros Hd Hts Ha Hq Hb Hw. revert Hd Hts Ha Hq Hb.
  induction Hw as [ts d|ts d cs m1 ts1 es n pd d1 d2 effs bursts effs' d3 Hr Hring Hpd -> Hh Hw IH];
    intros Hd Hts Ha Hq Hb.
  { exists []. cbn. rewrite app_nil_r. done. }
  apply Forall_cons in Hb as [Hes Hb].
  pose proof (round_spec verbose ts d cs m1 ts1 es n pd Hd Hts Hr Hring Hpd) as H. cbn zeta in H.
  rewrite Hh in H. destruct H as (Hd2 & Hk & Hts1 & k & -> & Hq2 & Hka). specialize (Hka (Ha n)). subst k.
  assert (E0 : (length (mdev_queue d ++ es) - AC_RING_SIZE = 0)%nat).
  { rewrite length_app. unfold AC_RING_SIZE, AC_MAX_EVENTS in *. lia. }
  rewrite E0, drop_0 in *. destruct IH as (logged & E1 & -> & E3); [done|done|by rewrite Hk| |done|].
  { rewrite Hq2, length_drop, length_app. unfold AC_RING_SIZE, AC_MAX_EVENTS in *. lia. }
  exists (take AC_MAX_EVENTS (mdev_queue d ++ es) ++ logged). split_and!.
  - cbn [concat]. rewrite app_assoc, <- (app_assoc _ logged), <- E1, Hq2.
    by rewrite app_assoc, take_drop.
  - by rewrite bind_app.
  - rewrite Hq2, length_drop in E3. rewrite length_app, length_take. cbn [length]. rewrite length_app in *.
    unfold AC_MAX_EVENTS in *. lia.
Qed.

(** Whatever the bursts and answers are, only what was emitted is logged, each
    event at most once and in order. *)
Lemma watch_logs verbose ts d bursts effs d' :
  mdev_ok d -> books ts -> watch verbose ts d bursts effs d' ->
  exists logged, effs = logged ≫= event_msg verbose /\
    logged ++ mdev_queue d' `sublist_of` mdev_queue d ++ concat bursts.
Proof.
  intros Hd Hts Hw. revert Hd Hts.
  induction Hw as [ts d|ts d cs m1 ts1 es n pd d1 d2 effs bursts effs' d3 Hr Hring Hpd -> Hh Hw IH];
    intros Hd Hts.
  { exists []. split; [done|]. by rewrite app_nil_r. }
  pose proof (round_spec verbose ts d cs m1 ts1 es n pd Hd Hts Hr Hring Hpd) as H. cbn zeta in H.
  rewrite Hh in H. destruct H as (Hd2 & _ & Hts1 & k & -> & Hq2 & _).
  set (q := drop _ _) in *. destruct (IH Hd2 Hts1) as (logged & -> & Hsub). exists (take k q ++ logged).
  split; [by rewrite bind_app|]. rewrite Hq2 in Hsub. cbn [concat]. rewrite <- app_assoc.
  etrans; [apply sublist_app; [reflexivity|exact Hsub]|]. rewrite app_assoc, take_drop, app_assoc.
  apply sublist_app; [apply sublist_drop|done].
Qed.

(** A burst that fills the ring leaves nothing of what was queued before. *)
Lemma watch_flooded verbose ts d es bursts effs d' :
  mdev_ok d -> books ts -> (AC_RING_SIZE <= length es)%nat ->
  watch verbose ts d (es :: bursts) effs d' ->
  exists logged, effs = logged ≫= event_msg verbose /\
    logged ++ mdev_queue d' `sublist_of` es ++ concat bursts.
Proof.
  intros Hd Hts Hes Hw.
  inversion Hw as [|? ? cs m1 ts1 ? n pd d1 d2 effs1 ? effs' ? Hr Hring Hpd Hd1 Hh Hw']; subst.
  pose proof (round_spec verbose ts d cs m1 ts1 es n pd Hd Hts Hr Hring Hpd) as H. cbn zeta in H.
  rewrite Hh in H. destruct H as (Hd2 & _ & Hts1 & k & -> & Hq2 & _).
  rewrite drop_app_ge in * by (rewrite length_app; lia). set (q := drop _ es) in *.
  destruct (watch_logs verbose ts1 d2 bursts effs' d' Hd2 Hts1 Hw') as (logged & -> & Hsub).
  exists (take k q ++ logged). split; [by rewrite bind_app|]. rewrite Hq2 in Hsub. rewrite <- app_assoc.
  etrans; [apply sublist_app; [reflexivity|exact Hsub]|]. rewrite app_assoc, take_drop.
  apply sublist_app; [apply sublist_drop|done].
Qed.

(** ** An attack *)

(** The ptrace probe as a step of the module. *)
Lemma attack_queued k c args v d args' m' cs :
  mdev_ok d -> ptrace_victim k (mdev_prot d) c args = Some v ->
  alone (entry_prog (EPtrace k c args)) (md_mod d) = (OFrame args', m', cs) ->
  let d' := MDev (md_kernel d) (md_calls d) (md_pd d) m' in
  args' = neutralised c args /\ mdev_ok d' /\
  mdev_queue d' = queue_push (mdev_queue d) (ptrace_event k c args v).
Proof.
  intros Hd Hv E d'. rewrite alone_entry in E. cbn [sequential] in E.
  pose proof (ac_ptrace_pre_decides k (ac_policy (md_mod d)) c args (m_guard (md_mod d))) as H.
  destruct (ac_ptrace_pre _ _ _ _ _) as [[args1 g] cs1]. injection E as <- <- <-.
  unfold mdev_prot, m_reg in Hv. rewrite Hv in H. destruct H as (-> & -> & _).
  destruct (mk_mod d Hd) as [[Hr Hq] Hl].
  destruct (ac_emit_refines (ptrace_event k c args v) _ Hq) as (H1 & H2 & _).
  split; [done|]. split; [|exact H2]. destruct Hd. split; cbn [md_mod]; [done..| |done]. by split.
Qed.

(** The probe always returns a frame, and never changes the registry. *)
Lemma ptrace_returns k c args m :
  exists args' m' cs, alone (entry_prog (EPtrace k c args)) m = (OFrame args', m', cs) /\ m_reg m' = m_reg m.
Proof.
  rewrite alone_entry. cbn [sequential].
  pose proof (ac_ptrace_pre_decides k (ac_policy m) c args (m_guard m)) as H.
  destruct (ac_ptrace_pre _ _ _ _ _) as [[args' g] cs]. do 3 eexists. split; [done|].
  destruct (ptrace_victim _ _ _ _); destruct H as (_ & -> & _); done.
Qed.

(** *** The call among others

    [logs]: if every section starts in a state of [I], the program emits exactly
    the events [l], in order, and its result satisfies [Q]. *)
Fixpoint logs {A} (I : mstate -> Prop) (Q : A -> Prop) (l : list ac_event) (p : prog A) : Prop :=
  match p with
  | Ret a => l = [] /\ Q a
  | Sect act next =>
      forall m, mod_inv m -> I m ->
        exists l1 l2, l = l1 ++ l2 /\ m_ring (act m).1.2 = emits (m_ring m) l1 /\
          logs I Q l2 (next (act m).1.1)
  end.

Lemma logs_bind {A B} I (Q : A -> Prop) (R : B -> Prop) l1 l2 p (f : A -> prog B) :
  logs I Q l1 p -> (forall a, Q a -> logs I R l2 (f a)) -> logs I R (l1 ++ l2) (p ≫= f).
Proof.
  intros Hp Hf. revert l1 Hp. induction p as [a|X act next IH]; intros l1 Hp.
  - destruct Hp as [-> Ha]. by apply Hf.
  - intros m Hm Hi. destruct (Hp m Hm Hi) as (l & l' & -> & H1 & H2).
    exists l, (l' ++ l2). rewrite app_assoc. split; [done|]. split; [done|]. by apply IH.
Qed.

Lemma logs_fmap {A B} I (f : A -> B) (R : B -> Prop) l p :
  logs I (fun a => R (f a)) l p -> logs I R l (f <$> p).
Proof. intros Hp. rewrite <- (app_nil_r l). eapply logs_bind; [exact Hp|]. by intros a. Qed.

Lemma logs_weaken {A} I (Q R : A -> Prop) l p : (forall a, Q a -> R a) -> logs I Q l p -> logs I R l p.
Proof.
  intros HQ. revert l. induction p as [a|X act next IH]; intros l Hp; cbn in *; [naive_solver|].
  intros m Hm Hi. destruct (Hp m Hm Hi) as (l1 & l2 & ? & ? & ?). exists l1, l2.
  split_and!; [done..|by apply IH].
Qed.

(** A section that leaves the ring alone. *)
Lemma logs_quiet {A} I (Q : A -> Prop) (act : mstate -> A * mstate * list kcall) :
  (forall m, mod_inv m -> I m -> m_ring (act m).1.2 = m_ring m /\ Q (act m).1.1) ->
  logs I Q [] (Sect act Ret).
Proof. intros H m Hm Hi. destruct (H m Hm Hi) as [H1 H2]. by exists [], []. Qed.

Lemma logs_call I c : logs I (fun _ => True) [] (call c).
Proof. by apply logs_quiet. Qed.

Lemma logs_find_task I k pid : logs I (fun t => t = (ac_find_task k pid).1) [] (find_task_prog k pid).
Proof.
  unfold find_task_prog, ac_find_task. destruct (find_get_pid k pid) as [p|]; [|done].
  eapply (logs_bind _ _ _ [] []); [apply logs_call|]. intros _ _.
  destruct (get_pid_task k p); repeat (eapply (logs_bind _ _ _ [] []); [apply logs_call|intros _ _]); done.
Qed.

Lemma logs_is_protected t :
  logs (fun m => is_prot t m = true) (fun prot => prot = true) [] (is_protected_task_prog t).
Proof. apply logs_quiet. intros m Hm Hb. split; [done|]. cbn. by rewrite ac_is_protected_task_spec. Qed.

Lemma logs_schedule_kill I k t : logs I (fun _ => True) [] (schedule_kill_prog k t).
Proof.
  unfold schedule_kill_prog. destruct (alloc_state k); [|done].
  do 2 (eapply (logs_bind _ _ _ [] []); [apply logs_call|intros _ _]). by apply logs_quiet.
Qed.

(** The denied call emits its event, whatever runs in between. *)
Lemma logs_ptrace k c args v :
  ptrace_subject k c args = Some v ->
  logs (fun m => is_prot v m = true) (fun args' => args' = neutralised c args)
    [ptrace_event k c args v] (ptrace_prog k c args).
Proof.
  unfold ptrace_subject, ptrace_prog, ptrace_event. fold (request_of c args) (target_of c args). intros Hv.
  eapply (logs_bind _ (fun d => exists kill, d = (true, kill,
    (if request_of c args =? PTRACE_TRACEME then task_pid k (current k) else target_of c args),
    strscpy AC_MAX_COMM (task_comm k v))) _ []).
  - destruct (_ =? PTRACE_TRACEME).
    + injection Hv as ->. eapply (logs_bind _ _ _ [] []); [apply logs_is_protected|].
      intros prot ->. split; [done|]. by eexists.
    + destruct (0 <? _); [|done]. unfold is_protected_pid_prog.
      eapply (logs_bind _ (fun r => r = (true, Some (strscpy AC_MAX_COMM (task_comm k v)))) _ [] []).
      2:{ intros ? ->. split; [done|]. by eexists. }
      eapply (logs_bind _ _ _ [] []); [apply logs_find_task|]. intros t ->. rewrite Hv.
      eapply (logs_bind _ _ _ [] []); [apply logs_is_protected|]. intros prot ->.
      by eapply (logs_bind _ _ _ [] []); [apply logs_call|].
  - intros [[[deny kill] target] tcomm] [kill' [= -> -> -> ->]]. cbn [negb].
    eapply (logs_bind _ (fun _ => True) _ [_] []).
    { intros m Hm _. eexists [_], []. by split_and!. }
    intros _ _. eapply (logs_bind _ (fun _ => True) _ [] []); [by apply logs_quiet|]. intros pol _.
    eapply (logs_bind _ (fun _ => True) _ [] []).
    { destruct (kill' && _); [apply logs_schedule_kill|done]. }
    intros _ _. split; [done|]. by destruct c.
Qed.

(** In a history within [I] in which nobody empties the ring, a program in flight
    has put a part of its events among those emitted, the rest is to come. *)
Lemma logs_runs I (Q : outcome -> Prop) l s0 i p cs s :
  sound_pool s0 -> Forall (guarantees adds) (po_threads s0) -> po_threads s0 !! i = Some p -> logs I Q l p ->
  reaches_in (fun e => empties e = false) I s0 cs s ->
  Forall (guarantees adds) (po_threads s) /\
  exists p' es l1 l2, po_threads s !! i = Some p' /\ l = l1 ++ l2 /\ logs I Q l2 p' /\
    m_ring (po_mod s) = emits (m_ring (po_mod s0)) es /\ l1 `sublist_of` es.
Proof.
  intros H0 Hg Hi Hp Hr. induction Hr as [|cs s st cs' s' Hr IH HI He Hs].
  { split; [done|]. exists p, [], [], l. by split_and!. }
  destruct IH as (Hgs & q & es & l1 & l2 & Hq & -> & Hl & Hes & Hsub).
  destruct (sound_pool_runs _ _ _ _ _ H0 Hr) as [Hm _].
  destruct Hs as [e s|j X act next s Hj]; cbn [po_threads po_mod] in *.
  - split.
    + apply Forall_app. split; [done|]. constructor; [by apply entry_adds, He|constructor].
    + exists q, es, l1, l2. split_and!; try done. rewrite lookup_app_l; [done|by eapply lookup_lt_Some].
  - destruct (proj1 (Forall_lookup _ _) Hgs _ _ Hj _ Hm Logic.I) as [[es' Ha] Hn].
    split; [by apply Forall_insert|]. destruct (decide (j = i)) as [->|Hne].
    + rewrite Hj in Hq. injection Hq as <-. destruct (Hl _ Hm HI) as (l3 & l4 & -> & Hr3 & Hl4).
      eexists _, (es ++ l3), (l1 ++ l3), l4. split_and!; [|by rewrite app_assoc|exact Hl4| |by apply sublist_app].
      * apply list_lookup_insert_eq. by eapply lookup_lt_Some.
      * rewrite Hr3, Hes. unfold emits. by rewrite foldl_app.
    + exists q, (es ++ es'), l1, l2. split_and!; try done; [by rewrite list_lookup_insert_ne| |].
      * rewrite Ha, Hes. unfold emits. by rewrite foldl_app.
      * by apply sublist_inserts_r.
Qed.

(** What was emitted, when the ring had room for it. *)
Lemma emits_contents r es :
  ring_inv r -> (length (contents r) + length es < AC_RING_SIZE)%nat ->
  contents (emits r es) = contents r ++ es.
Proof.
  intros Hr Hl. unfold emits. destruct (emits_refine es r Hr) as (_ & -> & _).
  rewrite foldl_queue_push by lia. rewrite length_app.
  replace (_ - AC_RING_SIZE)%nat with 0%nat by lia. done.
Qed.

Lemma emits_inj r es es' :
  ring_inv r -> (length (contents r) + length es < AC_RING_SIZE)%nat -> emits r es = emits r es' -> es = es'.
Proof.
  intros Hr Hl E. pose proof (emits_contents r es Hr Hl) as Hc. rewrite E in Hc.
  destruct (decide (length (contents r) + length es' < AC_RING_SIZE)%nat) as [Hl'|Hl'].
  - rewrite (emits_contents r es' Hr Hl') in Hc. by apply app_inv_head in Hc.
  - destruct (emits_refine es' r Hr) as (_ & E' & _). unfold emits in Hc. rewrite E' in Hc.
    rewrite foldl_queue_push in Hc by (rewrite length_contents; apply (ri_count _ Hr)).
    apply (f_equal length) in Hc. rewrite length_drop, !length_app in Hc. lia.
Qed.

(** ** A tampered kernel *)






(** ** Floods and pauses *)

(** A protected process executes a program: one event. *)
Definition exec_event (k : kernel) : ac_event :=
  mk_event (ktime k 0) AC_EV_EXEC (task_pid k (current k)) (Some (task_comm k (current k)))
    (bs "execve() invoked (path is a user pointer, not resolved)").

Lemma exec_runs k m ts :
  ac_is_protected_task (current k) (m_reg m) = true ->
  reaches_in (fun e => empties e = false) (fun _ => True) (Pool m ts) []
    (Pool (set_ring (ac_emit (exec_event k) (m_ring m)) m) (ts ++ [Ret ONone])).
Proof.
  intros Hp. eapply (runs_entry _ (EExec k)); [done|].
  eapply (runs_section _ _ (length ts) bool _ _ _ _ true m []); [by apply list_lookup_middle|done|..].
  { cbn. by rewrite Hp, set_reg_id. }
  rewrite insert_app_r_alt, Nat.sub_diag by done.
  eapply (runs_section _ _ (length ts) unit _ _ _ _ tt (set_ring (ac_emit (exec_event k) (m_ring m)) m) []);
    [by apply list_lookup_middle|done..|].
  rewrite insert_app_r_alt, Nat.sub_diag by done. apply pool_start.
Qed.

Lemma exec_flood k n m ts :
  ac_is_protected_task (current k) (m_reg m) = true ->
  exists m' ts',
    reaches_in (fun e => empties e = false) (fun _ => True) (Pool m ts) [] (Pool m' ts') /\
    m_ring m' = emits (m_ring m) (replicate n (exec_event k)).
Proof.
  revert m ts. induction n as [|n IH]; intros m ts Hp; [exists m, ts; split; [apply pool_start|done]|].
  destruct (IH (set_ring (ac_emit (exec_event k) (m_ring m)) m) (ts ++ [Ret ONone])) as (m' & ts' & Hr & E).
  { exact Hp. }
  exists m', ts'. split; [|exact E]. rewrite <- (app_nil_l []). eapply reaches_in_trans; [by apply exec_runs|exact Hr].
Qed.

(** Iterations in which nothing else happens. *)
Lemma quiet_rounds verbose n : forall ts d, exists effs d', watch verbose ts d (replicate n []) effs d'.
Proof.
  induction n as [|n IH]; intros ts d; [exists [], d; apply watch_end|].
  destruct (handle_events verbose (MDev (md_kernel d) (md_calls d) None (md_mod d))) as [d2 effs] eqn:E.
  destruct (IH ts d2) as (effs' & d3 & Hw). exists (effs ++ effs'), d3.
  eapply watch_round; [apply pool_start|done|exact no_fd_ok|reflexivity|exact E|exact Hw].
Qed.

Definition game_device : mdev := MDev (fun _ => game_kernel) 0 None game_module.

Lemma game_device_ok : mdev_ok game_device.
Proof. split; [done..| |exact no_fd_ok]. split; [exact game_guard_inv|simpl; lia]. Qed.

(** ** Properties *)

Section endtoend.
Context (verbose : bool).

(** C5: an attack ends in a report.  A process directs ptrace at a protected
    task; the probe runs interleaved with any other programs between two reads
    of the daemon.  Then the call is neutralised, and within three iterations of
    the daemon's loop the alert with the victim's pid and name and the tracer's
    pid has been handed to the reporting code, whatever else runs interleaved,
    as long as: the task stays protected while the call runs; nobody else drains
    or flushes the ring; no more than 192 events are waiting when the call has
    returned (its own included); no more than 64 come in per iteration after
    that; and at every read the daemon is privileged, its buffers accessible and
    the event list can be allocated. *)
Theorem attack_reported k c args v d ts i cs m1 ts1 o es bursts effs d' :
  mdev_ok d -> books ts -> Forall (guarantees adds) ts ->
  (forall n, alloc_bulk (md_kernel d n) = true) ->
  ts !! i = Some (entry_prog (EPtrace k c args)) -> ptrace_subject k c args = Some v ->
  reaches_in (fun e => empties e = false) (fun m => is_prot v m = true)
    (Pool (md_mod d) ts) cs (Pool m1 ts1) ->
  ts1 !! i = Some (Ret o) -> m_ring m1 = emits (m_ring (md_mod d)) es ->
  (length (mdev_queue d) + length es <= AC_RING_SIZE - AC_MAX_EVENTS)%nat ->
  watch verbose ts1 (MDev (md_kernel d) (md_calls d) (md_pd d) m1) bursts effs d' ->
  Forall (fun es => length es <= AC_MAX_EVENTS)%nat bursts -> (3 <= length bursts)%nat ->
  let ev := ptrace_event k c args v in
  o = OFrame (neutralised c args) /\
  Report (bs "ALERT") (snprintf LOG_BUF
    (bs "PTRACE-DENIED pid=" ++ fmt_d (ev_pid ev) ++ bs " comm=" ++ ev_comm ev ++ bs " " ++ ev_data ev))
    ∈ reports effs.
Proof.
  intros Hd Hts Hg Ha Hi Hv Hr Ho Hes Hq Hw Hb H3 ev. pose proof (mk_mod d Hd) as Hm0.
  assert (Hs : sound_pool (Pool (md_mod d) ts)) by (by split).
  destruct (sound_pool_runs _ _ _ _ _ Hs Hr) as [Hm1 Hts1].
  assert (Hp : logs (fun m => is_prot v m = true) (fun o => o = OFrame (neutralised c args)) [ev]
                 (entry_prog (EPtrace k c args))).
  { apply logs_fmap. pose proof (logs_ptrace k c args v Hv) as Hl. eapply logs_weaken; [|exact Hl].
    by intros ? ->. }
  destruct (logs_runs _ _ _ _ i _ _ _ Hs Hg Hi Hp Hr) as (_ & p & es' & l1 & l2 & Hi' & El & Hl & Hes' & Hsub).
  cbn [po_threads po_mod] in *. rewrite Ho in Hi'. injection Hi' as <-. destruct Hl as [-> ->].
  rewrite app_nil_r in El. subst l1. split; [done|].
  pose proof (gi_ring _ (mi_guard _ Hm0)) as Hri. unfold mdev_queue in Hq.
  assert (Hlt : (length (contents (m_ring (md_mod d))) + length es < AC_RING_SIZE)%nat).
  { unfold AC_RING_SIZE, AC_MAX_EVENTS, m_ring in *. lia. }
  assert (es = es') as <- by (apply (emits_inj (m_ring (md_mod d))); [exact Hri|exact Hlt|congruence]).
  set (d1 := MDev _ _ _ m1) in Hw. assert (Hd1 : mdev_ok d1) by (destruct Hd; by split).
  assert (Hq1 : mdev_queue d1 = mdev_queue d ++ es).
  { unfold mdev_queue, d1. cbn [md_mod]. rewrite Hes. by apply emits_contents. }
  destruct (watch_complete verbose ts1 d1 bursts effs d' Hd1 Hts1 Ha) as (logged & E1 & -> & E3);
    [|done|done|].
  { rewrite Hq1, length_app. exact Hq. }
  rewrite events_reports. apply list_elem_of_omap. exists ev. split; [|done].
  rewrite Hq1 in *. assert (Hp1 : mdev_queue d ++ es = take (length (mdev_queue d ++ es)) logged).
  { apply (f_equal (take (length (mdev_queue d ++ es)))) in E1.
    rewrite take_app_length in E1. rewrite E1 at 1. rewrite take_app_le; [done|].
    rewrite length_app in *. unfold mdev_queue, AC_RING_SIZE, AC_MAX_EVENTS, m_ring in *. lia. }
  eapply elem_of_sublist; [|apply (sublist_take _ (length (mdev_queue d ++ es)))]. rewrite <- Hp1. apply elem_of_app. right.
  eapply elem_of_sublist; [|exact Hsub]. by apply list_elem_of_singleton.
Qed.

(** C38: a flood hides an attack.  The loop ignores the drop counter that comes
    with the events: when 256 or more events are emitted between the denied
    ptrace and the next read (a protected process may do so by executing
    programs), the alert is gone.  What the loop logs from then on are messages
    of the flood and of later events only; if these are unremarkable, no report
    is ever sent, and no message says that anything was lost. *)
Theorem flood_hides_attack k c args v d args' m' cs ts es bursts effs d' :
  mdev_ok d -> books ts -> ptrace_victim k (mdev_prot d) c args = Some v ->
  alone (entry_prog (EPtrace k c args)) (md_mod d) = (OFrame args', m', cs) ->
  (AC_RING_SIZE <= length es)%nat ->
  watch verbose ts (MDev (md_kernel d) (md_calls d) (md_pd d) m') (es :: bursts) effs d' ->
  (exists logged, effs = logged ≫= event_msg verbose /\ logged `sublist_of` es ++ concat bursts) /\
  (Forall (fun e => event_report e = None) (es ++ concat bursts) -> reports effs = []).
Proof.
  intros Hd Hts Hv E Hes Hw.
  destruct (attack_queued k c args v d args' m' cs Hd Hv E) as (_ & Hd1 & _).
  destruct (watch_flooded verbose ts _ es bursts effs d' Hd1 Hts Hes Hw) as (logged & -> & Hsub).
  assert (Hl : logged `sublist_of` es ++ concat bursts).
  { etrans; [|exact Hsub]. by apply sublist_inserts_r. }
  split; [by exists logged|]. intros Hn. rewrite events_reports.
  apply elem_of_nil_inv. intros x (e & He & Hx)%list_elem_of_omap.
  pose proof (proj1 (Forall_forall _ _) Hn e (elem_of_sublist _ _ _ He Hl)). congruence.
Qed.

End endtoend.

Lemma attack_reported_witness :
  exists cs m1 o effs d',
    reaches_in (fun e => empties e = false) (fun m => is_prot 7%positive m = true)
      (Pool game_module [entry_prog attach]) cs (Pool m1 [Ret o]) /\
    watch false [Ret o] (MDev (md_kernel game_device) 0 None m1) [[]; []; []] effs d' /\
    Report (bs "ALERT") (bs "PTRACE-DENIED pid=100 comm=game ptrace req 16 by pid 200 (gdb) DENIED") ∈ reports effs.
Proof.
  destruct (attach_runs (fun e => empties e = false)) as (cs & m1 & o & Hr & Hm1).
  destruct (quiet_rounds false 3 [Ret o] (MDev (md_kernel game_device) 0 None m1)) as (effs & d' & Hw).
  exists cs, m1, o, effs, d'. split; [exact Hr|]. split; [exact Hw|].
  destruct (attack_reported false game_kernel false (PtRegs 0 0 16 100) 7%positive game_device
    [entry_prog attach] 0 cs m1 [Ret o] o
    [mk_event 0 AC_EV_PTRACE 100 (Some (bs "game")) (bs "ptrace req 16 by pid 200 (gdb) DENIED")]
    [[]; []; []] effs d' game_device_ok) as [_ H].
  - constructor; [|constructor]. exists []. apply accounts_entry.
  - constructor; [|constructor]. by apply entry_adds.
  - done.
  - reflexivity.
  - vm_compute. reflexivity.
  - exact Hr.
  - reflexivity.
  - exact Hm1.
  - vm_compute. lia.
  - exact Hw.
  - repeat constructor; cbn; lia.
  - cbn. lia.
  - vm_compute in H. exact H.
Defined.

Lemma flood_hides_attack_witness :
  exists m' effs d', (alone (entry_prog attach) game_module).1.2 = m' /\
    watch false [] (MDev (md_kernel game_device) 0 None m')
      (replicate 256 (exec_event fork_kernel) :: replicate 5 []) effs d' /\ reports effs = [].
Proof.
  destruct (ptrace_returns game_kernel false (PtRegs 0 0 16 100) game_module) as (args' & m' & cs & E & Hreg).
  destruct (exec_flood fork_kernel 256 m' []) as (m1 & ts1 & Hr & Hring); [by rewrite Hreg|].
  destruct (handle_events false (MDev (fun _ => game_kernel) 0 None m1)) as [d2 effs] eqn:Eh.
  destruct (quiet_rounds false 5 ts1 d2) as (effs' & d' & Hw).
  assert (Hw0 : watch false [] (MDev (md_kernel game_device) 0 None m')
                  (replicate 256 (exec_event fork_kernel) :: replicate 5 []) (effs ++ effs') d').
  { eapply watch_round; [exact Hr|exact Hring|exact no_fd_ok|reflexivity|exact Eh|exact Hw]. }
  exists m', (effs ++ effs'), d'. unfold attach. rewrite E. split; [done|]. split; [exact Hw0|].
  apply (flood_hides_attack false game_kernel false (PtRegs 0 0 16 100) 7%positive game_device args' m' cs []
    (replicate 256 (exec_event fork_kernel)) (replicate 5 []) (effs ++ effs') d' game_device_ok
    ltac:(constructor) ltac:(vm_compute; reflexivity) E ltac:(by rewrite length_replicate) Hw0).
  apply Forall_app. split; [by apply Forall_replicate|constructor].
Defined.


