(* ===== verification/Baseline.v ===== *)
(** * Executable baselines (src/anticheat_daemon.c)

    Hashing the executable mappings of a process through [/proc/<pid>/mem], the
    baseline files written by [scan --hash --save], and the periodic check of
    protected processes against them. *)

From Stdlib Require Import ZArith Lia Strings.Byte.
From stdpp Require Import base numbers list strings sets.
From S2P Require Import Prelude Libc Abi Sha256 Snapshot Ioctl Device Log Tracker.

Definition AC_HASH_CAP : Z := 16 * 1024 * 1024.
Definition AC_READ_CHUNK : Z := 1024 * 1024.
Definition PATH_MAX : nat := Z.to_nat 4096.
Definition AC_BASELINE_DIR : cstring := bs "/var/lib/anticheat/baselines".

(** ** Hashing memory *)

(** The answers of [pread] on one descriptor: call number, offset, count;
    [None] is an error, the empty list end of file. Attempts that a signal
    interrupts are repeated with the same arguments and have no other effect,
    so the answer is the one of the last attempt. *)
Definition preader : Type := nat -> Z -> nat -> option (list byte).

(** The body of the loop of [hash_proc_mem]: the number of reads made, [done] and
    the context. *)
Definition hash_body (pread : preader) (start size : Z) (s : nat * Z * ac_sha256_ctx)
    : (nat * Z * ac_sha256_ctx) + option ac_sha256_ctx :=
  let '(call, done, c) := s in
  if done <? size then
    let want := Z.min (u64 (size - done)) AC_READ_CHUNK in
    match pread call (s64 (start + done)) (Z.to_nat want) with
    | None => inr None
    | Some [] => inr None
    | Some buf => inl (S call, u64 (done + Z.of_nat (length buf)), ac_sha256_update c buf)
    end
  else inr (Some c).

(** [hash_proc_mem]; [stack] is what the context's buffer held before. Every
    round that goes on reads at least one byte. *)
Definition hash_proc_mem (stack : list byte) (pread : preader) (start size : Z) : option cstring :=
  c ← mjoin (run_loop (hash_body pread start size) (S (Z.to_nat size)) (0%nat, 0, ac_sha256_init stack));
  Some (hex_of (ac_sha256_final c)).

(** ** Baseline files *)

(** [ac_baseline_dir], for the value of [AC_BASELINE_DIR] in the
    environment. *)
Definition ac_baseline_dir (env : option cstring) : cstring :=
  match env with Some (b :: e) => b :: e | _ => AC_BASELINE_DIR end.

(** [baseline_path_for]. *)
Definition baseline_path_for (stack : list byte) (dir path : cstring) : cstring :=
  snprintf PATH_MAX (dir ++ bs "/" ++ ac_sha256_hex stack path ++ bs ".txt").

(** What precedes the last slash of a string that has one. *)
Fixpoint before_last_slash (l : cstring) : option cstring :=
  match l with
  | [] => None
  | b :: l =>
      match before_last_slash l with
      | Some p => Some (b :: p)
      | None => if Byte.eqb b x2f then Some [] else None
      end
  end.

(** [ac_mkdir_baselines]: the directories it makes, in order. *)
Definition ac_mkdir_baselines (dir : cstring) : list cstring :=
  match before_last_slash dir with
  | Some ((_ :: _) as parent) => [snprintf PATH_MAX parent]
  | _ => []
  end ++ [dir].

(** The files of the baseline directory. *)
Definition files : Type := cstring -> option (list byte).

Definition write_file (p : cstring) (content : list byte) (fs : files) : files :=
  fun q => if decide (q = p) then Some content else fs q.

(** The line [--save] writes. *)
Definition baseline_line (start size : Z) (hex : cstring) : list byte :=
  fmt_x start ++ bs " " ++ fmt_x size ++ bs " " ++ hex ++ [x0a].

(** One [%llx] of [sscanf]: blanks, an optional sign and 0x, digits; the rest,
    or [None] on a matching failure. The values are not used. *)
Definition is_hex (b : byte) : bool :=
  let z := byte_Z b in
  is_digit b || (97 <=? z) && (z <=? 102) || (65 <=? z) && (z <=? 70).

Fixpoint skip_hex (l : cstring) : cstring :=
  match l with b :: l' => if is_hex b then skip_hex l' else l | [] => [] end.

Definition scan_llx (l : cstring) : option cstring :=
  let l := skip_ws l in
  let l := match l with x2b :: l => l | x2d :: l => l | _ => l end in
  let l := match l with x30 :: x78 :: l => l | x30 :: x58 :: l => l | _ => l end in
  match l with
  | b :: l => if is_hex b then Some (skip_hex l) else None
  | [] => None
  end.

(** [sscanf(line, "%llx %llx %64s", ...) == 3]: the digest on the line. *)
Definition parse_baseline (line : list byte) : option cstring :=
  l ← scan_llx (cstr line);
  l ← scan_llx l;
  sscanf_s 64 l.

(** [fopen], [fgets] and [sscanf] on the baseline of a path: [None] where the
    code skips the mapping. *)
Definition read_baseline (fs : files) (blpath : cstring) : option cstring :=
  content ← fs blpath;
  match (fgets 512 content).1 with
  | [] => None
  | line => parse_baseline line
  end.

(** The part of a mapping that is hashed. *)
Definition hash_size (vi : ac_vma_info) : Z := Z.min (u64 (vi_end vi - vi_start vi)) AC_HASH_CAP.

(** [(vi->flags & AC_VM_EXEC) && vi->is_file]. *)
Definition hashed_vma (vi : ac_vma_info) : bool :=
  negb (Z.land (vi_flags vi) AC_VM_EXEC =? 0) && negb (vi_is_file vi =? 0).

(** ** The command: [cmd_scan --hash] on one mapping *)

(** What the command prints about a mapping it hashes. *)
Inductive verdict := HashFailed | NoBaseline | Changed | Matches | Hashed.

#[global] Instance verdict_eq_dec : EqDecision verdict.
Proof. solve_decision. Defined.

Section command.
Variable stack : list byte.
Variable dir : cstring.
Variable pread : option preader.       (* [None]: /proc/<pid>/mem did not open *)
Variable writable : cstring -> bool.   (* whether [fopen(blpath, "w")] succeeds *)

(** The [do_hash] part of the loop of [cmd_scan]. *)
Definition scan_hash (do_save do_check : bool) (vi : ac_vma_info) (fs : files)
    : files * option verdict :=
  if negb (hashed_vma vi) then (fs, None)
  else
    match (rd ← pread; hash_proc_mem stack rd (vi_start vi) (hash_size vi)) with
    | None => (fs, Some HashFailed)
    | Some hex =>
        let blpath := baseline_path_for stack dir (vi_path vi) in
        if do_save && negb (writable blpath) then (fs, Some Hashed)
        else
          let fs := if do_save
                    then write_file blpath (baseline_line (vi_start vi) (hash_size vi) hex) fs
                    else fs in
          (fs,
           if do_check then
             match fs blpath with
             | None => Some NoBaseline
             | Some content =>
                 match (match (fgets 512 content).1 with [] => None | line => parse_baseline line end) with
                 | Some bhex => Some (if decide (cstr bhex = hex) then Matches else Changed)
                 | None => Some Matches
                 end
             end
           else Some Hashed)
    end.

(** The loop over the mappings of a snapshot. *)
Fixpoint scan_hashes (do_save do_check : bool) (vis : list ac_vma_info) (fs : files)
    : files * list (option verdict) :=
  match vis with
  | [] => (fs, [])
  | vi :: vis =>
      let '(fs, v) := scan_hash do_save do_check vi fs in
      let '(fs, vs) := scan_hashes do_save do_check vis fs in (fs, v :: vs)
  end.
End command.

(** ** The periodic check *)

(** The descriptor of the process's memory: opened lazily, once. *)
Inductive mem_fd := NotOpened | Opened | OpenFailed.

Definition differs_text (it : ac_prot_item) (vi : ac_vma_info) : cstring :=
  bs "pid " ++ fmt_d (pt_pid it) ++ bs " (" ++ pt_comm it ++ bs "): memory content of "
  ++ vi_path vi ++ bs " differs from saved baseline (possible runtime patching)".

Section periodic.
Context {D : Type} `{Device D}.
Variable stack : list byte.
Variable dir : cstring.
Variable fs : files.
Variable mem_opens : Z -> bool.                 (* whether /proc/<pid>/mem opens *)
Variable mem : Z -> nat -> preader.             (* per process, a reader for each hash *)
Variable verbose : bool.

(** The body of the loop over the mappings, after [SCAN_GET]; [n] is the index
    of the mapping. *)
Definition check_vma (it : ac_prot_item) (n : nat) (vi : ac_vma_info) (fd : mem_fd)
    : mem_fd * list effect :=
  if negb (hashed_vma vi) then (fd, [])
  else
    match read_baseline fs (baseline_path_for stack dir (vi_path vi)) with
    | None => (fd, [])
    | Some bhex =>
        let fd := match fd with
                  | NotOpened => if mem_opens (pt_pid it) then Opened else OpenFailed
                  | fd => fd
                  end in
        match fd with
        | Opened =>
            match hash_proc_mem stack (mem (pt_pid it) n) (vi_start vi) (hash_size vi) with
            | None => (fd, [])
            | Some hex =>
                (fd, if decide (cstr bhex = hex) then []
                     else logmsg verbose LOG_CRIT (differs_text it vi))
            end
        | _ => (fd, [])
        end
    end.

(** The loop over the [n] mappings of a snapshot. *)
Definition vma_step (it : ac_prot_item) (i : nat) (vi : ac_vma_info) (s : mem_fd * list effect)
    : mem_fd * list effect :=
  let '(fd, es) := check_vma it i vi s.1 in (fd, s.2 ++ es).

Definition check_vmas (it : ac_prot_item) (n : nat) (d : D) : D * list effect :=
  let '((_, es), d) := get_loop (vma_step it) (pt_pid it) n 0 (NotOpened, []) d in (d, es).

(** The loop over the protected processes. *)
Fixpoint check_items (items : list ac_prot_item) (d : D) : D * list effect :=
  match items with
  | [] => (d, [])
  | it :: items =>
      match dev_scan_begin (pt_pid it) 0 d with
      | (None, d) => check_items items d
      | (Some b, d) =>
          let '(d, es) := check_vmas it (Z.to_nat (sb_n_vmas b)) d in
          let '(d, es') := check_items items (dev_scan_end d) in (d, es ++ es')
      end
  end.

Definition check_baselines_periodic (d : D) : Z * D * list effect :=
  match dev_list_protected d with
  | (None, d) => (-1, d, [])
  | (Some pl, d) =>
      let '(d, es) := check_items (take (Z.to_nat (pl_count pl)) (pl_items pl)) d in (0, d, es)
  end.
End periodic.

(** ** A hash covers exactly the range *)

(** The reader answers from the memory [mem] on the range: at most the bytes
    asked for, as they are; an error only if some byte asked for is unreadable,
    end of file only if the first is. *)
Definition reads_mem (pread : preader) (mem : Z -> option byte) (start size : Z) : Prop :=
  forall call off n, start <= off -> off + Z.of_nat n <= start + size -> (0 < n)%nat ->
  match pread call off n with
  | None => exists j, 0 <= j < Z.of_nat n /\ mem (off + j) = None
  | Some l =>
      (length l <= n)%nat /\
      (forall j b, l !! j = Some b -> mem (off + Z.of_nat j) = Some b) /\
      (l = [] -> mem off = None)
  end.

Lemma hash_loop_exact fuel call pread mem start size done c m :
  0 <= start -> start + size < 2 ^ 63 -> 0 <= done <= size ->
  reads_mem pread mem start size -> range mem start (Z.to_nat done) = Some m ->
  feeds c m -> ctx_len c = u64 (Z.of_nat (length m)) -> (Z.to_nat (size - done) < fuel)%nat ->
  match mjoin (run_loop (hash_body pread start size) fuel (call, done, c)) with
  | Some c' => exists m', range mem start (Z.to_nat size) = Some m' /\ feeds c' m' /\
                 ctx_len c' = u64 (Z.of_nat (length m'))
  | None => range mem start (Z.to_nat size) = None
  end.
Proof.
  intros Hs He Hd Hr. revert call done c m Hd.
  induction fuel as [|fuel IH]; intros call done c m Hd Hm Hc Hl Hf; [lia|]. cbn [run_loop hash_body].
  destruct (Z.ltb_spec done size) as [Hlt|Hge].
  2: { exists m. by replace size with done by lia. }
  assert (u64 (size - done) = size - done) as -> by (apply Z.mod_small; lia).
  assert (s64 (start + done) = start + done) as -> by (unfold s64; rewrite Z.mod_small; lia).
  set (want := Z.to_nat (Z.min (size - done) AC_READ_CHUNK)).
  assert (0 < want)%nat as Hw1 by (unfold want, AC_READ_CHUNK; lia).
  assert (Z.of_nat want <= size - done) as Hw2 by (unfold want; lia).
  assert (Z.to_nat size = Z.to_nat done + Z.to_nat (size - done))%nat as Esz by lia.
  pose proof (Hr call (start + done) want ltac:(lia) ltac:(lia) ltac:(lia)) as Ha.
  destruct (pread call (start + done) want) as [[|b l]|].
  - destruct Ha as (_ & _ & Ha). apply (range_hole mem start _ done); [lia|by apply Ha].
  - destruct Ha as (Hlen & Hb & _). cbn [length] in *.
    assert (u64 (done + Z.of_nat (S (length l))) = done + Z.of_nat (S (length l))) as ->
      by (apply Z.mod_small; lia).
    destruct (update_feeds c m (b :: l) Hc Hl) as [Hc' Hl'].
    eapply IH; [lia| |exact Hc'|exact Hl'|lia].
    replace (Z.to_nat (done + Z.of_nat (S (length l)))) with (Z.to_nat done + length (b :: l))%nat
      by (simpl; lia).
    rewrite range_app, Hm. cbn [mbind option_bind]. replace (start + Z.of_nat (Z.to_nat done)) with (start + done) by lia.
    by rewrite (range_list mem (start + done) (b :: l) Hb).
  - destruct Ha as (j & Hj & Hn). apply (range_hole mem start _ (done + j)); [lia|].
    by rewrite Z.add_assoc.
Qed.

Lemma hash_proc_mem_exact stack pread mem start size :
  length stack = 64%nat -> 0 <= start -> 0 <= size -> start + size < 2 ^ 63 ->
  reads_mem pread mem start size ->
  hash_proc_mem stack pread start size =
  (fun m => hex_of (fips_sha256 m)) <$> range mem start (Z.to_nat size).
Proof.
  intros Hst Hs Hz He Hr. unfold hash_proc_mem.
  pose proof (hash_loop_exact (S (Z.to_nat size)) 0 pread mem start size 0
    (ac_sha256_init stack) [] Hs He ltac:(lia) Hr eq_refl (init_feeds stack Hst) eq_refl
    ltac:(lia)) as H.
  destruct (mjoin _) as [c|].
  - destruct H as (m & -> & Hc & Hl). simpl. by rewrite (final_fips c m Hc Hl).
  - by rewrite H.
Qed.

(** ** Baselines are read back *)

Lemma hex_digit_hex d : 0 <= d < 16 -> is_hex (hex_digit d) = true /\ hex_digit d <> x00.
Proof.
  intros H. unfold hex_digit.
  assert (forall i, (i < 16)%nat ->
    is_hex (nth i (bs "0123456789abcdef") x30) = true /\ nth i (bs "0123456789abcdef") x30 <> x00)
    as Hall by (intros i Hi; do 16 (destruct i; [by vm_compute|]); lia).
  apply Hall. lia.
Qed.

Definition hexes (l : cstring) : Prop := Forall (fun b => is_hex b = true) l.

Lemma hex_digits_hex fuel z acc :
  0 <= z -> hexes acc ->
  hexes (hex_digits fuel z acc) /\
  (length acc + Nat.min fuel 1 <= length (hex_digits fuel z acc) <= length acc + fuel)%nat.
Proof.
  revert z acc. induction fuel as [|fuel IH]; intros z acc Hz Ha; simpl; [split; [done|lia]|].
  assert (hexes (hex_digit (z mod 16) :: acc)) as Ha'.
  { constructor; [|done]. apply hex_digit_hex. by apply Z.mod_pos_bound. }
  destruct (z / 16 =? 0); [split; [done|simpl; lia]|].
  destruct (IH (z / 16) _ ltac:(apply Z.div_pos; lia) Ha') as [H1 H2].
  split; [done|]. simpl in H2. lia.
Qed.

Lemma fmt_x_hex z : 0 <= z -> hexes (fmt_x z) /\ (1 <= length (fmt_x z) <= 16)%nat.
Proof.
  intros Hz. destruct (hex_digits_hex 16 z [] Hz ltac:(constructor)) as [H1 H2].
  split; [done|]. unfold fmt_x. change (length (@nil byte)) with 0%nat in H2. lia.
Qed.

Lemma skip_hex_app l b rest : hexes l -> is_hex b = false -> skip_hex (l ++ b :: rest) = b :: rest.
Proof. intros Hl Hb. induction Hl as [|c l Hc _ IH]; simpl; [by rewrite Hb|by rewrite Hc]. Qed.

Lemma is_hex_facts b :
  is_hex b = true -> isspace b = false /\ b <> x2b /\ b <> x2d /\ b <> x78 /\ b <> x58 /\ b <> x00.
Proof. intros H. destruct b; try discriminate H; by vm_compute. Qed.

(** A number followed by a blank is scanned, with or without blanks before. *)
Lemma scan_llx_number ws l b rest :
  blanks ws -> hexes l -> l <> [] -> isspace b = true ->
  scan_llx (ws ++ l ++ b :: rest) = Some (b :: rest).
Proof.
  intros Hws Hl Hne Hb. destruct l as [|c l]; [done|]. apply Forall_cons in Hl as [Hc Hl].
  destruct (is_hex_facts c Hc) as (Hsp & H1 & H2 & H3 & H4 & _).
  assert (is_hex b = false) as Hbh.
  { destruct (is_hex b) eqn:E; [|done]. apply is_hex_facts in E as (E & _). congruence. }
  unfold scan_llx. cbn [app]. rewrite skip_ws_blanks by done.
  assert (match c :: l ++ b :: rest with x2b :: r => r | x2d :: r => r | _ => c :: l ++ b :: rest end
          = c :: l ++ b :: rest) as -> by (by destruct c).
  assert (match c :: l ++ b :: rest with
          | x30 :: x78 :: r => r | x30 :: x58 :: r => r | _ => c :: l ++ b :: rest end
          = c :: l ++ b :: rest) as ->.
  { assert (exists e r, l ++ b :: rest = e :: r /\ e <> x78 /\ e <> x58) as (e & r & -> & He1 & He2).
    { destruct l as [|e l]; simpl.
      - exists b, rest. split; [done|]. split; intros ->; done.
      - apply Forall_cons in Hl as [He _]. destruct (is_hex_facts e He) as (_ & _ & _ & ? & ? & _).
        by exists e, (l ++ b :: rest). }
    destruct c; try done. by destruct e. }
  by rewrite Hc, skip_hex_app.
Qed.

Lemma hex_of_hex d : hexes (hex_of d).
Proof.
  unfold hex_of, hexes. induction d as [|b d IH]; [constructor|]. cbn [fmap list_fmap mjoin list_join].
  pose proof (byte_Z_range b) as Hb.
  apply Forall_app. split; [|done].
  repeat constructor; apply hex_digit_hex.
  - rewrite Z.shiftr_div_pow2 by lia. change (2 ^ 4) with 16. split; [apply Z.div_pos; lia|].
    apply Z.div_lt_upper_bound; lia.
  - change 15 with (Z.ones 4). rewrite Z.land_ones by lia. by apply Z.mod_pos_bound.
Qed.

(** The digits can be read back. *)
Lemma hex_digit_back d :
  0 <= d < 16 -> (let z := byte_Z (hex_digit d) in if z <? 58 then z - 48 else z - 87) = d.
Proof.
  intros H. assert (exists i, (i < 16)%nat /\ d = Z.of_nat i) as (i & Hi & ->).
  { exists (Z.to_nat d). lia. }
  do 16 (destruct i; [by vm_compute|]). lia.
Qed.

Lemma hex_digit_inj a b : 0 <= a < 16 -> 0 <= b < 16 -> hex_digit a = hex_digit b -> a = b.
Proof. intros Ha Hb E. rewrite <- (hex_digit_back a Ha), <- (hex_digit_back b Hb). by rewrite E. Qed.

Lemma nibbles b :
  let z := byte_Z b in
  0 <= Z.shiftr z 4 < 16 /\ 0 <= Z.land z 15 < 16 /\ z = 16 * Z.shiftr z 4 + Z.land z 15.
Proof.
  cbn zeta. pose proof (byte_Z_range b) as Hb. rewrite Z.shiftr_div_pow2 by lia.
  change 15 with (Z.ones 4). rewrite Z.land_ones by lia. change (2 ^ 4) with 16.
  pose proof (Z.div_mod (byte_Z b) 16). pose proof (Z.mod_pos_bound (byte_Z b) 16).
  split; [split; [apply Z.div_pos; lia|apply Z.div_lt_upper_bound; lia]|lia].
Qed.

Lemma hex_of_inj d d' : hex_of d = hex_of d' -> d = d'.
Proof.
  unfold hex_of. revert d'. induction d as [|b d IH]; intros [|b' d']; try done.
  cbn [fmap list_fmap mjoin list_join app]. intros [= E1 E2 E3].
  destruct (nibbles b) as (B1 & B2 & B3), (nibbles b') as (C1 & C2 & C3).
  apply hex_digit_inj in E1, E2; [|done..]. f_equal; [|by apply IH].
  assert (E : Byte.to_N b = Byte.to_N b') by (unfold byte_Z in *; lia).
  apply (f_equal Byte.of_N) in E. rewrite !Byte.of_to_N in E. by injection E.
Qed.

Lemma hexes_no_nul l : hexes l -> x00 ∉ l.
Proof. induction 1 as [|b l Hb _ IH]; [set_solver|]. apply not_elem_of_cons. split; [|done]. by intros <-. Qed.

Lemma hexes_no_blank l : hexes l -> Forall (fun b => isspace b = false) l.
Proof. intros H. eapply Forall_impl; [exact H|]. intros b Hb. by apply is_hex_facts. Qed.

Lemma scan_llx_first l b rest :
  hexes l -> l <> [] -> isspace b = true -> scan_llx (l ++ b :: rest) = Some (b :: rest).
Proof. intros. apply (scan_llx_number []); [constructor|done..]. Qed.

Lemma scan_llx_next l b rest :
  hexes l -> l <> [] -> isspace b = true -> scan_llx (x20 :: l ++ b :: rest) = Some (b :: rest).
Proof. intros. apply (scan_llx_number [x20]); [by repeat constructor|done..]. Qed.

(** The text of a digest. *)
Definition digest (hex : cstring) : Prop := hexes hex /\ length hex = 64%nat.

Lemma hash_digest stack pread start size hex :
  length stack = 64%nat -> hash_proc_mem stack pread start size = Some hex -> digest hex.
Proof.
  intros Hst. unfold hash_proc_mem.
  assert (forall fuel call dn c m, feeds c m -> ctx_len c = u64 (Z.of_nat (length m)) ->
    forall c', mjoin (run_loop (hash_body pread start size) fuel (call, dn, c)) = Some c' ->
    exists m', feeds c' m' /\ ctx_len c' = u64 (Z.of_nat (length m'))) as Hloop.
  { induction fuel as [|fuel IH]; intros call dn c m Hc Hl c'; cbn [run_loop hash_body]; [done|].
    destruct (dn <? size); [|intros [= <-]; eauto].
    destruct (pread _ _ _) as [[|b l]|]; [done| |done].
    destruct (update_feeds c m (b :: l) Hc Hl) as [Hc' Hl']. by apply (IH _ _ _ (m ++ b :: l)). }
  destruct (mjoin _) as [c|] eqn:E; [|done]. cbn [mbind option_bind].
  intros Eh. apply (inj Some) in Eh. subst hex.
  destruct (Hloop _ _ _ _ [] (init_feeds stack Hst) eq_refl _ E) as (m & Hc & Hl).
  split; [apply hex_of_hex|]. by rewrite hex_of_length, (final_fips c m Hc Hl), fips_sha256_length.
Qed.

Lemma parse_baseline_steps line l1 l2 :
  scan_llx (cstr line) = Some l1 -> scan_llx l1 = Some l2 -> parse_baseline line = sscanf_s 64 l2.
Proof. intros H1 H2. unfold parse_baseline. rewrite H1. simpl. by rewrite H2. Qed.

Lemma sscanf_digest hex : digest hex -> sscanf_s 64 (x20 :: hex ++ [x0a]) = Some hex.
Proof.
  intros [Hh Hl]. pose proof (hexes_no_blank _ Hh) as Hb. unfold sscanf_s.
  rewrite no_nul_cstr.
  2: { apply not_elem_of_cons. split; [done|]. apply not_elem_of_app.
       split; [by apply hexes_no_nul|]. by apply not_elem_of_cons; split; [|apply not_elem_of_nil]. }
  assert (skip_ws (x20 :: hex ++ [x0a]) = hex ++ [x0a]) as ->.
  { destruct hex as [|h hex]; [done|]. apply Forall_cons in Hb as [Hh0 _].
    cbn [app skip_ws]. by rewrite Hh0. }
  rewrite word_blank, take_ge by (done || lia). by destruct hex.
Qed.

Lemma baseline_line_eq start size hex :
  baseline_line start size hex = fmt_x start ++ x20 :: fmt_x size ++ x20 :: hex ++ [x0a].
Proof. reflexivity. Qed.

Lemma parse_baseline_line start size hex :
  0 <= start -> 0 <= size -> digest hex -> parse_baseline (baseline_line start size hex) = Some hex.
Proof.
  intros Hs Hz Hd. destruct (fmt_x_hex start Hs) as [S1 S2]. destruct (fmt_x_hex size Hz) as [Z1 Z2].
  rewrite <- (sscanf_digest hex Hd), baseline_line_eq.
  revert S1 S2 Z1 Z2. generalize (fmt_x start) as a, (fmt_x size) as b. intros a b S1 S2 Z1 Z2.
  apply (parse_baseline_steps _ (x20 :: b ++ x20 :: hex ++ [x0a])).
  - rewrite no_nul_cstr; [by apply scan_llx_first; [|destruct a; simpl in *; [lia|]|]|].
    destruct Hd as [Hh _]. pose proof (hexes_no_nul _ Hh). pose proof (hexes_no_nul _ S1).
    pose proof (hexes_no_nul _ Z1).
    repeat first [done | apply not_elem_of_app; split | apply not_elem_of_cons; split
                 | apply not_elem_of_nil].
  - by apply scan_llx_next; [|destruct b; simpl in *; [lia|]|].
Qed.

Lemma read_saved_baseline bl start size hex fs :
  0 <= start -> 0 <= size -> digest hex ->
  read_baseline (write_file bl (baseline_line start size hex) fs) bl = Some hex.
Proof.
  intros Hs Hz Hd. unfold read_baseline, write_file. rewrite decide_True by done. cbn [mbind option_bind].
  pose proof (parse_baseline_line start size hex Hs Hz Hd) as Hp.
  destruct Hd as [Hh Hl]. destruct (fmt_x_hex start Hs) as [S1 S2]. destruct (fmt_x_hex size Hz) as [Z1 Z2].
  assert (baseline_line start size hex =
          (fmt_x start ++ bs " " ++ fmt_x size ++ bs " " ++ hex) ++ [x0a]) as E
    by (unfold baseline_line; by rewrite <- !app_assoc).
  rewrite E in *. rewrite fgets_line.
  - cbn [fst]. destruct (_ ++ [x0a]) as [|b l] eqn:EL; [by apply app_eq_nil in EL as [_ ?]|exact Hp].
  - assert (forall l, hexes l -> Forall (fun b => byte_Z b <> 10) l) as Hn.
    { intros l H. eapply Forall_impl; [exact H|]. intros b Hb E'. destruct (is_hex_facts b Hb) as (Hsp & _).
      unfold isspace in Hsp. rewrite E' in Hsp. done. }
    rewrite !Forall_app. repeat split; try (by apply Hn); by repeat constructor.
  - rewrite !length_app. change (length (bs " ")) with 1%nat. lia.
Qed.

(** ** The periodic check is exact *)

Section laws.
Context {D : Type} `{DeviceLaws D}.
Variable stack : list byte.
Variable dir : cstring.
Variable fs : files.
Variable mem_opens : Z -> bool.
Variable mem : Z -> nat -> preader.
Variable verbose : bool.

(** The reference: a mapping, the [n]-th of its process, is tampered with if it
    is executable and file-backed, has a baseline, and hashes to something
    else. *)
Definition tampered (it : ac_prot_item) (n : nat) (vi : ac_vma_info) : bool :=
  hashed_vma vi && mem_opens (pt_pid it) &&
  match read_baseline fs (baseline_path_for stack dir (vi_path vi)),
        hash_proc_mem stack (mem (pt_pid it) n) (vi_start vi) (hash_size vi) with
  | Some bhex, Some hex => negb (bool_decide (cstr bhex = hex))
  | _, _ => false
  end.

Fixpoint tampered_vmas (it : ac_prot_item) (n : nat) (vis : list ac_vma_info) : list ac_vma_info :=
  match vis with
  | [] => []
  | vi :: vis => (if tampered it n vi then [vi] else []) ++ tampered_vmas it (S n) vis
  end.

Definition differs (it : ac_prot_item) (vi : ac_vma_info) : list effect :=
  logmsg verbose LOG_CRIT (differs_text it vi).

(** The lazily opened descriptor is either untouched or what opening gives. *)
Definition fd_fits (it : ac_prot_item) (fd : mem_fd) : Prop :=
  fd = NotOpened \/ fd = if mem_opens (pt_pid it) then Opened else OpenFailed.

Lemma check_vma_spec it n vi fd :
  fd_fits it fd ->
  let '(fd', es) := check_vma stack dir fs mem_opens mem verbose it n vi fd in
  fd_fits it fd' /\ es = if tampered it n vi then differs it vi else [].
Proof.
  intros Hfd. unfold check_vma, tampered. destruct (hashed_vma vi); [|done]. cbn [negb andb].
  destruct (read_baseline _ _) as [bhex|]; [|by rewrite andb_false_r].
  set (fd' := match fd with NotOpened => _ | fd => fd end).
  assert (fd' = if mem_opens (pt_pid it) then Opened else OpenFailed) as ->
    by (unfold fd'; destruct Hfd as [->| ->]; [done|]; by destruct (mem_opens (pt_pid it))).
  unfold fd_fits. destruct (mem_opens (pt_pid it)); [|simpl; auto]. cbn [andb].
  destruct (hash_proc_mem _ _ _ _) as [hex|]; [|auto]. split; [auto|].
  case_decide; case_bool_decide; done.
Qed.

Lemma vma_steps_spec it vis : forall i fd es,
  fd_fits it fd ->
  (fold_vmas (vma_step stack dir fs mem_opens mem verbose it) i vis (fd, es)).2 =
  es ++ (tampered_vmas it i vis ≫= differs it).
Proof.
  induction vis as [|vi vis IH]; intros i fd es Hfd; cbn [fold_vmas tampered_vmas].
  { cbn. by rewrite app_nil_r. }
  unfold vma_step at 2. cbn [fst snd]. pose proof (check_vma_spec it i vi fd Hfd) as Hc.
  destruct (check_vma _ _ _ _ _ _ _ _ _ _) as [fd1 es1]. destruct Hc as [Hfd1 ->].
  rewrite IH by done. rewrite <- app_assoc. f_equal.
  destruct (tampered it i vi); [|done]. by rewrite bind_app, bind_singleton.
Qed.

Lemma check_vmas_spec it d :
  dev_ok d ->
  let '(d', es) := check_vmas stack dir fs mem_opens mem verbose it (length (dev_vmas d)) d in
  dev_ok d' /\ es = tampered_vmas it 0 (dev_vmas d) ≫= differs it.
Proof.
  intros Hd. unfold check_vmas.
  pose proof (get_loop_spec (vma_step stack dir fs mem_opens mem verbose it) (pt_pid it)
    (NotOpened, []) d Hd) as Hg.
  pose proof (vma_steps_spec it (dev_vmas d) 0 NotOpened [] (or_introl eq_refl)) as Hs.
  destruct (get_loop _ _ _ _ _ _) as [[fd es] d']. destruct Hg as (Hd' & _ & E).
  rewrite <- E in Hs. done.
Qed.

(** The snapshots a cycle reads, process by process. *)
Fixpoint scans (items : list ac_prot_item) (d : D) : list (ac_prot_item * list ac_vma_info) :=
  match items with
  | [] => []
  | it :: items =>
      match dev_scan_begin (pt_pid it) 0 d with
      | (None, d) => scans items d
      | (Some b, d) =>
          (it, dev_vmas d) ::
          scans items (dev_scan_end
            (check_vmas stack dir fs mem_opens mem verbose it (Z.to_nat (sb_n_vmas b)) d).1)
      end
  end.

Definition cycle_messages (obs : list (ac_prot_item * list ac_vma_info)) : list effect :=
  obs ≫= fun o => tampered_vmas o.1 0 o.2 ≫= differs o.1.

Lemma check_items_spec items d :
  dev_ok d ->
  let '(d', es) := check_items stack dir fs mem_opens mem verbose items d in
  dev_ok d' /\ es = cycle_messages (scans items d).
Proof.
  revert d. induction items as [|it items IH]; intros d Hd; cbn [check_items scans]; [done|].
  pose proof (scan_begin_law (pt_pid it) 0 d Hd) as Hs.
  destruct (dev_scan_begin (pt_pid it) 0 d) as [[b|] d1]; [|by apply IH, Hs].
  destruct Hs as [Hd1 Hb]. destruct (Hb b eq_refl) as [En _]. rewrite En, Nat2Z.id.
  pose proof (check_vmas_spec it d1 Hd1) as Hc.
  destruct (check_vmas _ _ _ _ _ _ _ _ _) as [d2 es]. destruct Hc as [Hd2 ->].
  specialize (IH (dev_scan_end d2) (scan_end_law d2 Hd2)). cbn [fst].
  destruct (check_items _ _ _ _ _ _ _ _) as [d3 es']. destruct IH as [Hd3 ->].
  split; [done|]. by unfold cycle_messages.
Qed.
End laws.

(** ** Properties *)

(** A hash covers exactly the range. However [pread] cuts the range into
    pieces, [hash_proc_mem] returns the FIPS 180-4 digest of all its bytes when
    every byte is readable, and fails, never hashing a part, when some byte is
    not. *)
Theorem hash_covers_range stack pread mem start size :
  length stack = 64%nat -> 0 <= start -> 0 <= size -> start + size < 2 ^ 63 ->
  reads_mem pread mem start size ->
  hash_proc_mem stack pread start size =
  match range mem start (Z.to_nat size) with
  | Some bytes => Some (hex_of (fips_sha256 bytes))
  | None => None
  end.
Proof.
  intros. rewrite (hash_proc_mem_exact stack pread mem) by done.
  by destruct (range mem start (Z.to_nat size)).
Qed.

Lemma baseline_cycle_spec {D} `{DeviceLaws D} stack dir fs mem_opens mem verbose d :
  dev_ok d ->
  let '(ret, d', es) := check_baselines_periodic stack dir fs mem_opens mem verbose d in
  dev_ok d' /\
  match dev_list_protected d with
  | (None, _) => ret = -1 /\ es = []
  | (Some pl, d1) =>
      let obs := scans stack dir fs mem_opens mem verbose (pl_items pl) d1 in
      ret = 0 /\
      reports es = obs ≫= fun o =>
        (fun vi => Report (bs "CRITICAL") (snprintf LOG_BUF (differs_text o.1 vi))) <$>
          tampered_vmas stack dir fs mem_opens mem o.1 0 o.2
  end.
Proof.
  intros Hd. unfold check_baselines_periodic. pose proof (list_protected_law d Hd) as Hl.
  destruct (dev_list_protected d) as [[pl|] d1]; [|by destruct Hl].
  destruct Hl as [Hd1 Hpl]. destruct (Hpl pl eq_refl) as [-> _]. rewrite Nat2Z.id, firstn_all.
  pose proof (check_items_spec stack dir fs mem_opens mem verbose (pl_items pl) d1 Hd1) as Hc.
  destruct (check_items _ _ _ _ _ _ _ _) as [d2 es]. destruct Hc as [Hd2 ->].
  split; [done|]. split; [done|].
  induction (scans stack dir fs mem_opens mem verbose (pl_items pl) d1) as [|o obs IH]; [done|].
  unfold cycle_messages in *. rewrite !bind_cons, reports_app, IH. f_equal. clear.
  induction (tampered_vmas _ _ _ _ _ o.1 0 o.2) as [|vi vis IH]; [done|].
  rewrite bind_cons, reports_app, IH. unfold differs. by rewrite logmsg_reports.
Qed.

(** C16: the periodic baseline check reports exactly the tampered mappings.
    Over the snapshots of the processes that could be scanned, one critical
    report is sent for each executable file-backed mapping that has a readable
    baseline and whose memory hashes to something else, in order; nothing is
    sent for mappings without a baseline, unreadable memory or processes that
    are gone. *)
Theorem baseline_cycle_exact {D} `{DeviceLaws D} stack dir fs mem_opens mem verbose d :
  dev_ok d ->
  let '(ret, d', es) := check_baselines_periodic stack dir fs mem_opens mem verbose d in
  dev_ok d' /\
  match dev_list_protected d with
  | (None, _) => ret = -1 /\ es = []
  | (Some pl, d1) =>
      let obs := scans stack dir fs mem_opens mem verbose (pl_items pl) d1 in
      ret = 0 /\
      reports es = obs ≫= fun o =>
        (fun vi => Report (bs "CRITICAL") (snprintf LOG_BUF (differs_text o.1 vi))) <$>
          tampered_vmas stack dir fs mem_opens mem o.1 0 o.2
  end.
Proof. apply baseline_cycle_spec. Qed.

Lemma saved_read stack dir rd writable vi fs hex :
  length stack = 64%nat -> hashed_vma vi = true -> 0 <= vi_start vi ->
  writable (baseline_path_for stack dir (vi_path vi)) = true ->
  hash_proc_mem stack rd (vi_start vi) (hash_size vi) = Some hex ->
  read_baseline (scan_hash stack dir (Some rd) writable true false vi fs).1
    (baseline_path_for stack dir (vi_path vi)) = Some hex.
Proof.
  intros Hst Hv Hs Hw Hh. unfold scan_hash. rewrite Hv. cbn [negb mbind option_bind].
  rewrite Hh, Hw. cbn [negb andb fst].
  assert (0 <= hash_size vi).
  { unfold hash_size, u64. pose proof (Z.mod_pos_bound (vi_end vi - vi_start vi) (2 ^ 64) ltac:(lia)).
    unfold AC_HASH_CAP. lia. }
  apply read_saved_baseline; [done|done|by apply (hash_digest stack rd (vi_start vi) (hash_size vi))].
Qed.

Lemma digest_cstr hex : digest hex -> cstr hex = hex.
Proof. intros [Hh _]. by apply no_nul_cstr, hexes_no_nul. Qed.

Lemma hash_size_nonneg vi : 0 <= hash_size vi.
Proof.
  unfold hash_size, u64. pose proof (Z.mod_pos_bound (vi_end vi - vi_start vi) (2 ^ 64) ltac:(lia)).
  unfold AC_HASH_CAP. lia.
Qed.

(** Mappings with other baseline files leave the file of [bl] alone. *)
Definition avoids stack dir (bl : cstring) (vi : ac_vma_info) : Prop :=
  hashed_vma vi = true -> baseline_path_for stack dir (vi_path vi) <> bl.

Lemma scan_hash_avoids stack dir pread writable vi fs bl :
  avoids stack dir bl vi -> (scan_hash stack dir pread writable true false vi fs).1 bl = fs bl.
Proof.
  unfold avoids, scan_hash. intros H. destruct (hashed_vma vi); [|done]. cbn [negb].
  destruct (_ ≫= _) as [hex|]; [|done]. destruct (true && _); [done|]. cbn [fst]. unfold write_file.
  rewrite decide_False; [done|]. intros E. by apply H.
Qed.

Lemma scan_hashes_avoids stack dir pread writable vis bl : forall fs,
  Forall (avoids stack dir bl) vis ->
  (scan_hashes stack dir pread writable true false vis fs).1 bl = fs bl.
Proof.
  induction vis as [|vi vis IH]; intros fs H; [done|]. apply Forall_cons in H as [Hv H].
  cbn [scan_hashes]. pose proof (scan_hash_avoids stack dir pread writable vi fs bl Hv) as E.
  destruct (scan_hash _ _ _ _ _ _ vi fs) as [fs1 v]. specialize (IH fs1 H).
  destruct (scan_hashes _ _ _ _ _ _ vis fs1) as [fs2 vs]. cbn [fst] in *. congruence.
Qed.

Lemma scan_hashes_app stack dir pread writable sv ck l1 l2 : forall fs,
  (scan_hashes stack dir pread writable sv ck (l1 ++ l2) fs).1 =
  (scan_hashes stack dir pread writable sv ck l2 (scan_hashes stack dir pread writable sv ck l1 fs).1).1.
Proof.
  induction l1 as [|vi l1 IH]; intros fs; [done|]. cbn [app scan_hashes].
  destruct (scan_hash _ _ _ _ _ _ vi fs) as [fs1 v]. specialize (IH fs1).
  destruct (scan_hashes _ _ _ _ _ _ (l1 ++ l2) fs1) as [fs2 vs], (scan_hashes _ _ _ _ _ _ l1 fs1).
  exact IH.
Qed.

(** What [--save] over a snapshot leaves for its last mapping of a path. *)
Lemma saved_all_read stack dir rd writable pre vi post fs hex :
  length stack = 64%nat -> hashed_vma vi = true -> 0 <= vi_start vi ->
  Forall (avoids stack dir (baseline_path_for stack dir (vi_path vi))) post ->
  writable (baseline_path_for stack dir (vi_path vi)) = true ->
  hash_proc_mem stack rd (vi_start vi) (hash_size vi) = Some hex ->
  read_baseline (scan_hashes stack dir (Some rd) writable true false (pre ++ vi :: post) fs).1
    (baseline_path_for stack dir (vi_path vi)) = Some hex.
Proof.
  intros Hst Hv Hs Hp Hw Hh. rewrite scan_hashes_app. set (fs0 := (scan_hashes _ _ _ _ _ _ pre fs).1).
  rewrite <- (saved_read stack dir rd writable vi fs0 hex Hst Hv Hs Hw Hh). cbn [scan_hashes].
  destruct (scan_hash _ _ _ _ _ _ vi fs0) as [fs1 v].
  pose proof (scan_hashes_avoids stack dir (Some rd) writable post _ fs1 Hp) as E.
  destruct (scan_hashes _ _ _ _ _ _ post fs1) as [fs2 vs]. cbn [fst] in *. unfold read_baseline. by rewrite E.
Qed.

(** C17: a saved baseline judges later memory. After [scan --hash --save] of a
    snapshot in which [vi] is a file-backed executable mapping (no later mapping
    of the snapshot shares its baseline file, which is chosen by path; its memory
    [m0] readable, below 2^63, the file writable), look at that mapping again when
    its memory is [m1], the process's [mem] file opening and reads, however cut,
    returning what is there: the periodic check logs the critical "differs from saved baseline"
    message exactly when the (capped) range is fully readable and its digest
    differs from that of the saved bytes, and is silent otherwise, so never
    alarms on unchanged memory; and [scan --hash --check] says "changed" in that
    case, "matches" when the digests agree, and that hashing failed when a byte
    is unreadable. *)
Theorem saved_baseline_judges stack dir rd rd1 writable w1 fs mem_opens mem verbose it n fd pre vi post m0 m1 b0 :
  length stack = 64%nat -> hashed_vma vi = true ->
  0 <= vi_start vi -> vi_start vi + hash_size vi < 2 ^ 63 ->
  Forall (avoids stack dir (baseline_path_for stack dir (vi_path vi))) post ->
  writable (baseline_path_for stack dir (vi_path vi)) = true -> mem_opens (pt_pid it) = true ->
  fd_fits mem_opens it fd ->
  reads_mem rd m0 (vi_start vi) (hash_size vi) ->
  reads_mem (mem (pt_pid it) n) m1 (vi_start vi) (hash_size vi) ->
  reads_mem rd1 m1 (vi_start vi) (hash_size vi) ->
  range m0 (vi_start vi) (Z.to_nat (hash_size vi)) = Some b0 ->
  let fs1 := (scan_hashes stack dir (Some rd) writable true false (pre ++ vi :: post) fs).1 in
  let now := range m1 (vi_start vi) (Z.to_nat (hash_size vi)) in
  (check_vma stack dir fs1 mem_opens mem verbose it n vi fd).2 =
    match now with
    | Some b1 => if decide (fips_sha256 b0 = fips_sha256 b1) then []
                 else logmsg verbose LOG_CRIT (differs_text it vi)
    | None => []
    end /\
  scan_hash stack dir (Some rd1) w1 false true vi fs1 =
    (fs1, Some (match now with
                | Some b1 => if decide (fips_sha256 b0 = fips_sha256 b1) then Matches else Changed
                | None => HashFailed
                end)).
Proof.
  intros Hst Hv Hs He Hp Hw Hopen Hfd R0 R1 R2 Hb0 fs1 now. pose proof (hash_size_nonneg vi) as Hz.
  pose proof (hash_proc_mem_exact stack rd m0 _ _ Hst Hs Hz He R0) as H0.
  rewrite Hb0 in H0. cbn [fmap option_fmap option_map] in H0.
  pose proof (saved_all_read stack dir rd writable pre vi post fs _ Hst Hv Hs Hp Hw H0) as Hrd. fold fs1 in Hrd.
  pose proof (digest_cstr _ (hash_digest _ _ _ _ _ Hst H0)) as Hc. split.
  - pose proof (check_vma_spec stack dir fs1 mem_opens mem verbose it n vi fd Hfd) as H.
    destruct (check_vma _ _ _ _ _ _ _ _ _ fd) as [fd' es]. destruct H as [_ ->]. cbn [snd].
    unfold tampered. rewrite Hrd, Hv, Hopen, (hash_proc_mem_exact stack _ m1) by done. fold now.
    destruct now as [b1|]; [|done]. cbn [fmap option_fmap option_map andb]. rewrite Hc.
    case_bool_decide as Hd; cbn [negb].
    + rewrite decide_True; [done|]. by apply hex_of_inj in Hd.
    + rewrite decide_False; [done|]. congruence.
  - unfold scan_hash. rewrite Hv. cbn [negb mbind option_bind].
    rewrite (hash_proc_mem_exact stack rd1 m1) by done. fold now.
    destruct now as [b1|]; [|done]. cbn [fmap option_fmap option_map andb].
    unfold read_baseline in Hrd. destruct (fs1 _) as [content|]; [|done]. cbn [mbind option_bind] in Hrd.
    rewrite Hrd, Hc. f_equal. f_equal. case_decide as Hd.
    + rewrite decide_True; [done|]. by apply hex_of_inj in Hd.
    + rewrite decide_False; [done|]. congruence.
Qed.

(** One baseline file per path cannot hold two mappings. When a process maps
    a file executable twice and the two ranges hash differently, [--save]
    leaves only the second digest, and the periodic check then alarms on the
    first mapping of the same, unchanged process. *)
Theorem shared_path_alarms stack dir rd writable fs mem_opens mem it n v1 v2 h1 h2 :
  length stack = 64%nat -> hashed_vma v1 = true -> hashed_vma v2 = true ->
  vi_path v1 = vi_path v2 -> 0 <= vi_start v2 ->
  (forall p, writable p = true) -> mem_opens (pt_pid it) = true ->
  hash_proc_mem stack rd (vi_start v2) (hash_size v2) = Some h2 ->
  hash_proc_mem stack (mem (pt_pid it) n) (vi_start v1) (hash_size v1) = Some h1 ->
  h1 <> h2 ->
  let fs2 := (scan_hashes stack dir (Some rd) writable true false [v1; v2] fs).1 in
  tampered stack dir fs2 mem_opens mem it n v1 = true.
Proof.
  intros Hst H1 H2 Hp Hs Hw Hopen Hh2 Hh1 Hne fs2.
  assert (exists fs1, fs2 = (scan_hash stack dir (Some rd) writable true false v2 fs1).1) as [fs1 E].
  { unfold fs2. cbn [scan_hashes]. destruct (scan_hash _ _ _ _ _ _ v1 fs) as [fs1 r1].
    exists fs1. by destruct (scan_hash _ _ _ _ _ _ v2 fs1). }
  unfold tampered. rewrite Hp, E, (saved_read stack dir rd writable v2 fs1 _ Hst H2 Hs (Hw _) Hh2).
  rewrite H1, Hopen, Hh1. cbn [andb].
  rewrite (digest_cstr _ (hash_digest _ _ _ _ _ Hst Hh2)). by rewrite bool_decide_false.
Qed.

(** ** Examples *)

(** A reader that returns one byte at a time. *)
Definition byte_reader (mem : Z -> option byte) : preader :=
  fun _ off _ => Some (match mem off with Some b => [b] | None => [] end).

Lemma byte_reader_reads mem start size : reads_mem (byte_reader mem) mem start size.
Proof.
  intros call off n _ _ Hn. unfold byte_reader. destruct (mem off) as [b|] eqn:E; simpl.
  - split; [lia|]. split; [|done]. intros [|j] b' Hj; [|done]. injection Hj as <-. by rewrite Z.add_0_r.
  - split; [lia|]. by split.
Qed.

Definition zero_stack : list byte := replicate 64 x00.
Definition abc_mem (a : Z) : option byte :=
  if a =? 4096 then Some x61 else if a =? 4097 then Some x62 else if a =? 4098 then Some x63 else None.

Lemma hash_covers_range_witness :
  hash_proc_mem zero_stack (byte_reader abc_mem) 4096 3 = Some (hex_of (fips_sha256 (bs "abc"))) /\
  hash_proc_mem zero_stack (byte_reader abc_mem) 4096 4 = None.
Proof.
  split.
  - rewrite (hash_covers_range zero_stack (byte_reader abc_mem) abc_mem 4096 3);
      [reflexivity|reflexivity|lia|lia|lia|apply byte_reader_reads].
  - rewrite (hash_covers_range zero_stack (byte_reader abc_mem) abc_mem 4096 4);
      [reflexivity|reflexivity|lia|lia|lia|apply byte_reader_reads].
Defined.

(** The protected example process, whose file has a baseline that does not
    match. *)
Definition wrong_baseline : files :=
  fun _ => Some (baseline_line 4096 4096 (replicate 64 x61)).

Definition nop_reader : preader := fun _ _ n => Some (replicate n x90).

Lemma baseline_cycle_exact_witness :
  let r := check_baselines_periodic zero_stack AC_BASELINE_DIR wrong_baseline (fun _ => true)
             (fun _ _ => nop_reader) false watched_device in
  length (reports r.2) = 2%nat /\ dev_ok r.1.2.
Proof.
  intros r. split; [by vm_compute|].
  pose proof (baseline_cycle_exact zero_stack AC_BASELINE_DIR wrong_baseline (fun _ => true)
    (fun _ _ => nop_reader) false watched_device watched_device_ok) as H. fold r in H.
  destruct r as [[ret d'] es]. exact (proj1 H).
Defined.

(** A three-byte executable mapping of a file, saved and then patched. *)
Definition abc_vma : ac_vma_info := VmaInfo 4096 4099 0 12 AC_VM_EXEC 1 (bs "/usr/bin/game").
Definition game_item : ac_prot_item := ProtItem 100 0 (bs "game").
Definition abd_mem (a : Z) : option byte := if a =? 4098 then Some x64 else abc_mem a.

Lemma saved_baseline_judges_witness :
  let fs1 := (scan_hashes zero_stack AC_BASELINE_DIR (Some (byte_reader abc_mem)) (fun _ => true)
                true false [abc_vma] (fun _ => None)).1 in
  (check_vma zero_stack AC_BASELINE_DIR fs1 (fun _ => true) (fun _ _ => byte_reader abd_mem) false
    game_item 0 abc_vma NotOpened).2 = logmsg false LOG_CRIT (differs_text game_item abc_vma).
Proof.
  intros fs1. unfold fs1.
  destruct (saved_baseline_judges zero_stack AC_BASELINE_DIR (byte_reader abc_mem) (byte_reader abd_mem)
    (fun _ => true) (fun _ => true) (fun _ => None) (fun _ => true) (fun _ _ => byte_reader abd_mem) false
    game_item 0 NotOpened [] abc_vma [] abc_mem abd_mem (bs "abc")) as [H _];
    [done|done|done|done|constructor|done|done|by left|apply byte_reader_reads..|done|].
  cbn [app] in H. rewrite H. vm_compute. reflexivity.
Defined.

(** The same file mapped executable at two places with different bytes. *)
Definition abd_vma : ac_vma_info := VmaInfo 8192 8195 4096 12 AC_VM_EXEC 1 (bs "/usr/bin/game").
Definition both_mem (a : Z) : option byte := if a <? 8192 then abc_mem a else abd_mem (a - 4096).

Lemma shared_path_alarms_witness :
  let fs2 := (scan_hashes zero_stack AC_BASELINE_DIR (Some (byte_reader both_mem)) (fun _ => true)
                true false [abc_vma; abd_vma] (fun _ => None)).1 in
  tampered zero_stack AC_BASELINE_DIR fs2 (fun _ => true) (fun _ _ => byte_reader both_mem)
    game_item 0 abc_vma = true.
Proof.
  apply (shared_path_alarms zero_stack AC_BASELINE_DIR (byte_reader both_mem) (fun _ => true)
    (fun _ => None) (fun _ => true) (fun _ _ => byte_reader both_mem) game_item 0 abc_vma abd_vma
    (hex_of (fips_sha256 (bs "abc"))) (hex_of (fips_sha256 (bs "abd"))));
    [done|done|done|done|done|done|done|by vm_compute|by vm_compute|by vm_compute].
Defined.
