(* ===== verification/Layers.v ===== *)
(** * Implicit Vulkan layers (src/anticheat_daemon.c)

    Finding the layer manifests the Vulkan loader would load for a process,
    deciding which are active, and warning when the number of unrecognised
    ones grows. Manifests are files an attacker can write. *)

From Stdlib Require Import ZArith Lia Strings.Byte.
From stdpp Require Import base numbers list gmap strings sets.
From S2P Require Import Prelude Libc Abi Device Log SlotTable Tracker Environ Json.

Definition AC_MANIFEST_MAX_BYTES : nat := Z.to_nat (64 * 1024).
Definition AC_MANIFEST_STR_LEN : nat := Z.to_nat 256.
Definition AC_MAX_IMPLICIT_LAYERS : nat := 64.

(** [struct ac_implicit_layer]. *)
Record ac_implicit_layer := Layer {
  ly_name : cstring; ly_library_path : cstring; ly_disable_env : cstring }.

Definition AC_KNOWN_LAYER_PREFIXES : list cstring :=
  [bs "VK_LAYER_MANGOHUD"; bs "VK_LAYER_OBS_HOOK"; bs "VK_LAYER_OBS_hotkeys";
   bs "VK_LAYER_VKBASALT"; bs "VK_LAYER_RENDERDOC"; bs "VK_LAYER_LATENCYFLEX";
   bs "VK_LAYER_VALVE_steam_overlay"; bs "VK_LAYER_VALVE_steam_fossilize";
   bs "VK_LAYER_GOOGLE_"; bs "VK_LAYER_KHRONOS_"; bs "VK_LAYER_MESA_"; bs "VK_LAYER_INTEL_";
   bs "VK_LAYER_NV_"; bs "VK_LAYER_AMD_"].

(** [ac_layer_name_known]: [strncmp] with each prefix. *)
Definition ac_layer_name_known (name : cstring) : bool :=
  existsb (fun p => bool_decide (take (length p) name = p)) AC_KNOWN_LAYER_PREFIXES.

(** ** What the scan reads *)

(** The user's files: the status of a process ([None]: it is gone), the home
    directory of a uid ([None]: no entry), the names [readdir] yields for a
    directory ([None]: it cannot be opened), and what the one [read] of a
    manifest returns before the buffer cuts it ([None]: a failed [open],
    [malloc] or [read]). *)
Record layer_fs := LayerFs {
  lf_status : Z -> option (list byte);
  lf_passwd : Z -> option cstring;
  lf_dir : cstring -> option (list cstring);
  lf_manifest : cstring -> option (list byte)
}.

(** [sscanf(line, "Uid: %lu", &v) == 1], with the value cast to [uid_t]. *)
Definition scan_uid (line : list byte) : option Z :=
  let l := cstr line in
  if bool_decide (take 4 l = bs "Uid:") then
    let l := skip_ws (drop 4 l) in
    let '(neg, l) :=
      match l with x2d :: l => (true, l) | x2b :: l => (false, l) | _ => (false, l) end in
    match digits l with
    | ([], _) => None
    | (ds, _) =>
        let v := Z.min (dec_val 0 ds) (2 ^ 64 - 1) in
        Some (u32 (if (neg : bool) then - v else v))
    end
  else None.

(** The body of the loop over the lines of the status file. *)
Definition find_uid_body (l : list byte) : list byte + option Z :=
  match fgets 256 l with
  | ([], _) => inr None
  | (line, rest) =>
      match scan_uid line with
      | Some uid => inr (Some uid)
      | None => inl rest
      end
  end.

(** The whole loop: each line read consumes a byte. *)
Definition find_uid (status : list byte) : option Z :=
  mjoin (run_loop find_uid_body (S (length status)) status).

(** [ac_resolve_pid_home]: [Some] is the return value 0. *)
Definition ac_resolve_pid_home (fs : layer_fs) (pid : Z) (homesz : nat) : option cstring :=
  status ← lf_status fs pid;
  uid ← find_uid status;
  if uid =? 2 ^ 32 - 1 then None
  else (dir ← lf_passwd fs uid; Some (snprintf homesz dir)).

(** The manifest part of [ac_scan_implicit_layer_dir]: what one buffer yields. *)
Definition parse_manifest (buf : list byte) : option ac_implicit_layer :=
  name ← json_extract_string buf (bs "name") AC_MANIFEST_STR_LEN;
  path ← json_extract_string buf (bs "library_path") AC_MANIFEST_STR_LEN;
  Some (Layer name path (default [] (json_extract_disable_env buf AC_MANIFEST_STR_LEN))).

Definition is_json (d_name : cstring) : bool :=
  (5 <=? length d_name)%nat && bool_decide (drop (length d_name - 5) d_name = bs ".json").

(** One directory entry. *)
Definition read_manifest (fs : layer_fs) (dir d_name : cstring) : option ac_implicit_layer :=
  if negb (is_json d_name) then None
  else
    content ← lf_manifest fs (snprintf 4096 (dir ++ bs "/" ++ d_name));
    match take (AC_MANIFEST_MAX_BYTES - 1) content with
    | [] => None
    | buf => parse_manifest buf
    end.

(** The [readdir] loop of [ac_scan_implicit_layer_dir]. *)
Fixpoint dir_loop (fs : layer_fs) (dir : cstring) (names : list cstring)
    (layers : list ac_implicit_layer) : list ac_implicit_layer :=
  match names with
  | [] => layers
  | d_name :: names =>
      if (length layers <? AC_MAX_IMPLICIT_LAYERS)%nat then
        match read_manifest fs dir d_name with
        | Some layer => dir_loop fs dir names (layers ++ [layer])
        | None => dir_loop fs dir names layers
        end
      else layers
  end.

Definition ac_scan_implicit_layer_dir (fs : layer_fs) (dir : cstring)
    (layers : list ac_implicit_layer) : list ac_implicit_layer :=
  match lf_dir fs dir with
  | None => layers
  | Some names => dir_loop fs dir names layers
  end.

Definition SYSTEM_DIRS : list cstring :=
  [bs "/etc/vulkan/implicit_layer.d"; bs "/usr/local/etc/vulkan/implicit_layer.d";
   bs "/usr/share/vulkan/implicit_layer.d"; bs "/usr/local/share/vulkan/implicit_layer.d"].

(** The directories in the order they are scanned. *)
Definition layer_dirs (fs : layer_fs) (pid : Z) : list cstring :=
  match ac_resolve_pid_home fs pid 4096 with
  | Some home =>
      [snprintf (4096 + 64) (home ++ bs "/.config/vulkan/implicit_layer.d");
       snprintf (4096 + 64) (home ++ bs "/.local/share/vulkan/implicit_layer.d")]
  | None => []
  end ++ SYSTEM_DIRS.

(** Whether the process disabled the layer through its environment. *)
Definition disabled (pf : procfs) (pid : Z) (l : ac_implicit_layer) : bool :=
  match ly_disable_env l with
  | [] => false
  | name =>
      let '(rc, vars) := ac_read_environ_vars pf pid [Query name [] false] in
      (rc =? 0) && existsb q_found vars
  end.

(** The loop that keeps the active layers. *)
Fixpoint active_loop (pf : procfs) (pid : Z) (outcap : nat) (found out : list ac_implicit_layer)
    : list ac_implicit_layer :=
  match found with
  | [] => out
  | l :: found =>
      if (length out <? outcap)%nat then
        active_loop pf pid outcap found (if disabled pf pid l then out else out ++ [l])
      else out
  end.

Definition ac_scan_active_implicit_layers (fs : layer_fs) (pf : procfs) (pid : Z) (outcap : nat)
    : list ac_implicit_layer :=
  active_loop pf pid outcap
    (foldl (fun layers dir => ac_scan_implicit_layer_dir fs dir layers) [] (layer_dirs fs pid)) [].

(** The line printed for a layer. *)
Definition layer_line (l : ac_implicit_layer) : cstring :=
  bs "  Implicit Vulkan-layer: "
  ++ match ly_name l with [] => bs "(unnamed)" | nm => nm end ++ bs " -> "
  ++ match ly_library_path l with [] => bs "(no library_path)" | p => p end
  ++ (if ac_layer_name_known (ly_name l) then [] else bs "  [not in the known-overlay allowlist]")
  ++ [x0a].

Definition layers_note : cstring :=
  bs "    (informational only -- also used by legitimate overlay tools" ++ [x0a]
  ++ bs "     like MangoHud; not a verdict. Name-based allowlist matching" ++ [x0a]
  ++ bs "     can be spoofed by a layer that names itself similarly)" ++ [x0a].

(** [check_implicit_layers]: the return value and what is printed, call by
    call. *)
Definition check_implicit_layers (fs : layer_fs) (pf : procfs) (pid : Z) : Z * list cstring :=
  match ac_scan_active_implicit_layers fs pf pid AC_MAX_IMPLICIT_LAYERS with
  | [] => (0, [bs "  Implicit Vulkan-layer check: none active for this process" ++ [x0a]])
  | layers =>
      (if existsb (fun l => negb (ac_layer_name_known (ly_name l))) layers then 1 else 0,
       (layer_line <$> layers) ++ [layers_note])
  end.

(** ** The periodic check *)

Definition NAMES : nat := Z.to_nat 512.

(** The loop that joins the unrecognised names: the bytes of [names], [noff] and
    [unknown]. [snprintf] returns the length it would have written. *)
Definition name_step (s : cstring * nat * Z) (l : ac_implicit_layer) : cstring * nat * Z :=
  let '(names, noff, unknown) := s in
  if ac_layer_name_known (ly_name l) then s
  else
    let nm := match ly_name l with [] => bs "(unnamed)" | nm => nm end in
    let piece := (if unknown =? 0 then [] else bs ", ") ++ nm in
    (if (noff <? NAMES)%nat then take noff names ++ take (NAMES - noff - 1) piece else names,
     (noff + length piece)%nat, u32 (unknown + 1)).

Section periodic.
Context {D : Type} `{Device D}.

(** One process of [check_implicit_layers_periodic]. *)
Definition implicit_item (verbose : bool) (fs : layer_fs) (pf : procfs)
    (s : list (slot Z) * list effect) (it : ac_prot_item) : list (slot Z) * list effect :=
  let '(tbl, es) := s in
  let layers := ac_scan_active_implicit_layers fs pf (pt_pid it) AC_MAX_IMPLICIT_LAYERS in
  let '(names, _, unknown) := foldl name_step ([], 0%nat, 0) layers in
  let '(tbl, es') := implicit_baseline_check verbose (pt_pid it) (pt_comm it) unknown names tbl in
  (tbl, es ++ es').

Definition check_implicit_layers_periodic (verbose : bool) (fs : layer_fs) (pf : procfs) (d : D)
    (tbl : list (slot Z)) : D * list (slot Z) * list effect :=
  match dev_list_protected d with
  | (None, d) => (d, tbl, [])
  | (Some pl, d) =>
      let tbl := implicit_layer_baseline_forget_stale pl tbl in
      let '(tbl, es) := foldl (implicit_item verbose fs pf) (tbl, [])
                          (take (Z.to_nat (pl_count pl)) (pl_items pl)) in
      (d, tbl, es)
  end.
End periodic.

(** ** Reference: the layers of a process *)

(** The manifests a directory holds, in its order. *)
Definition manifests_in (fs : layer_fs) (dir : cstring) : list ac_implicit_layer :=
  omap (read_manifest fs dir) (default [] (lf_dir fs dir)).

(** All the manifests the loader may use for a process, in search order. *)
Definition manifests_for (fs : layer_fs) (pid : Z) : list ac_implicit_layer :=
  layer_dirs fs pid ≫= manifests_in fs.

(** The manifests the scan keeps: those within its array, not disabled. *)
Definition active_layers (fs : layer_fs) (pf : procfs) (pid : Z) : list ac_implicit_layer :=
  List.filter (fun l => negb (disabled pf pid l))
    (take AC_MAX_IMPLICIT_LAYERS (manifests_for fs pid)).

Lemma dir_loop_spec fs dir names layers :
  (length layers <= AC_MAX_IMPLICIT_LAYERS)%nat ->
  dir_loop fs dir names layers =
  take AC_MAX_IMPLICIT_LAYERS (layers ++ omap (read_manifest fs dir) names).
Proof.
  revert layers. induction names as [|n names IH]; intros layers Hl; cbn [dir_loop].
  { cbn [omap list_omap mbind list_bind]. by rewrite app_nil_r, take_ge. }
  destruct (Nat.ltb_spec (length layers) AC_MAX_IMPLICIT_LAYERS) as [Hlt|Hge].
  - cbn [omap list_omap]. destruct (read_manifest fs dir n) as [l|].
    + rewrite IH by (rewrite length_app; simpl; lia). by rewrite <- app_assoc.
    + by apply IH.
  - by rewrite take_app_length' by lia.
Qed.

Lemma scan_dir_spec fs dir layers :
  (length layers <= AC_MAX_IMPLICIT_LAYERS)%nat ->
  ac_scan_implicit_layer_dir fs dir layers =
  take AC_MAX_IMPLICIT_LAYERS (layers ++ manifests_in fs dir).
Proof.
  intros Hl. unfold ac_scan_implicit_layer_dir, manifests_in.
  destruct (lf_dir fs dir) as [names|]; [by apply dir_loop_spec|].
  cbn [default omap list_omap]. by rewrite app_nil_r, take_ge.
Qed.

Lemma scan_dirs_spec fs dirs layers :
  (length layers <= AC_MAX_IMPLICIT_LAYERS)%nat ->
  foldl (fun layers dir => ac_scan_implicit_layer_dir fs dir layers) layers dirs =
  take AC_MAX_IMPLICIT_LAYERS (layers ++ (dirs ≫= manifests_in fs)).
Proof.
  revert layers. induction dirs as [|dir dirs IH]; intros layers Hl; cbn [foldl].
  { cbn [omap list_omap mbind list_bind]. by rewrite app_nil_r, take_ge. }
  rewrite scan_dir_spec by done. rewrite IH by (rewrite length_take; lia).
  cbn [mbind list_bind]. rewrite app_assoc. generalize (layers ++ manifests_in fs dir). intros l1.
  generalize (dirs ≫= manifests_in fs). intros l2.
  destruct (Nat.le_ge_cases (length l1) AC_MAX_IMPLICIT_LAYERS).
  - by rewrite (take_ge l1) by done.
  - rewrite (take_app_le (take _ l1)) by (rewrite length_take; lia).
    rewrite (take_app_le l1) by lia. by rewrite take_idemp.
Qed.

Lemma active_loop_spec pf pid outcap found out :
  (length out + length found <= outcap)%nat ->
  active_loop pf pid outcap found out =
  out ++ List.filter (fun l => negb (disabled pf pid l)) found.
Proof.
  revert out. induction found as [|l found IH]; intros out Hl; cbn [active_loop List.filter].
  { by rewrite app_nil_r. }
  cbn [length] in Hl. rewrite (proj2 (Nat.ltb_lt _ _)) by lia.
  destruct (disabled pf pid l); cbn [negb].
  - apply IH. lia.
  - rewrite IH by (rewrite length_app; simpl; lia). by rewrite <- app_assoc.
Qed.

Lemma scan_active_spec fs pf pid :
  ac_scan_active_implicit_layers fs pf pid AC_MAX_IMPLICIT_LAYERS = active_layers fs pf pid.
Proof.
  unfold ac_scan_active_implicit_layers, active_layers. rewrite scan_dirs_spec by (simpl; lia).
  rewrite active_loop_spec; [done|]. rewrite length_take. simpl length. lia.
Qed.

(** Whether a layer is disabled is a question to the environment [oc]. *)
Definition switched_off (oc : option (list byte)) (l : ac_implicit_layer) : bool :=
  match oc with
  | Some c => bool_decide (ly_disable_env l <> [] /\ (length c < AC_ENVIRON_BUF - 1)%nat /\
                           is_Some (env_get (ly_disable_env l) (env_entries c)))
  | None => false
  end.

Lemma disabled_spec pf pid oc l : environ_is pf pid oc -> disabled pf pid l = switched_off oc l.
Proof.
  intros Hc. unfold disabled, switched_off. destruct (ly_disable_env l) as [|b name] eqn:El.
  { destruct oc; [|done]. symmetry. apply bool_decide_eq_false. intros [Hn _]. by apply Hn. }
  pose proof (read_environ_spec pf pid oc [Query (b :: name) [] false] Hc) as H.
  destruct (ac_read_environ_vars pf pid _) as [rc vars]. destruct oc as [c|]; [|by subst rc].
  destruct (Nat.ltb_spec (length c) (AC_ENVIRON_BUF - 1)) as [Hlt|Hge].
  - destruct H as [-> ->]. unfold answer. cbn [fmap list_fmap existsb q_name q_value].
    rewrite Z.eqb_refl, orb_false_r. cbn [andb].
    destruct (env_get (b :: name) (env_entries c)) as [v|]; cbn [q_found]; symmetry.
    + apply bool_decide_eq_true. split; [discriminate|]. split; [exact Hlt|]. by exists v.
    + apply bool_decide_eq_false. intros (_ & _ & [? ?]). discriminate.
  - subst rc. symmetry. apply bool_decide_eq_false. intros (_ & Hlt & _).
    exact (Nat.lt_irrefl _ (Nat.lt_le_trans _ _ _ Hlt Hge)).
Qed.

(** ** Reference: growth of the unrecognised layers *)

Definition unknown_layers (fs : layer_fs) (pf : procfs) (pid : Z) : list ac_implicit_layer :=
  List.filter (fun l => negb (ac_layer_name_known (ly_name l))) (active_layers fs pf pid).

Definition shown_name (l : ac_implicit_layer) : cstring :=
  match ly_name l with [] => bs "(unnamed)" | nm => nm end.

(** The names, separated by commas. *)
Definition joined (ls : list ac_implicit_layer) : cstring :=
  match ls with
  | [] => []
  | l :: ls => shown_name l ++ (ls ≫= fun l => bs ", " ++ shown_name l)
  end.

Lemma joined_snoc ls l :
  joined (ls ++ [l]) = joined ls ++ (match ls with [] => [] | _ => bs ", " end) ++ shown_name l.
Proof.
  destruct ls as [|l0 ls]; [by rewrite !app_nil_l; cbn [joined mbind list_bind]; rewrite app_nil_r|].
  cbn [joined app]. rewrite bind_app, <- app_assoc. f_equal. f_equal. cbn [mbind list_bind].
  by rewrite app_nil_r.
Qed.

Lemma take_cut_app {A} (l k : list A) n :
  (if (length l <? S n)%nat then take (length l) (take n l) ++ take (S n - length l - 1) k
   else take n l) = take n (l ++ k).
Proof.
  destruct (Nat.ltb_spec (length l) (S n)).
  - rewrite take_app, (take_ge l n), firstn_all by lia. f_equal. f_equal. lia.
  - by rewrite take_app_le by lia.
Qed.

Lemma name_fold_spec ls :
  Z.of_nat (length ls) < 2 ^ 32 ->
  foldl name_step ([], 0%nat, 0) ls =
  let us := List.filter (fun l => negb (ac_layer_name_known (ly_name l))) ls in
  (take (NAMES - 1) (joined us), length (joined us), Z.of_nat (length us)).
Proof.
  assert (HN : NAMES = S (NAMES - 1)) by reflexivity.
  induction ls as [|l ls IH] using rev_ind; intros Hl; [reflexivity|].
  rewrite length_app in Hl. simpl length in Hl.
  rewrite foldl_app, IH by lia. cbn [foldl]. rewrite List.filter_app. cbn [List.filter].
  set (us := List.filter _ ls). assert (length us <= length ls)%nat as Hu by apply List.filter_length_le.
  unfold name_step. destruct (ac_layer_name_known (ly_name l)); cbn [negb]; [by rewrite app_nil_r|].
  cbn zeta. rewrite joined_snoc, !length_app. fold (shown_name l).
  assert ((if Z.of_nat (length us) =? 0 then [] else bs ", ") = match us with [] => [] | _ => bs ", " end)
    as -> by (by destruct us).
  revert HN. generalize (NAMES - 1)%nat. intros n ->. rewrite take_cut_app. f_equal.
  unfold u32. rewrite Z.mod_small by lia. simpl length. lia.
Qed.

(** What an observation logs against the table, and the table after a cycle. *)
Definition implicit_growth (verbose : bool) (m : gmap Z Z) (it : ac_prot_item)
    (us : list ac_implicit_layer) : list effect :=
  match m !! pt_pid it with
  | Some old =>
      if old <? Z.of_nat (length us) then
        logmsg verbose LOG_WARNING
          (bs "pid " ++ fmt_d (pt_pid it) ++ bs " (" ++ pt_comm it ++ bs "): "
           ++ fmt_d (Z.of_nat (length us))
           ++ bs " unrecognized implicit Vulkan layer(s) active (" ++ take (NAMES - 1) (joined us)
           ++ bs ") -- not in the known-overlay allowlist; informational only, "
           ++ bs "not a verdict on its own")
      else []
  | None => []
  end.

Fixpoint judge_layers (verbose : bool) (fs : layer_fs) (pf : procfs) (items : list ac_prot_item)
    (m : gmap Z Z) : gmap Z Z * list effect :=
  match items with
  | [] => (m, [])
  | it :: items =>
      let us := unknown_layers fs pf (pt_pid it) in
      let '(m', es) := judge_layers verbose fs pf items (<[pt_pid it := Z.of_nat (length us)]> m) in
      (m', implicit_growth verbose m it us ++ es)
  end.

Lemma active_layers_length fs pf pid : (length (active_layers fs pf pid) <= AC_MAX_IMPLICIT_LAYERS)%nat.
Proof.
  unfold active_layers. etrans; [apply List.filter_length_le|]. rewrite length_take. lia.
Qed.

Lemma implicit_item_spec verbose fs pf tbl es it :
  table_inv tbl -> has_room (tracked tbl) (pt_pid it) ->
  let us := unknown_layers fs pf (pt_pid it) in
  exists tbl',
    implicit_item verbose fs pf (tbl, es) it = (tbl', es ++ implicit_growth verbose (tracked tbl) it us) /\
    table_inv tbl' /\ tracked tbl' = <[pt_pid it := Z.of_nat (length us)]> (tracked tbl).
Proof.
  intros Ht Hroom us. unfold implicit_item. rewrite scan_active_spec.
  pose proof (active_layers_length fs pf (pt_pid it)) as Hl. unfold AC_MAX_IMPLICIT_LAYERS in Hl.
  rewrite name_fold_spec by lia. fold (unknown_layers fs pf (pt_pid it)). cbn zeta. fold us.
  unfold implicit_baseline_check, implicit_growth.
  pose proof (record_refines (pt_pid it) (Z.of_nat (length us)) tbl Ht) as H.
  destruct (slot_search slot_key 0 tbl (pt_pid it) None) as [i|[i|]].
  - destruct H as (old & E1 & E2 & H1 & H2). rewrite E1, E2. cbn [fmap option_fmap option_map default].
    eexists. split; [reflexivity|done].
  - destruct H as (E & _ & H1 & H2). rewrite E. eexists. split; [reflexivity|done].
  - destruct H as (E1 & E2). destruct Hroom as [[? Hr]|Hr]; [congruence|lia].
Qed.

Lemma implicit_items_spec verbose fs pf pids items : forall tbl es,
  table_inv tbl -> within (tracked tbl) pids -> pids_of items ⊆ pids ->
  let '(tbl', es') := foldl (implicit_item verbose fs pf) (tbl, es) items in
  let '(m, rs) := judge_layers verbose fs pf items (tracked tbl) in
  table_inv tbl' /\ tracked tbl' = m /\ es' = es ++ rs.
Proof.
  induction items as [|it items IH]; intros tbl es Ht Hw Hs; cbn [foldl judge_layers].
  { by rewrite app_nil_r. }
  assert (Hin : pt_pid it ∈ pids) by (apply Hs; unfold pids_of; set_solver).
  assert (Hs' : pids_of items ⊆ pids) by (unfold pids_of in *; set_solver).
  destruct (implicit_item_spec verbose fs pf tbl es it Ht (within_room _ _ _ Hw Hin))
    as (tbl1 & -> & Ht1 & E1).
  specialize (IH tbl1 (es ++ implicit_growth verbose (tracked tbl) it (unknown_layers fs pf (pt_pid it))) Ht1).
  rewrite E1 in IH. specialize (IH (within_insert _ _ _ _ Hw Hin) Hs').
  destruct (foldl _ _ items) as [tbl' es']. destruct (judge_layers _ _ _ items _) as [m rs].
  destruct IH as (? & ? & ->). by rewrite app_assoc.
Qed.

Lemma judge_layers_quiet verbose fs pf items : forall m, reports (judge_layers verbose fs pf items m).2 = [].
Proof.
  induction items as [|it items IH]; intros m; [done|]. cbn [judge_layers].
  specialize (IH (<[pt_pid it := Z.of_nat (length (unknown_layers fs pf (pt_pid it)))]> m)).
  destruct (judge_layers verbose fs pf items _) as [m' es]. cbn [snd] in *.
  rewrite reports_app, IH, app_nil_r. unfold implicit_growth.
  destruct (m !! pt_pid it) as [old|]; [|done]. destruct (old <? _); [|done].
  by apply logmsg_no_report.
Qed.

(** ** Properties *)


Lemma implicit_cycle_spec {D} `{DeviceLaws D} verbose fs pf (d : D) tbl :
  dev_ok d -> table_inv tbl ->
  let '(d', tbl', es) := check_implicit_layers_periodic verbose fs pf d tbl in
  dev_ok d' /\ table_inv tbl' /\ reports es = [] /\
  match dev_list_protected d with
  | (None, _) => tbl' = tbl /\ es = []
  | (Some pl, _) =>
      judge_layers verbose fs pf (pl_items pl)
        (filter (fun kv => listed pl kv.1 = true) (tracked tbl)) = (tracked tbl', es)
  end.
Proof.
  intros Hd Ht. unfold check_implicit_layers_periodic. pose proof (list_protected_law d Hd) as Hl.
  destruct (dev_list_protected d) as [[pl|] d1]; destruct Hl as [Hd1 Hl]; [|done].
  destruct (Hl pl eq_refl) as [Hc Hn]. rewrite Hc, Nat2Z.id, firstn_all.
  destruct (forget_stale_refines pl tbl Ht) as [Ht1 E1].
  pose proof (implicit_items_spec verbose fs pf (pids_of (pl_items pl)) (pl_items pl)
    (implicit_layer_baseline_forget_stale pl tbl) [] Ht1) as Hs.
  unfold implicit_layer_baseline_forget_stale in *. rewrite E1 in Hs.
  specialize (Hs (within_listed _ pl Hc Hn) ltac:(done)).
  pose proof (judge_layers_quiet verbose fs pf (pl_items pl)
    (filter (fun kv => listed pl kv.1 = true) (tracked tbl))) as Hq.
  destruct (foldl _ _ (pl_items pl)) as [tbl' es']. destruct (judge_layers _ _ _ _ _) as [m rs].
  destruct Hs as (H1 & <- & ->). done.
Qed.

(** The periodic layer check warns on growth only, and only warns.  Over a
    device that keeps the module's promises, the table after a cycle maps every
    protected process to the number of unrecognised active layers it has now
    (no process is dropped for lack of slots and the others are forgotten); a
    process is warned about exactly when it had an entry with a smaller number,
    in one message that carries the first 511 bytes of the list of names; and
    nothing goes to the report server. *)
Theorem implicit_growth_judged {D} `{DeviceLaws D} verbose fs pf (d : D) tbl :
  dev_ok d -> table_inv tbl ->
  let '(d', tbl', es) := check_implicit_layers_periodic verbose fs pf d tbl in
  dev_ok d' /\ table_inv tbl' /\ reports es = [] /\
  match dev_list_protected d with
  | (None, _) => tbl' = tbl /\ es = []
  | (Some pl, _) =>
      judge_layers verbose fs pf (pl_items pl)
        (filter (fun kv => listed pl kv.1 = true) (tracked tbl)) = (tracked tbl', es)
  end.
Proof. apply implicit_cycle_spec. Qed.

(** A user can hide layers behind the cap.  The user's own directory is
    scanned first and 64 manifests fill the array, so once it holds 64 that
    parse (under recognised names, say), nothing in any other directory is
    reported: the checks give the same answer whatever the other directories
    hold, although the loader still loads what is there. *)
Theorem layer_cap_hides fs fs' pf pid home :
  ac_resolve_pid_home fs pid 4096 = Some home ->
  lf_status fs' = lf_status fs -> lf_passwd fs' = lf_passwd fs ->
  let dir := snprintf (4096 + 64) (home ++ bs "/.config/vulkan/implicit_layer.d") in
  manifests_in fs' dir = manifests_in fs dir ->
  (64 <= length (manifests_in fs dir))%nat ->
  ac_scan_active_implicit_layers fs' pf pid AC_MAX_IMPLICIT_LAYERS =
    ac_scan_active_implicit_layers fs pf pid AC_MAX_IMPLICIT_LAYERS /\
  check_implicit_layers fs' pf pid = check_implicit_layers fs pf pid.
Proof.
  intros Hh Hs Hp dir Hm Hlen.
  assert (Hh' : ac_resolve_pid_home fs' pid 4096 = Some home)
    by (rewrite <- Hh; unfold ac_resolve_pid_home; by rewrite Hs, Hp).
  assert (E : forall f, ac_resolve_pid_home f pid 4096 = Some home ->
    manifests_in f dir = manifests_in fs dir ->
    ac_scan_active_implicit_layers f pf pid AC_MAX_IMPLICIT_LAYERS =
    List.filter (fun l => negb (disabled pf pid l)) (take 64 (manifests_in fs dir))).
  { intros f Hf Hmf. rewrite scan_active_spec. unfold active_layers, manifests_for, layer_dirs.
    rewrite Hf. cbn [app]. rewrite bind_cons. fold dir. rewrite Hmf.
    f_equal. apply take_app_le. exact Hlen. }
  unfold check_implicit_layers. rewrite (E fs' Hh' Hm), (E fs Hh eq_refl). done.
Qed.

(** ** Example: one layer disabled by its variable, one active *)

(** Text written with single quotes in place of double ones. *)
Definition dq (s : string) : list byte :=
  (fun b => if Byte.eqb b x27 then quote else b) <$> bs s.

Definition user_dir : cstring := bs "/home/u/.config/vulkan/implicit_layer.d".

Definition layer_a : list byte :=
  dq "{'layer':{'name':'VK_LAYER_A','library_path':'a.so','disable_environment':{'NO_A':'1'}}}".
Definition layer_b : list byte := dq "{'layer' : { 'name' : 'VK_LAYER_B', 'library_path' : 'b.so' }}".

Definition status_text : list byte := bs "Name: game" ++ [x0a] ++ bs "Uid: 1000 1000" ++ [x0a].

Definition layers_fs : layer_fs := LayerFs
  (fun _ => Some status_text)
  (fun uid => if uid =? 1000 then Some (bs "/home/u") else None)
  (fun dir => if decide (dir = user_dir) then Some [bs "a.json"; bs "README"]
              else if decide (dir = bs "/etc/vulkan/implicit_layer.d") then Some [bs "b.json"]
              else None)
  (fun path => if decide (path = user_dir ++ bs "/a.json") then Some layer_a else Some layer_b).

Definition layers_env : list cstring := [bs "HOME=/home/u"; bs "NO_A=1"].
Definition layers_reader : reader := fun off n => Some (take n (drop off (env_bytes layers_env))).
Definition layers_pf : procfs := ProcFs (fun _ => Some layers_reader) true.

Lemma layers_reader_reads : reads layers_reader (env_bytes layers_env).
Proof. intros off n Hn. exists n. split; [reflexivity|]. split; [lia|]. intros _. lia. Qed.

Lemma layers_is : environ_is layers_pf 100 (Some (env_bytes layers_env)).
Proof. exists layers_reader. split; [done|]. split; [done|exact layers_reader_reads]. Qed.

Lemma layers_env_fits : (length (env_bytes layers_env) < AC_ENVIRON_BUF - 1)%nat.
Proof. assert (length (env_bytes layers_env) = 20%nat) as -> by reflexivity. unfold AC_ENVIRON_BUF. lia. Qed.

Lemma layers_manifests :
  take 64 (layer_dirs layers_fs 100 ≫= fun dir =>
    omap (read_manifest layers_fs dir) (default [] (lf_dir layers_fs dir))) =
  [Layer (bs "VK_LAYER_A") (bs "a.so") (bs "NO_A"); Layer (bs "VK_LAYER_B") (bs "b.so") []].
Proof. vm_compute. reflexivity. Qed.

Lemma layers_unknown :
  unknown_layers layers_fs layers_pf 100 = [Layer (bs "VK_LAYER_B") (bs "b.so") []].
Proof.
  unfold unknown_layers, active_layers, manifests_for, manifests_in, AC_MAX_IMPLICIT_LAYERS.
  rewrite layers_manifests. cbn [List.filter].
  rewrite !(disabled_spec layers_pf 100 _ _ layers_is). unfold switched_off. cbn [ly_disable_env].
  rewrite bool_decide_true by (split; [discriminate|split; [exact layers_env_fits|by eexists]]).
  rewrite bool_decide_false by (intros [Hn _]; by apply Hn). reflexivity.
Qed.


(** The watched process was seen without unrecognised layers, and has one now. *)
Lemma implicit_growth_judged_witness :
  exists d' tbl' es,
    check_implicit_layers_periodic false layers_fs layers_pf watched_device watched_table
      = (d', tbl', es) /\
    length es = 2%nat /\ tracked tbl' !! 100 = Some 1.
Proof.
  destruct (check_implicit_layers_periodic false layers_fs layers_pf watched_device watched_table)
    as [[d' tbl'] es] eqn:E.
  pose proof (implicit_growth_judged false layers_fs layers_pf watched_device watched_table
    watched_device_ok watched_table_inv) as H.
  rewrite E in H. destruct H as (_ & _ & _ & H). exists d', tbl', es. split; [reflexivity|].
  destruct (dev_list_protected watched_device) as [[pl|] d1] eqn:El;
    [|exfalso; vm_compute in El; discriminate].
  vm_compute in El. injection El as <- <-.
  change (pl_items _) with [ProtItem 100 0 (bs "game")] in H. cbn [judge_layers] in H.
  change (pt_pid (ProtItem 100 0 (bs "game"))) with 100 in H.
  rewrite layers_unknown in H. apply pair_equal_spec in H as [<- <-].
  split; [vm_compute; reflexivity|apply lookup_insert_eq].
Defined.

(** Sixty-four recognised manifests in the user's directory hide the layer in
    [/etc]. *)
Definition crowded (system : bool) : layer_fs := LayerFs
  (lf_status layers_fs) (lf_passwd layers_fs)
  (fun dir => if decide (dir = user_dir) then Some (replicate 64 (bs "a.json"))
              else if system then lf_dir layers_fs dir else None)
  (fun path => if decide (path = user_dir ++ bs "/a.json")
               then Some (dq "{'name':'VK_LAYER_MESA_x','library_path':'a'}")
               else lf_manifest layers_fs path).

Lemma layer_cap_hides_witness :
  check_implicit_layers (crowded true) layers_pf 100 = check_implicit_layers (crowded false) layers_pf 100.
Proof.
  assert (Hh : ac_resolve_pid_home (crowded false) 100 4096 = Some (bs "/home/u"))
    by (vm_compute; reflexivity).
  refine (proj2 (layer_cap_hides (crowded false) (crowded true) layers_pf 100 (bs "/home/u") Hh
    eq_refl eq_refl _ _)).
  - vm_compute. reflexivity.
  - apply Nat.leb_le. vm_compute. reflexivity.
Defined.
