(* ===== verification/Elf.v ===== *)
(** * Reading a symbol from a library file (src/anticheat_daemon.c)

    [elf_find_symbol_offset], the parser of ELF64 section headers and symbol
    tables that render-hook detection uses, and [compare_render_symbol], which
    compares a function in the file with the function in the target's memory.
    The file is under the target's control. *)

From Stdlib Require Import ZArith Lia Strings.Byte.
From stdpp Require Import base numbers list strings sets.
From S2P Require Import Prelude Libc Abi.

Definition AC_HOOK_CHECK_DEFAULT_BYTES : Z := 32.
Definition AC_HOOK_CHECK_MIN_BYTES : Z := 8.
Definition AC_HOOK_CHECK_MAX_BYTES : Z := 512.
Definition AC_ELF_MAX_SHNUM : Z := 2048.
Definition AC_ELF_MAX_STRTAB : Z := 4 * 1024 * 1024.
Definition AC_ELF_MAX_SYMS : Z := 500000.

(** ** The structures of <elf.h> *)

Definition field (off n : nat) (buf : list byte) : Z := le_val (take n (drop off buf)).

Definition SHDR_SIZE : Z := 64.
Definition SYM_SIZE : Z := 24.
Definition EHDR_SIZE : Z := 64.
Definition SHT_STRTAB : Z := 3.
Definition SHT_DYNSYM : Z := 11.

(** The members the code uses. *)
Record Elf64_Ehdr := Ehdr {
  e_ident : list byte; e_shoff : Z; e_shentsize : Z; e_shnum : Z; e_shstrndx : Z }.
Record Elf64_Shdr := Shdr {
  sh_name : Z; sh_type : Z; sh_offset : Z; sh_size : Z; sh_entsize : Z }.
Record Elf64_Sym := Sym { st_name : Z; st_value : Z; st_size : Z }.

Definition ehdr_of (b : list byte) : Elf64_Ehdr :=
  Ehdr (take 16 b) (field 40 8 b) (field 58 2 b) (field 60 2 b) (field 62 2 b).
Definition shdr_of (b : list byte) : Elf64_Shdr :=
  Shdr (field 0 4 b) (field 4 4 b) (field 24 8 b) (field 32 8 b) (field 56 8 b).
Definition sym_of (b : list byte) : Elf64_Sym := Sym (field 0 4 b) (field 8 8 b) (field 16 8 b).

(** The first [n] elements of an array of structures of [size] bytes. *)
Fixpoint array_of {A} (elem : list byte -> A) (size n : nat) (b : list byte) : list A :=
  match n with
  | O => []
  | S n => elem (take size b) :: array_of elem size n (drop size b)
  end.

(** ** Reading *)

(** The answers of [pread] on an open file: call number, offset, count; [None]
    is the return value -1. *)
Definition ereader : Type := nat -> Z -> Z -> option (list byte).

(** [pread(fd, buf, n, (off_t)off) == (ssize_t)n], for [n] below [2^63]: the
    bytes stored. *)
Definition pread_full (rd : ereader) (call : nat) (n off : Z) : option (list byte) :=
  match rd call (s64 off) n with
  | Some buf => if Z.of_nat (length buf) =? n then Some buf else None
  | None => None
  end.

(** [malloc(n) != NULL]: no object is larger than [PTRDIFF_MAX]. *)
Definition malloc_ok (alloc : Z -> bool) (n : Z) : bool := (n <? 2 ^ 63) && alloc n.

(** [strcmp(buf, key) == 0] in a heap block: [buf] is what the block holds from
    the pointer on. [None]: the comparison reads past the end of the block. *)
Fixpoint strcmp_block (buf : list byte) (key : cstring) : option bool :=
  match buf, key with
  | [], _ => None
  | b :: _, [] => Some (Byte.eqb b x00)
  | b :: buf, k :: key => if Byte.eqb b k then strcmp_block buf key else Some false
  end.

(** The outcomes: the symbol's value and size, the return value -1, or a read
    outside a heap block. *)
Inductive elf_result := Found (value size : Z) | Fail_ | Overread.

#[global] Instance elf_result_eq_dec : EqDecision elf_result.
Proof. solve_decision. Defined.

(** The loop over the section headers: the sections [dynsym] and [dynstr] point
    to at its end. *)
Fixpoint find_sections (shdrs : list Elf64_Shdr) (shstrtab : list byte) (size : Z)
    (dynsym dynstr : option Elf64_Shdr) : option (option Elf64_Shdr * option Elf64_Shdr) :=
  match shdrs with
  | [] => Some (dynsym, dynstr)
  | sh :: shdrs =>
      if size <=? sh_name sh then find_sections shdrs shstrtab size dynsym dynstr
      else
        let name := drop (Z.to_nat (sh_name sh)) shstrtab in
        if sh_type sh =? SHT_DYNSYM then
          match strcmp_block name (bs ".dynsym") with
          | None => None
          | Some true => find_sections shdrs shstrtab size (Some sh) dynstr
          | Some false => find_sections shdrs shstrtab size dynsym dynstr
          end
        else if sh_type sh =? SHT_STRTAB then
          match strcmp_block name (bs ".dynstr") with
          | None => None
          | Some true => find_sections shdrs shstrtab size dynsym (Some sh)
          | Some false => find_sections shdrs shstrtab size dynsym dynstr
          end
        else find_sections shdrs shstrtab size dynsym dynstr
  end.

(** The loop over the symbols. *)
Fixpoint find_symbol (syms : list Elf64_Sym) (dynstrtab : list byte) (size : Z) (symbol : cstring)
    : elf_result :=
  match syms with
  | [] => Fail_
  | s :: syms =>
      if (st_name s =? 0) || (size <=? st_name s) || (st_value s =? 0)
      then find_symbol syms dynstrtab size symbol
      else
        match strcmp_block (drop (Z.to_nat (st_name s)) dynstrtab) symbol with
        | None => Overread
        | Some true => Found (st_value s) (st_size s)
        | Some false => find_symbol syms dynstrtab size symbol
        end
  end.

(** The header checks. *)
Definition ehdr_ok (eh : Elf64_Ehdr) : bool :=
  bool_decide (take 4 (e_ident eh) = [x7f; x45; x4c; x46])
  && bool_decide (e_ident eh !! 4%nat = Some x02) && bool_decide (e_ident eh !! 5%nat = Some x01)
  && (e_shentsize eh =? SHDR_SIZE) && negb (e_shnum eh =? 0)
  && (e_shnum eh <=? AC_ELF_MAX_SHNUM) && (e_shstrndx eh <? e_shnum eh).

Definition strtab_ok (sh : Elf64_Shdr) : bool :=
  negb (sh_size sh =? 0) && (sh_size sh <=? AC_ELF_MAX_STRTAB).

(** The second half: from the two sections to the symbol. *)
Definition symbol_in (rd : ereader) (alloc : Z -> bool) (dynsym dynstr : Elf64_Shdr)
    (symbol : cstring) : elf_result :=
  if negb (sh_entsize dynsym =? SYM_SIZE) || negb (strtab_ok dynstr) then Fail_
  else
    let nsyms := u32 (sh_size dynsym / SYM_SIZE) in
    if (nsyms =? 0) || (AC_ELF_MAX_SYMS <? nsyms) then Fail_
    else if negb (malloc_ok alloc (sh_size dynsym) && malloc_ok alloc (sh_size dynstr)) then Fail_
    else
      match pread_full rd 3 (sh_size dynsym) (sh_offset dynsym) with
      | None => Fail_
      | Some sb =>
          match pread_full rd 4 (sh_size dynstr) (sh_offset dynstr) with
          | None => Fail_
          | Some dynstrtab =>
              if (length sb <? Z.to_nat (SYM_SIZE * nsyms))%nat then Overread
              else find_symbol (array_of sym_of (Z.to_nat SYM_SIZE) (Z.to_nat nsyms) sb) dynstrtab
                     (sh_size dynstr) symbol
          end
      end.

(** [elf_find_symbol_offset]. *)
Definition elf_find_symbol_offset (rd : ereader) (alloc : Z -> bool) (symbol : cstring)
    : elf_result :=
  match pread_full rd 0 EHDR_SIZE 0 with
  | None => Fail_
  | Some hb =>
      let eh := ehdr_of hb in
      if negb (ehdr_ok eh) then Fail_
      else if negb (malloc_ok alloc (e_shnum eh * SHDR_SIZE)) then Fail_
      else
        match pread_full rd 1 (e_shnum eh * SHDR_SIZE) (e_shoff eh) with
        | None => Fail_
        | Some tb =>
            let shdrs := array_of shdr_of (Z.to_nat SHDR_SIZE) (Z.to_nat (e_shnum eh)) tb in
            match shdrs !! Z.to_nat (e_shstrndx eh) with
            | None => Overread
            | Some shstr =>
                if negb (strtab_ok shstr) || negb (malloc_ok alloc (sh_size shstr)) then Fail_
                else
                  match pread_full rd 2 (sh_size shstr) (sh_offset shstr) with
                  | None => Fail_
                  | Some shstrtab =>
                      match find_sections shdrs shstrtab (sh_size shstr) None None with
                      | None => Overread
                      | Some (Some dynsym, Some dynstr) => symbol_in rd alloc dynsym dynstr symbol
                      | Some _ => Fail_
                      end
                  end
            end
        end
  end.

(** ** Comparing with the target's memory *)

(** The number of bytes compared. *)
Definition check_length (size : Z) : Z :=
  if size =? 0 then AC_HOOK_CHECK_DEFAULT_BYTES
  else if size <? AC_HOOK_CHECK_MIN_BYTES then AC_HOOK_CHECK_MIN_BYTES
  else if AC_HOOK_CHECK_MAX_BYTES <? size then AC_HOOK_CHECK_MAX_BYTES
  else size.

(** [compare_render_symbol], for the outcomes of the two [open]s: the library
    as the target sees it and the target's memory. [None] is the outcome of a
    read outside a heap block; otherwise the return value. *)
Definition compare_render_symbol (lib mem : option ereader) (alloc : Z -> bool) (lib_base : Z)
    (symbol : cstring) : option Z :=
  match lib with
  | None => Some (-1)
  | Some lib =>
      match elf_find_symbol_offset lib alloc symbol with
      | Overread => None
      | Fail_ => Some (-1)
      | Found offset size =>
          let checklen := check_length size in
          match pread_full lib 5 checklen offset with
          | None => Some (-1)
          | Some expected =>
              match mem with
              | None => Some (-1)
              | Some mem =>
                  match pread_full mem 0 checklen (u64 (lib_base + offset)) with
                  | None => Some (-1)
                  | Some actual => Some (if bool_decide (expected = actual) then 0 else 1)
                  end
              end
          end
      end
  end.

(** ** Overreads *)

(** A comparison inside a terminated block stays inside. *)
Lemma strcmp_terminated buf key :
  last buf = Some x00 -> x00 ∉ key -> strcmp_block buf key <> None.
Proof.
  revert key. induction buf as [|b buf IH]; intros [|k key] Hl Hk; try done. cbn [strcmp_block].
  destruct (byte_eqb_spec b k) as [->|]; [|done]. apply not_elem_of_cons in Hk as [Hk0 Hk].
  apply IH; [|done]. destruct buf; [|done]. injection Hl as ->. done.
Qed.

Lemma last_drop {A} (l : list A) n x : last l = Some x -> (n < length l)%nat -> last (drop n l) = Some x.
Proof.
  rewrite !last_lookup, lookup_drop, length_drop. intros <- Hn. f_equal. lia.
Qed.

(** A string that is where the pointer is compares as a string. *)
Lemma strcmp_string name rest key :
  x00 ∉ name -> x00 ∉ key -> strcmp_block (name ++ x00 :: rest) key = Some (bool_decide (name = key)).
Proof.
  revert key. induction name as [|b name IH]; intros [|k key] Hn Hk; cbn [app strcmp_block].
  - done.
  - destruct (byte_eqb_spec x00 k) as [<-|]; [set_solver|]. by rewrite bool_decide_false.
  - destruct (byte_eqb_spec b x00) as [->|]; [set_solver|]. by rewrite bool_decide_false.
  - apply not_elem_of_cons in Hn as [_ Hn]. apply not_elem_of_cons in Hk as [_ Hk].
    destruct (byte_eqb_spec b k) as [->|Hb].
    + rewrite IH by done. f_equal. apply bool_decide_ext. naive_solver.
    + rewrite bool_decide_false; [done|]. congruence.
Qed.

Lemma pread_full_length rd call n off buf :
  pread_full rd call n off = Some buf -> Z.of_nat (length buf) = n /\ rd call (s64 off) n = Some buf.
Proof.
  unfold pread_full. destruct (rd call (s64 off) n) as [b|]; [|done].
  destruct (Z.eqb_spec (Z.of_nat (length b)) n); [|done]. by intros [= ->].
Qed.

Lemma array_of_length {A} (elem : list byte -> A) size n b : length (array_of elem size n b) = n.
Proof. revert b. induction n; intros b; simpl; [done|by f_equal]. Qed.

Lemma find_sections_terminated shdrs tab size d1 d2 :
  last tab = Some x00 -> Z.of_nat (length tab) = size ->
  Forall (fun sh => 0 <= sh_name sh) shdrs ->
  find_sections shdrs tab size d1 d2 <> None.
Proof.
  intros Hl Hs Hn. revert d1 d2. induction Hn as [|sh shdrs Hsh _ IH]; intros d1 d2; [done|].
  cbn [find_sections]. destruct (Z.leb_spec size (sh_name sh)); [apply IH|].
  assert (Ht : last (drop (Z.to_nat (sh_name sh)) tab) = Some x00) by (apply last_drop; [done|lia]).
  destruct (sh_type sh =? SHT_DYNSYM).
  - pose proof (strcmp_terminated _ (bs ".dynsym") Ht ltac:(vm_compute; set_solver)) as Hc.
    destruct (strcmp_block _ _) as [[]|]; [apply IH|apply IH|done].
  - destruct (sh_type sh =? SHT_STRTAB); [|apply IH].
    pose proof (strcmp_terminated _ (bs ".dynstr") Ht ltac:(vm_compute; set_solver)) as Hc.
    destruct (strcmp_block _ _) as [[]|]; [apply IH|apply IH|done].
Qed.

Lemma find_symbol_terminated syms tab size symbol :
  last tab = Some x00 -> Z.of_nat (length tab) = size -> x00 ∉ symbol ->
  Forall (fun s => 0 <= st_name s) syms -> find_symbol syms tab size symbol <> Overread.
Proof.
  intros Hl Hs Hsym Hn. induction Hn as [|s syms Hst _ IH]; [done|]. cbn [find_symbol].
  destruct (Z.leb_spec size (st_name s)); [by rewrite orb_true_r|]. rewrite orb_false_r.
  destruct (_ || _); [done|].
  pose proof (strcmp_terminated (drop (Z.to_nat (st_name s)) tab) symbol) as Hc.
  destruct (strcmp_block _ _) as [[]|]; [done|done|]. exfalso. apply Hc; [|done|done].
  apply last_drop; [done|lia].
Qed.

Lemma array_of_forall {A} (P : A -> Prop) elem size n b :
  (forall b, P (elem b)) -> Forall P (array_of elem size n b).
Proof. intros HP. revert b. induction n; intros b; simpl; constructor; auto. Qed.

(** The sections picked are among the headers, the second of type STRTAB. *)
Lemma find_sections_picks (P Q : Elf64_Shdr -> Prop) shdrs tab size : forall d1 d2 r1 r2,
  find_sections shdrs tab size d1 d2 = Some (r1, r2) ->
  Forall P shdrs -> Forall (fun sh => sh_type sh = SHT_STRTAB -> Q sh) shdrs ->
  (forall sh, d1 = Some sh -> P sh) -> (forall sh, d2 = Some sh -> Q sh) ->
  (forall sh, r1 = Some sh -> P sh) /\ (forall sh, r2 = Some sh -> Q sh).
Proof.
  induction shdrs as [|sh shdrs IH]; intros d1 d2 r1 r2 H Hp Hq H1 H2; cbn [find_sections] in H.
  { by injection H as <- <-. }
  apply Forall_cons in Hp as [Psh Hp]. apply Forall_cons in Hq as [Qsh Hq].
  assert (H1' : forall s, Some sh = Some s -> P s) by (by intros s [= <-]).
  repeat case_match; try done; eapply IH; eauto.
  intros s [= <-]. apply Qsh. lia.
Qed.

Lemma symbol_in_terminated rd alloc dynsym dynstr symbol :
  x00 ∉ symbol -> 0 <= sh_size dynsym ->
  symbol_in rd alloc dynsym dynstr symbol = Overread ->
  exists buf, pread_full rd 4 (sh_size dynstr) (sh_offset dynstr) = Some buf /\
    buf <> [] /\ last buf <> Some x00.
Proof.
  intros Hsym Hsz. unfold symbol_in.
  destruct (negb (sh_entsize dynsym =? SYM_SIZE) || negb (strtab_ok dynstr)) eqn:Eok; [done|].
  set (nsyms := u32 _). destruct ((nsyms =? 0) || _); [done|].
  destruct (malloc_ok _ _ && malloc_ok _ _); [|done]. cbn [negb].
  destruct (pread_full rd 3 _ _) as [sb|] eqn:E3; [|done].
  destruct (pread_full rd 4 _ _) as [tab|] eqn:E4; [|done].
  apply pread_full_length in E3 as [H3 _]. pose proof (pread_full_length _ _ _ _ _ E4) as [H4 _].
  assert (Hn : SYM_SIZE * nsyms <= sh_size dynsym).
  { unfold nsyms, u32, SYM_SIZE. lia_mod. }
  rewrite (proj2 (Nat.ltb_ge _ _)) by lia. intros Ho.
  exists tab. split; [done|].
  apply orb_false_iff in Eok as [_ Eok]. apply negb_false_iff, andb_true_iff in Eok as [Eok _].
  apply negb_true_iff, Z.eqb_neq in Eok. split; [intros ->; simpl in H4; lia|].
  intros Hl. revert Ho. apply find_symbol_terminated; try done.
  apply array_of_forall. intros b. apply le_val_nonneg.
Qed.

(** The section headers as they are read. *)
Definition section_headers (rd : ereader) : list Elf64_Shdr * Z :=
  match pread_full rd 0 EHDR_SIZE 0 with
  | Some hb =>
      let eh := ehdr_of hb in
      match pread_full rd 1 (e_shnum eh * SHDR_SIZE) (e_shoff eh) with
      | Some tb => (array_of shdr_of (Z.to_nat SHDR_SIZE) (Z.to_nat (e_shnum eh)) tb, e_shstrndx eh)
      | None => ([], 0)
      end
  | None => ([], 0)
  end.

(** The section that [dynstr] points to after the loop over the headers. *)
Definition dynstr_section (rd : ereader) : option Elf64_Shdr :=
  let '(shdrs, idx) := section_headers rd in
  shstr ← shdrs !! Z.to_nat idx;
  tab ← pread_full rd 2 (sh_size shstr) (sh_offset shstr);
  picked ← find_sections shdrs tab (sh_size shstr) None None;
  picked.2.

(** The two string tables that are read end in a NUL: that of the section names,
    and the one picked as [.dynstr]. *)
Definition terminated (rd : ereader) : Prop :=
  (forall sh buf, (section_headers rd).1 !! Z.to_nat (section_headers rd).2 = Some sh ->
     pread_full rd 2 (sh_size sh) (sh_offset sh) = Some buf -> buf <> [] -> last buf = Some x00) /\
  (forall sh buf, dynstr_section rd = Some sh ->
     pread_full rd 4 (sh_size sh) (sh_offset sh) = Some buf -> buf <> [] -> last buf = Some x00).

(** Only an unterminated table leads out of its block. *)
Lemma elf_no_overread rd alloc symbol :
  x00 ∉ symbol -> terminated rd -> elf_find_symbol_offset rd alloc symbol <> Overread.
Proof.
  intros Hsym. unfold terminated, dynstr_section, section_headers, elf_find_symbol_offset.
  destruct (pread_full rd 0 _ _) as [hb|]; [|done]. set (eh := ehdr_of hb).
  destruct (ehdr_ok eh) eqn:Eh; [|done]. cbn [negb]. destruct (negb _); [done|].
  destruct (pread_full rd 1 _ _) as [tb|]; [|done].
  set (shdrs := array_of _ _ _ tb). cbn [fst snd]. intros [Ht Ht'].
  assert (Hi : 0 <= e_shstrndx eh < e_shnum eh).
  { split; [apply (le_val_nonneg (take 2 (drop 62 hb)))|]. unfold ehdr_ok in Eh.
    apply andb_true_iff in Eh as [_ Eh]. lia. }
  destruct (shdrs !! Z.to_nat (e_shstrndx eh)) as [shstr|] eqn:Es.
  2:{ apply lookup_ge_None in Es. unfold shdrs in Es. rewrite array_of_length in Es. lia. }
  destruct (_ || _) eqn:Eok; [done|].
  destruct (pread_full rd 2 _ _) as [tab|] eqn:E2; [|done].
  pose proof (pread_full_length _ _ _ _ _ E2) as [H2 _].
  apply orb_false_iff in Eok as [Eok _]. apply negb_false_iff, andb_true_iff in Eok as [Eok _].
  apply negb_true_iff, Z.eqb_neq in Eok.
  assert (Hl : last tab = Some x00).
  { apply (Ht shstr); [done|done|]. intros ->. simpl in H2. lia. }
  cbn [mbind option_bind] in Ht'. rewrite E2 in Ht'. cbn [mbind option_bind] in Ht'.
  pose proof (find_sections_terminated shdrs tab (sh_size shstr) None None Hl H2) as Hf.
  destruct (find_sections shdrs tab _ None None) as [[[ds|] [dn|]]|] eqn:Ef; try done.
  2:{ exfalso. apply Hf; [|done]. apply array_of_forall. intros b. apply le_val_nonneg. }
  intros Ho. destruct (find_sections_picks (fun sh => 0 <= sh_size sh) (fun _ => True) _ _ _ _ _ _ _ Ef)
    as [Hds _]; [| |done|done|].
  - apply array_of_forall. intros b. apply le_val_nonneg.
  - by apply Forall_true.
  - apply symbol_in_terminated in Ho as (buf & Hr & Hne & Hlast); [|done|by apply Hds].
    by apply Hlast, (Ht' dn).
Qed.

(** ** Reference: a library image *)

Record lib_symbol := LibSymbol { ls_name : cstring; ls_value : Z; ls_size : Z }.

Definition zeros (n : nat) : list byte := replicate n x00.

Definition shstr_bytes : list byte := [x00] ++ bs ".dynsym" ++ [x00] ++ bs ".dynstr" ++ [x00].

(** The string table and the symbol table that refers to it; [off] is where
    the next name goes. *)
Definition names_bytes (syms : list lib_symbol) : list byte := syms ≫= fun s => ls_name s ++ [x00].

Fixpoint syms_bytes (off : Z) (syms : list lib_symbol) : list byte :=
  match syms with
  | [] => []
  | s :: syms =>
      le 4 off ++ zeros 4 ++ le 8 (ls_value s) ++ le 8 (ls_size s)
      ++ syms_bytes (off + Z.of_nat (length (ls_name s)) + 1) syms
  end.

Definition shdr_bytes (sh : Elf64_Shdr) : list byte :=
  le 4 (sh_name sh) ++ le 4 (sh_type sh) ++ zeros 16 ++ le 8 (sh_offset sh) ++ le 8 (sh_size sh)
  ++ zeros 16 ++ le 8 (sh_entsize sh).

Definition ident_bytes : list byte := [x7f; x45; x4c; x46; x02; x01; x01] ++ zeros 9.

Definition ehdr_bytes (shoff : Z) : list byte :=
  ident_bytes ++ zeros 24 ++ le 8 shoff ++ zeros 10 ++ le 2 64 ++ le 2 4 ++ le 2 3.

Definition dynstr_bytes (syms : list lib_symbol) : list byte := x00 :: names_bytes syms.
Definition dynsym_bytes (syms : list lib_symbol) : list byte := zeros 24 ++ syms_bytes 1 syms.

(** The four section headers: none, symbols, their names, section names. *)
Definition lib_shdrs (syms : list lib_symbol) : list Elf64_Shdr :=
  let a := 64 + 256 in
  let b := a + Z.of_nat (length shstr_bytes) in
  let c := b + Z.of_nat (length (dynstr_bytes syms)) in
  [Shdr 0 0 0 0 0;
   Shdr 1 SHT_DYNSYM c (Z.of_nat (length (dynsym_bytes syms))) SYM_SIZE;
   Shdr 9 SHT_STRTAB b (Z.of_nat (length (dynstr_bytes syms))) 0;
   Shdr 0 SHT_STRTAB a (Z.of_nat (length shstr_bytes)) 0].

(** A library that exports [syms], with [code] behind its tables. *)
Definition lib_image (syms : list lib_symbol) (code : list byte) : list byte :=
  ehdr_bytes 64 ++ (lib_shdrs syms ≫= shdr_bytes) ++ shstr_bytes ++ dynstr_bytes syms
  ++ dynsym_bytes syms ++ code.

(** What the format allows of a symbol; an undefined one has the value 0. *)
Definition symbol_ok (s : lib_symbol) : Prop :=
  x00 ∉ ls_name s /\ 0 <= ls_value s < 2 ^ 64 /\ 0 <= ls_size s < 2 ^ 64.

(** An unchanging file: reads within it are whole. *)
Definition reads_file (rd : ereader) (f : list byte) : Prop :=
  forall call off n, 0 <= off -> 0 <= n -> off + n <= Z.of_nat (length f) ->
    rd call off n = Some (take (Z.to_nat n) (drop (Z.to_nat off) f)).

(** A field behind a prefix of the right length. *)
Lemma field_at off n pre z rest :
  length pre = off -> 0 <= z < 256 ^ Z.of_nat n -> field off n (pre ++ le n z ++ rest) = z.
Proof.
  intros Hp Hz. unfold field. rewrite drop_app_length' by done.
  rewrite take_app_length' by (by rewrite le_length). by apply le_val_le.
Qed.

Create HintDb elf.
#[local] Hint Rewrite @length_app @length_replicate le_length : elf.

Lemma pread_at rd f call pre mid post n off :
  reads_file rd f -> f = pre ++ mid ++ post -> Z.of_nat (length pre) = off -> off < 2 ^ 63 ->
  Z.of_nat (length mid) = n -> pread_full rd call n off = Some mid.
Proof.
  intros Hr -> Ho Hb Hn. unfold pread_full, s64. rewrite Z.mod_small by lia.
  replace (off + 2 ^ 63 - 2 ^ 63) with off by lia.
  rewrite Hr by (rewrite ?length_app; lia).
  rewrite drop_app_length' by lia. rewrite take_app_length' by lia. by rewrite Hn, Z.eqb_refl.
Qed.

Definition shdr_fits (sh : Elf64_Shdr) : Prop :=
  0 <= sh_name sh < 2 ^ 32 /\ 0 <= sh_type sh < 2 ^ 32 /\ 0 <= sh_offset sh < 2 ^ 64 /\
  0 <= sh_size sh < 2 ^ 64 /\ 0 <= sh_entsize sh < 2 ^ 64.

Lemma shdr_bytes_length sh : length (shdr_bytes sh) = Z.to_nat SHDR_SIZE.
Proof. unfold shdr_bytes, zeros. by autorewrite with elf. Qed.

Lemma shdr_of_bytes sh : shdr_fits sh -> shdr_of (shdr_bytes sh) = sh.
Proof.
  intros (H1 & H2 & H3 & H4 & H5). unfold shdr_of, shdr_bytes, zeros.
  pose proof (field_at 0 4 [] (sh_name sh) (le 4 (sh_type sh) ++ replicate 16 x00
    ++ le 8 (sh_offset sh) ++ le 8 (sh_size sh) ++ replicate 16 x00 ++ le 8 (sh_entsize sh))
    eq_refl H1) as F1.
  cbn [app] in F1. rewrite F1, (field_at 4 4) by (by autorewrite with elf).
  rewrite (app_assoc (le 4 _) (le 4 _)), (app_assoc _ (replicate 16 x00) (le 8 _ ++ _)).
  rewrite (field_at 24 8) by (by autorewrite with elf).
  rewrite (app_assoc _ (le 8 (sh_offset sh))), (field_at 32 8) by (by autorewrite with elf).
  rewrite (app_assoc _ (le 8 (sh_size sh))), (app_assoc _ (replicate 16 x00) (le _ _)).
  rewrite <- (app_nil_r (le 8 (sh_entsize sh))), (field_at 56 8) by (by autorewrite with elf).
  by destruct sh.
Qed.

Lemma array_of_bind {A} (elem : list byte -> A) enc size l :
  Forall (fun x => elem (enc x) = x /\ length (enc x) = size) l ->
  array_of elem size (length l) (l ≫= enc) = l.
Proof.
  induction 1 as [|x l [Hx Hs] _ IH]; [done|]. cbn [length array_of mbind list_bind].
  rewrite take_app_length', drop_app_length' by done. rewrite Hx. f_equal. exact IH.
Qed.

Fixpoint syms_at (off : Z) (syms : list lib_symbol) : list Elf64_Sym :=
  match syms with
  | [] => []
  | s :: syms => Sym off (ls_value s) (ls_size s) :: syms_at (off + Z.of_nat (length (ls_name s)) + 1) syms
  end.

Lemma sym_of_bytes off value size :
  0 <= off < 2 ^ 32 -> 0 <= value < 2 ^ 64 -> 0 <= size < 2 ^ 64 ->
  sym_of (le 4 off ++ zeros 4 ++ le 8 value ++ le 8 size) = Sym off value size.
Proof.
  intros H1 H2 H3. unfold sym_of, zeros.
  pose proof (field_at 0 4 [] off (replicate 4 x00 ++ le 8 value ++ le 8 size) eq_refl H1) as F1.
  cbn [app] in F1. rewrite F1, (app_assoc (le 4 off)), (field_at 8 8) by (by autorewrite with elf).
  rewrite (app_assoc _ (le 8 value)), <- (app_nil_r (le 8 size)).
  by rewrite (field_at 16 8) by (by autorewrite with elf).
Qed.

Lemma syms_bytes_length off syms : length (syms_bytes off syms) = (24 * length syms)%nat.
Proof.
  revert off. induction syms as [|s syms IH]; intros off; [done|]. cbn [syms_bytes length].
  unfold zeros. autorewrite with elf. rewrite IH. lia.
Qed.

Lemma syms_of_bytes off syms :
  Forall symbol_ok syms -> 0 <= off -> off + Z.of_nat (length (names_bytes syms)) < 2 ^ 32 ->
  array_of sym_of 24 (length syms) (syms_bytes off syms) = syms_at off syms.
Proof.
  intros Hs. revert off. induction Hs as [|s syms (_ & Hv & Hz) _ IH]; intros off Ho Hb; [done|].
  cbn [length array_of syms_bytes syms_at]. unfold names_bytes in Hb. cbn [mbind list_bind] in Hb.
  rewrite !length_app in Hb. cbn [length] in Hb.
  replace (le 4 off ++ zeros 4 ++ le 8 (ls_value s) ++ le 8 (ls_size s) ++ syms_bytes (off + Z.of_nat (length (ls_name s)) + 1) syms)
    with ((le 4 off ++ zeros 4 ++ le 8 (ls_value s) ++ le 8 (ls_size s)) ++ syms_bytes (off + Z.of_nat (length (ls_name s)) + 1) syms)
    by (rewrite <- !app_assoc; done).
  assert (Hl : length (le 4 off ++ zeros 4 ++ le 8 (ls_value s) ++ le 8 (ls_size s)) = 24%nat)
    by (unfold zeros; by autorewrite with elf).
  rewrite take_app_length', drop_app_length' by done. rewrite sym_of_bytes by lia.
  f_equal. apply IH; [lia|]. unfold names_bytes. lia.
Qed.

(** The reference lookup: the first defined symbol of the name. *)
Definition lookup_symbol (symbol : cstring) (syms : list lib_symbol) : elf_result :=
  match List.find (fun s => bool_decide (ls_name s = symbol /\ ls_value s <> 0)) syms with
  | Some s => Found (ls_value s) (ls_size s)
  | None => Fail_
  end.

Lemma find_symbol_at symbol syms : forall off pre,
  x00 ∉ symbol -> Forall symbol_ok syms -> 0 < off -> Z.of_nat (length pre) = off ->
  find_symbol (syms_at off syms) (pre ++ names_bytes syms)
    (Z.of_nat (length (pre ++ names_bytes syms))) symbol = lookup_symbol symbol syms.
Proof.
  intros off pre Hsym Hs. revert off pre.
  induction Hs as [|s syms (Hn & Hv & _) _ IH]; intros off pre Ho Hp; [done|].
  cbn [syms_at find_symbol st_name st_value st_size]. unfold lookup_symbol. cbn [List.find].
  assert (En : names_bytes (s :: syms) = ls_name s ++ x00 :: names_bytes syms).
  { unfold names_bytes. cbn [mbind list_bind]. by rewrite <- app_assoc. }
  rewrite En, (proj2 (Z.eqb_neq off 0)) by lia.
  rewrite (proj2 (Z.leb_gt _ _)) by (rewrite !length_app; cbn [length]; lia). cbn [orb].
  specialize (IH (off + Z.of_nat (length (ls_name s)) + 1) (pre ++ ls_name s ++ [x00]) ltac:(lia)).
  rewrite <- !app_assoc in IH. cbn [app] in IH.
  assert (Hp' : Z.of_nat (length (pre ++ ls_name s ++ [x00])) = off + Z.of_nat (length (ls_name s)) + 1)
    by (rewrite !length_app; cbn [length]; lia).
  specialize (IH Hp'). destruct (Z.eqb_spec (ls_value s) 0) as [E|E].
  { rewrite bool_decide_false by naive_solver. exact IH. }
  rewrite drop_app_length' by lia. rewrite strcmp_string by done.
  case_bool_decide as Hd; [by rewrite bool_decide_true|]. rewrite bool_decide_false by naive_solver. exact IH.
Qed.

(** The bounds within which a library's tables are accepted. *)
Definition lib_fits (syms : list lib_symbol) : Prop :=
  Forall symbol_ok syms /\ Z.of_nat (length (dynstr_bytes syms)) <= AC_ELF_MAX_STRTAB /\
  Z.of_nat (length syms) < AC_ELF_MAX_SYMS.

Lemma ehdr_bytes_length shoff : length (ehdr_bytes shoff) = 64%nat.
Proof. unfold ehdr_bytes, ident_bytes, zeros. by autorewrite with elf. Qed.

Lemma lib_shdrs_fit syms : lib_fits syms -> Forall shdr_fits (lib_shdrs syms).
Proof.
  intros (_ & H1 & H2). unfold AC_ELF_MAX_STRTAB, AC_ELF_MAX_SYMS in *.
  assert (Hd : length (dynsym_bytes syms) = (24 + 24 * length syms)%nat)
    by (unfold dynsym_bytes, zeros; by rewrite length_app, syms_bytes_length).
  unfold lib_shdrs. change (length shstr_bytes) with 17%nat.
  repeat constructor; unfold SHT_DYNSYM, SHT_STRTAB, SYM_SIZE; cbn [sh_name sh_type sh_offset sh_size sh_entsize];
    lia.
Qed.

Lemma lib_symbol_in rd syms code symbol :
  reads_file rd (lib_image syms code) -> lib_fits syms -> x00 ∉ symbol ->
  forall ds dn, lib_shdrs syms !! 1%nat = Some ds -> lib_shdrs syms !! 2%nat = Some dn ->
  symbol_in rd (fun _ => true) ds dn symbol = lookup_symbol symbol syms.
Proof.
  intros Hr (Hok & Hb1 & Hb2) Hsym ds dn Eds%(inj Some) Edn%(inj Some). subst ds dn.
  unfold AC_ELF_MAX_STRTAB, AC_ELF_MAX_SYMS in *.
  assert (Hd : length (dynsym_bytes syms) = (24 + 24 * length syms)%nat)
    by (unfold dynsym_bytes, zeros; by rewrite length_app, syms_bytes_length).
  assert (Hx : length (lib_shdrs syms ≫= shdr_bytes) = 256%nat).
  { unfold lib_shdrs. cbn [mbind list_bind]. by rewrite !length_app, !shdr_bytes_length. }
  unfold symbol_in, strtab_ok, malloc_ok, AC_ELF_MAX_STRTAB, AC_ELF_MAX_SYMS, SYM_SIZE.
  cbn [sh_entsize sh_size sh_offset]. rewrite Z.eqb_refl. cbn [negb orb].
  assert (Hne : Z.of_nat (length (dynstr_bytes syms)) <> 0) by (unfold dynstr_bytes; simpl; lia).
  rewrite (proj2 (Z.eqb_neq _ _) Hne), (proj2 (Z.leb_le _ _) Hb1). cbn [negb andb].
  assert (En : u32 (Z.of_nat (length (dynsym_bytes syms)) / 24) = Z.of_nat (S (length syms))).
  { rewrite Hd. unfold u32. replace (Z.of_nat (24 + 24 * length syms)) with (Z.of_nat (S (length syms)) * 24) by lia.
    rewrite Z.div_mul by lia. apply Z.mod_small. lia. }
  rewrite En, (proj2 (Z.eqb_neq _ 0)), (proj2 (Z.ltb_ge _ _)) by lia. cbn [orb].
  rewrite !(proj2 (Z.ltb_lt _ _)) by lia. cbn [andb negb].
  rewrite (pread_at rd (lib_image syms code) 3 (ehdr_bytes 64 ++ (lib_shdrs syms ≫= shdr_bytes) ++ shstr_bytes
    ++ dynstr_bytes syms) (dynsym_bytes syms) code); [|done| | |change (length shstr_bytes) with 17%nat; lia|done].
  2:{ unfold lib_image. by rewrite <- !app_assoc. }
  2:{ rewrite !length_app, Hx, ehdr_bytes_length. lia. }
  rewrite (pread_at rd (lib_image syms code) 4 (ehdr_bytes 64 ++ (lib_shdrs syms ≫= shdr_bytes) ++ shstr_bytes)
    (dynstr_bytes syms) (dynsym_bytes syms ++ code)); [|done| | |change (length shstr_bytes) with 17%nat; lia|done].
  2:{ unfold lib_image. by rewrite <- !app_assoc. }
  2:{ rewrite !length_app, Hx, ehdr_bytes_length. lia. }
  rewrite (proj2 (Nat.ltb_ge _ _)) by lia. rewrite Nat2Z.id.
  change (Z.to_nat 24) with 24%nat. cbn [array_of]. unfold dynsym_bytes at 1 2.
  rewrite take_app_length', drop_app_length' by done.
  unfold dynstr_bytes in Hb1. cbn [length] in Hb1.
  rewrite syms_of_bytes by (done || lia).
  change (find_symbol (sym_of (zeros 24) :: ?l)) with (find_symbol l).
  apply (find_symbol_at symbol syms 1 [x00]); done.
Qed.

Lemma lib_find rd syms code symbol :
  reads_file rd (lib_image syms code) -> lib_fits syms -> x00 ∉ symbol ->
  elf_find_symbol_offset rd (fun _ => true) symbol = lookup_symbol symbol syms.
Proof.
  intros Hr Hf Hsym. pose proof (lib_shdrs_fit syms Hf) as Hfit. unfold elf_find_symbol_offset.
  assert (Hx : length (lib_shdrs syms ≫= shdr_bytes) = 256%nat).
  { unfold lib_shdrs. cbn [mbind list_bind]. by rewrite !length_app, !shdr_bytes_length. }
  rewrite (pread_at rd (lib_image syms code) 0 [] (ehdr_bytes 64) ((lib_shdrs syms ≫= shdr_bytes) ++ shstr_bytes ++ dynstr_bytes syms
    ++ dynsym_bytes syms ++ code)); [|done|done|done|done|by rewrite ehdr_bytes_length].
  assert (Eh : ehdr_of (ehdr_bytes 64) = Ehdr ident_bytes 64 64 4 3) by (vm_compute; reflexivity).
  rewrite Eh. change (ehdr_ok _) with true. cbn [negb e_shnum e_shoff e_shstrndx].
  change (malloc_ok _ _) with true at 1. cbn [negb].
  rewrite (pread_at rd (lib_image syms code) 1 (ehdr_bytes 64) (lib_shdrs syms ≫= shdr_bytes) (shstr_bytes ++ dynstr_bytes syms
    ++ dynsym_bytes syms ++ code)); [|done|done|done|done|by rewrite Hx].
  assert (Ea : array_of shdr_of (Z.to_nat SHDR_SIZE) (Z.to_nat 4) (lib_shdrs syms ≫= shdr_bytes) = lib_shdrs syms).
  { apply (array_of_bind shdr_of shdr_bytes (Z.to_nat SHDR_SIZE) (lib_shdrs syms)).
    eapply Forall_impl; [exact Hfit|]. intros sh Hsh.
    split; [by apply shdr_of_bytes|apply shdr_bytes_length]. }
  rewrite Ea. change (lib_shdrs syms !! Z.to_nat 3) with
    (Some (Shdr 0 SHT_STRTAB (64 + 256) (Z.of_nat (length shstr_bytes)) 0)).
  change (length shstr_bytes) with 17%nat. cbn [sh_size sh_offset].
  change (strtab_ok _) with true. change (malloc_ok _ _) with true at 1. cbn [negb orb].
  rewrite (pread_at rd (lib_image syms code) 2 (ehdr_bytes 64 ++ (lib_shdrs syms ≫= shdr_bytes)) shstr_bytes
    (dynstr_bytes syms ++ dynsym_bytes syms ++ code));
    [|done|unfold lib_image; by rewrite <- !app_assoc|rewrite length_app, Hx, ehdr_bytes_length; lia|done|done].
  pose proof (lib_symbol_in rd syms code symbol Hr Hf Hsym _ _ eq_refl eq_refl) as Hs.
  unfold lib_shdrs at 1. cbn [find_sections sh_name sh_type]. exact Hs.
Qed.

(** ** Reference: file and memory *)

Definition file_byte (f : list byte) (a : Z) : option byte :=
  if a <? 0 then None else f !! Z.to_nat a.

(** A descriptor that answers from [m]: a range that is readable is read whole,
    one that is not is not. *)
Definition reads_range (rd : ereader) (m : Z -> option byte) : Prop :=
  forall call off n, 0 <= off ->
  match range m off n with
  | Some l => rd call off (Z.of_nat n) = Some l
  | None => forall l, rd call off (Z.of_nat n) = Some l -> length l <> n
  end.

Lemma file_range f off n :
  (off + n <= length f)%nat -> range (file_byte f) (Z.of_nat off) n = Some (take n (drop off f)).
Proof.
  intros H. assert (Hl : length (take n (drop off f)) = n) by (rewrite length_take, length_drop; lia).
  rewrite <- Hl at 1. apply range_list. intros j b Hj. unfold file_byte.
  rewrite (proj2 (Z.ltb_ge _ _)) by lia.
  apply lookup_take_Some in Hj as [Hj _]. rewrite lookup_drop in Hj. rewrite <- Hj. f_equal. lia.
Qed.

Lemma reads_range_file rd f : reads_range rd (file_byte f) -> reads_file rd f.
Proof.
  intros Hr call off n Ho Hn Hb. specialize (Hr call off (Z.to_nat n) Ho).
  pose proof (file_range f (Z.to_nat off) (Z.to_nat n) ltac:(lia)) as Hf.
  rewrite Z2Nat.id in Hf by lia. rewrite Hf in Hr. by rewrite Z2Nat.id in Hr by lia.
Qed.

Lemma pread_range rd m call off n :
  reads_range rd m -> 0 <= off < 2 ^ 63 -> 0 <= n ->
  pread_full rd call n off = range m off (Z.to_nat n).
Proof.
  intros Hr Ho Hn. unfold pread_full, s64. rewrite Z.mod_small by lia.
  replace (off + 2 ^ 63 - 2 ^ 63) with off by lia.
  specialize (Hr call off (Z.to_nat n) ltac:(lia)). rewrite Z2Nat.id in Hr by lia.
  destruct (range m off (Z.to_nat n)) as [l|] eqn:E.
  - rewrite Hr. apply range_length in E. by rewrite (proj2 (Z.eqb_eq _ _)) by lia.
  - destruct (rd call off n) as [l|]; [|done]. specialize (Hr l eq_refl).
    by rewrite (proj2 (Z.eqb_neq _ _)) by lia.
Qed.

Lemma check_length_bounds size :
  0 <= size -> 8 <= check_length size <= 512 /\ (size <> 0 -> Z.min size 512 <= check_length size).
Proof.
  intros H. unfold check_length, AC_HOOK_CHECK_MIN_BYTES, AC_HOOK_CHECK_MAX_BYTES, AC_HOOK_CHECK_DEFAULT_BYTES.
  destruct (Z.eqb_spec size 0), (Z.ltb_spec size 8), (Z.ltb_spec 512 size); lia.
Qed.

(** The sizes the parser returns are members of a structure. *)
Lemma find_symbol_nonneg syms tab size symbol v z :
  Forall (fun s => 0 <= st_size s) syms -> find_symbol syms tab size symbol = Found v z -> 0 <= z.
Proof.
  intros Hs. induction Hs as [|s syms Hz _ IH]; [done|]. cbn [find_symbol].
  destruct (_ || _ || _); [done|]. destruct (strcmp_block _ _) as [[]|]; [|done|done].
  by intros [= _ <-].
Qed.

Lemma elf_found_size rd alloc symbol v z :
  elf_find_symbol_offset rd alloc symbol = Found v z -> 0 <= z.
Proof.
  unfold elf_find_symbol_offset, symbol_in. intros H. repeat case_match; try done.
  eapply find_symbol_nonneg; [|exact H]. apply array_of_forall. intros b. apply le_val_nonneg.
Qed.

(** The verdict in terms of the two ranges. *)
Lemma compare_ranges lib mem f m alloc lib_base symbol offset size :
  reads_range lib (file_byte f) -> reads_range mem m ->
  elf_find_symbol_offset lib alloc symbol = Found offset size ->
  0 <= offset -> 0 <= lib_base -> lib_base + offset < 2 ^ 63 ->
  let n := Z.to_nat (check_length size) in
  compare_render_symbol (Some lib) (Some mem) alloc lib_base symbol =
  Some match range (file_byte f) offset n, range m (lib_base + offset) n with
       | Some expected, Some actual => if bool_decide (expected = actual) then 0 else 1
       | _, _ => -1
       end.
Proof.
  intros Hl Hm Hf Ho Hb Hs n. unfold compare_render_symbol. rewrite Hf.
  pose proof (proj1 (check_length_bounds size (elf_found_size _ _ _ _ _ Hf))) as Hc.
  rewrite (pread_range lib (file_byte f)) by (done || lia).
  unfold u64. rewrite (Z.mod_small (lib_base + offset)) by lia.
  rewrite (pread_range mem m) by (done || lia). fold n.
  destruct (range (file_byte f) offset n); [|done]. by destruct (range m (lib_base + offset) n).
Qed.

(** ** Properties *)

(** C20: the parser finds exactly what a library exports.  For a file laid out
    as the ELF format says (header, four section headers, section names, symbol
    names, symbols, then arbitrary contents), with any symbols within the
    format's ranges, undefined ones (value 0) included, and within the parser's
    limits of 4 MiB of names and 499999 symbols, when the file is read as it is
    and [malloc] succeeds: looking a name up returns the value and size of the first defined symbol
    with that name, skipping undefined ones, and fails if there is none. *)
Theorem elf_roundtrip rd syms code symbol :
  reads_range rd (file_byte (lib_image syms code)) ->
  Forall symbol_ok syms ->
  Z.of_nat (length (dynstr_bytes syms)) <= AC_ELF_MAX_STRTAB ->
  Z.of_nat (length syms) < AC_ELF_MAX_SYMS -> x00 ∉ symbol ->
  elf_find_symbol_offset rd (fun _ => true) symbol =
  match List.find (fun s => bool_decide (ls_name s = symbol /\ ls_value s <> 0)) syms with
  | Some s => Found (ls_value s) (ls_size s)
  | None => Fail_
  end.
Proof.
  intros Hr H1 H2 H3 Hs. apply (lib_find rd syms code symbol); [by apply reads_range_file|done|done].
Qed.

(** C21: whatever a file contains, however it changes between reads and
    whatever [malloc] does, the parser stays inside its buffers unless one of
    the two string tables it reads does not end in a NUL: the table of section
    names, as the third read returns it, and the table of the section it picked
    as [.dynstr], as the fifth read returns it.  Other tables of the file do not
    matter.  The header array, the symbol array (whose element count is computed
    at 32 bits from a 64-bit size) and both tables are never read outside. *)
Theorem elf_bounds_safe rd alloc symbol :
  x00 ∉ symbol ->
  (forall sh buf, (section_headers rd).1 !! Z.to_nat (section_headers rd).2 = Some sh ->
     pread_full rd 2 (sh_size sh) (sh_offset sh) = Some buf -> buf <> [] -> last buf = Some x00) ->
  (forall sh buf, dynstr_section rd = Some sh ->
     pread_full rd 4 (sh_size sh) (sh_offset sh) = Some buf -> buf <> [] -> last buf = Some x00) ->
  elf_find_symbol_offset rd alloc symbol <> Overread.
Proof. intros Hs H1 H2. by apply elf_no_overread. Qed.

(** C19: a patched function is detected.  When the symbol was found, and the
    file's bytes and the target's bytes of the compared length are readable,
    the verdict is 1 exactly when some byte of it differs between the file at
    the symbol's value and the target's memory at load base plus value, and 0
    otherwise; if either range is unreadable it is -1, never a detection.  The
    compared length is between 8 and 512 bytes and covers the whole declared
    function up to 512 bytes. *)
Theorem render_hook_exact lib mem f m alloc lib_base symbol offset size :
  reads_range lib (file_byte f) -> reads_range mem m ->
  elf_find_symbol_offset lib alloc symbol = Found offset size ->
  0 <= offset -> 0 <= lib_base -> lib_base + offset < 2 ^ 63 ->
  let n := check_length size in
  let verdict := compare_render_symbol (Some lib) (Some mem) alloc lib_base symbol in
  8 <= n <= 512 /\ (size <> 0 -> Z.min size 512 <= n) /\
  (is_Some (range (file_byte f) offset (Z.to_nat n)) ->
   is_Some (range m (lib_base + offset) (Z.to_nat n)) ->
   (verdict = Some 1 <-> exists j, 0 <= j < n /\ file_byte f (offset + j) <> m (lib_base + offset + j)) /\
   (verdict = Some 0 \/ verdict = Some 1)) /\
  (range (file_byte f) offset (Z.to_nat n) = None \/ range m (lib_base + offset) (Z.to_nat n) = None ->
   verdict = Some (-1)).
Proof.
  intros Hl Hm Hf Ho Hb Hs n verdict.
  pose proof (check_length_bounds size (elf_found_size _ _ _ _ _ Hf)) as [Hc Hc'].
  split; [exact Hc|]. split; [exact Hc'|].
  assert (E : verdict = _) by (apply (compare_ranges lib mem f m alloc lib_base symbol offset size); done).
  rewrite E. fold n. fold n in Hc. split.
  - intros [e He] [a Ha]. rewrite He, Ha. pose proof (range_differ _ _ _ _ _ _ _ He Ha) as Hd.
    rewrite Z2Nat.id in Hd by lia. rewrite <- Hd. case_bool_decide; split; (by left) || (by right) || done.
  - intros [-> | ->]; [done|]. by destruct (range (file_byte f) offset (Z.to_nat n)).
Qed.

(** An unpatched library can be reported as hooked.  The reference bytes
    are read at the file offset equal to the symbol's address.  In a process
    that maps a segment of the file at address [vaddr] from offset [foff],
    unpatched, the verdict depends on the file alone: it compares the bytes at
    the symbol's address taken as an offset with those at the symbol's real
    offset.  With [vaddr = foff] it is never 1; with a linker that places the
    segment elsewhere it is 1 whenever the two places differ. *)
Theorem segment_skew_alarms lib mem f m alloc lib_base symbol offset size vaddr foff len :
  reads_range lib (file_byte f) -> reads_range mem m ->
  elf_find_symbol_offset lib alloc symbol = Found offset size ->
  0 <= offset -> 0 <= lib_base -> lib_base + offset < 2 ^ 63 ->
  (forall a, vaddr <= a < vaddr + len -> m (lib_base + a) = file_byte f (a - vaddr + foff)) ->
  vaddr <= offset -> offset + check_length size <= vaddr + len ->
  let verdict := compare_render_symbol (Some lib) (Some mem) alloc lib_base symbol in
  (vaddr = foff -> verdict <> Some 1) /\
  (is_Some (range (file_byte f) offset (Z.to_nat (check_length size))) ->
   is_Some (range (file_byte f) (offset - vaddr + foff) (Z.to_nat (check_length size))) ->
   (exists j, 0 <= j < check_length size /\
      file_byte f (offset + j) <> file_byte f (offset - vaddr + foff + j)) ->
   verdict = Some 1).
Proof.
  intros Hl Hm Hf Ho Hb Hs Hseg Hv Hend verdict.
  pose proof (check_length_bounds size (elf_found_size _ _ _ _ _ Hf)) as [Hc _].
  assert (E : verdict = _) by (apply (compare_ranges lib mem f m alloc lib_base symbol offset size); done).
  assert (Er : range m (lib_base + offset) (Z.to_nat (check_length size)) =
               range (file_byte f) (offset - vaddr + foff) (Z.to_nat (check_length size))).
  { apply range_ext. intros j Hj. replace (lib_base + offset + j) with (lib_base + (offset + j)) by lia.
    rewrite Hseg by lia. f_equal. lia. }
  rewrite E, Er. split.
  - intros ->. replace (offset - foff + foff) with offset by lia.
    destruct (range _ offset _) as [l|]; [|done]. by rewrite bool_decide_true.
  - intros [e He] [a Ha] Hd. rewrite He, Ha.
    rewrite bool_decide_false; [done|]. apply (range_differ _ _ _ _ _ _ _ He Ha).
    by rewrite Z2Nat.id by lia.
Qed.

(** A descriptor that answers from [m]. *)
Definition range_reader (m : Z -> option byte) : ereader := fun _ off n => range m off (Z.to_nat n).

Lemma range_reader_reads m : reads_range (range_reader m) m.
Proof.
  intros call off n Ho. unfold range_reader. rewrite Nat2Z.id. by destruct (range m off n).
Qed.

(** A file whose only section is at once the section-name table, of type
    DYNSYM, and consists of the four bytes ".dyn". *)
Definition unterminated_elf : list byte :=
  ident_bytes ++ zeros 24 ++ le 8 64 ++ zeros 10 ++ le 2 64 ++ le 2 1 ++ le 2 0
  ++ shdr_bytes (Shdr 0 SHT_DYNSYM 128 4 0) ++ bs ".dyn".

(** C40: a crafted file makes the daemon read outside its heap block.  The
    tables are not checked for a final NUL before [strcmp] runs on them: for a
    file of 132 bytes the comparison with ".dynsym" goes past the end of the
    four bytes allocated, whatever symbol is sought. *)
Theorem elf_unterminated_overread rd alloc symbol :
  reads_range rd (file_byte unterminated_elf) -> alloc 64 = true -> alloc 4 = true ->
  elf_find_symbol_offset rd alloc symbol = Overread.
Proof.
  intros Hr%reads_range_file Ha Hb. unfold elf_find_symbol_offset.
  set (hb := ident_bytes ++ zeros 24 ++ le 8 64 ++ zeros 10 ++ le 2 64 ++ le 2 1 ++ le 2 0).
  set (tb := shdr_bytes (Shdr 0 SHT_DYNSYM 128 4 0)).
  rewrite (pread_at rd _ 0 [] hb (tb ++ bs ".dyn") _ _ Hr) by reflexivity.
  assert (Eh : ehdr_of hb = Ehdr ident_bytes 64 64 1 0) by (vm_compute; reflexivity).
  rewrite Eh. change (ehdr_ok _) with true. cbn [negb e_shnum e_shoff e_shstrndx].
  unfold malloc_ok. change (1 * SHDR_SIZE) with 64. rewrite Ha. change (64 <? 2 ^ 63) with true.
  cbn [andb negb]. rewrite (pread_at rd _ 1 hb tb (bs ".dyn") _ _ Hr) by reflexivity.
  assert (Es : array_of shdr_of (Z.to_nat SHDR_SIZE) (Z.to_nat 1) tb = [Shdr 0 SHT_DYNSYM 128 4 0])
    by (vm_compute; reflexivity).
  rewrite Es. change ([_] !! Z.to_nat 0) with (Some (Shdr 0 SHT_DYNSYM 128 4 0)). cbn [sh_size sh_offset].
  change (strtab_ok _) with true. rewrite Hb. change (4 <? 2 ^ 63) with true. cbn [andb negb orb].
  rewrite (pread_at rd _ 2 (hb ++ tb) (bs ".dyn") [] _ _ Hr) by reflexivity. reflexivity.
Qed.

Lemma elf_unterminated_overread_witness :
  elf_find_symbol_offset (range_reader (file_byte unterminated_elf)) (fun _ => true)
    (bs "glXSwapBuffers") = Overread.
Proof.
  apply elf_unterminated_overread; [apply range_reader_reads|reflexivity|reflexivity].
Defined.

(** ** Example: a library with an undefined and a defined symbol and some code *)

Definition gl_syms : list lib_symbol :=
  [LibSymbol (bs "glXSwapBuffers") 0 0; LibSymbol (bs "glXSwapBuffers") 460 17].

Definition gl_code : list byte := replicate 100 x90 ++ replicate 200 xcc.
Definition gl_image : list byte := lib_image gl_syms gl_code.

Lemma gl_syms_ok : Forall symbol_ok gl_syms.
Proof. repeat constructor; try (vm_compute; set_solver); simpl; lia. Qed.

Lemma elf_roundtrip_witness :
  elf_find_symbol_offset (range_reader (file_byte gl_image)) (fun _ => true) (bs "glXSwapBuffers")
  = Found 460 17.
Proof.
  assert (H2 : Z.of_nat (length (dynstr_bytes gl_syms)) <= AC_ELF_MAX_STRTAB)
    by (apply Z.leb_le; vm_compute; reflexivity).
  exact (elf_roundtrip (range_reader (file_byte gl_image)) gl_syms gl_code (bs "glXSwapBuffers")
    (range_reader_reads _) gl_syms_ok H2 eq_refl ltac:(vm_compute; set_solver)).
Defined.

(** The image mapped at 0x1000, with a byte of the function patched. *)
Definition patched (a : Z) : option byte :=
  if a =? 4096 + 460 + 16 then Some xe9 else file_byte gl_image (a - 4096).

Lemma gl_headers :
  section_headers (range_reader (file_byte gl_image)) = (lib_shdrs gl_syms, 3).
Proof. vm_compute. reflexivity. Qed.

Lemma gl_terminated : terminated (range_reader (file_byte gl_image)).
Proof.
  assert (H1 : exists sh, (section_headers (range_reader (file_byte gl_image))).1 !! 3%nat = Some sh /\
    last <$> pread_full (range_reader (file_byte gl_image)) 2 (sh_size sh) (sh_offset sh) = Some (Some x00)).
  { eexists. split; [rewrite gl_headers; reflexivity|vm_compute; reflexivity]. }
  assert (H2 : exists sh, dynstr_section (range_reader (file_byte gl_image)) = Some sh /\
    last <$> pread_full (range_reader (file_byte gl_image)) 4 (sh_size sh) (sh_offset sh) = Some (Some x00)).
  { eexists. split; [vm_compute; reflexivity|vm_compute; reflexivity]. }
  destruct H1 as (sh1 & E1 & L1), H2 as (sh2 & E2 & L2). split; intros sh buf Hs Hb _.
  - rewrite gl_headers in Hs, E1. change (Z.to_nat _) with 3%nat in Hs. rewrite E1 in Hs. injection Hs as <-.
    rewrite Hb in L1. by apply (inj Some) in L1.
  - rewrite E2 in Hs. injection Hs as <-. rewrite Hb in L2. by apply (inj Some) in L2.
Qed.

Lemma elf_bounds_safe_witness :
  elf_find_symbol_offset (range_reader (file_byte gl_image)) (fun n => n <? 300) (bs "eglSwapBuffers")
  <> Overread.
Proof.
  apply elf_bounds_safe; [vm_compute; set_solver|exact (proj1 gl_terminated)|exact (proj2 gl_terminated)].
Defined.

Lemma gl_found :
  elf_find_symbol_offset (range_reader (file_byte gl_image)) (fun _ => true) (bs "glXSwapBuffers")
  = Found 460 17.
Proof. vm_compute. reflexivity. Qed.

Lemma render_hook_exact_witness :
  compare_render_symbol (Some (range_reader (file_byte gl_image))) (Some (range_reader patched))
    (fun _ => true) 4096 (bs "glXSwapBuffers") = Some 1.
Proof.
  destruct (render_hook_exact _ _ gl_image patched (fun _ => true) 4096 (bs "glXSwapBuffers") 460 17
    (range_reader_reads _) (range_reader_reads _) gl_found) as (_ & _ & H & _); [lia..|].
  apply H; [by eexists; vm_compute; reflexivity|by eexists; vm_compute; reflexivity|].
  exists 16. split; [vm_compute; done|]. vm_compute. discriminate.
Defined.

(** The image mapped from offset 100 at address 400, unpatched. *)
Definition skewed (a : Z) : option byte := file_byte gl_image (a - 4096 - 400 + 100).

Lemma segment_skew_alarms_witness :
  compare_render_symbol (Some (range_reader (file_byte gl_image))) (Some (range_reader skewed))
    (fun _ => true) 4096 (bs "glXSwapBuffers") = Some 1.
Proof.
  assert (Hseg : forall a, 400 <= a < 400 + 200 -> skewed (4096 + a) = file_byte gl_image (a - 400 + 100)).
  { intros a Ha. unfold skewed. f_equal. lia. }
  destruct (segment_skew_alarms _ _ gl_image skewed (fun _ => true) 4096 (bs "glXSwapBuffers") 460 17
    400 100 200 (range_reader_reads _) (range_reader_reads _) gl_found) as [_ H];
    [lia..|exact Hseg|lia|vm_compute; done|].
  apply H; [by eexists; vm_compute; reflexivity|by eexists; vm_compute; reflexivity|].
  exists 0. split; [change (check_length 17) with 17; lia|]. vm_compute. discriminate.
Defined.
