(* ===== verification/Render.v ===== *)
(** * Render-hook detection (src/anticheat_daemon.c)

    Locating the graphics libraries of a process in one pass over its
    mappings, comparing their frame-present functions with the files on disk
    (Elf.v), the command-line check and the periodic one. *)

From Stdlib Require Import ZArith Lia Strings.Byte.
From stdpp Require Import base numbers list strings sets gmap.
From S2P Require Import Prelude Libc Abi Kernel Registry Probes Snapshot Ioctl Device Log Tracker Elf.

Record render_api := RenderApi { ra_lib_prefix : cstring; ra_symbol : cstring; ra_label : cstring }.

Definition AC_RENDER_APIS : list render_api :=
  [RenderApi (bs "libvulkan.so") (bs "vkQueuePresentKHR") (bs "Vulkan");
   RenderApi (bs "libGL.so") (bs "glXSwapBuffers") (bs "GLX/OpenGL");
   RenderApi (bs "libEGL.so") (bs "eglSwapBuffers") (bs "EGL")].

(** [struct ac_lib_result]. *)
Record ac_lib_result := LibResult { lr_found : bool; lr_lib_base : Z; lr_libpath : cstring }.

(** What follows the last slash, if there is one ([strrchr]). *)
Fixpoint after_last_slash (l : cstring) : option cstring :=
  match l with
  | [] => None
  | b :: l =>
      match after_last_slash l with
      | Some r => Some r
      | None => if Byte.eqb b x2f then Some l else None
      end
  end.

Definition base_name (path : cstring) : cstring := default path (after_last_slash path).

(** [strncmp(base, prefix, strlen(prefix)) == 0]. *)
Definition has_prefix (prefix base : cstring) : bool :=
  bool_decide (take (length prefix) base = prefix).

(** The body of the inner loop for one prefix. *)
Definition lib_step (vi : ac_vma_info) (prefix : cstring) (r : ac_lib_result) : ac_lib_result :=
  if negb (has_prefix prefix (base_name (vi_path vi))) then r
  else if negb (lr_found r) || (vi_start vi <? lr_lib_base r)
  then LibResult true (vi_start vi) (snprintf AC_VMA_PATH (vi_path vi))
  else r.

(** The body of the loop over the mappings. *)
Definition libs_step (prefixes : list cstring) (i : nat) (vi : ac_vma_info)
    (rs : list ac_lib_result) : list ac_lib_result :=
  if (vi_is_file vi =? 0) || bool_decide (vi_path vi = []) then rs
  else zip_with (lib_step vi) prefixes rs.

Section scan.
Context {D : Type} `{Device D}.

(** [find_libs_by_basenames]: [None] is the return value -1. *)
Definition find_libs_by_basenames (pid : Z) (prefixes : list cstring) (d : D)
    : option (list ac_lib_result) * D :=
  let results := replicate (length prefixes) (LibResult false 0 []) in
  match dev_scan_begin pid 0 d with
  | (None, d) => (None, d)
  | (Some b, d) =>
      let '(rs, d) := get_loop (libs_step prefixes) pid (Z.to_nat (sb_n_vmas b)) 0 results d in
      (Some rs, dev_scan_end d)
  end.

(** What the check opens: a library by its path, the memory of a process (once
    per API), and the allocator. *)
Record render_env := RenderEnv {
  re_lib : cstring -> option ereader;
  re_mem : Z -> nat -> option ereader;
  re_alloc : Z -> bool
}.

Variable env : render_env.

(** The library as the target sees it. *)
Definition nspath (pid : Z) (libpath : cstring) : cstring :=
  snprintf (AC_VMA_PATH + 32) (bs "/proc/" ++ fmt_d pid ++ bs "/root" ++ libpath).

(** The second loop of [render_hook_statuses_for] from index [k] on: status and
    library path per API; [None] after a read outside a heap block. *)
Fixpoint statuses_loop (pid : Z) (k : nat) (apis : list render_api) (rs : list ac_lib_result)
    : option (list (Z * cstring)) :=
  match apis, rs with
  | api :: apis, r :: rs =>
      st ← (if negb (lr_found r) then Some (-2, [])
            else
              s ← compare_render_symbol (re_lib env (nspath pid (lr_libpath r))) (re_mem env pid k)
                    (re_alloc env) (lr_lib_base r) (ra_symbol api);
              Some (s, snprintf AC_VMA_PATH (lr_libpath r)));
      rest ← statuses_loop pid (S k) apis rs;
      Some (st :: rest)
  | _, _ => Some []
  end.

Definition render_hook_statuses_for (pid : Z) (d : D) : option (list (Z * cstring)) * D :=
  let '(rc, d) := find_libs_by_basenames pid (ra_lib_prefix <$> AC_RENDER_APIS) d in
  match rc with
  | None => (Some ((fun _ => (-1, [])) <$> AC_RENDER_APIS), d)
  | Some rs => (statuses_loop pid 0 AC_RENDER_APIS rs, d)
  end.

(** [print_render_hook_result]: the return value and the text. *)
Definition print_render_hook_result (pid : Z) (api_label symbol libpath : cstring) (status : Z)
    : Z * cstring :=
  if status =? -2 then
    (0, bs "  render-hook check (" ++ api_label ++ bs "): not loaded in this process, skipping" ++ [x0a])
  else if status =? -1 then
    (0, bs "  render-hook check (" ++ api_label ++ bs "): could not verify " ++ symbol ++ bs " in "
        ++ libpath ++ bs ", skipping" ++ [x0a])
  else if status =? 1 then
    (1, bs "  [!] render hook (" ++ api_label ++ bs "): " ++ symbol ++ bs " in " ++ libpath
        ++ bs " (target pid " ++ fmt_d pid ++ bs ") differs" ++ [x0a]
        ++ bs "      from a freshly-loaded reference copy of the same file --" ++ [x0a]
        ++ bs "      possible ESP/overlay/render hijack" ++ [x0a])
  else
    (0, bs "  render-hook check (" ++ api_label ++ bs "): " ++ symbol ++ bs " clean (" ++ libpath
        ++ bs ")" ++ [x0a]).

(** [check_render_hooks]: the return value and what is printed. *)
Definition check_render_hooks (pid : Z) (d : D) : option (Z * list cstring) * D :=
  let '(r, d) := render_hook_statuses_for pid d in
  (sts ← r;
   let rs := zip_with (fun api st => print_render_hook_result pid (ra_label api) (ra_symbol api) st.2 st.1)
               AC_RENDER_APIS sts in
   Some (if existsb (fun r => negb (r.1 =? 0)) rs then 1 else 0, rs.*2), d).

(** ** The periodic check *)

Definition hook_text (it : ac_prot_item) (libpath symbol : cstring) : cstring :=
  bs "pid " ++ fmt_d (pt_pid it) ++ bs " (" ++ pt_comm it ++ bs "): render hook detected in "
  ++ libpath ++ bs " (" ++ symbol ++ bs " differs from a freshly-loaded reference copy -- "
  ++ bs "possible ESP/overlay/render hijack)".

Definition hook_messages (verbose : bool) (it : ac_prot_item) (sts : list (Z * cstring))
    : list effect :=
  zip AC_RENDER_APIS sts ≫= fun x =>
    if x.2.1 =? 1 then logmsg verbose LOG_CRIT (hook_text it x.2.2 (ra_symbol x.1)) else [].

Fixpoint hooks_loop (verbose : bool) (items : list ac_prot_item) (d : D) : option (D * list effect) :=
  match items with
  | [] => Some (d, [])
  | it :: items =>
      let '(r, d) := render_hook_statuses_for (pt_pid it) d in
      sts ← r;
      '(d, es) ← hooks_loop verbose items d;
      Some (d, hook_messages verbose it sts ++ es)
  end.

Definition check_render_hooks_periodic (verbose : bool) (d : D) : option (D * list effect) :=
  match dev_list_protected d with
  | (None, d) => Some (d, [])
  | (Some pl, d) => hooks_loop verbose (take (Z.to_nat (pl_count pl)) (pl_items pl)) d
  end.
End scan.

(** ** Reference: the library of a process *)

(** A file mapping whose base name starts with the prefix. *)
Definition lib_candidate (prefix : cstring) (vi : ac_vma_info) : bool :=
  negb (vi_is_file vi =? 0) && negb (bool_decide (vi_path vi = []))
  && has_prefix prefix (base_name (vi_path vi)).

Definition lower (prefix : cstring) (acc : option ac_vma_info) (vi : ac_vma_info)
    : option ac_vma_info :=
  if lib_candidate prefix vi then
    match acc with
    | Some best => if vi_start vi <? vi_start best then Some vi else acc
    | None => Some vi
    end
  else acc.

(** The candidate with the lowest start, the first one among equals. *)
Definition lowest (prefix : cstring) (vis : list ac_vma_info) : option ac_vma_info :=
  foldl (lower prefix) None vis.

Lemma lowest_from prefix vis acc :
  (forall vi, acc = Some vi -> lib_candidate prefix vi = true) ->
  match foldl (lower prefix) acc vis with
  | Some best =>
      lib_candidate prefix best = true /\ (acc = Some best \/ best ∈ vis) /\
      (forall vi, acc = Some vi \/ (vi ∈ vis /\ lib_candidate prefix vi = true) -> vi_start best <= vi_start vi)
  | None => acc = None /\ forall vi, vi ∈ vis -> lib_candidate prefix vi = false
  end.
Proof.
  revert acc. induction vis as [|v vis IH]; intros acc Ha; cbn [foldl].
  { destruct acc as [b|]; [|split; [done|set_solver]]. split; [by apply Ha|].
    split; [by left|]. intros vi [[= ->]|[Hin _]]; [done|set_solver]. }
  assert (Hs : forall vi, lower prefix acc v = Some vi -> lib_candidate prefix vi = true).
  { intros vi. unfold lower. destruct (lib_candidate prefix v) eqn:E; [|apply Ha].
    destruct acc as [b|]; [|naive_solver]. destruct (_ <? _); naive_solver. }
  specialize (IH (lower prefix acc v) Hs). destruct (foldl _ _ vis) as [best|].
  - destruct IH as (H1 & H2 & H3). split; [done|]. unfold lower in *.
    destruct (lib_candidate prefix v) eqn:Ev.
    + destruct acc as [b|].
      * destruct (Z.ltb_spec (vi_start v) (vi_start b)).
        -- split; [right; set_solver|]. pose proof (H3 v (or_introl eq_refl)).
           intros vi [[= ->]|[Hin Hc]]; [lia|]. apply elem_of_cons in Hin as [->|Hin]; [done|].
           apply H3. by right.
        -- split; [destruct H2; [by left|right; set_solver]|]. pose proof (H3 b (or_introl eq_refl)).
           intros vi [[= ->]|[Hin Hc]]; [done|]. apply elem_of_cons in Hin as [->|Hin]; [lia|].
           apply H3. by right.
      * split; [right; set_solver|]. intros vi [?|[Hin Hc]]; [done|].
        apply elem_of_cons in Hin as [->|Hin]; [by apply H3; left|]. apply H3. by right.
    + split; [destruct H2; [by left|right; set_solver]|]. intros vi [?|[Hin Hc]]; [by apply H3; left|].
      apply elem_of_cons in Hin as [->|Hin]; [congruence|]. apply H3. by right.
  - destruct IH as [H1 H2]. unfold lower in H1. destruct (lib_candidate prefix v) eqn:Ev.
    + destruct acc; [by destruct (_ <? _)|done].
    + split; [done|]. intros vi Hin. apply elem_of_cons in Hin as [->|Hin]; [done|by apply H2].
Qed.

Lemma lowest_spec prefix vis :
  match lowest prefix vis with
  | Some best =>
      best ∈ vis /\ lib_candidate prefix best = true /\
      forall vi, vi ∈ vis -> lib_candidate prefix vi = true -> vi_start best <= vi_start vi
  | None => forall vi, vi ∈ vis -> lib_candidate prefix vi = false
  end.
Proof.
  pose proof (lowest_from prefix vis None ltac:(done)) as H. unfold lowest.
  destruct (foldl _ _ _) as [best|]; [|apply H]. destruct H as (H1 & [?|H2] & H3); [done|].
  split_and!; [done..|]. intros vi Hin Hc. apply H3. by right.
Qed.

(** The strictly lowest candidate is the one picked. *)
Lemma lowest_unique prefix vis v0 :
  v0 ∈ vis -> lib_candidate prefix v0 = true ->
  (forall vi, vi ∈ vis -> lib_candidate prefix vi = true -> vi = v0 \/ vi_start v0 < vi_start vi) ->
  lowest prefix vis = Some v0.
Proof.
  intros Hin Hc Hlow. pose proof (lowest_spec prefix vis) as H.
  destruct (lowest prefix vis) as [b|]; [|rewrite (H v0 Hin) in Hc; done].
  destruct H as (Hb & Hcb & Hle). specialize (Hle v0 Hin Hc).
  destruct (Hlow b Hb Hcb) as [->|]; [done|lia].
Qed.

Definition result_of (o : option ac_vma_info) : ac_lib_result :=
  match o with
  | Some vi => LibResult true (vi_start vi) (snprintf AC_VMA_PATH (vi_path vi))
  | None => LibResult false 0 []
  end.

Lemma lib_step_lower prefix vi acc :
  (if (vi_is_file vi =? 0) || bool_decide (vi_path vi = []) then result_of acc
   else lib_step vi prefix (result_of acc)) = result_of (lower prefix acc vi).
Proof.
  unfold lower, lib_candidate, lib_step. destruct (vi_is_file vi =? 0); [done|].
  destruct (bool_decide (vi_path vi = [])); [done|]. cbn [orb negb andb].
  destruct (has_prefix _ _); [|done]. cbn [negb].
  destruct acc as [b|]; cbn [result_of lr_found lr_lib_base negb orb]; [|done].
  by destruct (vi_start vi <? vi_start b).
Qed.

Lemma zip_with_fmap_same {A B C} (g : A -> B -> C) (f : A -> B) (l : list A) :
  zip_with g l (f <$> l) = (fun x => g x (f x)) <$> l.
Proof. induction l as [|x l IH]; [done|]. cbn. by f_equal. Qed.

Lemma libs_fold prefixes vis : forall i (acc : cstring -> option ac_vma_info),
  fold_vmas (libs_step prefixes) i vis ((fun p => result_of (acc p)) <$> prefixes) =
  (fun p => result_of (foldl (lower p) (acc p) vis)) <$> prefixes.
Proof.
  induction vis as [|vi vis IH]; intros i acc; [done|]. cbn [fold_vmas foldl].
  rewrite <- (IH (S i) (fun p => lower p (acc p) vi)). f_equal. unfold libs_step.
  destruct (_ || _) eqn:E.
  - apply list_fmap_ext. intros _ p _. by rewrite <- lib_step_lower, E.
  - rewrite zip_with_fmap_same. apply list_fmap_ext. intros _ p _. by rewrite <- lib_step_lower, E.
Qed.

Section laws.
Context {D : Type} `{DeviceLaws D}.
Variable env : render_env.

Lemma find_libs_spec pid prefixes d :
  dev_ok d ->
  let '(r, d') := find_libs_by_basenames pid prefixes d in
  dev_ok d' /\
  r = match dev_scan_begin pid 0 d with
      | (None, _) => None
      | (Some _, d1) => Some ((fun p => result_of (lowest p (dev_vmas d1))) <$> prefixes)
      end.
Proof.
  intros Hd. unfold find_libs_by_basenames. pose proof (scan_begin_law pid 0 d Hd) as Hs.
  destruct (dev_scan_begin pid 0 d) as [[b|] d1]; [|by destruct Hs]. destruct Hs as [Hd1 Hb].
  destruct (Hb b eq_refl) as [-> _]. rewrite Nat2Z.id.
  pose proof (get_loop_spec (libs_step prefixes) pid
    (replicate (length prefixes) (LibResult false 0 [])) d1 Hd1) as Hg.
  destruct (get_loop _ _ _ _ _ _) as [rs d2]. destruct Hg as (Hd2 & _ & ->).
  split; [by apply scan_end_law|]. f_equal.
  assert (replicate (length prefixes) (LibResult false 0 []) = (fun p => result_of None) <$> prefixes) as ->.
  { clear. induction prefixes as [|p prefixes IH]; [done|]. cbn. f_equal. exact IH. }
  apply (libs_fold prefixes (dev_vmas d1) 0 (fun _ => None)).
Qed.

(** The verdict on one API, for the mappings of the process. *)
Definition api_status (pid : Z) (k : nat) (api : render_api) (vis : list ac_vma_info)
    : option (Z * cstring) :=
  match lowest (ra_lib_prefix api) vis with
  | None => Some (-2, [])
  | Some vi =>
      let path := snprintf AC_VMA_PATH (vi_path vi) in
      s ← compare_render_symbol (re_lib env (nspath pid path)) (re_mem env pid k) (re_alloc env)
            (vi_start vi) (ra_symbol api);
      Some (s, path)
  end.

Fixpoint api_statuses (pid : Z) (k : nat) (apis : list render_api) (vis : list ac_vma_info)
    : option (list (Z * cstring)) :=
  match apis with
  | [] => Some []
  | api :: apis =>
      st ← api_status pid k api vis; rest ← api_statuses pid (S k) apis vis; Some (st :: rest)
  end.

Lemma snprintf_snprintf n s : snprintf n (snprintf n s) = snprintf n s.
Proof. unfold snprintf. rewrite cstr_take by apply cstr_idemp. by rewrite take_idemp. Qed.

Lemma statuses_loop_spec pid apis vis : forall k,
  statuses_loop env pid k apis ((fun p => result_of (lowest p vis)) <$> (ra_lib_prefix <$> apis)) =
  api_statuses pid k apis vis.
Proof.
  induction apis as [|api apis IH]; intros k; [done|]. cbn [fmap list_fmap statuses_loop api_statuses].
  unfold api_status. destruct (lowest (ra_lib_prefix api) vis) as [vi|];
    cbn [result_of lr_found negb lr_libpath lr_lib_base].
  - rewrite snprintf_snprintf. destruct (compare_render_symbol _ _ _ _ _); [|done].
    cbn [mbind option_bind]. by rewrite <- IH.
  - cbn [mbind option_bind]. by rewrite <- IH.
Qed.

Hypothesis libs_ok : forall path rd, re_lib env path = Some rd -> terminated rd.

Lemma compare_defined path mem base api :
  api ∈ AC_RENDER_APIS ->
  is_Some (compare_render_symbol (re_lib env path) mem (re_alloc env) base (ra_symbol api)).
Proof.
  intros Hin. unfold compare_render_symbol. destruct (re_lib env path) as [rd|] eqn:El; [|done].
  assert (Hs : x00 ∉ ra_symbol api).
  { revert api Hin. apply Forall_forall. repeat constructor; vm_compute; set_solver. }
  pose proof (elf_no_overread rd (re_alloc env) (ra_symbol api) Hs (libs_ok path rd El)) as Ho.
  destruct (elf_find_symbol_offset _ _ _) as [v z| |].
  - destruct (pread_full rd _ _ _); [|done]. destruct mem; [|done]. by destruct (pread_full _ _ _ _).
  - done.
  - done.
Qed.

Lemma api_statuses_defined pid vis apis : forall k,
  (forall api, api ∈ apis -> api ∈ AC_RENDER_APIS) -> is_Some (api_statuses pid k apis vis).
Proof.
  induction apis as [|api apis IH]; intros k Hin; [done|]. cbn [api_statuses].
  assert (Ha : is_Some (api_status pid k api vis)).
  { unfold api_status. destruct (lowest _ _) as [vi|]; [|done].
    destruct (compare_defined (nspath pid (snprintf AC_VMA_PATH (vi_path vi))) (re_mem env pid k)
      (vi_start vi) api) as [s ->]; [apply Hin; set_solver|done]. }
  destruct Ha as [st ->]. destruct (IH (S k)) as [rest E]; [set_solver|]. cbn. by rewrite E.
Qed.

(** The snapshots of a cycle: [None] for a process that could not be scanned. *)
Fixpoint render_scans (items : list ac_prot_item) (d : D)
    : list (ac_prot_item * option (list ac_vma_info)) :=
  match items with
  | [] => []
  | it :: items =>
      (it, match dev_scan_begin (pt_pid it) 0 d with (None, _) => None | (Some _, d1) => Some (dev_vmas d1) end)
      :: render_scans items (find_libs_by_basenames (pt_pid it) (ra_lib_prefix <$> AC_RENDER_APIS) d).2
  end.

(** The reports a snapshot calls for. *)
Definition hook_reports (it : ac_prot_item) (vis : list ac_vma_info) : list effect :=
  zip (seq 0 3) AC_RENDER_APIS ≫= fun x =>
    match api_status (pt_pid it) x.1 x.2 vis with
    | Some (1, path) => [Report (bs "CRITICAL") (snprintf LOG_BUF (hook_text it path (ra_symbol x.2)))]
    | _ => []
    end.

Lemma hook_messages_reports verbose it vis apis : forall k sts,
  api_statuses (pt_pid it) k apis vis = Some sts ->
  reports (zip apis sts ≫= fun x =>
    if x.2.1 =? 1 then logmsg verbose LOG_CRIT (hook_text it x.2.2 (ra_symbol x.1)) else []) =
  zip (seq k (length apis)) apis ≫= fun x =>
    match api_status (pt_pid it) x.1 x.2 vis with
    | Some (1, path) => [Report (bs "CRITICAL") (snprintf LOG_BUF (hook_text it path (ra_symbol x.2)))]
    | _ => []
    end.
Proof.
  induction apis as [|api apis IH]; intros k sts Hs; [done|]. cbn [api_statuses] in Hs.
  destruct (api_status (pt_pid it) k api vis) as [[s path]|] eqn:E1; [|done].
  destruct (api_statuses (pt_pid it) (S k) apis vis) as [rest|] eqn:E2; [|done].
  apply (inj Some) in Hs. subst sts. cbn [length seq zip_with].
  rewrite !bind_cons, reports_app, (IH _ _ E2). f_equal. cbn [fst snd]. rewrite E1.
  destruct (Z.eqb_spec s 1) as [->|Hs]; [by rewrite logmsg_reports|].
  destruct s as [|[]|]; done.
Qed.

Lemma hooks_loop_spec verbose items : forall d,
  dev_ok d ->
  exists d' es, hooks_loop env verbose items d = Some (d', es) /\ dev_ok d' /\
    reports es = render_scans items d ≫= fun o =>
      match o.2 with Some vis => hook_reports o.1 vis | None => [] end.
Proof.
  induction items as [|it items IH]; intros d Hd; cbn [hooks_loop render_scans]; [by eexists _, _|].
  unfold render_hook_statuses_for.
  pose proof (find_libs_spec (pt_pid it) (ra_lib_prefix <$> AC_RENDER_APIS) d Hd) as Hf.
  destruct (find_libs_by_basenames _ _ d) as [r d1]. destruct Hf as [Hd1 ->]. cbn [snd].
  destruct (IH d1 Hd1) as (d' & es & E & Hd' & Hr).
  destruct (dev_scan_begin (pt_pid it) 0 d) as [[b|] d2]; rewrite bind_cons; cbn [fst snd].
  - rewrite statuses_loop_spec.
    destruct (api_statuses_defined (pt_pid it) (dev_vmas d2) AC_RENDER_APIS 0 ltac:(done)) as [sts Es].
    rewrite Es. cbn [mbind option_bind]. rewrite E. exists d', (hook_messages verbose it sts ++ es).
    split; [done|]. split; [done|]. rewrite reports_app, Hr. f_equal.
    apply (hook_messages_reports verbose it _ AC_RENDER_APIS 0 sts Es).
  - cbn [mbind option_bind]. rewrite E. exists d', es. done.
Qed.
End laws.

(** The command returns 1 exactly when some API is found hooked. *)
Lemma check_render_hooks_spec {D} `{DeviceLaws D} env pid d :
  dev_ok d ->
  let '(r, d') := check_render_hooks env pid d in
  dev_ok d' /\
  forall ret out, r = Some (ret, out) ->
    (ret = 1 <-> exists sts path, (render_hook_statuses_for env pid d).1 = Some sts /\
                   (1, path) ∈ take 3 sts).
Proof.
  intros Hd. unfold check_render_hooks, render_hook_statuses_for.
  pose proof (find_libs_spec pid (ra_lib_prefix <$> AC_RENDER_APIS) d Hd) as Hf.
  destruct (find_libs_by_basenames _ _ d) as [rc d1]. destruct Hf as [Hd1 _].
  assert (G : forall sts : list (Z * cstring),
    existsb (fun r => negb (r.1 =? 0))
      (zip_with (fun api st => print_render_hook_result pid (ra_label api) (ra_symbol api) st.2 st.1)
         AC_RENDER_APIS sts) = true <-> exists path, (1, path) ∈ take 3 sts).
  { intros sts. change 3%nat with (length AC_RENDER_APIS). generalize AC_RENDER_APIS. clear.
    intros apis. revert sts. induction apis as [|api apis IH]; intros [|[s p] sts]; cbn [zip_with existsb length take];
      try (split; [done|intros [? Hi]; by apply elem_of_nil in Hi]).
    rewrite orb_true_iff, IH. setoid_rewrite elem_of_cons. unfold print_render_hook_result. cbn [fst snd].
    destruct (Z.eqb_spec s (-2)), (Z.eqb_spec s (-1)), (Z.eqb_spec s 1); subst; cbn [fst]; naive_solver. }
  destruct rc as [rs|].
  - split; [done|]. intros ret out E. destruct (statuses_loop _ _ _ _ _) as [sts|]; [|done].
    apply (inj Some), pair_equal_spec in E as [<- _]. cbn [fst].
    destruct (existsb _ _) eqn:Ex.
    + split; [intros _|done]. apply G in Ex as [path Hp]. by exists sts, path.
    + split; [done|]. intros (sts' & path & [= <-] & Hp). apply not_true_iff_false in Ex. destruct Ex.
      apply G. by exists path.
  - split; [done|]. intros ret out E. apply (inj Some), pair_equal_spec in E as [<- _]. cbn [fst].
    split; [done|]. intros (sts' & path & E' & Hp). apply (inj Some) in E'. subst sts'.
    change (take 3 _) with [(-1, [] : cstring); (-1, []); (-1, [])] in Hp.
    rewrite !elem_of_cons, elem_of_nil in Hp. naive_solver.
Qed.

(** It ends with a result when the libraries' string tables are terminated. *)
Lemma check_render_hooks_defined {D} `{DeviceLaws D} env pid d :
  dev_ok d -> (forall path rd, re_lib env path = Some rd -> terminated rd) ->
  is_Some (check_render_hooks env pid d).1.
Proof.
  intros Hd Hl. unfold check_render_hooks, render_hook_statuses_for.
  pose proof (find_libs_spec pid (ra_lib_prefix <$> AC_RENDER_APIS) d Hd) as Hf.
  destruct (find_libs_by_basenames _ _ d) as [rc d1]. destruct Hf as [_ ->].
  destruct (dev_scan_begin pid 0 d) as [[b|] d2]; [|by eexists].
  rewrite statuses_loop_spec.
  destruct (api_statuses_defined env Hl pid (dev_vmas d2) AC_RENDER_APIS 0 ltac:(done)) as [sts ->].
  by eexists.
Qed.

(** ** Properties *)

Lemma render_cycle_spec {D} `{DeviceLaws D} env verbose d :
  dev_ok d -> (forall path rd, re_lib env path = Some rd -> terminated rd) ->
  exists d' es, check_render_hooks_periodic env verbose d = Some (d', es) /\ dev_ok d' /\
  match dev_list_protected d with
  | (None, _) => es = []
  | (Some pl, d1) =>
      reports es = render_scans (pl_items pl) d1 ≫= fun o =>
        match o.2 with Some vis => hook_reports env o.1 vis | None => [] end
  end.
Proof.
  intros Hd Hlibs. unfold check_render_hooks_periodic. pose proof (list_protected_law d Hd) as Hl.
  destruct (dev_list_protected d) as [[pl|] d1]; destruct Hl as [Hd1 Hl]; [|by eexists _, _].
  destruct (Hl pl eq_refl) as [-> _]. rewrite Nat2Z.id, firstn_all. by apply hooks_loop_spec.
Qed.

(** C18: the periodic render-hook check reports exactly the hooked APIs.  As
    long as the string tables of the libraries are terminated (the one thing
    the parser does not check) a cycle completes, and its reports are, process
    by process and for each of the three APIs, one critical report where the
    process could be scanned, maps a file whose base name starts with the
    library's prefix, and the comparison of the lowest such mapping finds a
    difference; nothing is reported for a library that is not loaded, cannot
    be read or parsed, or is clean, nor for a process that is gone. *)
Theorem render_cycle_exact {D} `{DeviceLaws D} env verbose d :
  dev_ok d -> (forall path rd, re_lib env path = Some rd -> terminated rd) ->
  exists d' es, check_render_hooks_periodic env verbose d = Some (d', es) /\ dev_ok d' /\
  match dev_list_protected d with
  | (None, _) => es = []
  | (Some pl, d1) =>
      reports es = render_scans (pl_items pl) d1 ≫= fun o =>
        match o.2 with Some vis => hook_reports env o.1 vis | None => [] end
  end.
Proof. apply render_cycle_spec. Qed.

(** A decoy hides the real library.  Libraries are recognised by base name
    and the mapping with the lowest start wins, so in a process that maps any
    file named like the library (a clean copy under another path, say) below
    the real one, only that file is located and compared, whatever is patched
    in the library the process uses. *)
Theorem decoy_hides_library {D} `{DeviceLaws D} pid prefixes k prefix d b d1 decoy :
  dev_ok d -> dev_scan_begin pid 0 d = (Some b, d1) -> prefixes !! k = Some prefix ->
  decoy ∈ dev_vmas d1 -> lib_candidate prefix decoy = true ->
  (forall vi, vi ∈ dev_vmas d1 -> lib_candidate prefix vi = true ->
     vi = decoy \/ vi_start decoy < vi_start vi) ->
  exists rs, (find_libs_by_basenames pid prefixes d).1 = Some rs /\
    rs !! k = Some (LibResult true (vi_start decoy) (snprintf AC_VMA_PATH (vi_path decoy))).
Proof.
  intros Hd Hb Hk Hin Hc Hlow. pose proof (find_libs_spec pid prefixes d Hd) as Hf.
  destruct (find_libs_by_basenames pid prefixes d) as [r d2]. destruct Hf as [_ ->]. rewrite Hb.
  eexists. split; [reflexivity|]. rewrite list_lookup_fmap, Hk. cbn [fmap option_fmap option_map].
  by rewrite (lowest_unique prefix (dev_vmas d1) decoy).
Qed.

(** ** Example: a game with the library of Elf.v mapped at 0x1000 *)

Definition gl_vmas : list kvma :=
  [KVma 4096 8192 0 5 (Some (KFile (Some 12) (Some (bs "/usr/lib/libGL.so.1"))));
   KVma 16384 20480 0 5 (Some (KFile (Some 13) (Some (bs "/usr/lib/libGL.so.2"))))].

Definition gl_device : mdev :=
  MDev (fun _ => kernel_with gl_vmas) 0 None (md_mod watched_device).

Lemma gl_device_ok : dev_ok gl_device.
Proof. destruct watched_device_ok as [_ _ _ Hm Hf]. by split. Qed.

Definition gl_env : render_env :=
  RenderEnv (fun path => if decide (path = bs "/proc/100/root/usr/lib/libGL.so.1")
                         then Some (range_reader (file_byte gl_image)) else None)
            (fun _ _ => Some (range_reader patched)) (fun _ => true).

Definition gl_vma : ac_vma_info := VmaInfo 4096 8192 0 12 5 1 (bs "/usr/lib/libGL.so.1").

Lemma gl_env_terminated path rd : re_lib gl_env path = Some rd -> terminated rd.
Proof.
  cbn [re_lib gl_env]. destruct (decide _); [|done]. intros [= <-]. exact gl_terminated.
Qed.

Lemma render_cycle_exact_witness :
  exists d' es, check_render_hooks_periodic gl_env false gl_device = Some (d', es) /\ dev_ok d' /\
    length (reports es) = 1%nat.
Proof.
  destruct (render_cycle_exact gl_env false gl_device gl_device_ok gl_env_terminated)
    as (d' & es & E & Hd & H).
  exists d', es. split; [exact E|]. split; [exact Hd|].
  assert (El : (fun x => length (reports x.2)) <$> check_render_hooks_periodic gl_env false gl_device
               = Some 1%nat) by (vm_compute; reflexivity).
  rewrite E in El. by apply (inj Some) in El.
Defined.

Lemma gl_scan :
  exists b d1, dev_scan_begin 100 0 gl_device = (Some b, d1) /\
    dev_vmas d1 = [gl_vma; VmaInfo 16384 20480 0 13 5 1 (bs "/usr/lib/libGL.so.2")].
Proof. eexists _, _. split; vm_compute; reflexivity. Qed.

(** The file mapped lower hides the other. *)
Lemma decoy_hides_library_witness :
  exists rs, (find_libs_by_basenames 100 [bs "libGL.so"] gl_device).1 = Some rs /\
    rs !! 0%nat = Some (LibResult true 4096 (bs "/usr/lib/libGL.so.1")).
Proof.
  destruct gl_scan as (b & d1 & Eb & Ev).
  apply (decoy_hides_library 100 [bs "libGL.so"] 0 (bs "libGL.so") gl_device b d1 gl_vma gl_device_ok Eb
    eq_refl).
  - rewrite Ev. apply list_elem_of_here.
  - vm_compute. reflexivity.
  - rewrite Ev. intros vi Hin _. apply elem_of_cons in Hin as [->|Hin]; [by left|right].
    apply list_elem_of_singleton in Hin as ->. cbn. lia.
Defined.
