(* ===== verification/Vm.v ===== *)
(** * Virtual-machine detection (src/anticheat_daemon.c)

    The CPUID and DMI checks of the [vmcheck] command and of the daemon's
    start. *)

From Stdlib Require Import ZArith Lia Strings.Byte.
From stdpp Require Import base numbers list strings sets.
From S2P Require Import Prelude Libc Abi Log.

(** What the checks read: the registers EBX, ECX, EDX of a CPUID leaf and the
    files under /sys/class/dmi/id ([None]: it cannot be opened). *)
Record machine := Machine {
  mc_cpuid : Z -> Z * Z * Z;
  mc_dmi : cstring -> option (list byte)
}.

Section detection.
Variable mc : machine.

(** [detect_hypervisor_cpuid] with a buffer of at least 13 bytes: [Some] is the
    return value 1 with the vendor string. *)
Definition detect_hypervisor_cpuid : option cstring :=
  let '(_, ecx, _) := mc_cpuid mc 1 in
  if negb (Z.testbit ecx 31) then None
  else
    let '(ebx, ecx, edx) := mc_cpuid mc 0x40000000 in
    Some (cstr (le 4 ebx ++ le 4 ecx ++ le 4 edx)).

(** [read_dmi_field]: the return value and [out]. *)
Definition read_dmi_field (name : cstring) (outsz : nat) : Z * cstring :=
  match mc_dmi mc (snprintf 64 (bs "/sys/class/dmi/id/" ++ name)) with
  | None => (-1, [])
  | Some content =>
      match (fgets outsz content).1 with
      | [] => (-1, [])
      | line => (0, strip_eol (cstr line))
      end
  end.

(** [detect_hypervisor_dmi]: [Some] is the return value 1 with the text. *)
Definition detect_hypervisor_dmi (outsz : nat) : option cstring :=
  let sys_vendor := (read_dmi_field (bs "sys_vendor") 128).2 in
  let product_name := (read_dmi_field (bs "product_name") 128).2 in
  let board_vendor := (read_dmi_field (bs "board_vendor") 128).2 in
  let found (what field val : cstring) :=
    Some (snprintf outsz (what ++ bs " (" ++ field ++ bs "=" ++ [x22] ++ val ++ [x22] ++ bs ")")) in
  if strstr sys_vendor (bs "QEMU") || strstr product_name (bs "QEMU")
  then found (bs "QEMU") (bs "sys_vendor") sys_vendor
  else if strstr sys_vendor (bs "VMware") then found (bs "VMware") (bs "sys_vendor") sys_vendor
  else if strstr sys_vendor (bs "innotek GmbH") || strstr product_name (bs "VirtualBox")
  then found (bs "VirtualBox") (bs "sys_vendor") sys_vendor
  else if bool_decide (sys_vendor = bs "Microsoft Corporation")
          && strstr product_name (bs "Virtual Machine")
  then found (bs "Hyper-V") (bs "product_name") product_name
  else if strstr sys_vendor (bs "Xen") then found (bs "Xen") (bs "sys_vendor") sys_vendor
  else if strstr sys_vendor (bs "Parallels")
  then found (bs "Parallels") (bs "sys_vendor") sys_vendor
  else if strstr sys_vendor (bs "Google")
  then found (bs "Google Compute Engine") (bs "sys_vendor") sys_vendor
  else if strstr sys_vendor (bs "Amazon EC2") || strstr board_vendor (bs "Amazon EC2")
  then found (bs "Amazon EC2") (bs "sys_vendor") sys_vendor
  else if strstr product_name (bs "Bochs") then found (bs "Bochs") (bs "product_name") product_name
  else None.

(** [cmd_vmcheck]: the exit status and the lines printed. *)
Definition cmd_vmcheck : Z * list cstring :=
  let cpuid := detect_hypervisor_cpuid in
  let dmi := detect_hypervisor_dmi 192 in
  (0,
   [bs "VM/hypervisor check:" ++ [x0a];
    match cpuid with
    | Some v => bs "  CPUID hypervisor bit : present (vendor id: " ++ v ++ bs ")" ++ [x0a]
    | None => bs "  CPUID hypervisor bit : not present" ++ [x0a]
    end;
    match dmi with
    | Some t => bs "  DMI/SMBIOS strings   : " ++ t ++ [x0a]
    | None => bs "  DMI/SMBIOS strings   : no known VM vendor string found" ++ [x0a]
    end;
    match cpuid, dmi with
    | None, None => bs "  result               : no hypervisor detected" ++ [x0a]
    | _, _ =>
        bs "  result               : running inside a virtual machine" ++ [x0a]
        ++ bs "    (informational only -- common for entirely legitimate" ++ [x0a]
        ++ bs "     reasons: cloud gaming, CI, testing, GPU-passthrough" ++ [x0a]
        ++ bs "     streaming rigs. Not a verdict -- and not something a" ++ [x0a]
        ++ bs "     hypervisor configured to hide these signatures would" ++ [x0a]
        ++ bs "     even show here. See THREAT_MODEL.md.)" ++ [x0a]
    end]).

(** The check at the start of the daemon. *)
Definition vm_messages (verbose : bool) : list effect :=
  let dmi := detect_hypervisor_dmi 192 in
  match detect_hypervisor_cpuid, dmi with
  | Some v, _ =>
      logmsg verbose LOG_WARNING
        (bs "running inside a virtual machine (CPUID vendor id: " ++ v
         ++ match dmi with Some t => bs "; " ++ t | None => [] end
         ++ bs ") -- informational, not a verdict")
  | None, Some t =>
      logmsg verbose LOG_WARNING
        (bs "running inside a virtual machine (" ++ t ++ bs ") -- informational, not a verdict")
  | None, None => logmsg verbose LOG_INFO (bs "no hypervisor detected (CPUID/DMI checks)")
  end.

(** ** Specification *)

(** What identifies a virtual machine by its DMI strings: a known text
    contained in one of the fields, the two texts of Hyper-V together. *)
Definition dmi_vm (sys_vendor product_name board_vendor : cstring) : Prop :=
  Exists (contains sys_vendor)
    [bs "QEMU"; bs "VMware"; bs "innotek GmbH"; bs "Xen"; bs "Parallels"; bs "Google"; bs "Amazon EC2"] \/
  Exists (contains product_name) [bs "QEMU"; bs "VirtualBox"; bs "Bochs"] \/
  contains board_vendor (bs "Amazon EC2") \/
  (sys_vendor = bs "Microsoft Corporation" /\ contains product_name (bs "Virtual Machine")).

(** The value of a field: its first line without the line end, up to 127 bytes,
    empty if unreadable. *)
Definition dmi_field (name : cstring) : cstring := (read_dmi_field name 128).2.

Lemma is_Some_if {A} (b : bool) (x : A) r : is_Some (if b then Some x else r) <-> b = true \/ is_Some r.
Proof. destruct b; naive_solver. Qed.

Lemma detect_dmi_spec outsz :
  is_Some (detect_hypervisor_dmi outsz) <->
  dmi_vm (dmi_field (bs "sys_vendor")) (dmi_field (bs "product_name")) (dmi_field (bs "board_vendor")).
Proof.
  unfold detect_hypervisor_dmi, dmi_vm, dmi_field. cbn zeta.
  rewrite !is_Some_if, !orb_true_iff, andb_true_iff, bool_decide_eq_true, !strstr_contains, is_Some_alt.
  rewrite !Exists_cons, !Exists_nil. cbn match.
  repeat match goal with |- context [contains ?a ?b] => generalize (contains a b); intros ? end.
  generalize ((read_dmi_field (bs "sys_vendor") 128).2 = bs "Microsoft Corporation"). tauto.
Qed.
End detection.

(** ** Properties *)

(** Virtual machines are recognised exactly, and never reported.  The
    CPUID check answers exactly when bit 31 of ECX of leaf 1 is set, with the
    twelve bytes the hypervisor leaf packs into three registers (up to a NUL);
    the DMI check answers exactly when one of the known texts occurs in the
    vendor, product or board field, Microsoft as vendor counting only together
    with "Virtual Machine" as product; the start of the daemon logs the outcome
    in one message that never goes to the report server, and the command exits
    with 0. *)
Theorem vm_detection_exact mc vendor :
  length vendor = 12%nat ->
  mc_cpuid mc 0x40000000 =
    (le_val (take 4 vendor), le_val (take 4 (drop 4 vendor)), le_val (drop 8 vendor)) ->
  detect_hypervisor_cpuid mc =
    (if Z.testbit (mc_cpuid mc 1).1.2 31 then Some (cstr vendor) else None) /\
  (is_Some (detect_hypervisor_dmi mc 192) <->
   dmi_vm (dmi_field mc (bs "sys_vendor")) (dmi_field mc (bs "product_name"))
     (dmi_field mc (bs "board_vendor"))) /\
  (forall verbose, reports (vm_messages mc verbose) = [] /\
     length (List.filter (fun e => match e with Syslog _ _ => true | _ => false end)
       (vm_messages mc verbose)) = 1%nat) /\
  (cmd_vmcheck mc).1 = 0.
Proof.
  intros Hl Hv. split; [|split; [apply detect_dmi_spec|split; [|done]]].
  - unfold detect_hypervisor_cpuid. rewrite Hv. destruct (mc_cpuid mc 1) as [[? ecx] ?]. cbn [fst snd].
    destruct (Z.testbit ecx 31); [|done]. cbn [negb]. do 2 f_equal.
    do 12 (destruct vendor as [|? vendor]; [done|]). destruct vendor; [|done].
    cbn [take drop]. rewrite !(le_of_val [_; _; _; _]). done.
  - intros verbose. unfold vm_messages.
    assert (G : forall pri t, LOG_CRIT < pri -> reports (logmsg verbose pri t) = [] /\
      length (List.filter (fun e => match e with Syslog _ _ => true | _ => false end)
        (logmsg verbose pri t)) = 1%nat).
    { intros pri t H. split; [by apply logmsg_no_report|]. unfold logmsg.
      rewrite (proj2 (Z.leb_gt _ _) H), app_nil_r. by destruct (_ || _). }
    destruct (detect_hypervisor_cpuid mc), (detect_hypervisor_dmi mc 192); by apply G.
Qed.

(** A KVM guest with the machine's own DMI strings. *)
Definition kvm_vendor : list byte := bs "KVMKVMKVM" ++ [x00; x00; x00].

Definition kvm_guest : machine :=
  Machine (fun leaf => if leaf =? 1 then (0, 2 ^ 31, 0)
                       else (le_val (take 4 kvm_vendor), le_val (take 4 (drop 4 kvm_vendor)),
                             le_val (drop 8 kvm_vendor)))
          (fun path => if decide (path = bs "/sys/class/dmi/id/sys_vendor")
                       then Some (bs "Amazon EC2" ++ [x0a]) else None).

Lemma vm_detection_exact_witness :
  detect_hypervisor_cpuid kvm_guest = Some (bs "KVMKVMKVM") /\
  is_Some (detect_hypervisor_dmi kvm_guest 192).
Proof.
  destruct (vm_detection_exact kvm_guest kvm_vendor eq_refl eq_refl) as (Hc & Hd & _).
  split; [exact Hc|]. apply Hd. left. do 6 right. left. by exists [], [].
Defined.
