(* ===== verification/Daemon.v ===== *)
(** * The monitoring daemon (src/anticheat_daemon.c, [cmd_start])

    The composition: the start of the daemon, one iteration of its loop with
    the events and the eight periodic checks on the shared device and tables,
    and the loop until a signal stops it. *)

From Stdlib Require Import ZArith Lia Strings.Byte.
From stdpp Require Import base numbers list gmap strings sets.
From S2P Require Import Prelude Libc Abi Kernel Registry Probes Snapshot Ioctl Device Log Tracker Environ.
From S2P Require Import Json Modules Monitor Baseline Layers Elf Render Vm.

(** What the outside answers during one iteration: the clock, [/proc/modules],
    the environments of processes, the layer manifests, the libraries, and the
    baseline files and memory of processes. *)
Record answers := Answers {
  an_now : Z;
  an_modules : option (list byte);
  an_procfs : procfs;
  an_layers : layer_fs;
  an_render : render_env;
  an_baselines : files;
  an_mem_opens : Z -> bool;
  an_mem : Z -> nat -> preader
}.

(** The daemon's state: the device and its static variables. *)
Record daemon (D : Type) := DaemonState {
  dm_dev : D;
  dm_anon : list (slot Z);
  dm_preload : list (slot unit);
  dm_vklayer : list (slot unit);
  dm_implicit : list (slot Z);
  dm_next : next_times
}.
Arguments DaemonState {D}.
Arguments dm_dev {D}.
Arguments dm_anon {D}.
Arguments dm_preload {D}.
Arguments dm_vklayer {D}.
Arguments dm_implicit {D}.
Arguments dm_next {D}.

Definition daemon_init {D} (d : D) : daemon D :=
  DaemonState d (table_zero 0) (table_zero tt) (table_zero tt) (table_zero 0) schedule_init.

(** What the system answers to the starting process: its effective uid, whether
    standard output is a terminal, the results of the two [fork] calls in this
    process, [getpid()] and the text of [strerror]. *)
Record process := Process {
  pr_euid : Z;
  pr_tty : bool;
  pr_fork1 : Z;
  pr_fork2 : Z;
  pr_pid : Z;
  pr_strerror : cstring
}.

Definition foreground_arg (args : list cstring) : bool :=
  existsb (fun a => bool_decide (a = bs "--foreground")) args.

(** Whether a process leaves [cmd_start] while it turns into a daemon. *)
Inductive fork_outcome := Exits (status : Z) (out : list cstring) | Continues.

(** The double [fork]. The first parent prints the child's pid and leaves by
    [_exit], which does not write out what [printf] has buffered: only a
    terminal, buffered by line, shows it. *)
Definition daemonize (foreground tty : bool) (fork1 fork2 : Z) : fork_outcome :=
  if foreground then Continues
  else if fork1 <? 0 then Exits 1 []
  else if 0 <? fork1
  then Exits 0 (if tty then [bs "anticheat daemon started (pid " ++ fmt_d fork1 ++ bs ")" ++ [x0a]]
                else [])
  else if fork2 <? 0 then Exits 1 []
  else if 0 <? fork2 then Exits 0 []
  else Continues.

Section daemon.
Context {D : Type} `{Device D}.
Variable env : cstring -> option cstring.       (* getenv *)
Variable stack : list byte.                     (* what SHA-256 contexts held before *)
Variable verbose : bool.

Definition baseline_dir : cstring := ac_baseline_dir (env (bs "AC_BASELINE_DIR")).

Definition with_dev (d : D) (s : daemon D) : daemon D :=
  DaemonState d (dm_anon s) (dm_preload s) (dm_vklayer s) (dm_implicit s) (dm_next s).

(** One periodic check; [None] after a read outside a heap block. *)
Definition run_check (an : answers) (c : check) (s : daemon D) : option (daemon D * list effect) :=
  let d := dm_dev s in
  match c with
  | ChkSyscalls => let '(_, d, es) := check_syscalls_periodic verbose d in Some (with_dev d s, es)
  | ChkModules =>
      let '(_, d, es) := check_modules_periodic verbose (an_modules an) d in Some (with_dev d s, es)
  | ChkScan =>
      let '(_, d, tbl, es) := scan_protected_periodic verbose d (dm_anon s) in
      Some (DaemonState d tbl (dm_preload s) (dm_vklayer s) (dm_implicit s) (dm_next s), es)
  | ChkBaseline =>
      let '(_, d, es) := check_baselines_periodic stack baseline_dir (an_baselines an)
                           (an_mem_opens an) (an_mem an) verbose d in
      Some (with_dev d s, es)
  | ChkRender =>
      '(d, es) ← check_render_hooks_periodic (an_render an) verbose d; Some (with_dev d s, es)
  | ChkPreload =>
      let '(d, tbl, es) := check_ld_preload_periodic verbose (an_procfs an) d (dm_preload s) in
      Some (DaemonState d (dm_anon s) tbl (dm_vklayer s) (dm_implicit s) (dm_next s), es)
  | ChkVkLayer =>
      let '(d, tbl, es) := check_vk_layers_periodic verbose (an_procfs an) d (dm_vklayer s) in
      Some (DaemonState d (dm_anon s) (dm_preload s) tbl (dm_implicit s) (dm_next s), es)
  | ChkImplicit =>
      let '(d, tbl, es) :=
        check_implicit_layers_periodic verbose (an_layers an) (an_procfs an) d (dm_implicit s) in
      Some (DaemonState d (dm_anon s) (dm_preload s) (dm_vklayer s) tbl (dm_next s), es)
  end.

Fixpoint run_checks (an : answers) (cs : list check) (s : daemon D)
    : option (daemon D * list effect) :=
  match cs with
  | [] => Some (s, [])
  | c :: cs =>
      '(s, es) ← run_check an c s;
      '(s, es') ← run_checks an cs s;
      Some (s, es ++ es')
  end.

(** The body of the loop: the events, then the checks that are due. *)
Definition iteration (an : answers) (s : daemon D) : option (daemon D * list effect) :=
  let '(d, es) := handle_events verbose (dm_dev s) in
  let '(due, next) := tick env (an_now an) (dm_next s) in
  '(s, es') ← run_checks an due (with_dev d s);
  Some (DaemonState (dm_dev s) (dm_anon s) (dm_preload s) (dm_vklayer s) (dm_implicit s) next,
        es ++ es').

(** The loop, until the signal handler sets [g_stop]: one element per
    iteration before that. *)
Fixpoint monitor_loop (ans : list answers) (s : daemon D) : option (daemon D * list effect) :=
  match ans with
  | [] => Some (s, [])
  | an :: ans =>
      '(s, es) ← iteration an s;
      '(s, es') ← monitor_loop ans s;
      Some (s, es ++ es')
  end.

(** The part of [cmd_start] between daemonizing and the loop; [self] is
    [getpid()], [strerror] the text of the error. *)
Definition start_up (mc : machine) (foreground : bool) (self : Z) (strerror : cstring) (d : D)
    : D * list effect :=
  let es := logmsg verbose LOG_INFO
              (bs "anticheat daemon started (foreground=" ++ fmt_d (Z.b2z foreground) ++ bs ")") in
  let '(ok, d) := dev_add_proc (ProcId self 0 0 []) d in
  (d, es
      ++ (if ok : bool
          then logmsg verbose LOG_INFO (bs "self-protected (pid " ++ fmt_d self ++ bs ")")
          else logmsg verbose LOG_WARNING
                 (bs "failed to self-protect (pid " ++ fmt_d self ++ bs "): " ++ strerror))
      ++ vm_messages mc verbose).

(** [cmd_start]: the exit status, the lines on standard output, the messages
    and the device, if it was opened. [die] exits with 1. *)
Definition cmd_start (args : list cstring) (pr : process) (opened : option D) (mc : machine)
    (ans : list answers) : option (Z * list cstring * list effect * option D) :=
  let foreground := foreground_arg args in
  if negb (pr_euid pr =? 0) then Some (1, [], [], opened)
  else
    match opened, daemonize foreground (pr_tty pr) (pr_fork1 pr) (pr_fork2 pr) with
    | None, _ => Some (1, [], [], None)
    | Some _, Exits ret out => Some (ret, out, [], opened)
    | Some d, Continues =>
        let '(d, es) := start_up mc foreground (pr_pid pr) (pr_strerror pr) d in
        '(s, es') ← monitor_loop ans (daemon_init d);
        Some (0, [], es ++ es' ++ logmsg verbose LOG_INFO (bs "anticheat daemon stopped"),
              Some (dm_dev s))
    end.
End daemon.

(** ** The invariant of the daemon *)

Section laws.
Context {D : Type} `{DeviceLaws D}.
Variable env : cstring -> option cstring.
Variable stack : list byte.
Variable verbose : bool.

Record daemon_inv (s : daemon D) : Prop := {
  di_dev : dev_ok (dm_dev s);
  di_anon : table_inv (dm_anon s);
  di_preload : table_inv (dm_preload s);
  di_vklayer : table_inv (dm_vklayer s);
  di_implicit : table_inv (dm_implicit s)
}.

Lemma daemon_init_inv d : dev_ok d -> daemon_inv (daemon_init d).
Proof. intros Hd. split; [done|apply table_zero_inv..]. Qed.

(** The libraries of an iteration have terminated string tables. *)
Definition libs_terminated (an : answers) : Prop :=
  forall path rd, re_lib (an_render an) path = Some rd -> terminated rd.

Lemma syscalls_check_ok d : dev_ok d -> dev_ok (check_syscalls_periodic verbose d).1.2.
Proof.
  intros Hd. pose proof (check_syscalls_law d Hd) as Hc. unfold check_syscalls_periodic.
  by destruct (dev_check_syscalls d) as [[c|] d'].
Qed.

Lemma modules_check_ok file d : dev_ok d -> dev_ok (check_modules_periodic verbose file d).1.2.
Proof.
  intros Hd. unfold check_modules_periodic. pose proof (crosscheck_ok false file d Hd) as Hx.
  by destruct (crosscheck_modules false file d) as [[h out] d'].
Qed.

(** Checks whose findings are informational. *)
Definition informational (c : check) : bool :=
  match c with ChkPreload | ChkVkLayer | ChkImplicit => true | _ => false end.

Lemma run_check_ok an c s :
  daemon_inv s -> libs_terminated an ->
  exists s' es, run_check env stack verbose an c s = Some (s', es) /\ daemon_inv s' /\
    dm_next s' = dm_next s /\ (informational c = true -> reports es = []).
Proof.
  intros [Hd Ha Hp Hv Hi] Hlib. destruct c; cbn [run_check informational].
  - pose proof (syscalls_check_ok _ Hd) as H1. destruct (check_syscalls_periodic _ _) as [[r d'] es].
    eexists _, _. by split_and!.
  - pose proof (modules_check_ok (an_modules an) _ Hd) as H1.
    destruct (check_modules_periodic _ _ _) as [[r d'] es]. eexists _, _. by split_and!.
  - pose proof (scan_cycle_spec verbose (dm_dev s) (dm_anon s) Hd Ha) as H1.
    destruct (scan_protected_periodic _ _ _) as [[[r d'] tbl'] es]. destruct H1 as (H1 & H2 & _).
    eexists _, _. by split_and!.
  - pose proof (baseline_cycle_spec stack (baseline_dir env) (an_baselines an) (an_mem_opens an)
      (an_mem an) verbose (dm_dev s) Hd) as H1.
    destruct (check_baselines_periodic _ _ _ _ _ _ _) as [[r d'] es]. destruct H1 as [H1 _].
    eexists _, _. by split_and!.
  - destruct (render_cycle_spec (an_render an) verbose (dm_dev s) Hd Hlib) as (d' & es & -> & H1 & _).
    eexists _, _. by split_and!.
  - pose proof (environ_checks_spec verbose (an_procfs an) (dm_dev s) (dm_preload s) Hd Hp _ _
      (or_introl (conj eq_refl eq_refl))) as H1.
    destruct (check_ld_preload_periodic _ _ _ _) as [[d' tbl'] es]. destruct H1 as (H1 & H2 & H3 & _).
    eexists _, _. by split_and!.
  - pose proof (environ_checks_spec verbose (an_procfs an) (dm_dev s) (dm_vklayer s) Hd Hv _ _
      (or_intror (conj eq_refl eq_refl))) as H1.
    destruct (check_vk_layers_periodic _ _ _ _) as [[d' tbl'] es]. destruct H1 as (H1 & H2 & H3 & _).
    eexists _, _. by split_and!.
  - pose proof (implicit_cycle_spec verbose (an_layers an) (an_procfs an) (dm_dev s) (dm_implicit s) Hd Hi) as H1.
    destruct (check_implicit_layers_periodic _ _ _ _ _) as [[d' tbl'] es]. destruct H1 as (H1 & H2 & H3 & _).
    eexists _, _. by split_and!.
Qed.

Lemma handle_events_ok s :
  daemon_inv s ->
  let '(d, es) := handle_events verbose (dm_dev s) in
  daemon_inv (with_dev d s) /\
  exists k, reports es = omap event_report (take k (dev_queue (dm_dev s))) /\
    dev_queue d = drop k (dev_queue (dm_dev s)) /\
    (is_Some (dev_get_events (dm_dev s)).1 -> k = AC_MAX_EVENTS).
Proof.
  intros [Hd ? ? ? ?]. pose proof (handle_events_spec verbose (dm_dev s) Hd) as He.
  destruct (handle_events verbose (dm_dev s)) as [d es]. destruct He as (Hd' & k & -> & Hq & Hk).
  split; [by split|]. exists k. split; [apply events_reports|done].
Qed.

(** What a sequence of checks did: one piece per check, each the outcome of the
    check in a sound state. *)
Definition checked (an : answers) (c : check) (es : list effect) : Prop :=
  (informational c = true -> reports es = []) /\
  exists s0 s1, daemon_inv s0 /\ daemon_inv s1 /\ run_check env stack verbose an c s0 = Some (s1, es).

Lemma run_checks_ok an cs : forall s,
  daemon_inv s -> libs_terminated an ->
  exists s' ess, run_checks env stack verbose an cs s = Some (s', concat ess) /\ daemon_inv s' /\
    Forall2 (checked an) cs ess.
Proof.
  induction cs as [|c cs IH]; intros s Hs Hl; [by exists s, []|]. cbn [run_checks].
  destruct (run_check_ok an c s Hs Hl) as (s1 & es & E & Hs1 & _ & Hq). rewrite E.
  destruct (IH s1 Hs1 Hl) as (s2 & ess & E2 & Hs2 & Hf). cbn [mbind option_bind]. rewrite E2.
  exists s2, (es :: ess). split; [done|]. split; [done|]. constructor; [|done].
  split; [done|]. by exists s, s1.
Qed.

Lemma reports_concat ess : reports (concat ess) = concat (reports <$> ess).
Proof. induction ess as [|es ess IH]; [done|]. cbn. by rewrite reports_app, IH. Qed.

Lemma iteration_ok an s :
  daemon_inv s -> libs_terminated an ->
  exists s' es ess k, iteration env stack verbose an s = Some (s', es) /\ daemon_inv s' /\
    dm_next s' = (tick env (an_now an) (dm_next s)).2 /\
    Forall2 (checked an) (tick env (an_now an) (dm_next s)).1 ess /\
    reports es = omap event_report (take k (dev_queue (dm_dev s))) ++ concat (reports <$> ess) /\
    (is_Some (dev_get_events (dm_dev s)).1 -> k = AC_MAX_EVENTS).
Proof.
  intros Hs Hl. unfold iteration. pose proof (handle_events_ok s Hs) as He.
  destruct (handle_events verbose (dm_dev s)) as [d es]. destruct He as (Hs1 & k & Hr & _ & Hk).
  destruct (tick env (an_now an) (dm_next s)) as [due next].
  destruct (run_checks_ok an due (with_dev d s) Hs1 Hl) as (s2 & ess & E & Hs2 & Hf). rewrite E.
  eexists _, _, ess, k. split; [reflexivity|]. split; [by destruct Hs2|].
  split; [done|]. split; [done|]. rewrite reports_app, Hr, reports_concat. done.
Qed.

Lemma monitor_ok ans : forall s,
  daemon_inv s -> Forall libs_terminated ans ->
  exists s' es, monitor_loop env stack verbose ans s = Some (s', es) /\ daemon_inv s' /\
    dm_next s' = foldl (fun next an => (tick env (an_now an) next).2) (dm_next s) ans.
Proof.
  induction ans as [|an ans IH]; intros s Hs Hl; [by exists s, []|]. cbn [monitor_loop foldl].
  apply Forall_cons in Hl as [Hl Hls].
  destruct (iteration_ok an s Hs Hl) as (s1 & es & ess & k & E & Hs1 & Hn & _). rewrite E.
  destruct (IH s1 Hs1 Hls) as (s2 & es2 & E2 & Hs2 & Hn2). cbn [mbind option_bind]. rewrite E2.
  eexists _, _. split; [reflexivity|]. by rewrite Hn2, Hn.
Qed.

Lemma start_up_ok mc foreground self strerror d :
  dev_ok d ->
  let '(d', es) := start_up verbose mc foreground self strerror d in
  dev_ok d' /\ reports es = [] /\
  ((exists t i, dev_resolve d self 0 = Some t /\ dev_prot d' !! t = Some i /\ in_jit i = false) \/
   (dev_prot d' = dev_prot d /\
    Syslog LOG_WARNING (snprintf LOG_BUF (bs "failed to self-protect (pid " ++ fmt_d self ++ bs "): "
                                          ++ strerror)) ∈ es)).
Proof.
  intros Hd. unfold start_up. pose proof (add_proc_law (ProcId self 0 0 []) d Hd) as Ha.
  assert (Hv : reports (vm_messages mc verbose) = []).
  { unfold vm_messages. destruct (detect_hypervisor_cpuid mc), (detect_hypervisor_dmi mc 192);
      by apply logmsg_no_report. }
  destruct (dev_add_proc (ProcId self 0 0 []) d) as [ok d']. destruct Ha as [Hd' Ha].
  split; [done|]. split.
  { rewrite !reports_app, Hv, app_nil_r. rewrite logmsg_no_report by done.
    by destruct ok; rewrite logmsg_no_report. }
  destruct ok.
  - left. destruct Ha as (t & i & Hr & Hj & ->). exists t, i. split; [exact Hr|].
    split; [apply lookup_insert_eq|exact Hj].
  - right. destruct Ha as [Hp _]. split; [exact Hp|]. apply elem_of_app. right. apply elem_of_app. left.
    unfold logmsg. apply elem_of_app. left. apply list_elem_of_here.
Qed.

Lemma start_up_runs mc self strerror foreground d ans :
  dev_ok d -> Forall libs_terminated ans ->
  exists es s d', start_up verbose mc foreground self strerror d = (d', es) /\
    (exists es', monitor_loop env stack verbose ans (daemon_init d') = Some (s, es')) /\ daemon_inv s.
Proof.
  intros Hd Hl. pose proof (start_up_ok mc foreground self strerror d Hd) as Hs.
  destruct (start_up _ _ _ _ _ _) as [d' es]. destruct Hs as [Hd' _].
  destruct (monitor_ok ans (daemon_init d') (daemon_init_inv d' Hd') Hl) as (s' & es' & E & Hs' & _).
  exists es, s', d'. split_and!; [done|by exists es'|done].
Qed.

Lemma cmd_start_ok args pr (opened : option D) mc ans :
  (forall d, opened = Some d -> dev_ok d) -> Forall libs_terminated ans ->
  exists ret out es dev, cmd_start env stack verbose args pr opened mc ans = Some (ret, out, es, dev) /\
     (is_Some dev <-> is_Some opened) /\ (forall d, dev = Some d -> dev_ok d) /\
     (ret = 0 <-> pr_euid pr = 0 /\ is_Some opened /\
        (foreground_arg args = true \/ 0 < pr_fork1 pr \/ pr_fork1 pr = 0 /\ 0 <= pr_fork2 pr)) /\
     (ret = 0 \/ ret = 1) /\
     (es <> [] -> foreground_arg args = true \/ pr_fork1 pr = 0 /\ pr_fork2 pr = 0).
Proof.
  intros Hop Hl. unfold cmd_start. set (fg := foreground_arg args).
  destruct (Z.eqb_spec (pr_euid pr) 0) as [He|He]; cbn [negb].
  2:{ eexists _, _, _, _. split; [reflexivity|].
      split_and!; [done|exact Hop|split; [done|by intros [? _]]|by right|done]. }
  destruct opened as [d|].
  2:{ eexists _, _, _, _. split; [reflexivity|].
      split_and!; [done|done|split; [done|by intros (_ & [? ?] & _)]|by right|done]. }
  unfold daemonize. destruct fg eqn:Ef.
  { destruct (start_up_runs mc (pr_pid pr) (pr_strerror pr) true d ans (Hop d eq_refl) Hl)
      as (es & s & d' & E & [es' E2] & Hs). rewrite E. cbn [mbind option_bind]. rewrite E2.
    eexists _, _, _, _. split; [reflexivity|].
    split_and!; [done|intros d0 [= <-]; apply Hs| |by left|by left].
    split; [|done]. intros _. split_and!; [done|by eexists|by left]. }
  destruct (Z.ltb_spec (pr_fork1 pr) 0); [|destruct (Z.ltb_spec 0 (pr_fork1 pr));
    [|destruct (Z.ltb_spec (pr_fork2 pr) 0); [|destruct (Z.ltb_spec 0 (pr_fork2 pr))]]].
  1-4: eexists _, _, _, _; split; [reflexivity|]; split_and!; [done|exact Hop| |lia|done];
    split; [intros ?; split_and!; [done|by eexists|lia]|intros (_ & _ & [?|?]); [done|lia]].
  destruct (start_up_runs mc (pr_pid pr) (pr_strerror pr) false d ans (Hop d eq_refl) Hl)
      as (es & s & d' & E & [es' E2] & Hs). rewrite E. cbn [mbind option_bind]. rewrite E2.
  eexists _, _, _, _. split; [reflexivity|].
  split_and!; [done|intros d0 [= <-]; apply Hs| |by left|intros _; lia].
  split; [|done]. intros _. split_and!; [done|by eexists|lia].
Qed.

(** ** Properties *)

(** C6: the daemon never breaks down.  As root, with the device open and the
    libraries' string tables terminated, the process that [cmd_start] leaves
    running does any number of iterations, whatever the processes, files,
    memory, clock and device answer, and exits with 0 once stopped, the device
    in a sound state; without privilege, device or child it exits with 1, and
    the parents of the double [fork] leave with 0 and without a message.  (Sending a
    report is an effect here; its transfer is in Report.v.)  The loop keeps the daemon's invariant, the device sound and all four tables
    well-formed maps, and every [next_*] time is what the schedule of the
    iterations gives. *)
Theorem monitor_never_breaks args pr (opened : option D) mc ans :
  (forall d, opened = Some d -> dev_ok d) -> Forall libs_terminated ans ->
  (exists ret out es dev, cmd_start env stack verbose args pr opened mc ans = Some (ret, out, es, dev) /\
     (is_Some dev <-> is_Some opened) /\ (forall d, dev = Some d -> dev_ok d) /\
     (ret = 0 <-> pr_euid pr = 0 /\ is_Some opened /\
        (foreground_arg args = true \/ 0 < pr_fork1 pr \/ pr_fork1 pr = 0 /\ 0 <= pr_fork2 pr)) /\
     (ret = 0 \/ ret = 1) /\
     (es <> [] -> foreground_arg args = true \/ pr_fork1 pr = 0 /\ pr_fork2 pr = 0)) /\
  (forall d, opened = Some d ->
     exists s' es, monitor_loop env stack verbose ans (daemon_init d) = Some (s', es) /\ daemon_inv s' /\
       dm_next s' = foldl (fun next an => (tick env (an_now an) next).2) schedule_init ans).
Proof.
  intros Hop Hl. split; [by apply cmd_start_ok|].
  intros d Hd. apply (monitor_ok ans (daemon_init d)); [|done]. by apply daemon_init_inv, Hop.
Qed.

(** C25: what feeds the ban pipeline.  In every iteration the reports sent are
    those of the drained events (one per denied ptrace and per hooked system
    call, in order) followed by those of the checks that are due, in their
    order, each the outcome of that check in a sound state; the environment,
    layer-variable and implicit-layer checks never contribute any. *)
Theorem iteration_reports an s :
  daemon_inv s -> libs_terminated an ->
  exists s' es ess k, iteration env stack verbose an s = Some (s', es) /\
    reports es = omap event_report (take k (dev_queue (dm_dev s))) ++ concat (reports <$> ess) /\
    Forall2 (fun c e =>
      (c = ChkPreload \/ c = ChkVkLayer \/ c = ChkImplicit -> reports e = []) /\
      exists s0 s1, daemon_inv s0 /\ run_check env stack verbose an c s0 = Some (s1, e))
      (List.filter (fun c => dm_next s c <=? an_now an) all_checks) ess /\
    (is_Some (dev_get_events (dm_dev s)).1 -> k = AC_MAX_EVENTS).
Proof.
  intros Hs Hl. destruct (iteration_ok an s Hs Hl) as (s' & es & ess & k & E & _ & _ & Hf & Hr & Hk).
  exists s', es, ess, k. split; [done|]. split; [done|]. split; [|done].
  eapply Forall2_impl; [exact Hf|]. intros c e [Hi (s0 & s1 & Hs0 & _ & Hs1)].
  split; [intros [-> |[-> | ->]]; by apply Hi|by exists s0, s1].
Qed.

(** The daemon protects itself first.  Before the first iteration it asks
    the module to protect its own process: afterwards its task is protected,
    without the JIT exemption, or a warning says that it is not; nothing of
    the start is reported to the server. *)
Theorem start_protects_self mc foreground self strerror d :
  dev_ok d ->
  let '(d', es) := start_up verbose mc foreground self strerror d in
  reports es = [] /\
  ((exists t i, dev_resolve d self 0 = Some t /\ dev_prot d' !! t = Some i /\ in_jit i = false) \/
   (dev_prot d' = dev_prot d /\
    Syslog LOG_WARNING (snprintf LOG_BUF (bs "failed to self-protect (pid " ++ fmt_d self ++ bs "): "
                                          ++ strerror)) ∈ es)).
Proof.
  intros Hd. pose proof (start_up_ok mc foreground self strerror d Hd) as Hs.
  destruct (start_up _ _ _ _ _ _) as [d' es]. by destruct Hs.
Qed.
End laws.

(** ** Example: a game with a patched library and a preload *)

Definition game_answers (now : Z) : answers :=
  Answers now (Some []) preload_fs layers_fs gl_env wrong_baseline (fun _ => false)
    (fun _ _ => nop_reader).

Lemma game_libs now : libs_terminated (game_answers now).
Proof. exact gl_env_terminated. Qed.

Definition bare_metal : machine := Machine (fun _ => (0, 0, 0)) (fun _ => None).

(** The daemon itself: process 100, whose two [fork] calls returned 0. *)
Definition daemon_process : process := Process 0 false 0 0 100 [].

Lemma monitor_never_breaks_witness :
  exists out es dev, cmd_start (fun _ => None) zero_stack false [] daemon_process (Some gl_device) bare_metal
    [game_answers 1000; game_answers 1001] = Some (0, out, es, dev).
Proof.
  destruct (monitor_never_breaks (fun _ => None) zero_stack false [] daemon_process (Some gl_device) bare_metal
    [game_answers 1000; game_answers 1001]) as [(ret & out & es & dev & E & _ & _ & Hret & _) _].
  - intros d [= <-]. exact gl_device_ok.
  - do 2 (constructor; [apply game_libs|]). constructor.
  - exists out, es, dev. rewrite E. do 4 f_equal. apply Hret. split_and!; [done|by eexists|].
    right. right. split; [done|]. cbn. lia.
Defined.

Lemma iteration_reports_witness :
  exists s' es ess k,
    iteration (fun _ => None) zero_stack false (game_answers 1000) (daemon_init gl_device) = Some (s', es) /\
    reports es = omap event_report (take k (dev_queue gl_device)) ++ concat (reports <$> ess).
Proof.
  destruct (iteration_reports (fun _ => None) zero_stack false (game_answers 1000) (daemon_init gl_device)
    (daemon_init_inv _ gl_device_ok) (game_libs 1000)) as (s' & es & ess & k & E & Hr & _).
  exists s', es, ess, k. split; [exact E|exact Hr].
Defined.

(** The daemon as process 100 of the example machine. *)
Lemma start_protects_self_witness :
  exists i, dev_prot (start_up false bare_metal true 100 (bs "") idle_device).1 !! 7%positive = Some i /\
    in_jit i = false.
Proof.
  pose proof (start_protects_self false bare_metal true 100 (bs "") idle_device idle_device_ok) as H.
  destruct (start_up false bare_metal true 100 (bs "") idle_device) as [d' es] eqn:E.
  destruct H as [_ [(t & i & Hr & Hp & Hj)|[_ Hw]]].
  - cbn [fst]. exists i. split; [|exact Hj]. vm_compute in Hr. injection Hr as <-. exact Hp.
  - exfalso. apply (f_equal snd) in E. vm_compute in E. cbn [snd] in E. subst es.
    rewrite !elem_of_cons, elem_of_nil in Hw. destruct Hw as [Hw|[Hw|[Hw|[]]]]; discriminate.
Defined.
