(* ===== verification/Loops.v ===== *)
(** * The daemon's loops end

    The loops over input that an attacker can influence: environments, status
    files, module lists, manifests, memory.  Each is a body that [run_loop] runs
    for a number of rounds given by the size of the input; here, that it has
    left through one of its exits by then, whatever the input. *)

From Stdlib Require Import ZArith Lia Strings.Byte.
From stdpp Require Import base numbers list strings sets.
From S2P Require Import Prelude Libc Abi Sha256 Device Log Tracker Environ Json Modules Baseline Layers.

(** ** What a round consumes *)

Lemma read_body_grows rd cap buf buf' :
  read_body rd cap buf = inl buf' -> (length buf < length buf')%nat /\ (length buf < cap)%nat.
Proof.
  unfold read_body. destruct (Nat.ltb_spec (length buf) cap) as [Hlt|]; [|done].
  destruct (rd _ _) as [[|b chunk]|]; try done. intros [= <-]. rewrite length_app, length_take.
  simpl length. lia.
Qed.

Lemma parse_body_shrinks s s' : parse_body s = inl s' -> (length s'.1 < length s.1)%nat.
Proof.
  destruct s as [[|b rest] vars]; cbn [parse_body]; [done|]. destruct (_ =? 0)%nat; [done|].
  intros [= <-]. cbn [fst]. rewrite length_drop. simpl length. lia.
Qed.

(** A line that is read is not empty, so what remains is shorter. *)
Lemma fgets_split n l : l = (fgets n l).1 ++ (fgets n l).2.
Proof.
  revert l. induction n as [|[|n] IH]; intros [|b l]; try done. rewrite fgets_cons.
  destruct (byte_Z b =? 10); [done|]. specialize (IH l).
  destruct (fgets (S n) l) as [line rest]. cbn [fst snd app] in *. by rewrite <- IH.
Qed.

Lemma fgets_shrinks n l b line rest :
  fgets n l = (b :: line, rest) -> (length rest < length l)%nat.
Proof.
  intros E. rewrite (fgets_split n l), E. cbn [fst snd]. rewrite length_app. simpl. lia.
Qed.

Lemma collect_body_shrinks cap s s' : collect_body cap s = inl s' -> (length s'.1 < length s.1)%nat.
Proof.
  destruct s as [l names]. cbn [collect_body fst].
  destruct (fgets LINE l) as [[|b line] rest] eqn:E; [done|]. apply fgets_shrinks in E.
  destruct (_ <? _)%nat; [|done]. by destruct (sscanf_s _ _); intros [= <-].
Qed.

Lemma find_uid_body_shrinks l l' : find_uid_body l = inl l' -> (length l' < length l)%nat.
Proof.
  unfold find_uid_body. destruct (fgets 256 l) as [[|b line] rest] eqn:E; [done|].
  apply fgets_shrinks in E. destruct (scan_uid _); [done|]. by intros [= <-].
Qed.

Lemma memmem_shrinks needle l hit :
  needle <> [] -> memmem needle l = Some hit -> (0 < length hit <= length l)%nat.
Proof.
  intros Hn. induction l as [|b l IH]; cbn [memmem].
  - case_bool_decide as Hp; [|done]. destruct Hp as [k Hk]. by destruct needle.
  - case_bool_decide as Hp; [intros [= <-]; simpl; lia|]. intros E. specialize (IH E). simpl. lia.
Qed.

Lemma extract_body_shrinks needle outsz p p' :
  needle <> [] -> extract_body needle outsz p = inl p' -> (length p' < length p)%nat.
Proof.
  intros Hn. unfold extract_body. destruct p as [|b p]; [done|].
  destruct (memmem needle (b :: p)) as [hit|] eqn:E; [|done]. apply memmem_shrinks in E; [|done].
  assert (Hd : (length (drop 1 hit) < length (b :: p))%nat) by (rewrite length_drop; lia).
  destruct (skip_ws _) as [|c q]; [by intros [= <-]|]. destruct (Byte.eqb c colon); [|by intros [= <-]].
  destruct (skip_ws q) as [|c' q']; [by intros [= <-]|]. by destruct (Byte.eqb c' quote); [|intros [= <-]].
Qed.

(** [pread] returns at most what was asked for. *)
Definition preads (pread : preader) : Prop :=
  forall call off n l, pread call off n = Some l -> (length l <= n)%nat.

Lemma hash_body_advances pread start size s s' :
  preads pread -> size < 2 ^ 63 -> 0 <= s.1.2 <= size ->
  hash_body pread start size s = inl s' -> 0 <= s'.1.2 <= size /\ s.1.2 < s'.1.2.
Proof.
  intros Hr Hs. destruct s as [[call dn] c]. cbn [hash_body fst snd]. intros Hd.
  destruct (Z.ltb_spec dn size) as [Hlt|]; [|done].
  destruct (pread _ _ _) as [[|b buf]|] eqn:E; try done. apply Hr in E. intros [= <-]. cbn [fst snd].
  assert (Hw : Z.of_nat (length (b :: buf)) <= size - dn).
  { unfold u64 in E. rewrite Z.mod_small in E by lia. lia. }
  cbn [length] in Hw. unfold u64. rewrite Z.mod_small by lia. lia.
Qed.

(** A loop without invariant. *)
Lemma loop_ends {St R} (body : St -> St + R) (measure : St -> nat) s :
  (forall s s', body s = inl s' -> (measure s' < measure s)%nat) ->
  exists r, run_loop body (S (measure s)) s = Some r.
Proof.
  intros H. apply (run_loop_ends (fun _ => True) measure); [|done|lia]. intros s1 s2 _ E. split; [done|by apply H].
Qed.

(** ** Property *)

(** C31: every loop over untrusted input ends, with the result the callers use.
    Whatever a process's environment, a status file, [/proc/modules] or a
    manifest contains, in whatever pieces it is read and whatever the key of at
    most 61 bytes, and whatever the memory
    reads of a hash return (at most what was asked for), the loop leaves through
    its false condition, a [break] or a [return] in at most one round more than
    the input has bytes (the buffer, for reading the environment; the range, for
    a hash): after that many rounds it is never still going, and the value of
    the function is the one it left with. *)
Theorem input_loops_end :
  (forall rd cap, run_loop (read_body rd cap) (S cap) [] = Some (read_file rd cap)) /\
  (forall buf vars, run_loop parse_body (S (length buf)) (buf, vars) = Some (parse_environ buf vars)) /\
  (forall cap l,
     run_loop (collect_body cap) (S (length l)) (l, []) = Some (collect_proc_modules cap (Some l))) /\
  (forall status, run_loop find_uid_body (S (length status)) status = Some (find_uid status)) /\
  (forall json key outsz, (length (quoted key) < 64)%nat ->
     run_loop (extract_body (quoted key) outsz) (S (length json)) json
     = Some (json_extract_string json key outsz)) /\
  (forall stack pread start size, preads pread -> 0 <= size < 2 ^ 63 ->
     exists c, run_loop (hash_body pread start size) (S (Z.to_nat size)) (0%nat, 0, ac_sha256_init stack) = Some c /\
       hash_proc_mem stack pread start size = (fun c => hex_of (ac_sha256_final c)) <$> c).
Proof.
  split_and!.
  - intros rd cap. unfold read_file.
    destruct (run_loop_ends (fun _ => True) (fun buf => cap - length buf)%nat (read_body rd cap)) with (n := S cap)
      (s := @nil byte) as [r E]; [|done|simpl; lia|by rewrite E].
    intros s s' _ E%read_body_grows. split; [done|lia].
  - intros buf vars. unfold parse_environ.
    destruct (loop_ends parse_body (fun s => length s.1) (buf, vars) parse_body_shrinks) as [r E].
    cbn [fst] in E. by rewrite E.
  - intros cap l. unfold collect_proc_modules.
    destruct (loop_ends (collect_body cap) (fun s => length s.1) (l, []) (collect_body_shrinks cap)) as [r E].
    cbn [fst] in E. by rewrite E.
  - intros status. unfold find_uid.
    destruct (loop_ends find_uid_body length status find_uid_body_shrinks) as [r E]. by rewrite E.
  - intros json key outsz Hk. unfold json_extract_string. rewrite (proj2 (Nat.leb_gt _ _)) by done.
    destruct (loop_ends (extract_body (quoted key) outsz) length json) as [r E]; [|by rewrite E].
    intros p p'. by apply extract_body_shrinks.
  - intros stack pread start size Hr Hs. unfold hash_proc_mem.
    destruct (run_loop_ends (fun s => 0 <= s.1.2 <= size) (fun s => Z.to_nat (size - s.1.2))
      (hash_body pread start size)) with (n := S (Z.to_nat size)) (s := (0%nat, 0, ac_sha256_init stack)) as [r E].
    + intros s s' Hi E. apply hash_body_advances in E; [|done|lia|done]. split; [tauto|lia].
    + simpl. lia.
    + simpl. lia.
    + exists r. rewrite E. by destruct r.
Qed.

Lemma input_loops_end_witness :
  run_loop (extract_body (quoted (bs "name")) 64) (S (length layer_b)) layer_b = Some (Some (bs "VK_LAYER_B")).
Proof.
  destruct input_loops_end as (_ & _ & _ & _ & H & _). rewrite (H layer_b (bs "name") 64%nat).
  - vm_compute. reflexivity.
  - apply Nat.ltb_lt. vm_compute. reflexivity.
Defined.
