(* ===== verification/Cli.v ===== *)
(** * The command line (src/anticheat_daemon.c, [main] and the [cmd_*] functions)

    Argument parsing, the commands that drive the module through the device,
    and the dispatch in [main].  Output on standard output is a list of texts,
    one per [printf]; texts on standard error are not modelled.  A run of
    [events --watch] is followed for a number of rounds, and has no exit status
    while it goes on. *)

From Stdlib Require Import ZArith Lia Strings.Byte.
From stdpp Require Import base numbers list gmap strings sets.
From S2P Require Import Prelude Libc Abi Kernel Registry Probes Snapshot Ioctl Device Log Tracker Environ.
From S2P Require Import Json Modules Monitor Baseline Layers Elf Render Vm Daemon.

(** [atoi], the cast of [strtol] to [int]. *)
Definition atoi (e : cstring) : Z :=
  let l := skip_ws e in
  let '(neg, l) :=
    match l with x2d :: l => (true, l) | x2b :: l => (false, l) | _ => (false, l) end in
  let v := dec_val 0 (digits l).1 in
  s32 (Z.max (- 2 ^ 63) (Z.min (2 ^ 63 - 1) (if (neg : bool) then - v else v))).

(** How a command ended: the exit status (of [return] or of [die]), what was
    printed, and the device. *)
Record outcome (D : Type) := Outcome { oc_exit : Z; oc_out : list cstring; oc_dev : D }.
Arguments Outcome {D}.
Arguments oc_exit {D}.
Arguments oc_out {D}.
Arguments oc_dev {D}.

(** ** protect *)

Record protect_opts := ProtectOpts { po_pid : Z; po_ref : Z; po_comm : option cstring; po_jit : bool }.

(** The option loop of [cmd_protect]. *)
Fixpoint protect_args (argv : list cstring) (o : protect_opts) : protect_opts :=
  match argv with
  | [] => o
  | a :: ((v :: rest) as argv) =>
      if decide (a = bs "--pid")
      then protect_args rest (ProtectOpts (atoi v) (po_ref o) (po_comm o) (po_jit o))
      else if decide (a = bs "--comm")
      then protect_args rest (ProtectOpts (po_pid o) (po_ref o) (Some v) (po_jit o))
      else if decide (a = bs "--ns-of")
      then protect_args rest (ProtectOpts (po_pid o) (atoi v) (po_comm o) (po_jit o))
      else if decide (a = bs "--jit")
      then protect_args argv (ProtectOpts (po_pid o) (po_ref o) (po_comm o) true)
      else protect_args argv o
  | [a] =>
      if decide (a = bs "--jit") then ProtectOpts (po_pid o) (po_ref o) (po_comm o) true else o
  end.

(** An entry of /proc: its name and, if it opens, what [read] returns of its
    [comm] file. *)
Definition proc_entry : Type := cstring * option (list byte).

(** The loop that strips newlines and blanks from the end. *)
Fixpoint strip_blank (l : list byte) : list byte :=
  match l with b :: l' => if (byte_Z b =? 10) || (byte_Z b =? 32) then strip_blank l' else l | [] => [] end.

Definition entry_comm (content : list byte) : option cstring :=
  match take AC_MAX_COMM content with
  | [] => None
  | buf => Some (cstr (rev (strip_blank (rev buf))))
  end.

(** The loop of [pid_of_comm]. *)
Fixpoint pid_loop (comm : cstring) (procs : list proc_entry) (max : nat) (pids : list Z) : list Z :=
  match procs with
  | [] => pids
  | (d_name, file) :: procs =>
      let next := pid_loop comm procs max in
      match d_name with
      | c :: _ =>
          if is_digit c && (0 <? atoi d_name) then
            match file ≫= entry_comm with
            | Some buf =>
                if bool_decide (buf = cstr comm) && (length pids <? max)%nat
                then next (pids ++ [atoi d_name]) else next pids
            | None => next pids
            end
          else next pids
      | [] => next pids
      end
  end.

(** [pid_of_comm] on the entries of /proc, [None] if it does not open: then
    [die] ends the program. *)
Definition pid_of_comm (comm : cstring) (dir : option (list proc_entry)) (max : nat) : option (list Z) :=
  (fun procs => pid_loop comm procs max []) <$> dir.

Section commands.
Context {D : Type} `{Device D}.

(** The loop over the processes found. *)
Fixpoint protect_all (pids : list Z) (jit : bool) (d : D) : list cstring * D :=
  match pids with
  | [] => ([], d)
  | pid :: pids =>
      let '(ok, d) := dev_add_proc (ProcId pid 0 (Z.b2z jit) []) d in
      let '(out, d) := protect_all pids jit d in
      ((if ok : bool then [nl (bs "protected pid " ++ fmt_d pid ++ bs " ()")] else []) ++ out, d)
  end.

Definition cmd_protect (argv : list cstring) (dir : option (list proc_entry)) (d : D) : outcome D :=
  let o := protect_args argv (ProtectOpts (-1) (-1) None false) in
  if (po_pid o <? 0) && negb (bool_decide (is_Some (po_comm o))) then Outcome 1 [] d
  else if (0 <=? po_ref o) && bool_decide (is_Some (po_comm o)) then Outcome 1 [] d
  else if (0 <=? po_ref o) && (po_pid o <? 0) then Outcome 1 [] d
  else
    match po_comm o with
    | Some comm =>
        match pid_of_comm comm dir 256 with
        | None | Some [] => Outcome 1 [] d
        | Some pids =>
            let '(out, d) := protect_all pids (po_jit o) d in
            Outcome 0 (out ++ [nl (fmt_d (Z.of_nat (length pids)) ++ bs " process(es) protected")]) d
        end
    | None =>
        let '(ok, d) := dev_add_proc (ProcId (po_pid o) (po_ref o) (Z.b2z (po_jit o)) []) d in
        if ok : bool
        then Outcome 0 [nl (bs "protected pid " ++ fmt_d (po_pid o) ++ bs " ()")] d
        else Outcome 1 [] d
    end.

(** ** unprotect, list, status, lock, syscalls *)

(** The loop over [--pid N] alone. *)
Fixpoint pid_arg (argv : list cstring) (pid : Z) : Z :=
  match argv with
  | a :: ((v :: rest) as argv) => if decide (a = bs "--pid") then pid_arg rest (atoi v) else pid_arg argv pid
  | _ => pid
  end.

Definition cmd_unprotect (argv : list cstring) (d : D) : outcome D :=
  let pid := pid_arg argv (-1) in
  if pid <? 0 then Outcome 1 [] d
  else
    let '(ok, d) := dev_del_proc (ProcId pid 0 0 []) d in
    if ok : bool then Outcome 0 [nl (bs "protection removed from pid " ++ fmt_d pid)] d
    else Outcome 1 [] d.






(** ** events *)




End commands.

(** ** scan *)

Record scan_opts := ScanOpts {
  so_pid : Z; so_hash : bool; so_save : bool; so_check : bool; so_hooks : bool;
  so_preload : bool; so_vklayers : bool; so_implicit : bool }.

(** The option loop of [cmd_scan]. *)
Definition scan_flag (a : cstring) (o : scan_opts) : scan_opts :=
  let '(ScanOpts p h s c k l v i) := o in
  if decide (a = bs "--hash") then ScanOpts p true s c k l v i
  else if decide (a = bs "--save") then ScanOpts p h true c k l v i
  else if decide (a = bs "--check") then ScanOpts p h s true k l v i
  else if decide (a = bs "--check-hooks") then ScanOpts p h s c true l v i
  else if decide (a = bs "--check-preload") then ScanOpts p h s c k true v i
  else if decide (a = bs "--check-vklayers") then ScanOpts p h s c k l true i
  else if decide (a = bs "--check-implicit-layers") then ScanOpts p h s c k l v true
  else o.

Fixpoint scan_args (argv : list cstring) (o : scan_opts) : scan_opts :=
  match argv with
  | a :: ((v :: rest) as argv) =>
      if decide (a = bs "--pid")
      then scan_args rest (ScanOpts (atoi v) (so_hash o) (so_save o) (so_check o) (so_hooks o)
                             (so_preload o) (so_vklayers o) (so_implicit o))
      else scan_args argv (scan_flag a o)
  | [a] => scan_flag a o
  | [] => o
  end.

(** What the command reads besides the device. *)
Record scan_env := ScanEnv {
  se_strerror : cstring;
  se_stack : list byte;
  se_dir : cstring;
  se_mem : option (nat -> preader);      (* the answers for each mapping's hash *)
  se_writable : cstring -> bool;
  se_procfs : procfs;
  se_layers : layer_fs;
  se_render : render_env
}.

Section scan.
Context {D : Type} `{Device D}.
Variable verbose : bool.
Variable se : scan_env.

Definition vma_range (vi : ac_vma_info) : cstring :=
  bs " [" ++ fmt_alt_x (vi_start vi) ++ bs "-" ++ fmt_alt_x (vi_end vi) ++ bs "]".

Definition vma_name (vi : ac_vma_info) : cstring :=
  match vi_path vi with [] => bs "(anonymous)" | p => p end.

(** The line for a mapping. *)
Definition has_flag (flag : Z) (vi : ac_vma_info) : bool := negb (Z.land (vi_flags vi) flag =? 0).

Definition vma_line (vi : ac_vma_info) : list cstring :=
  if has_flag AC_VM_EXEC vi && has_flag AC_VM_WRITE vi
  then [nl (bs "  [!] RWX" ++ vma_range vi ++ bs " " ++ vma_name vi)]
  else if has_flag AC_VM_EXEC vi && (vi_is_file vi =? 0)
  then [nl (bs "  [?] anon-exec" ++ vma_range vi)]
  else if has_flag AC_VM_EXEC vi && verbose
  then [nl (bs "  exec" ++ vma_range vi ++ bs " " ++ vma_name vi)]
  else [].

(** What is printed about a mapping that is hashed, for the hash and the
    outcome of the comparison. *)
Definition hash_lines (save : bool) (vi : ac_vma_info) (hash : option cstring) (v : verdict)
    : list cstring :=
  match hash with
  | None => [nl (bs "  hash failed for " ++ vi_path vi)]
  | Some hex =>
      let blpath := baseline_path_for (se_stack se) (se_dir se) (vi_path vi) in
      [nl (bs "  " ++ vi_path vi ++ bs " [" ++ fmt_alt_x (vi_start vi) ++ bs ".."
           ++ fmt_alt_x (u64 (vi_start vi + hash_size vi)) ++ bs "] " ++ hex)]
      ++ (if save && se_writable se blpath then [nl (bs "    baseline saved: " ++ blpath)] else [])
      ++ match v with
         | NoBaseline => [nl (bs "    no baseline for " ++ vi_path vi ++ bs " (run with --save first)")]
         | Changed => [nl (bs "    [ALERT] memory content differs from baseline (possible runtime patching)")]
         | Matches => [nl (bs "    ok: matches baseline")]
         | HashFailed | Hashed => []
         end
  end.

(** The body of the loop over the mappings. *)
Definition scan_step (o : scan_opts) (i : nat) (vi : ac_vma_info) (s : files * list cstring)
    : files * list cstring :=
  let '(fs, out) := s in
  let out := out ++ vma_line vi in
  if so_hash o then
    let mem := (fun m => m i) <$> se_mem se in
    let hash := rd ← mem; hash_proc_mem (se_stack se) rd (vi_start vi) (hash_size vi) in
    let '(fs, v) := scan_hash (se_stack se) (se_dir se) mem (se_writable se)
                      (so_save o) (so_check o) vi fs in
    (fs, out ++ match v with Some v => hash_lines (so_save o) vi hash v | None => [] end)
  else (fs, out).

Definition scan_summary (pid : Z) (b : ac_scan_begin) : list cstring :=
  [nl (bs "scan of pid " ++ fmt_d pid ++ bs ": " ++ fmt_d (sb_n_vmas b) ++ bs " VMA(s), "
       ++ fmt_d (sb_exec_count b) ++ bs " executable, " ++ fmt_d (sb_rwx_count b) ++ bs " RWX, "
       ++ fmt_d (sb_anon_exec_count b) ++ bs " anon-exec")]
  ++ (if negb (sb_anon_exec_count b =? 0)
      then [nl (bs "  (anon-exec = executable with no backing file; vdso/vvar are")
            ++ nl (bs "   expected here -- treat a *growing* count across repeated")
            ++ nl (bs "   scans as the signal, not the raw number)")] else [])
  ++ (if negb (sb_truncated b =? 0)
      then [nl (bs "  (VMA snapshot truncated at " ++ fmt_d (Z.of_nat AC_MAX_VMAS) ++ bs " entries)")]
      else []).

(** [check_ld_preload] and [check_vk_layer_env] with what they print. *)
Definition preload_lines (pid : Z) : list cstring :=
  match ac_read_ld_preload (se_procfs se) pid 512 with
  | (1, Some val) =>
      [nl (bs "  LD_PRELOAD check: " ++ val)
       ++ nl (bs "    (informational only -- also used by legitimate overlay/compat")
       ++ nl (bs "     tools like MangoHud, gamemode, gamescope; not a verdict)")]
  | (0, _) => [nl (bs "  LD_PRELOAD check: not set")]
  | _ => [nl (bs "  LD_PRELOAD check: could not read /proc/" ++ fmt_d pid ++ bs "/environ ("
              ++ se_strerror se ++ bs ")")]
  end.

Definition vklayer_lines (pid : Z) : list cstring :=
  let '(rc, vars) := ac_read_environ_vars (se_procfs se) pid vk_queries in
  if rc <? 0 then
    [nl (bs "  Vulkan-layer check: could not fully read /proc/" ++ fmt_d pid ++ bs "/environ ("
         ++ se_strerror se ++ bs ")")]
  else
    match List.filter q_found vars with
    | [] => [nl (bs "  Vulkan-layer check: no layer-activation environment variables set")]
    | vars =>
        ((fun q => nl (bs "  Vulkan-layer check: " ++ q_name q ++ bs "=" ++ q_value q)) <$> vars)
        ++ [nl (bs "    (informational only -- also used by legitimate overlay tools")
            ++ nl (bs "     like MangoHud; not a verdict. An implicit layer manifest")
            ++ nl (bs "     dropped into the loader's default search directories needs")
            ++ nl (bs "     no environment variable and is not detected by this check --")
            ++ nl (bs "     see --check-implicit-layers for that)")]
    end.

(** [cmd_scan]: exit status, output, baseline files and device; [None] after a
    read outside a heap block in the hook check. *)
Definition cmd_scan (argv : list cstring) (fs : files) (d : D)
    : option (Z * list cstring * files * D) :=
  let o := scan_args argv (ScanOpts (-1) false false false false false false false) in
  let pid := so_pid o in
  if pid <? 0 then Some (1, [], fs, d)
  else
    match dev_scan_begin pid 1 d with
    | (None, d) => Some (1, [], fs, d)
    | (Some b, d) =>
        let '((fs, out), d) := get_loop (scan_step o) pid (Z.to_nat (sb_n_vmas b)) 0
                                 (fs, scan_summary pid b) d in
        let d := dev_scan_end d in
        '(hooks, d) ← (if so_hooks o
                       then (let '(r, d) := check_render_hooks (se_render se) pid d in
                             '(_, lines) ← r; Some (lines, d))
                       else Some ([], d));
        Some (0,
              out ++ (hooks
                ++ (if so_preload o then preload_lines pid else [])
                ++ (if so_vklayers o then vklayer_lines pid else [])
                ++ (if so_implicit o
                    then (check_implicit_layers (se_layers se) (se_procfs se) pid).2 else [])),
              fs, d)
    end.
End scan.

(** ** main *)

(** The commands by name. *)
Inductive command :=
  | CStatus | CProtect | CUnprotect | CList | CScan | CSyscalls | CModules | CVmcheck | CEvents
  | CLock | CUnlock | CStart | CHelp | CUnknown.

#[global] Instance command_eq_dec : EqDecision command.
Proof. solve_decision. Defined.



Section main.
Context {D : Type} `{Device D}.



End main.

(** ** Numbers on the command line *)

Lemma atoi_fmt_d n : 0 <= n < 2 ^ 31 -> atoi (fmt_d n) = n.
Proof.
  intros Hn. destruct (fmt_d_numeral n ltac:(lia)) as (Hd & Hne & Hv & _).
  pose proof (digits_app (fmt_d n) [] Hd I) as Hdig. rewrite app_nil_r in Hdig.
  unfold atoi. destruct (fmt_d n) as [|b l]; [done|]. apply Forall_cons in Hd as [Hb Hd].
  pose proof (digit_not_space b Hb) as Hs.
  pose proof (skip_ws_blanks [] b l ltac:(constructor) Hs) as E. cbn [app] in E. rewrite E.
  assert (match b :: l with x2d :: l => (true, l) | x2b :: l => (false, l) | _ => (false, b :: l) end
          = (false, b :: l)) as ->.
  { clear -Hb. destruct b; try done. }
  rewrite Hdig. cbn [fst]. rewrite Hv. unfold s32. rewrite Z.max_r, Z.min_r by lia.
  rewrite Z.mod_small by lia. lia.
Qed.

(** Values beyond [int] wrap around. *)
Lemma atoi_wraps : atoi (bs "4294967396") = 100.
Proof. vm_compute. reflexivity. Qed.

(** ** Finding processes by name *)

(** Whether an entry of /proc is a process of that name. *)
Definition match_comm (comm : cstring) (e : proc_entry) : option Z :=
  match e.1 with
  | c :: _ =>
      if is_digit c && (0 <? atoi e.1) && bool_decide (e.2 ≫= entry_comm = Some (cstr comm))
      then Some (atoi e.1) else None
  | [] => None
  end.

Lemma pid_loop_spec comm max procs : forall pids,
  (length pids <= max)%nat ->
  pid_loop comm procs max pids = take max (pids ++ omap (match_comm comm) procs).
Proof.
  induction procs as [|[d_name file] procs IH]; intros pids Hl; cbn [pid_loop].
  { cbn [omap list_omap]. by rewrite app_nil_r, take_ge. }
  cbn [omap list_omap]. unfold match_comm at 1. cbn [fst snd].
  destruct d_name as [|c name]; [by apply IH|]. destruct (is_digit c && _); [|by apply IH]. cbn [andb].
  destruct (file ≫= entry_comm) as [buf|]; [|rewrite bool_decide_false by done; by apply IH].
  destruct (decide (buf = cstr comm)) as [->|Hne].
  - rewrite !bool_decide_true by done. cbn [andb].
    destruct (Nat.ltb_spec (length pids) max).
    + rewrite IH by (rewrite length_app; simpl; lia). by rewrite <- app_assoc.
    + rewrite IH by done. rewrite !take_app_le by lia. done.
  - rewrite !bool_decide_false by congruence. by apply IH.
Qed.

Section laws.
Context {D : Type} `{DeviceLaws D}.

(** The devices the successive ADD_PROC calls are made on, with their answers. *)
Fixpoint adds (pids : list Z) (jit : bool) (d : D) : list (Z * bool * D) :=
  match pids with
  | [] => []
  | pid :: pids =>
      let '(ok, d') := dev_add_proc (ProcId pid 0 (Z.b2z jit) []) d in
      (pid, ok, d) :: adds pids jit d'
  end.

Lemma protect_all_spec jit pids : forall d,
  dev_ok d ->
  let '(out, d') := protect_all pids jit d in
  dev_ok d' /\
  out = (fun a => nl (bs "protected pid " ++ fmt_d a.1.1 ++ bs " ()"))
          <$> List.filter (fun a => a.1.2) (adds pids jit d) /\
  dom (dev_prot d) ⊆ dom (dev_prot d') /\
  Forall (fun a => a.1.2 = true ->
    exists t, dev_resolve a.2 a.1.1 0 = Some t /\ t ∈ dom (dev_prot d')) (adds pids jit d).
Proof.
  induction pids as [|pid pids IH]; intros d Hd; cbn [protect_all adds].
  { split_and!; [done..|constructor]. }
  pose proof (add_proc_law (ProcId pid 0 (Z.b2z jit) []) d Hd) as Ha.
  destruct (dev_add_proc _ d) as [ok d1]. destruct Ha as [Hd1 Ha]. specialize (IH d1 Hd1).
  destruct (protect_all pids jit d1) as [out d2]. destruct IH as (Hd2 & -> & Hsub & Hall).
  split; [done|]. cbn [List.filter]. cbn [fst snd].
  destruct ok.
  - destruct Ha as (t & i & Hr & _ & Ep). rewrite Ep, dom_insert_L in Hsub.
    split; [done|]. split; [set_solver|]. constructor; [|done]. intros _. exists t.
    split; [exact Hr|set_solver].
  - destruct Ha as [Ep _]. rewrite Ep in Hsub. split; [done|]. split; [done|]. by constructor.
Qed.

(** ** Mapping lines *)

Lemma rwx_flags vi : has_flag AC_VM_EXEC vi && has_flag AC_VM_WRITE vi = is_rwx vi.
Proof.
  unfold has_flag, is_rwx, AC_VM_EXEC, AC_VM_WRITE. change (Z.lor 4 2) with 6.
  assert (E4 : Z.land (vi_flags vi) 4 = if Z.testbit (vi_flags vi) 2 then 4 else 0).
  { apply Z.bits_inj'. intros n Hn. rewrite Z.land_spec. change 4 with (2 ^ 2). rewrite Z.pow2_bits_eqb by lia.
    destruct (Z.eqb_spec 2 n) as [<-|Hne].
    - rewrite andb_true_r. destruct (Z.testbit (vi_flags vi) 2); done.
    - rewrite andb_false_r. destruct (Z.testbit (vi_flags vi) 2); [|by rewrite Z.bits_0].
      by rewrite Z.pow2_bits_false by lia. }
  assert (E2 : Z.land (vi_flags vi) 2 = if Z.testbit (vi_flags vi) 1 then 2 else 0).
  { apply Z.bits_inj'. intros n Hn. rewrite Z.land_spec. change 2 with (2 ^ 1). rewrite Z.pow2_bits_eqb by lia.
    destruct (Z.eqb_spec 1 n) as [<-|Hne].
    - rewrite andb_true_r. destruct (Z.testbit (vi_flags vi) 1); done.
    - rewrite andb_false_r. destruct (Z.testbit (vi_flags vi) 1); [|by rewrite Z.bits_0].
      by rewrite Z.pow2_bits_false by lia. }
  assert (E6 : Z.land (vi_flags vi) 6 = Z.lor (Z.land (vi_flags vi) 4) (Z.land (vi_flags vi) 2))
    by (by rewrite <- Z.land_lor_distr_r).
  rewrite E6, E4, E2. by destruct (Z.testbit (vi_flags vi) 2), (Z.testbit (vi_flags vi) 1).
Qed.

Lemma scan_steps_plain verbose se o vis : forall i fs out,
  so_hash o = false ->
  fold_vmas (scan_step verbose se o) i vis (fs, out) =
  (fs, out ++ (vis ≫= vma_line verbose)).
Proof.
  induction vis as [|vi vis IH]; intros i fs out Ho; cbn [fold_vmas].
  { cbn. by rewrite app_nil_r. }
  unfold scan_step at 2. rewrite Ho, IH by done. rewrite bind_cons, <- app_assoc. done.
Qed.

(** The two option loops on [--pid N]. *)
Lemma protect_args_pid n jit :
  0 <= n < 2 ^ 31 ->
  protect_args ([bs "--pid"; fmt_d n] ++ (if jit : bool then [bs "--jit"] else []))
    (ProtectOpts (-1) (-1) None false) = ProtectOpts n (-1) None jit.
Proof.
  intros Hn. rewrite <- (atoi_fmt_d n Hn) at 2. by destruct jit.
Qed.

Lemma pid_arg_pid n : 0 <= n < 2 ^ 31 -> pid_arg [bs "--pid"; fmt_d n] (-1) = n.
Proof. intros Hn. rewrite <- (atoi_fmt_d n Hn) at 2. done. Qed.

(** ** Every command leaves the device sound *)











(** ** Dispatch *)




Section runs.
Variables (verbose : bool) (se : scan_env) (mc : machine) (fmt_time : Z -> cstring)
  (dir : option (list proc_entry)) (proc_modules : option (list byte)) (rounds : nat) (fs : files)
  (env : cstring -> option cstring) (stack : list byte) (pr : process) (ans : list answers)
  (prog : cstring) (open : option D).
Hypothesis open_ok : forall d, open = Some d -> dev_ok d.
Hypothesis libs_ok : forall path rd, re_lib (se_render se) path = Some rd -> terminated rd.
Hypothesis answers_ok : Forall libs_terminated ans.




End runs.

(** ** Properties *)

(** C33: protecting and unprotecting by pid.  [protect --pid N [--jit]] exits
    with 0 exactly when the module took the process in, which then is protected
    with that JIT mark, nobody else's entry changing; it fails only if there is
    no such process or the 64 entries are in use.  [unprotect --pid N] then
    exits with 0 and undoes it: a process that was not protected before leaves
    the registry as it was. *)
Theorem protect_roundtrip n jit dir d :
  dev_ok d -> 0 <= n < 2 ^ 31 ->
  let r := cmd_protect ([bs "--pid"; fmt_d n] ++ (if jit : bool then [bs "--jit"] else [])) dir d in
  dev_ok (oc_dev r) /\
  ((oc_exit r = 0 /\
    exists t i, dev_resolve d n (-1) = Some t /\ in_jit i = jit /\
      dev_prot (oc_dev r) = <[t := i]> (dev_prot d) /\
      (dev_resolve (oc_dev r) n 0 = Some t -> dev_prot d !! t = None ->
       let u := cmd_unprotect [bs "--pid"; fmt_d n] (oc_dev r) in
       oc_exit u = 0 /\ dev_prot (oc_dev u) = dev_prot d)) \/
   (oc_exit r = 1 /\ dev_prot (oc_dev r) = dev_prot d /\
    (dev_resolve d n (-1) = None \/ size (dev_prot d) = AC_PROT_MAX))).
Proof.
  intros Hd Hn. unfold cmd_protect. rewrite protect_args_pid by done.
  cbn [po_pid po_ref po_comm po_jit]. rewrite bool_decide_false by (intros [? ?]; done).
  rewrite (proj2 (Z.ltb_ge n 0)) by lia. cbn [andb negb Z.leb Z.compare].
  pose proof (add_proc_law (ProcId n (-1) (Z.b2z jit) []) d Hd) as Ha.
  destruct (dev_add_proc _ d) as [ok d1]. destruct Ha as [Hd1 Ha].
  destruct ok; cbn [oc_exit oc_dev]; split; try exact Hd1; [left|right].
  - destruct Ha as (t & i & Hr & Hj & Ep). split; [done|]. exists t, i.
    split; [exact Hr|]. split; [rewrite Hj; by destruct jit|]. split; [exact Ep|].
    intros Hr2 Hnone. unfold cmd_unprotect. rewrite pid_arg_pid by done.
    rewrite (proj2 (Z.ltb_ge n 0)) by lia.
    pose proof (del_proc_law (ProcId n 0 0 []) d1 Hd1) as Hu. cbn [pi_pid] in Hu. rewrite Hr2 in Hu.
    destruct (dev_del_proc _ d1) as [ok d2]. destruct Hu as (_ & -> & Hp). cbn [oc_exit oc_dev].
    split; [done|]. rewrite Hp, Ep. by rewrite delete_insert_id.
  - destruct Ha as [Ep Hw]. split; [done|]. split; [exact Ep|]. cbn [pi_pid pi_ref_pid] in Hw.
    destruct (dev_resolve d n (-1)); [right; apply Hw|by left].
Qed.

(** Protecting by name.  [protect --comm NAME] considers exactly the
    processes of /proc whose name, without trailing blanks, is NAME, the first
    256 in directory order.  Without any, or if /proc does not open, it exits
    with 1 and does nothing; otherwise it asks the module for each of them once, prints a line for
    exactly those taken in, all of which are protected in the end, nobody
    protected before is dropped, and it exits with 0. *)
Theorem protect_comm_exact comm dir d :
  dev_ok d ->
  let pids := take 256 (omap (match_comm comm) (default [] dir)) in
  let r := cmd_protect [bs "--comm"; comm] dir d in
  dev_ok (oc_dev r) /\
  if bool_decide (pids = []) then oc_exit r = 1 /\ oc_out r = [] /\ oc_dev r = d
  else
    oc_exit r = 0 /\ dom (dev_prot d) ⊆ dom (dev_prot (oc_dev r)) /\
    oc_out r = ((fun a => nl (bs "protected pid " ++ fmt_d a.1.1 ++ bs " ()"))
                 <$> List.filter (fun a => a.1.2) (adds pids false d))
               ++ [nl (fmt_d (Z.of_nat (length pids)) ++ bs " process(es) protected")] /\
    (adds pids false d).*1.*1 = pids /\
    Forall (fun a => a.1.2 = true ->
      exists t, dev_resolve a.2 a.1.1 0 = Some t /\ t ∈ dom (dev_prot (oc_dev r)))
      (adds pids false d).
Proof.
  intros Hd pids. unfold cmd_protect.
  change (protect_args [bs "--comm"; comm] (ProtectOpts (-1) (-1) None false))
    with (ProtectOpts (-1) (-1) (Some comm) false).
  cbn [po_pid po_ref po_comm po_jit Z.ltb Z.leb Z.compare andb].
  rewrite bool_decide_true by (by eexists). cbn [negb andb].
  assert (Ed : match pid_of_comm comm dir 256 with
               | None | Some [] => Outcome 1 [] d
               | Some l => let '(out, d) := protect_all l false d in
                   Outcome 0 (out ++ [nl (fmt_d (Z.of_nat (length l)) ++ bs " process(es) protected")]) d
               end =
               match pids with
               | [] => Outcome 1 [] d
               | l => let '(out, d) := protect_all l false d in
                   Outcome 0 (out ++ [nl (fmt_d (Z.of_nat (length l)) ++ bs " process(es) protected")]) d
               end).
  { unfold pid_of_comm. destruct dir as [procs|]; [|done]. cbn [fmap option_fmap option_map].
    by rewrite pid_loop_spec by (simpl; lia). }
  rewrite Ed. clear Ed.
  set (r := match pids with [] => _ | _ => _ end). clearbody pids. assert (Hids : forall d, (adds pids false d).*1.*1 = pids).
  { clear. induction pids as [|p pids IH]; intros d; [done|]. cbn [adds].
    destruct (dev_add_proc _ d) as [ok d1]. cbn. f_equal. apply IH. }
  case_bool_decide as Hp; [subst pids; done|].
  assert (Er : r = let '(out, d) := protect_all pids false d in
    Outcome 0 (out ++ [nl (fmt_d (Z.of_nat (length pids)) ++ bs " process(es) protected")]) d)
    by (subst r; by destruct pids).
  pose proof (protect_all_spec false pids d Hd) as Hs. destruct (protect_all pids false d) as [out d'].
  rewrite Er. cbn [oc_exit oc_out oc_dev]. destruct Hs as (Hd' & -> & Hsub & Hall).
  split; [exact Hd'|]. split; [done|]. split; [done|]. split; [done|]. split; [apply Hids|exact Hall].
Qed.

(** A scan prints what is there.  [scan --pid N] of a process that can be
    scanned prints the summary with the module's counts and then, for every
    mapping of the snapshot in order, the line of its kind; the number of RWX
    mappings of the snapshot is the RWX count of the summary, and each of them
    has its line.  It exits with 0, and with 1 if the scan fails. *)
Theorem scan_lines_exact verbose se n fs d :
  dev_ok d -> 0 <= n < 2 ^ 31 ->
  match dev_scan_begin n 1 d with
  | (None, _) => exists d', cmd_scan verbose se [bs "--pid"; fmt_d n] fs d = Some (1, [], fs, d')
  | (Some b, d1) =>
      exists d', dev_ok d' /\
        cmd_scan verbose se [bs "--pid"; fmt_d n] fs d =
          Some (0, scan_summary n b ++ (dev_vmas d1 ≫= vma_line verbose), fs, d') /\
        sb_rwx_count b = Z.of_nat (length (List.filter is_rwx (dev_vmas d1))) /\
        forall vi, vi ∈ dev_vmas d1 -> is_rwx vi = true ->
          vma_line verbose vi = [nl (bs "  [!] RWX" ++ vma_range vi ++ bs " " ++ vma_name vi)]
  end.
Proof.
  intros Hd Hn. pose proof (scan_begin_law n 1 d Hd) as Hb. unfold cmd_scan.
  assert (Ea : scan_args [bs "--pid"; fmt_d n] (ScanOpts (-1) false false false false false false false) =
               ScanOpts n false false false false false false false)
    by (rewrite <- (atoi_fmt_d n Hn) at 2; done).
  rewrite Ea. cbn [so_pid so_hooks so_preload so_vklayers so_implicit].
  rewrite (proj2 (Z.ltb_ge n 0)) by lia.
  destruct (dev_scan_begin n 1 d) as [[b|] d1]; [|by exists d1]. destruct Hb as [Hd1 Hb].
  destruct (Hb b eq_refl) as (En & Er & _). rewrite En, Nat2Z.id.
  pose proof (get_loop_spec (scan_step verbose se (ScanOpts n false false false false false false false)) n
    (fs, scan_summary n b) d1 Hd1) as Hg.
  destruct (get_loop _ _ _ _ _ _) as [[fs' out] d2]. destruct Hg as (Hd2 & _ & Eo).
  rewrite scan_steps_plain in Eo by done. apply pair_equal_spec in Eo as [-> ->].
  exists (dev_scan_end d2). split; [by apply scan_end_law|]. split.
  - cbn [mbind option_bind app]. by rewrite app_nil_r.
  - split; [exact Er|]. intros vi _ Hr. unfold vma_line. by rewrite rwx_flags, Hr.
Qed.

End laws.

(** ** Example: the game of the other files, by pid and by name *)

Lemma protect_roundtrip_witness :
  let r := cmd_protect [bs "--pid"; fmt_d 100; bs "--jit"] (Some []) idle_device in
  oc_exit r = 0 /\ dev_ok (oc_dev r).
Proof.
  destruct (protect_roundtrip 100 true (Some []) idle_device idle_device_ok ltac:(lia)) as [Hd [[He _]|[He _]]].
  - split; [exact He|exact Hd].
  - exfalso. vm_compute in He. discriminate.
Defined.

Definition game_procs : list proc_entry :=
  [(bs "self", None); (bs "7", Some (bs "init" ++ [x0a])); (bs "100", Some (bs "game" ++ [x0a]))].

Lemma protect_comm_exact_witness :
  let r := cmd_protect [bs "--comm"; bs "game"] (Some game_procs) idle_device in
  oc_exit r = 0 /\
  oc_out r = [nl (bs "protected pid 100 ()"); nl (bs "1 process(es) protected")].
Proof.
  pose proof (protect_comm_exact (bs "game") (Some game_procs) idle_device idle_device_ok) as H.
  assert (Ep : take 256 (omap (match_comm (bs "game")) (default [] (Some game_procs))) = [100]) by (vm_compute; reflexivity).
  cbv zeta in H. rewrite Ep in H. rewrite bool_decide_false in H by done.
  destruct H as (_ & He & _ & Ho & _). split; [exact He|]. cbv zeta. rewrite Ho. vm_compute. reflexivity.
Defined.

Definition scan_example : scan_env :=
  ScanEnv [] zero_stack AC_BASELINE_DIR None (fun _ => false) preload_fs layers_fs gl_env.

Lemma scan_lines_exact_witness :
  exists out d', cmd_scan false scan_example [bs "--pid"; fmt_d 100] wrong_baseline watched_device
    = Some (0, out, wrong_baseline, d') /\ length out = 4%nat.
Proof.
  pose proof (scan_lines_exact false scan_example 100 wrong_baseline watched_device watched_device_ok
    ltac:(lia)) as H.
  destruct (dev_scan_begin 100 1 watched_device) as [[b|] d1] eqn:E;
    [|exfalso; vm_compute in E; discriminate].
  destruct H as (d' & _ & Hs & _). eexists _, d'. split; [exact Hs|].
  vm_compute in E. injection E as <- <-. vm_compute. reflexivity.
Defined.

